(** * The game state transition engine of huntercore (src/game/state.cpp)

    A shallow embedding of the per-block step function [PerformStep] and of
    the helpers it is built from, followed by the properties the design
    document states about them.

    Conventions of the embedding.

    - [CAmount] (a signed 64-bit integer counting base coin units) and C++
      [int] are embedded as [Z].  Consensus amounts stay far below 2^63, and
      signed overflow has no defined behaviour in C++, so arithmetic is the
      arithmetic of [Z]; C++ [/] and [%] are [Z.quot] and [Z.rem].  The one
      place where the source converts a signed height to [unsigned]
      ([GetNameCoinAmount]) has its wrap-around written out.
    - [std::map] and [std::set] are association lists and lists kept in key
      order, because the order in which the engine walks them is part of
      consensus: it fixes the order of the draws from the random generator
      and the order of the bounties.
    - A function that contains [assert] returns an [option]: [None] is the
      halted process.  [PerformStep] itself answers with a [StepOutcome].
    - Declarations that live outside the three translated sources are the
      fields of classes: the fork gate ([ForkGate]), the random generator
      ([Random]), the tables of the map ([GameMap]) and the constants and
      macros of the header ([Header]).  Move validation and application and
      the AI passes of state.cpp, which no property below reads, are the
      fields of [Passes]. *)

From Stdlib Require Import ZArith List String Bool Lia FinFun.
From Stdlib Require OrderedTypeEx.
Import ListNotations.
Open Scope Z_scope.

Set Implicit Arguments.

(** ** Small-step helpers for halting code *)

Definition bind {A B : Type} (c : option A) (k : A -> option B) : option B :=
  match c with
  | Some a => k a
  | None => None
  end.

Definition cpp_assert (b : bool) : option unit := if b then Some tt else None.

Notation "x <- c ;; k" := (bind c (fun x => k))
  (at level 61, c at next level, right associativity).
Notation "' pat <- c ;; k" := (bind c (fun x => match x with pat => k end))
  (at level 61, pat pattern, c at next level, right associativity).
Notation "'ensure' b ;; k" := (bind (cpp_assert b) (fun _ => k))
  (at level 61, b at next level, right associativity).

(** A loop [for (x : xs) body] over a state that may halt. *)
Fixpoint foreach {A S : Type} (xs : list A) (body : A -> S -> option S) (s : S)
  : option S :=
  match xs with
  | [] => Some s
  | x :: xs' => s' <- body x s ;; foreach xs' body s'
  end.

(** ** Keys of ordered containers *)

Class KeyOps (K : Type) := {
  keqb : K -> K -> bool;
  kltb : K -> K -> bool
}.

(** [std::string] compares bytewise, as [String.ltb] does. *)
#[export] Instance string_key : KeyOps string :=
  {| keqb := String.eqb; kltb := String.ltb |}.

#[export] Instance Z_key : KeyOps Z :=
  {| keqb := Z.eqb; kltb := Z.ltb |}.

(** The law the containers rely on: the equality test of the keys decides
    equality. *)
Class KeyLaws (K : Type) `{KeyOps K} : Prop := {
  keqb_eq : forall a b : K, keqb a b = true <-> a = b
}.

Arguments KeyLaws K {_}.

(** ** [std::map], [std::multimap] and [std::set] as ordered lists *)

Module StdMap.
Section Ops.
Context {K V : Type} `{KeyOps K}.

Fixpoint find (k : K) (m : list (K * V)) : option V :=
  match m with
  | [] => None
  | (k', v) :: m' => if keqb k k' then Some v else find k m'
  end.

Definition count (k : K) (m : list (K * V)) : Z :=
  match find k m with Some _ => 1 | None => 0 end.

(** Position of a new entry: before the first key greater than [k], hence
    after every entry with an equal key (the rule of [std::multimap]). *)
Fixpoint place (k : K) (v : V) (m : list (K * V)) : list (K * V) :=
  match m with
  | [] => [(k, v)]
  | (k', v') :: m' =>
      if kltb k k' then (k, v) :: m else (k', v') :: place k v m'
  end.

(** [std::map::insert]: an existing key keeps its value. *)
Definition insert (k : K) (v : V) (m : list (K * V)) : list (K * V) :=
  match find k m with
  | Some _ => m
  | None => place k v m
  end.

(** Assignment through an iterator or a reference to an existing entry. *)
Fixpoint assign (k : K) (v : V) (m : list (K * V)) : list (K * V) :=
  match m with
  | [] => []
  | (k', v') :: m' =>
      if keqb k k' then (k', v) :: m' else (k', v') :: assign k v m'
  end.

Definition erase (k : K) (m : list (K * V)) : list (K * V) :=
  filter (fun kv => negb (keqb k (fst kv))) m.

Definition keys (m : list (K * V)) : list K := map fst m.

(** [m[k]]: the value under [k], after a default entry was made for a
    missing key; the second component is the map after the access. *)
Definition subscript (k : K) (default : V) (m : list (K * V))
  : V * list (K * V) :=
  match find k m with
  | Some v => (v, m)
  | None => (default, place k default m)
  end.

End Ops.
End StdMap.

Module StdSet.
Section Ops.
Context {K : Type} `{KeyOps K}.

Definition mem (k : K) (s : list K) : bool := existsb (keqb k) s.

Fixpoint place (k : K) (s : list K) : list K :=
  match s with
  | [] => [k]
  | k' :: s' => if kltb k k' then k :: s else k' :: place k s'
  end.

Definition insert (k : K) (s : list K) : list K :=
  if mem k s then s else place k s.

Definition erase (k : K) (s : list K) : list K :=
  filter (fun k' => negb (keqb k k')) s.

End Ops.
End StdSet.

(** ** Data model *)

Definition CAmount := Z.
Definition COIN : CAmount := 100000000.

(** 256-bit hashes; the null hash is 0. *)
Definition uint256 := Z.
Definition IsNull (h : uint256) : bool := h =? 0.

Definition to_unsigned (n : Z) : Z := n mod 2 ^ 32.

Record Coord := mkCoord { cx : Z; cy : Z }.

Definition Coord_eqb (a b : Coord) : bool :=
  (cx a =? cx b) && (cy a =? cy b).

Definition PlayerID := string.

Record CharacterID := mkChid { player : PlayerID; index : Z }.

Definition CharacterID_eqb (a b : CharacterID) : bool :=
  String.eqb (player a) (player b) && (index a =? index b).

(** Modelled from the spec: the comparison of [CharacterID] is declared in
    game/state.h, which is not among the sources; the data model calls the
    id a pair (PlayerId, index), ordered here as a pair. *)
Definition CharacterID_ltb (a b : CharacterID) : bool :=
  String.ltb (player a) (player b)
  || (String.eqb (player a) (player b) && (index a <? index b)).

(** The default [CharacterID ()] used for "nobody". *)
Definition no_character : CharacterID := mkChid EmptyString 0.

(** Modelled from the spec: [LootInfo] and [CollectedLootInfo] are declared in
    game/state.h, which is not among the sources.  A loot record is an amount
    with an informational block range; a collected loot record is a loot
    record (C++ inheritance, here the field [info]) plus the block range of
    the collection, which reads -1 while nothing was collected. *)
Record LootInfo := mkLoot {
  nAmount : CAmount;
  firstBlock : Z;
  lastBlock : Z
}.

Record CollectedLootInfo := mkCollected {
  info : LootInfo;
  collectedFirstBlock : Z;
  collectedLastBlock : Z
}.

(** [LootInfo (nAmount, nHeight)] and the default [CollectedLootInfo ()]. *)
Definition LootInfo_at (amount : CAmount) (nHeight : Z) : LootInfo :=
  mkLoot amount nHeight nHeight.

Definition CollectedLootInfo_empty : CollectedLootInfo :=
  mkCollected (mkLoot 0 (-1) (-1)) (-1) (-1).

(** Modelled from the spec: [CollectedLootInfo::Collect] adds the amount and
    widens the two block ranges. *)
Definition Collect (l : CollectedLootInfo) (newLoot : LootInfo) (nHeight : Z)
  : CollectedLootInfo :=
  mkCollected
    (mkLoot
       (nAmount (info l) + nAmount newLoot)
       (if (firstBlock (info l) <? 0)
           || (firstBlock newLoot <? firstBlock (info l))
        then firstBlock newLoot else firstBlock (info l))
       (if lastBlock (info l) <? lastBlock newLoot
        then lastBlock newLoot else lastBlock (info l)))
    (if collectedFirstBlock l <? 0 then nHeight else collectedFirstBlock l)
    nHeight.

(** Modelled from the spec: [CollectedLootInfo::SetRefund] turns the empty
    record into the refund of a locked amount. *)
Definition SetRefund (refundAmount : CAmount) (nHeight : Z) : CollectedLootInfo :=
  mkCollected (mkLoot refundAmount (-1) (-1)) (-1) nHeight.

(** Assignment to [loot.nAmount]. *)
Definition set_nAmount (l : CollectedLootInfo) (a : CAmount) : CollectedLootInfo :=
  mkCollected (mkLoot a (firstBlock (info l)) (lastBlock (info l)))
    (collectedFirstBlock l) (collectedLastBlock l).

(** The attributes of a character that the code below reads. *)
Record CharacterState := mkCharacter {
  coord : Coord;
  loot : CollectedLootInfo;
  stay_in_spawn_area : Z;
  ai_npc_role : Z;
  ai_state2 : Z;
  aux_last_sale_block : Z
}.

Definition set_loot (ch : CharacterState) (l : CollectedLootInfo) : CharacterState :=
  mkCharacter (coord ch) l (stay_in_spawn_area ch) (ai_npc_role ch)
    (ai_state2 ch) (aux_last_sale_block ch).

Definition set_coord (ch : CharacterState) (c : Coord) : CharacterState :=
  mkCharacter c (loot ch) (stay_in_spawn_area ch) (ai_npc_role ch)
    (ai_state2 ch) (aux_last_sale_block ch).

Record PlayerState := mkPlayer {
  color : Z;
  value : CAmount;
  lockedCoins : CAmount;
  remainingLife : Z;
  address : string;
  characters : list (Z * CharacterState);
  next_character_index : Z
}.

Definition set_value (p : PlayerState) (v : CAmount) : PlayerState :=
  mkPlayer (color p) v (lockedCoins p) (remainingLife p) (address p)
    (characters p) (next_character_index p).

Definition set_lockedCoins (p : PlayerState) (v : CAmount) : PlayerState :=
  mkPlayer (color p) (value p) v (remainingLife p) (address p)
    (characters p) (next_character_index p).

Definition set_remainingLife (p : PlayerState) (n : Z) : PlayerState :=
  mkPlayer (color p) (value p) (lockedCoins p) n (address p)
    (characters p) (next_character_index p).

Definition set_color (p : PlayerState) (c : Z) : PlayerState :=
  mkPlayer c (value p) (lockedCoins p) (remainingLife p) (address p)
    (characters p) (next_character_index p).

Definition set_characters (p : PlayerState) (cs : list (Z * CharacterState))
  : PlayerState :=
  mkPlayer (color p) (value p) (lockedCoins p) (remainingLife p) (address p)
    cs (next_character_index p).

Definition set_next_character_index (p : PlayerState) (n : Z) : PlayerState :=
  mkPlayer (color p) (value p) (lockedCoins p) (remainingLife p) (address p)
    (characters p) n.

Record GameState := mkGame {
  nHeight : Z;
  nDisasterHeight : Z;
  hashBlock : uint256;
  players : list (PlayerID * PlayerState);
  dead_players_chat : list (PlayerID * PlayerState);
  lootOnMap : list (Coord * LootInfo);
  hearts : list Coord;
  banks : list (Coord * Z);
  crownPos : Coord;
  crownHolder : CharacterID;
  gameFund : CAmount;
  dao_MinVersion : Z;
  dao_DlevelMax : Z;
  dao_IntervalMonsterApocalypse : Z;
  dcpoint_height1 : Z;
  dcpoint_height2 : Z;
  dcpoint_hash1 : uint256;
  dcpoint_hash2 : uint256
}.

Definition set_players (s : GameState) (ps : list (PlayerID * PlayerState))
  : GameState :=
  mkGame (nHeight s) (nDisasterHeight s) (hashBlock s) ps (dead_players_chat s)
    (lootOnMap s) (hearts s) (banks s) (crownPos s) (crownHolder s) (gameFund s)
    (dao_MinVersion s) (dao_DlevelMax s) (dao_IntervalMonsterApocalypse s)
    (dcpoint_height1 s) (dcpoint_height2 s) (dcpoint_hash1 s) (dcpoint_hash2 s).

Definition set_lootOnMap (s : GameState) (l : list (Coord * LootInfo))
  : GameState :=
  mkGame (nHeight s) (nDisasterHeight s) (hashBlock s) (players s)
    (dead_players_chat s) l (hearts s) (banks s) (crownPos s) (crownHolder s)
    (gameFund s) (dao_MinVersion s) (dao_DlevelMax s)
    (dao_IntervalMonsterApocalypse s)
    (dcpoint_height1 s) (dcpoint_height2 s) (dcpoint_hash1 s) (dcpoint_hash2 s).

Definition set_gameFund (s : GameState) (f : CAmount) : GameState :=
  mkGame (nHeight s) (nDisasterHeight s) (hashBlock s) (players s)
    (dead_players_chat s) (lootOnMap s) (hearts s) (banks s) (crownPos s)
    (crownHolder s) f (dao_MinVersion s) (dao_DlevelMax s)
    (dao_IntervalMonsterApocalypse s)
    (dcpoint_height1 s) (dcpoint_height2 s) (dcpoint_hash1 s) (dcpoint_hash2 s).

Definition set_hearts (s : GameState) (h : list Coord) : GameState :=
  mkGame (nHeight s) (nDisasterHeight s) (hashBlock s) (players s)
    (dead_players_chat s) (lootOnMap s) h (banks s) (crownPos s)
    (crownHolder s) (gameFund s) (dao_MinVersion s) (dao_DlevelMax s)
    (dao_IntervalMonsterApocalypse s)
    (dcpoint_height1 s) (dcpoint_height2 s) (dcpoint_hash1 s) (dcpoint_hash2 s).

Definition set_banks (s : GameState) (b : list (Coord * Z)) : GameState :=
  mkGame (nHeight s) (nDisasterHeight s) (hashBlock s) (players s)
    (dead_players_chat s) (lootOnMap s) (hearts s) b (crownPos s)
    (crownHolder s) (gameFund s) (dao_MinVersion s) (dao_DlevelMax s)
    (dao_IntervalMonsterApocalypse s)
    (dcpoint_height1 s) (dcpoint_height2 s) (dcpoint_hash1 s) (dcpoint_hash2 s).

Definition set_nDisasterHeight (s : GameState) (h : Z) : GameState :=
  mkGame (nHeight s) h (hashBlock s) (players s)
    (dead_players_chat s) (lootOnMap s) (hearts s) (banks s) (crownPos s)
    (crownHolder s) (gameFund s) (dao_MinVersion s) (dao_DlevelMax s)
    (dao_IntervalMonsterApocalypse s)
    (dcpoint_height1 s) (dcpoint_height2 s) (dcpoint_hash1 s) (dcpoint_hash2 s).

Definition set_crown (s : GameState) (pos : Coord) (holder : CharacterID)
  : GameState :=
  mkGame (nHeight s) (nDisasterHeight s) (hashBlock s) (players s)
    (dead_players_chat s) (lootOnMap s) (hearts s) (banks s) pos holder
    (gameFund s) (dao_MinVersion s) (dao_DlevelMax s)
    (dao_IntervalMonsterApocalypse s)
    (dcpoint_height1 s) (dcpoint_height2 s) (dcpoint_hash1 s) (dcpoint_hash2 s).

Definition set_dead_players_chat (s : GameState)
  (d : list (PlayerID * PlayerState)) : GameState :=
  mkGame (nHeight s) (nDisasterHeight s) (hashBlock s) (players s) d
    (lootOnMap s) (hearts s) (banks s) (crownPos s) (crownHolder s)
    (gameFund s) (dao_MinVersion s) (dao_DlevelMax s)
    (dao_IntervalMonsterApocalypse s)
    (dcpoint_height1 s) (dcpoint_height2 s) (dcpoint_hash1 s) (dcpoint_hash2 s).

Definition set_block (s : GameState) (height : Z) (hash : uint256) : GameState :=
  mkGame height (nDisasterHeight s) hash (players s) (dead_players_chat s)
    (lootOnMap s) (hearts s) (banks s) (crownPos s) (crownHolder s)
    (gameFund s) (dao_MinVersion s) (dao_DlevelMax s)
    (dao_IntervalMonsterApocalypse s)
    (dcpoint_height1 s) (dcpoint_height2 s) (dcpoint_hash1 s) (dcpoint_hash2 s).

Definition set_dao_IntervalMonsterApocalypse (s : GameState) (n : Z) : GameState :=
  mkGame (nHeight s) (nDisasterHeight s) (hashBlock s) (players s)
    (dead_players_chat s) (lootOnMap s) (hearts s) (banks s) (crownPos s)
    (crownHolder s) (gameFund s) (dao_MinVersion s) (dao_DlevelMax s) n
    (dcpoint_height1 s) (dcpoint_height2 s) (dcpoint_hash1 s) (dcpoint_hash2 s).

Definition set_dcpoint1 (s : GameState) (height : Z) (hash : uint256) : GameState :=
  mkGame (nHeight s) (nDisasterHeight s) (hashBlock s) (players s)
    (dead_players_chat s) (lootOnMap s) (hearts s) (banks s) (crownPos s)
    (crownHolder s) (gameFund s) (dao_MinVersion s) (dao_DlevelMax s)
    (dao_IntervalMonsterApocalypse s)
    height (dcpoint_height2 s) hash (dcpoint_hash2 s).

Definition set_dcpoint2 (s : GameState) (height : Z) (hash : uint256) : GameState :=
  mkGame (nHeight s) (nDisasterHeight s) (hashBlock s) (players s)
    (dead_players_chat s) (lootOnMap s) (hearts s) (banks s) (crownPos s)
    (crownHolder s) (gameFund s) (dao_MinVersion s) (dao_DlevelMax s)
    (dao_IntervalMonsterApocalypse s)
    (dcpoint_height1 s) height (dcpoint_hash1 s) hash.

(** Named rule changes, each with an activation height per network. *)
Inductive Fork :=
  | FORK_POISON
  | FORK_CARRYINGCAP
  | FORK_LESSHEARTS
  | FORK_LIFESTEAL
  | FORK_TIMESAVE.

(** Modelled from the spec: [KilledByInfo] (cause and attacker),
    [CollectedBounty] and [StepResult] are declared in game/state.h. *)
Inductive Reason := KILLED_DESTRUCT | KILLED_SPAWN | KILLED_POISON.

Definition Reason_eqb (a b : Reason) : bool :=
  match a, b with
  | KILLED_DESTRUCT, KILLED_DESTRUCT
  | KILLED_SPAWN, KILLED_SPAWN
  | KILLED_POISON, KILLED_POISON => true
  | _, _ => false
  end.

Record KilledByInfo := mkKilledBy { reason : Reason; killer : CharacterID }.

(** The two constructors: [KilledByInfo (Reason)] and
    [KilledByInfo (const CharacterID&)]. *)
Definition KilledBy_reason (why : Reason) : KilledByInfo :=
  mkKilledBy why no_character.

Definition KilledBy_character (ch : CharacterID) : KilledByInfo :=
  mkKilledBy KILLED_DESTRUCT ch.

Record CollectedBounty := mkBounty {
  b_character : CharacterID;
  b_loot : CollectedLootInfo;
  b_address : string
}.

Record StepResult := mkResult {
  killedPlayers : list PlayerID;
  killedBy : list (PlayerID * KilledByInfo);
  bounties : list CollectedBounty;
  nTaxAmount : CAmount
}.

Definition StepResult_empty : StepResult := mkResult [] [] [] 0.

(** Modelled from the spec: [StepResult::KillPlayer] records the victim in
    the set of killed players and the cause in the multimap [killedBy]. *)
Definition KillPlayer (victim : PlayerID) (k : KilledByInfo) (step : StepResult)
  : StepResult :=
  mkResult (StdSet.insert victim (killedPlayers step))
           (StdMap.place victim k (killedBy step))
           (bounties step) (nTaxAmount step).

Definition push_bounty (b : CollectedBounty) (step : StepResult) : StepResult :=
  mkResult (killedPlayers step) (killedBy step) (bounties step ++ [b])
           (nTaxAmount step).

Definition add_tax (t : CAmount) (step : StepResult) : StepResult :=
  mkResult (killedPlayers step) (killedBy step) (bounties step)
           (nTaxAmount step + t).

Definition set_bounties (step : StepResult) (bs : list CollectedBounty)
  : StepResult :=
  mkResult (killedPlayers step) (killedBy step) bs (nTaxAmount step).

(** Modelled from the spec: [Move] is declared in game/move.h.  The engine
    reads the player, the new locked amount, the destruct list and whether
    the move is a spawn; everything else a move carries (waypoints, address
    and message updates) is the opaque [m_ext]. *)
Record Move (MoveExt : Type) := mkMove {
  m_player : PlayerID;
  m_newLocked : CAmount;
  m_destruct : list Z;
  m_IsSpawn : bool;
  m_ext : MoveExt
}.

Record StepData (MoveExt : Type) := mkStepData {
  newHash : uint256;
  vMoves : list (Move MoveExt);
  nTreasureAmount : CAmount
}.

(** ** The file-level caches of state.cpp

    Arrays are total functions on the index. *)

Definition upd {A : Type} (f : Z -> A) (i : Z) (v : A) : Z -> A :=
  fun j => if j =? i then v else f j.

Record DungeonCache := mkDungeon {
  Cache_gamecache_good : bool;
  Cache_gameround_duration : Z;
  Cache_gameround_blockcount : Z;
  Cache_gameround_start : Z;
  Cache_timeslot_duration : Z;
  Cache_timeslot_blockcount : Z;
  Cache_timeslot_start : Z;
  nCalculatedActiveDlevel : Z
}.

Record CheckpointCache := mkCheckpoint {
  Gamecache_dyncheckpointheight1 : Z;
  Gamecache_dyncheckpointheight2 : Z;
  Gamecache_dyncheckpointhash1 : uint256;
  Gamecache_dyncheckpointhash2 : uint256
}.

Record MerchantCache := mkMerchants {
  Merchant_exists : Z -> bool;
  Merchant_sats_received : Z -> Z;
  Merchant_last_sale : Z -> Z;
  Rpgcache_MOf : Z;
  Rpgcache_MOf_discount : Z;
  AI_dbg_allow_payments : bool
}.

Record Cache := mkCache {
  Cache_min_version : Z;
  merchants : MerchantCache;
  Huntermsg_idx_destruct : Z;
  Huntermsg_destruct : Z -> string;
  dungeon : DungeonCache;
  checkpoints : CheckpointCache;
  AI_rng_seed_hashblock : uint256;
  Displaycache_blockheight : Z
}.

Definition set_Cache_min_version (c : Cache) (v : Z) : Cache :=
  mkCache v (merchants c) (Huntermsg_idx_destruct c) (Huntermsg_destruct c)
    (dungeon c) (checkpoints c) (AI_rng_seed_hashblock c)
    (Displaycache_blockheight c).

Definition set_merchants (c : Cache) (m : MerchantCache) : Cache :=
  mkCache (Cache_min_version c) m (Huntermsg_idx_destruct c)
    (Huntermsg_destruct c) (dungeon c) (checkpoints c)
    (AI_rng_seed_hashblock c) (Displaycache_blockheight c).

Definition set_Huntermsg (c : Cache) (idx : Z) (msgs : Z -> string) : Cache :=
  mkCache (Cache_min_version c) (merchants c) idx msgs (dungeon c)
    (checkpoints c) (AI_rng_seed_hashblock c) (Displaycache_blockheight c).

Definition set_dungeon (c : Cache) (d : DungeonCache) : Cache :=
  mkCache (Cache_min_version c) (merchants c) (Huntermsg_idx_destruct c)
    (Huntermsg_destruct c) d (checkpoints c) (AI_rng_seed_hashblock c)
    (Displaycache_blockheight c).

Definition set_checkpoints (c : Cache) (k : CheckpointCache) : Cache :=
  mkCache (Cache_min_version c) (merchants c) (Huntermsg_idx_destruct c)
    (Huntermsg_destruct c) (dungeon c) k (AI_rng_seed_hashblock c)
    (Displaycache_blockheight c).

Definition set_AI_rng_seed_hashblock (c : Cache) (h : uint256) : Cache :=
  mkCache (Cache_min_version c) (merchants c) (Huntermsg_idx_destruct c)
    (Huntermsg_destruct c) (dungeon c) (checkpoints c) h
    (Displaycache_blockheight c).

Definition set_Displaycache_blockheight (c : Cache) (h : Z) : Cache :=
  mkCache (Cache_min_version c) (merchants c) (Huntermsg_idx_destruct c)
    (Huntermsg_destruct c) (dungeon c) (checkpoints c)
    (AI_rng_seed_hashblock c) h.

(** The world one step works on: the consensus state, the caches above, and
    [ext], everything else the AI passes keep (waypoints, item slots, DAO
    round, distance tables, message caches). *)
Record World (Ext : Type) := mkWorld {
  state : GameState;
  cache : Cache;
  ext : Ext
}.

Definition set_state {Ext : Type} (w : World Ext) (s : GameState) : World Ext :=
  mkWorld s (cache w) (ext w).

Definition set_cache {Ext : Type} (w : World Ext) (c : Cache) : World Ext :=
  mkWorld (state w) c (ext w).

Definition set_ext {Ext : Type} (w : World Ext) (e : Ext) : World Ext :=
  mkWorld (state w) (cache w) e.

(** ** Declarations outside the translated sources

    The fork gate of the consensus parameters. *)
Class ForkGate := {
  ForkInEffect : Fork -> Z -> bool;
  IsForkHeight : Fork -> Z -> bool;
  TestingRules : bool
}.

(** The random generator seeded from a block hash.  [GetIntRnd rnd n] is one
    draw from [0, n) together with the advanced generator. *)
Class Random := {
  RandomGenerator : Type;
  RandomGenerator_new : uint256 -> RandomGenerator;
  GetIntRnd : RandomGenerator -> Z -> Z * RandomGenerator
}.

(** The tables of game/map.h. Two-dimensional tables take the row first, as
    in [SpawnMap[y][x]]; [SpawnMap_PLAYER y x] is the test
    [SpawnMap[y][x] & SPAWNMAPFLAG_PLAYER].  [walkableTiles] and
    [walkableTiles_ts_banks] are the vectors as [FillWalkableTiles] leaves
    them.  [Coord_ltb] is [Coord::operator<].  [Distance_To_POI] is the
    table of state.cpp that the start-up code fills. *)
Class GameMap := {
  MAP_WIDTH : Z;
  MAP_HEIGHT : Z;
  Coord_ltb : Coord -> Coord -> bool;
  IsInsideMap : Z -> Z -> bool;
  IsWalkable : Z -> Z -> bool;
  Distance_To_POI : Z -> Z -> Z -> Z;
  POIINDEX_NORMAL_FIRST : Z;
  POIINDEX_NORMAL_LAST : Z;
  IsOriginalSpawnArea : Z -> Z -> bool;
  SpawnMap_PLAYER : Z -> Z -> bool;
  walkableTiles : list Coord;
  walkableTiles_ts_players : list Coord;
  walkableTiles_ts_banks : list Coord;
  NUM_HARVEST_AREAS : Z;
  HarvestAreaSizes : Z -> Z;
  HarvestAreas : Z -> Z -> Z;
  HarvestPortions : Z -> Z;
  CROWN_BONUS : Z;
  TOTAL_HARVEST : Z;
  NUM_CROWN_LOCATIONS : Z;
  CrownSpawn : Z -> Z
}.

(** Constants, macros and default constructors of game/state.h. *)
Class Header := {
  PlayerState_default : PlayerState;
  CharacterState_default : CharacterState;
  HUNTERMSG_CACHE_MAX : Z;
  CharacterID_ToString : CharacterID -> string;
  CharacterIsProtected : Z -> bool;
  AI_STATE2_STASIS : Z;
  NUM_MERCHANTS : Z;
  NPCROLE_IS_MERCHANT : Z -> bool;
  MERCH_INFO_DEVMODE : Z;
  MERCH_ARMOR_BUFFCOAT : Z;
  MERCH_ARMOR_LINEN : Z;
  MERCH_ARMOR_SCALE : Z;
  MERCH_ARMOR_SPLINT : Z;
  MERCH_ARMOR_PLATE : Z;
  MERCH_STINKING_CLOUD : Z;
  MERCH_RING_WORD_RECALL : Z;
  MERCH_STAFF_FIREBALL : Z;
  MERCH_STAFF_REAPER : Z;
  MERCH_AMULET_LIFE_SAVING : Z;
  MERCH_RING_IMMORTALITY : Z;
  MERCH_WEAPON_ESTOC : Z;
  MERCH_WEAPON_SWORD : Z;
  MERCH_WEAPON_XBOW : Z;
  MERCH_WEAPON_XBOW3 : Z;
  MERCH_STAFF_LIGHTNING : Z;
  PRICE_RING_IMMORTALITY : Z
}.

#[export] Instance Coord_key `{GameMap} : KeyOps Coord :=
  {| keqb := Coord_eqb; kltb := Coord_ltb |}.

#[export] Instance CharacterID_key : KeyOps CharacterID :=
  {| keqb := CharacterID_eqb; kltb := CharacterID_ltb |}.

(** Constants of state.cpp itself. *)
Definition STATE_VERSION : Z := 2020600.
Definition MIN_GAMEROUND_DURATION : Z := 2000.
Definition MAX_CHARACTERS_PER_PLAYER : Z := 20.
Definition MAX_CHARACTERS_PER_PLAYER_TOTAL : Z := 1000.
Definition PDISASTER_MIN_TIME : Z := 1440.
Definition PDISASTER_MAX_TIME : Z := 12 * 1440.
Definition PDISASTER_PROBABILITY : Z := 10000.
Definition POISON_MIN_LIFE : Z := 1.
Definition POISON_MAX_LIFE : Z := 50.
Definition DYNBANKS_NUM_BANKS : Z := 75.
Definition DYNBANKS_MIN_LIFE : Z := 25.
Definition DYNBANKS_MAX_LIFE : Z := 100.
Definition SPAWN_AREA_LENGTH : Z := 15.

(** ** Fork-gated scalar policies *)

Section Policies.
Context `{ForkGate}.

(** [GameState::ForkInEffect]. *)
Definition state_ForkInEffect (s : GameState) (f : Fork) : bool :=
  ForkInEffect f (nHeight s).

(** The function returns -1 on its first line; the ladder over the forks
    that follows in the source is unreachable. *)
Definition GetCarryingCapacity (s : GameState) (isGeneral isCrownHolder : bool)
  : CAmount := -1.

Definition GetDestructRadius (s : GameState) (isGeneral : bool) : Z :=
  if state_ForkInEffect s FORK_LESSHEARTS then 1
  else if isGeneral then 2 else 1.

Definition MaxStayOnBank (s : GameState) : Z :=
  if state_ForkInEffect s FORK_LIFESTEAL then 2
  else if state_ForkInEffect s FORK_CARRYINGCAP
          && negb (state_ForkInEffect s FORK_LESSHEARTS) then -1
  else 30.

(** [nHeight] is the height after conversion to [unsigned]; the fork ladder
    below the four returns is unreachable. *)
Definition GetNameCoinAmount (nHeight : Z) : CAmount :=
  if 30000 <? nHeight then 20 * COIN
  else if 20000 <? nHeight then 30 * COIN
  else if 10000 <? nHeight then 50 * COIN
  else 100 * COIN.

Definition HasDeathTax (k : KilledByInfo) : bool :=
  negb (Reason_eqb (reason k) KILLED_SPAWN).

Definition DropCoins (k : KilledByInfo) (s : GameState) (victim : PlayerState)
  : option bool :=
  if negb (state_ForkInEffect s FORK_LESSHEARTS) then Some true
  else if 0 <=? remainingLife victim then Some false
  else ensure (remainingLife victim =? -1) ;; Some true.

Definition CanRefund (k : KilledByInfo) (s : GameState) (victim : PlayerState)
  : bool :=
  if negb (state_ForkInEffect s FORK_LESSHEARTS) then false
  else match reason k with
       | KILLED_SPAWN =>
           if negb (state_ForkInEffect s FORK_LIFESTEAL)
              && (0 <=? remainingLife victim)
           then false else true
       | KILLED_POISON => state_ForkInEffect s FORK_LIFESTEAL
       | KILLED_DESTRUCT => false
       end.

End Policies.

(** ** Merchant prices *)

Section Merchants.
Context `{Header}.

(** The chain of comparisons that picks the base price. *)
Definition merchant_base_price (m : Z) : Z :=
  if m =? MERCH_ARMOR_BUFFCOAT then 50
  else if m =? MERCH_ARMOR_LINEN then 35
  else if m =? MERCH_ARMOR_SCALE then 80
  else if m =? MERCH_ARMOR_SPLINT then 80
  else if m =? MERCH_ARMOR_PLATE then 90
  else if m =? MERCH_STINKING_CLOUD then 20
  else if m =? MERCH_RING_WORD_RECALL then 30
  else if m =? MERCH_STAFF_FIREBALL then 20
  else if m =? MERCH_STAFF_REAPER then 20
  else if m =? MERCH_AMULET_LIFE_SAVING then 20
  else if m =? MERCH_RING_IMMORTALITY then PRICE_RING_IMMORTALITY
  else if m =? MERCH_WEAPON_ESTOC then 50
  else if m =? MERCH_WEAPON_SWORD then 15
  else if m =? MERCH_WEAPON_XBOW then 30
  else if m =? MERCH_WEAPON_XBOW3 then 60
  else if m =? MERCH_STAFF_LIGHTNING then 90
  else 0.

Definition set_MOf (mc : MerchantCache) (price discount : Z) : MerchantCache :=
  mkMerchants (Merchant_exists mc) (Merchant_sats_received mc)
    (Merchant_last_sale mc) price discount (AI_dbg_allow_payments mc).

(** [Rpg_getMerchantOffer]: the returned price is [Rpgcache_MOf] of the
    returned cache. *)
Definition Rpg_getMerchantOffer (mc : MerchantCache) (m h : Z) : Z * MerchantCache :=
  let base := merchant_base_price m in
  let age := h - Merchant_last_sale mc m in
  let '(price, discount) :=
    if (h <=? 0) || (Merchant_last_sale mc m <=? 0) then (base, 0)
    else if 10000 <? age then (base ÷ 10, 90)
    else if 5000 <? age then ((base * 3) ÷ 10, 70)
    else if 2000 <? age then ((base * 5) ÷ 10, 50)
    else if 1000 <? age then ((base * 6) ÷ 10, 40)
    else if 500 <? age then ((base * 7) ÷ 10, 30)
    else if 200 <? age then ((base * 8) ÷ 10, 20)
    else if 100 <? age then ((base * 9) ÷ 10, 10)
    else (base, 0) in
  (price, set_MOf mc price discount).

(** The macro [AI_BUY_FROM_MERCHANT (S, I, M)], expanded inside a member
    function of the buyer: [S] is one of the buyer's item slots,
    [lootAmount] is the buyer's [loot.nAmount].  The result is the slot, the
    loot amount and the caches after the statement. *)
Definition AI_BUY_FROM_MERCHANT (S I M : Z) (out_height : Z)
  (lootAmount : CAmount) (mc : MerchantCache) : Z * CAmount * MerchantCache :=
  if negb (S =? I) && Merchant_exists mc M then
    let '(offer, mc1) := Rpg_getMerchantOffer mc M out_height in
    if offer * COIN <=? lootAmount then
      if AI_dbg_allow_payments mc1 then
        (I, lootAmount - Rpgcache_MOf mc1 * COIN,
         mkMerchants (Merchant_exists mc1)
           (upd (Merchant_sats_received mc1) M
              (Merchant_sats_received mc1 M + Rpgcache_MOf mc1 * COIN))
           (Merchant_last_sale mc1) (Rpgcache_MOf mc1)
           (Rpgcache_MOf_discount mc1) (AI_dbg_allow_payments mc1))
      else (I, lootAmount, mc1)
    else (S, lootAmount, mc1)
  else (S, lootAmount, mc).

End Merchants.

(** ** Loot *)

(** [CharacterState::CollectLoot]: the character after the call and the
    returned remainder. *)
Definition CollectLoot (ch : CharacterState) (newLoot : LootInfo) (nHeight : Z)
  (carryCap : CAmount) : option (CharacterState * CAmount) :=
  let totalBefore := nAmount (info (loot ch)) + nAmount newLoot in
  let freeCap0 := carryCap - nAmount (info (loot ch)) in
  let freeCap := if freeCap0 <? 0 then 0 else freeCap0 in
  let remaining :=
    if (carryCap =? -1) || (nAmount newLoot <=? freeCap) then 0
    else nAmount newLoot - freeCap in
  let newLoot1 :=
    if 0 <? remaining
    then mkLoot (nAmount newLoot - remaining) (firstBlock newLoot)
           (lastBlock newLoot)
    else newLoot in
  let ch1 := set_loot ch (Collect (loot ch) newLoot1 nHeight) in
  ensure ((0 <=? remaining) && (0 <=? nAmount newLoot1)) ;;
  ensure (totalBefore =? nAmount (info (loot ch1)) + remaining) ;;
  ensure ((carryCap =? -1) || (nAmount newLoot1 <=? freeCap)) ;;
  ensure ((nAmount newLoot1 =? 0) || (carryCap =? -1)
          || (nAmount (info (loot ch1)) <=? carryCap)) ;;
  Some (ch1, remaining).

Section Loot.
Context `{ForkGate} `{GameMap}.

Definition AddLoot (c : Coord) (amount : CAmount) (s : GameState) : GameState :=
  if amount =? 0 then s
  else match StdMap.find c (lootOnMap s) with
       | Some l =>
           if nAmount l + amount =? 0
           then set_lootOnMap s (StdMap.erase c (lootOnMap s))
           else set_lootOnMap s
                  (StdMap.assign c
                     (mkLoot (nAmount l + amount) (firstBlock l) (nHeight s))
                     (lootOnMap s))
       | None =>
           set_lootOnMap s
             (StdMap.insert c (LootInfo_at amount (nHeight s)) (lootOnMap s))
       end.

Definition GetCoinsOnMap (s : GameState) : CAmount :=
  let onMap := fold_left (fun acc l => acc + nAmount (snd l)) (lootOnMap s) 0 in
  fold_left
    (fun acc p =>
       fold_left (fun acc pc => acc + nAmount (info (loot (snd pc))))
         (characters (snd p)) (acc + value (snd p)))
    (players s) onMap.

Definition IsOriginalSpawnAreaCoord (c : Coord) : bool :=
  IsOriginalSpawnArea (cx c) (cy c).

Definition PushCoordOutOfSpawnArea (c : Coord) : Coord :=
  if negb (IsOriginalSpawnAreaCoord c) then c
  else if cx c =? 0 then
         if cy c =? 0 then mkCoord (cx c + 1) (cy c + 1)
         else if cy c =? MAP_HEIGHT - 1 then mkCoord (cx c + 1) (cy c - 1)
         else mkCoord (cx c + 1) (cy c)
  else if cx c =? MAP_WIDTH - 1 then
         if cy c =? 0 then mkCoord (cx c - 1) (cy c + 1)
         else if cy c =? MAP_HEIGHT - 1 then mkCoord (cx c - 1) (cy c - 1)
         else mkCoord (cx c - 1) (cy c)
  else if cy c =? 0 then mkCoord (cx c) (cy c + 1)
  else if cy c =? MAP_HEIGHT - 1 then mkCoord (cx c) (cy c - 1)
  else c.

(** [GameState::HandleKilledLoot].  [min_version] is the file-level
    [Cache_min_version] the function reads. *)
Definition HandleKilledLoot (pId : PlayerID) (chInd : Z) (k : KilledByInfo)
  (min_version : Z) (sr : GameState * StepResult)
  : option (GameState * StepResult) :=
  let '(s, step) := sr in
  pc <- StdMap.find pId (players s) ;;
  ensure (0 <=? value pc) ;;
  ch <- StdMap.find chInd (characters pc) ;;
  let refunded := (chInd =? 0) && CanRefund k s pc in
  let step1 :=
    if refunded
    then push_bounty (mkBounty (mkChid pId chInd)
                        (SetRefund (value pc) (nHeight s)) (address pc)) step
    else step in
  amount0 <-
    (if (chInd =? 0) && negb refunded
     then ensure (negb (state_ForkInEffect s FORK_LIFESTEAL)
                  || (value pc =? 0)) ;;
          Some (nAmount (info (loot ch)) + value pc)
     else Some (nAmount (info (loot ch)))) ;;
  let nTax := amount0 ÷ 25 in
  let taxed := HasDeathTax k && (min_version <? 2020700) in
  let step2 := if taxed then add_tax nTax step1 else step1 in
  let amount := if taxed then amount0 - nTax else amount0 in
  drop <- DropCoins k s pc ;;
  if negb drop then Some (set_gameFund s (gameFund s + amount), step2)
  else
    let lootPos :=
      if negb (state_ForkInEffect s FORK_LIFESTEAL)
      then PushCoordOutOfSpawnArea (coord ch) else coord ch in
    Some (AddLoot lootPos amount s, step2).

End Loot.

(** ** The attack resolver [CharactersOnTiles] *)

Record AttackableCharacter := mkAttackable {
  chid : CharacterID;
  a_color : Z;
  drawnLife : CAmount;
  attackers : list CharacterID
}.

Definition set_attackers (a : AttackableCharacter) (l : list CharacterID)
  : AttackableCharacter :=
  mkAttackable (chid a) (a_color a) (drawnLife a) l.

Definition set_drawnLife (a : AttackableCharacter) (d : CAmount)
  : AttackableCharacter :=
  mkAttackable (chid a) (a_color a) d (attackers a).

(** The multimap from tiles to the characters on them, and the flag that
    tells whether it was filled. *)
Record CharactersOnTiles := mkTiles {
  tiles : list (Coord * AttackableCharacter);
  built : bool
}.

(** The freshly constructed resolver. *)
Definition CharactersOnTiles_new : CharactersOnTiles := mkTiles [] false.

Section Attacks.
Context `{ForkGate} `{GameMap} `{Header}.

Definition AttackBy (a : AttackableCharacter) (attackChid : CharacterID)
  (pl : PlayerState) : option AttackableCharacter :=
  if a_color a =? color pl then Some a
  else ensure (negb (StdSet.mem attackChid (attackers a))) ;;
       Some (set_attackers a (StdSet.insert attackChid (attackers a))).

Definition AttackSelf (a : AttackableCharacter) (s : GameState)
  : option AttackableCharacter :=
  if negb (state_ForkInEffect s FORK_LIFESTEAL)
  then ensure (negb (StdSet.mem (chid a) (attackers a))) ;;
       Some (set_attackers a (StdSet.insert (chid a) (attackers a)))
  else Some a.

Definition EnsureIsBuilt (cot : CharactersOnTiles) (s : GameState)
  : option CharactersOnTiles :=
  if built cot then Some cot
  else
    ensure (match tiles cot with [] => true | _ => false end) ;;
    let add_player (ts : list (Coord * AttackableCharacter))
                   (p : PlayerID * PlayerState) :=
      fold_left
        (fun ts (pc : Z * CharacterState) =>
           if state_ForkInEffect s FORK_TIMESAVE
              && CharacterIsProtected (stay_in_spawn_area (snd pc))
           then ts
           else StdMap.place (coord (snd pc))
                  (mkAttackable (mkChid (fst p) (fst pc)) (color (snd p)) 0 [])
                  ts)
        (characters (snd p)) ts in
    Some (mkTiles (fold_left add_player (players s) (tiles cot)) true).

(** [CharactersOnTiles::ApplyAttacks].  What the source still executes for a
    destructing character is the entry in the destruct-message cache; the
    statements that built the tiles and recorded the attacks are inside a
    comment.  The resolver is returned to make that visible. *)
Definition ApplyAttacks_destruct (pId : PlayerID) (pl : PlayerState) (i : Z)
  (c : Cache) : Cache :=
  match StdMap.find i (characters pl) with
  | None => c
  | Some _ =>
      if Huntermsg_idx_destruct c <? HUNTERMSG_CACHE_MAX - 1
      then set_Huntermsg c (Huntermsg_idx_destruct c + 1)
             (upd (Huntermsg_destruct c) (Huntermsg_idx_destruct c)
                (CharacterID_ToString (mkChid pId i)))
      else c
  end.

Definition ApplyAttacks_move {MoveExt : Type} (s : GameState)
  (m : Move MoveExt) (c : Cache) : option Cache :=
  match m_destruct m with
  | [] => Some c
  | _ =>
      pl <- StdMap.find (m_player m) (players s) ;;
      Some (fold_left (fun c i => ApplyAttacks_destruct (m_player m) pl i c)
              (m_destruct m) c)
  end.

Definition ApplyAttacks {MoveExt : Type} (cot : CharactersOnTiles)
  (s : GameState) (moves : list (Move MoveExt)) (c : Cache)
  : option (CharactersOnTiles * Cache) :=
  c' <- foreach moves (ApplyAttacks_move s) c ;;
  Some (cot, c').

(** One iteration of the loop of [DrawLife] over the tiles. *)
Definition DrawLife_tile (lifeSteal : bool) (damage : CAmount)
  (min_version : Z) (a : AttackableCharacter) (sr : GameState * StepResult)
  : option (AttackableCharacter * (GameState * StepResult)) :=
  let '(s, result) := sr in
  match attackers a with
  | [] => Some (a, sr)
  | first_attacker :: _ =>
      ensure (drawnLife a =? 0) ;;
      victim <- StdMap.find (player (chid a)) (players s) ;;
      '(a1, victim1) <-
        (if lifeSteal then
           ensure (index (chid a) =? 0) ;;
           let fullDamage0 := damage * Z.of_nat (List.length (attackers a)) in
           let fullDamage :=
             if value victim <? fullDamage0 then value victim
             else fullDamage0 in
           let v1 := value victim - fullDamage in
           let d1 := drawnLife a + fullDamage in
           ensure (0 <=? v1) ;;
           if v1 <? damage
           then Some (set_drawnLife a (d1 + v1), set_value victim 0)
           else Some (set_drawnLife a d1, set_value victim v1)
         else Some (a, victim)) ;;
      ensure (0 <=? value victim1) ;;
      ensure (0 <=? drawnLife a1) ;;
      let s1 :=
        set_players s (StdMap.assign (player (chid a)) victim1 (players s)) in
      if lifeSteal && negb (value victim1 =? 0) then
        ensure (damage <=? value victim1) ;;
        Some (a1, (s1, result))
      else
        let result1 :=
          if index (chid a) =? 0
          then fold_left
                 (fun r att =>
                    KillPlayer (player (chid a)) (KilledBy_character att) r)
                 (attackers a) result
          else result in
        match StdMap.find (index (chid a)) (characters victim1) with
        | None => Some (a1, (s1, result1))
        | Some _ =>
            '(s2, result2) <-
              HandleKilledLoot (player (chid a)) (index (chid a))
                (KilledBy_character first_attacker) min_version
                (s1, result1) ;;
            victim2 <- StdMap.find (player (chid a)) (players s2) ;;
            let victim3 :=
              set_characters victim2
                (StdMap.erase (index (chid a)) (characters victim2)) in
            Some (a1,
                  (set_players s2
                     (StdMap.assign (player (chid a)) victim3 (players s2)),
                   result2))
        end
  end.

Fixpoint DrawLife_tiles (lifeSteal : bool) (damage : CAmount) (min_version : Z)
  (ts : list (Coord * AttackableCharacter)) (sr : GameState * StepResult)
  : option (list (Coord * AttackableCharacter) * (GameState * StepResult)) :=
  match ts with
  | [] => Some ([], sr)
  | (c, a) :: ts' =>
      '(a', sr1) <- DrawLife_tile lifeSteal damage min_version a sr ;;
      '(ts'', sr2) <- DrawLife_tiles lifeSteal damage min_version ts' sr1 ;;
      Some ((c, a') :: ts'', sr2)
  end.

Definition DrawLife (cot : CharactersOnTiles) (min_version : Z)
  (sr : GameState * StepResult)
  : option (CharactersOnTiles * (GameState * StepResult)) :=
  if negb (built cot) then Some (cot, sr)
  else
    let lifeSteal := state_ForkInEffect (fst sr) FORK_LIFESTEAL in
    let damage := GetNameCoinAmount (to_unsigned (nHeight (fst sr))) in
    '(ts, sr') <- DrawLife_tiles lifeSteal damage min_version (tiles cot) sr ;;
    Some (mkTiles ts (built cot), sr').

End Attacks.

(** [v.erase (v.begin () + i)]: the elements behind position [i] move up by
    one, the order of the others is kept. *)
Definition erase_at {A : Type} (i : nat) (v : list A) : list A :=
  firstn i v ++ skipn (S i) v.

Section Randomness.
Context `{Random}.

(** Modelled from the spec: the two-argument [GetIntRnd (lo, hi)] is declared
    with the generator outside the sources; it draws from [lo, hi]
    inclusive, here by one draw from [0, hi - lo + 1). *)
Definition GetIntRnd_range (rnd : RandomGenerator) (lo hi : Z)
  : Z * RandomGenerator :=
  let '(r, rnd') := GetIntRnd rnd (hi - lo + 1) in (lo + r, rnd').

(** [v[ind]] for an index drawn from the generator. *)
Definition at_index {A : Type} (v : list A) (ind : Z) : option A :=
  if ind <? 0 then None else nth_error v (Z.to_nat ind).

End Randomness.

Section LifeSteal.
Context `{ForkGate} `{Random}.

Definition DefendMutualAttacks (cot : CharactersOnTiles) (s : GameState)
  : CharactersOnTiles :=
  if negb (built cot) then cot
  else
    let attacks : list (CharacterID * CharacterID) :=
      flat_map (fun t => map (fun mi => (mi, chid (snd t))) (attackers (snd t)))
        (tiles cot) in
    let is_attack (from to : CharacterID) : bool :=
      existsb (fun p => CharacterID_eqb (fst p) from
                        && CharacterID_eqb (snd p) to) attacks in
    mkTiles
      (map (fun t =>
              (fst t,
               set_attackers (snd t)
                 (filter (fun mi => negb (is_attack (chid (snd t)) mi))
                    (attackers (snd t)))))
         (tiles cot))
      (built cot).

(** The set of characters on the tiles whose player is still in the state. *)
Fixpoint alive_players (s : GameState) (ts : list (Coord * AttackableCharacter))
  (acc : list CharacterID) : option (list CharacterID) :=
  match ts with
  | [] => Some acc
  | (_, a) :: ts' =>
      ensure (negb (StdSet.mem (chid a) acc)) ;;
      ensure (index (chid a) =? 0) ;;
      match StdMap.find (player (chid a)) (players s) with
      | Some pl =>
          ensure (0 <? StdMap.count (index (chid a)) (characters pl)) ;;
          alive_players s ts' (StdSet.insert (chid a) acc)
      | None => alive_players s ts' acc
      end
  end.

(** The loop [while (!alive.empty () && toSpend >= damage)]; it runs at most
    once per element of [alive], which is the fuel. *)
Fixpoint distribute (fuel : nat) (damage : CAmount)
  (alivePlayers alive : list CharacterID) (toSpend : CAmount)
  (sr : GameState * RandomGenerator)
  : option (CAmount * (GameState * RandomGenerator)) :=
  match fuel with
  | O => Some (toSpend, sr)
  | S fuel' =>
      match alive with
      | [] => Some (toSpend, sr)
      | _ :: _ =>
          if toSpend <? damage then Some (toSpend, sr)
          else
            let '(s, rnd) := sr in
            let '(ind, rnd1) := GetIntRnd rnd (Z.of_nat (List.length alive)) in
            target <- at_index alive ind ;;
            ensure (StdSet.mem target alivePlayers) ;;
            pl <- StdMap.find (player target) (players s) ;;
            let s1 :=
              set_players s
                (StdMap.assign (player target)
                   (set_value pl (value pl + damage)) (players s)) in
            distribute fuel' damage alivePlayers
              (erase_at (Z.to_nat ind) alive) (toSpend - damage) (s1, rnd1)
      end
  end.

Definition DistributeDrawnLife_tile (damage : CAmount)
  (alivePlayers : list CharacterID) (t : Coord * AttackableCharacter)
  (sr : GameState * RandomGenerator) : option (GameState * RandomGenerator) :=
  let a := snd t in
  match attackers a with
  | [] => Some sr
  | _ :: _ =>
      if drawnLife a =? 0 then Some sr
      else
        let alive :=
          filter (fun mi => StdSet.mem mi alivePlayers) (attackers a) in
        '(toSpend, (s, rnd)) <-
          distribute (List.length alive) damage alivePlayers alive
            (drawnLife a) sr ;;
        ensure (0 <=? toSpend) ;;
        Some (set_gameFund s (gameFund s + toSpend), rnd)
  end.

Definition DistributeDrawnLife (cot : CharactersOnTiles)
  (sr : GameState * RandomGenerator) : option (GameState * RandomGenerator) :=
  if negb (built cot) then Some sr
  else
    let damage := GetNameCoinAmount (to_unsigned (nHeight (fst sr))) in
    alivePlayers <- alive_players (fst sr) (tiles cot) [] ;;
    foreach (tiles cot) (DistributeDrawnLife_tile damage alivePlayers) sr.

End LifeSteal.

(** ** Disaster and poison *)

Section Poison.
Context `{ForkGate} `{Random}.

(** The source returns [false] on its first line; the test of the fork, of
    the distance to the last disaster and the draw are unreachable. *)
Definition CheckForDisaster (s : GameState) (rng : RandomGenerator)
  : bool * RandomGenerator := (false, rng).

Fixpoint ApplyDisaster_players (ps : list (PlayerID * PlayerState))
  (rng : RandomGenerator)
  : option (list (PlayerID * PlayerState) * RandomGenerator) :=
  match ps with
  | [] => Some ([], rng)
  | (id, p) :: ps' =>
      ensure (remainingLife p =? -1) ;;
      let '(life, rng1) := GetIntRnd_range rng POISON_MIN_LIFE POISON_MAX_LIFE in
      '(ps'', rng2) <- ApplyDisaster_players ps' rng1 ;;
      Some ((id, set_remainingLife p life) :: ps'', rng2)
  end.

Definition ApplyDisaster (s : GameState) (rng : RandomGenerator)
  : option (GameState * RandomGenerator) :=
  '(ps, rng') <- ApplyDisaster_players (players s) rng ;;
  let s1 := set_players s ps in
  let s2 := if state_ForkInEffect s1 FORK_LESSHEARTS then set_hearts s1 [] else s1 in
  Some (set_nDisasterHeight s2 (nHeight s2), rng').

Fixpoint DecrementLife_players (ps : list (PlayerID * PlayerState))
  (step : StepResult) : option (list (PlayerID * PlayerState) * StepResult) :=
  match ps with
  | [] => Some ([], step)
  | (id, p) :: ps' =>
      if remainingLife p =? -1 then
        '(ps'', step') <- DecrementLife_players ps' step ;;
        Some ((id, p) :: ps'', step')
      else
        ensure (0 <? remainingLife p) ;;
        let p1 := set_remainingLife p (remainingLife p - 1) in
        let step1 :=
          if remainingLife p1 =? 0
          then KillPlayer id (KilledBy_reason KILLED_POISON) step
          else step in
        '(ps'', step') <- DecrementLife_players ps' step1 ;;
        Some ((id, p1) :: ps'', step')
  end.

Definition DecrementLife (sr : GameState * StepResult)
  : option (GameState * StepResult) :=
  '(ps, step') <- DecrementLife_players (players (fst sr)) (snd sr) ;;
  Some (set_players (fst sr) ps, step').

End Poison.

(** ** Kills *)

Section Kills.
Context `{ForkGate} `{GameMap}.

(** The inner loop of [FinaliseKills]: the loot of every character of one
    killed player. *)
Definition FinaliseKills_victim (min_version : Z) (victim : PlayerID)
  (sr : GameState * StepResult) : option (GameState * StepResult) :=
  victimState <- StdMap.find victim (players (fst sr)) ;;
  k <- StdMap.find victim (killedBy (snd sr)) ;;
  foreach (characters victimState)
    (fun pc => HandleKilledLoot victim (fst pc) k min_version) sr.

Definition FinaliseKills (min_version : Z) (sr : GameState * StepResult)
  : option (GameState * StepResult) :=
  let killed := killedPlayers (snd sr) in
  '(s, step) <- foreach killed (FinaliseKills_victim min_version) sr ;;
  Some (set_players s
          (fold_left (fun ps victim => StdMap.erase victim ps) killed (players s)),
        step).

(** The body of the outer loop of [RemoveHeartedCharacters] for one player:
    the loot of every character but the general, then their removal. *)
Definition RemoveHeartedCharacters_player (min_version : Z)
  (p : PlayerID * PlayerState) (sr : GameState * StepResult)
  : option (GameState * StepResult) :=
  let hearted := filter (fun pc => negb (fst pc =? 0)) (characters (snd p)) in
  '(s, step) <-
    foreach hearted
      (fun pc => HandleKilledLoot (fst p) (fst pc)
                   (KilledBy_reason KILLED_POISON) min_version) sr ;;
  pl <- StdMap.find (fst p) (players s) ;;
  let kept :=
    fold_left (fun cs pc => StdMap.erase (fst pc) cs) hearted (characters pl) in
  Some (set_players s
          (StdMap.assign (fst p) (set_characters pl kept) (players s)),
        step).

Definition RemoveHeartedCharacters (min_version : Z)
  (sr : GameState * StepResult) : option (GameState * StepResult) :=
  ensure (IsForkHeight FORK_LIFESTEAL (nHeight (fst sr))) ;;
  let s0 := set_hearts (fst sr) [] in
  foreach (players s0) (RemoveHeartedCharacters_player min_version)
    (s0, snd sr).

End Kills.

(** ** Banks and crown *)

Section Banks.
Context `{ForkGate} `{GameMap} `{Random}.

Definition IsBank (s : GameState) (c : Coord) : option bool :=
  ensure (negb (match banks s with [] => true | _ => false end)) ;;
  Some (0 <? StdMap.count c (banks s)).

(** The loop of [UpdateBanks] over the old banks. *)
Definition UpdateBanks_age (resetAll : bool) (b : Coord * Z)
  (newBanks : list (Coord * Z)) : option (list (Coord * Z)) :=
  ensure (1 <=? snd b) ;;
  if resetAll then Some newBanks
  else if 1 <? snd b then Some (StdMap.insert (fst b) (snd b - 1) newBanks)
  else Some newBanks.

(** [std::set<Coord> optionsSet (tiles.begin (), tiles.end ())]. *)
Definition set_of_tiles (tiles : list Coord) : list Coord :=
  fold_left (fun acc c => StdSet.insert c acc) tiles [].

(** The loop that takes the tiles of the kept banks out of the options. *)
Definition UpdateBanks_exclude (b : Coord * Z) (optionsSet : list Coord)
  : option (list Coord) :=
  ensure (StdSet.mem (fst b) optionsSet) ;;
  Some (StdSet.erase (fst b) optionsSet).

(** The loop [for (cnt = newBanks.size (); cnt < DYNBANKS_NUM_BANKS; ++cnt)];
    [todo] counts the iterations that are left. *)
Fixpoint UpdateBanks_refill (todo : nat) (options : list Coord)
  (newBanks : list (Coord * Z)) (rng : RandomGenerator)
  : option (list (Coord * Z) * RandomGenerator) :=
  match todo with
  | O => Some (newBanks, rng)
  | S todo' =>
      let '(ind, rng1) := GetIntRnd rng (Z.of_nat (List.length options)) in
      let '(life, rng2) :=
        GetIntRnd_range rng1 DYNBANKS_MIN_LIFE DYNBANKS_MAX_LIFE in
      c <- at_index options ind ;;
      ensure (StdMap.count c newBanks =? 0) ;;
      UpdateBanks_refill todo' (erase_at (Z.to_nat ind) options)
        (StdMap.insert c life newBanks) rng2
  end.

Definition nonempty {A : Type} (l : list A) : bool :=
  match l with [] => false | _ => true end.

(** [FillWalkableTiles] leaves the three vectors as they are and asserts
    that none is empty. *)
Definition FillWalkableTiles : option unit :=
  ensure (nonempty walkableTiles_ts_players) ;;
  ensure (nonempty walkableTiles_ts_banks) ;;
  ensure (nonempty walkableTiles) ;;
  Some tt.

Definition UpdateBanks (s : GameState) (rng : RandomGenerator)
  : option (GameState * RandomGenerator) :=
  if negb (state_ForkInEffect s FORK_LIFESTEAL) then Some (s, rng)
  else
    newBanks <-
      (if IsForkHeight FORK_LIFESTEAL (nHeight s) then Some []
       else
         ensure (Z.of_nat (List.length (banks s)) =? DYNBANKS_NUM_BANKS) ;;
         foreach (banks s)
           (UpdateBanks_age (IsForkHeight FORK_TIMESAVE (nHeight s))) []) ;;
    ensure (Z.of_nat (List.length newBanks) <=? DYNBANKS_NUM_BANKS) ;;
    _ <- FillWalkableTiles ;;
    let pool :=
      if state_ForkInEffect s FORK_TIMESAVE then walkableTiles_ts_banks
      else walkableTiles in
    options <- foreach newBanks UpdateBanks_exclude (set_of_tiles pool) ;;
    ensure (Z.of_nat (List.length options) + Z.of_nat (List.length newBanks)
            =? Z.of_nat (List.length pool)) ;;
    '(banks', rng') <-
      UpdateBanks_refill
        (Z.to_nat (DYNBANKS_NUM_BANKS - Z.of_nat (List.length newBanks)))
        options newBanks rng ;;
    ensure (Z.of_nat (List.length banks') =? DYNBANKS_NUM_BANKS) ;;
    Some (set_banks s banks', rng').

Definition UpdateCrownState (s : GameState) : option (GameState * bool) :=
  if String.eqb (player (crownHolder s)) EmptyString then Some (s, false)
  else match StdMap.find (player (crownHolder s)) (players s) with
       | None => Some (set_crown s (crownPos s) no_character, false)
       | Some pl =>
           match StdMap.find (index (crownHolder s)) (characters pl) with
           | None => Some (set_crown s (crownPos s) no_character, false)
           | Some ch =>
               onBank <- IsBank s (coord ch) ;;
               if onBank
               then Some (set_crown s (crownPos s) no_character, true)
               else Some (set_crown s (coord ch) (crownHolder s), false)
           end
       end.

End Banks.

(** ** Collecting loot, hearts and the crown *)

(** The entries of the vector [collectors] in [DivideLootAmongPlayers].  The
    pointer [ch] of the source is followed through [pid] and [cid];
    [ch_sorted] is the character as it is when the vector is sorted, which
    is what [operator<] reads. *)
Record CharacterOnLootTile := mkCollector {
  pid : PlayerID;
  cid : Z;
  ch_sorted : CharacterState;
  carryCap : CAmount
}.

Definition GetRemainingCapacity (t : CharacterOnLootTile) : CAmount :=
  if carryCap t =? -1 then -1
  else if carryCap t <? nAmount (info (loot (ch_sorted t))) then 0
  else carryCap t - nAmount (info (loot (ch_sorted t))).

(** [operator<] on collectors.  Its two assertions compare a remaining
    capacity with 0 after the other was found to be -1; a remaining capacity
    is -1 or not negative, so they never fail. *)
Definition CharacterOnLootTile_ltb (a b : CharacterOnLootTile) : bool :=
  let remA := GetRemainingCapacity a in
  let remB := GetRemainingCapacity b in
  if remA =? remB then
    if negb (String.eqb (pid a) (pid b)) then String.ltb (pid a) (pid b)
    else cid a <? cid b
  else if remA =? -1 then false
  else if remB =? -1 then true
  else remA <? remB.

(** [std::sort] for a comparison that orders the elements totally. *)
Fixpoint sort_insert {A : Type} (ltb : A -> A -> bool) (x : A) (l : list A)
  : list A :=
  match l with
  | [] => [x]
  | y :: l' => if ltb x y then x :: l else y :: sort_insert ltb x l'
  end.

Definition std_sort {A : Type} (ltb : A -> A -> bool) (l : list A) : list A :=
  fold_right (sort_insert ltb) [] l.

(** Assignment to one character of one player, both reached through
    pointers that the source holds. *)
Definition assign_character (pId : PlayerID) (chInd : Z) (ch : CharacterState)
  (s : GameState) : GameState :=
  match StdMap.find pId (players s) with
  | None => s
  | Some pl =>
      set_players s
        (StdMap.assign pId
           (set_characters pl (StdMap.assign chInd ch (characters pl)))
           (players s))
  end.

Section Collecting.
Context `{ForkGate} `{GameMap} `{Random} `{Header}.

Definition ghosted (s : GameState) (c : Coord) : bool :=
  state_ForkInEffect s FORK_TIMESAVE
  && (((1 <? Z.rem (cx c) 2 + Z.rem (cy c) 2)
       && (300 <=? Z.rem (nHeight s) 500))
      || ((0 <? Z.rem (cx c) 2 + Z.rem (cy c) 2)
          && (450 <=? Z.rem (nHeight s) 500))
      || (480 <=? Z.rem (nHeight s) 500)).

(** The first loop of [DivideLootAmongPlayers]: the collectors and the
    number of them on each loot tile. *)
Definition DivideLoot_scan (s : GameState)
  : list (Coord * Z) * list CharacterOnLootTile :=
  fold_left
    (fun acc (p : PlayerID * PlayerState) =>
       fold_left
         (fun acc (pc : Z * CharacterState) =>
            let '(onTile, collectors) := acc in
            let isCrownHolder :=
              String.eqb (fst p) (player (crownHolder s))
              && (fst pc =? index (crownHolder s)) in
            let tileChar :=
              mkCollector (fst p) (fst pc) (snd pc)
                (GetCarryingCapacity s (fst pc =? 0) isCrownHolder) in
            let c := coord (snd pc) in
            if ghosted s c then acc
            else if 0 <? StdMap.count c (lootOnMap s) then
              (match StdMap.find c onTile with
               | Some n => StdMap.assign c (n + 1) onTile
               | None => StdMap.insert c 1 onTile
               end,
               collectors ++ [tileChar])
            else acc)
         (characters (snd p)) acc)
    (players s) ([], []).

(** The body of the second loop, for one collector. *)
Definition DivideLoot_collect (i : CharacterOnLootTile)
  (st : GameState * list (Coord * Z)) : option (GameState * list (Coord * Z)) :=
  let '(s, onTile) := st in
  pl <- StdMap.find (pid i) (players s) ;;
  ch <- StdMap.find (cid i) (characters pl) ;;
  let c := coord ch in
  n <- StdMap.find c onTile ;;
  let '(lootInfo, lootMap) :=
    StdMap.subscript c (mkLoot 0 (-1) (-1)) (lootOnMap s) in
  let s1 := set_lootOnMap s lootMap in
  ensure (0 <? n) ;;
  let share := nAmount lootInfo ÷ n in
  let onTile1 := StdMap.assign c (n - 1) onTile in
  if 0 <? share then
    '(ch1, rem) <-
      CollectLoot ch (mkLoot share (firstBlock lootInfo) (lastBlock lootInfo))
        (nHeight s1) (carryCap i) ;;
    Some (AddLoot c (rem - share) (assign_character (pid i) (cid i) ch1 s1),
          onTile1)
  else Some (s1, onTile1).

Definition DivideLootAmongPlayers (s : GameState) : option GameState :=
  let '(onTile, collectors) := DivideLoot_scan s in
  '(s', _) <-
    foreach (std_sort CharacterOnLootTile_ltb collectors) DivideLoot_collect
      (s, onTile) ;;
  Some s'.

Definition CrownBonus (amount : CAmount) (s : GameState) : option GameState :=
  if negb (String.eqb (player (crownHolder s)) EmptyString) then
    let '(p, ps) :=
      StdMap.subscript (player (crownHolder s)) PlayerState_default
        (players s) in
    let '(ch, cs) :=
      StdMap.subscript (index (crownHolder s)) CharacterState_default
        (characters p) in
    let cap := GetCarryingCapacity s (index (crownHolder s) =? 0) true in
    '(ch1, rem) <-
      CollectLoot ch (LootInfo_at amount (nHeight s)) (nHeight s) cap ;;
    let p1 :=
      set_characters p (StdMap.assign (index (crownHolder s)) ch1 cs) in
    let s1 :=
      set_players s (StdMap.assign (player (crownHolder s)) p1 ps) in
    Some (set_gameFund s1 (gameFund s1 + rem))
  else Some (set_gameFund s (gameFund s + amount)).

(** [CharacterState::Spawn].  The direction a fresh character faces is drawn
    and checked but not kept, and [StopMoving] has nothing to clear: the
    model of a character has neither [dir] nor waypoints.  A colour outside
    0..3 throws in the source; the step does not return then either. *)
Definition Spawn_random (tiles : list Coord) (ch : CharacterState)
  (rnd : RandomGenerator) : option (CharacterState * RandomGenerator) :=
  _ <- FillWalkableTiles ;;
  let '(pos, rnd1) := GetIntRnd rnd (Z.of_nat (List.length tiles)) in
  c <- at_index tiles pos ;;
  let '(dir0, rnd2) := GetIntRnd_range rnd1 1 8 in
  let dir := if 5 <=? dir0 then dir0 + 1 else dir0 in
  ensure ((1 <=? dir) && (dir <=? 9) && negb (dir =? 5)) ;;
  Some (set_coord ch c, rnd2).

Definition Spawn (ch : CharacterState) (s : GameState) (color : Z)
  (rnd : RandomGenerator) : option (CharacterState * RandomGenerator) :=
  if state_ForkInEffect s FORK_TIMESAVE
  then Spawn_random walkableTiles_ts_players ch rnd
  else if state_ForkInEffect s FORK_LIFESTEAL
  then Spawn_random walkableTiles ch rnd
  else
    let '(pos, rnd1) := GetIntRnd rnd (2 * SPAWN_AREA_LENGTH - 1) in
    let x := if pos <? SPAWN_AREA_LENGTH then pos else 0 in
    let y := if pos <? SPAWN_AREA_LENGTH then 0 else pos - SPAWN_AREA_LENGTH in
    c <-
      (if color =? 0 then Some (mkCoord x y)
       else if color =? 1 then Some (mkCoord (MAP_WIDTH - 1 - x) y)
       else if color =? 2
       then Some (mkCoord (MAP_WIDTH - 1 - x) (MAP_HEIGHT - 1 - y))
       else if color =? 3 then Some (mkCoord x (MAP_HEIGHT - 1 - y))
       else None) ;;
    Some (set_coord ch (if TestingRules then mkCoord x y else c), rnd1).

Definition CanSpawnCharacter (p : PlayerState) : bool :=
  (Z.of_nat (List.length (characters p)) <? MAX_CHARACTERS_PER_PLAYER)
  && (next_character_index p <? MAX_CHARACTERS_PER_PLAYER_TOTAL).

Definition SpawnCharacter (p : PlayerState) (s : GameState)
  (rnd : RandomGenerator) : option (PlayerState * RandomGenerator) :=
  let '(ch, cs) :=
    StdMap.subscript (next_character_index p) CharacterState_default
      (characters p) in
  '(ch1, rnd1) <- Spawn ch s (color p) rnd ;;
  Some (set_next_character_index
          (set_characters p (StdMap.assign (next_character_index p) ch1 cs))
          (next_character_index p + 1),
        rnd1).

End Collecting.

Section Hearts.
Context `{ForkGate} `{GameMap} `{Random} `{Header}.

(** The first loop of [CollectHearts]: for every heart tile the players that
    stand on it and may still spawn, once per character. *)
Definition CollectHearts_scan (s : GameState) : list (Coord * list PlayerID) :=
  fold_left
    (fun acc (p : PlayerID * PlayerState) =>
       if negb (CanSpawnCharacter (snd p)) then acc
       else
         fold_left
           (fun acc (pc : Z * CharacterState) =>
              if StdSet.mem (coord (snd pc)) (hearts s) then
                let '(v, acc1) := StdMap.subscript (coord (snd pc)) [] acc in
                StdMap.assign (coord (snd pc)) (v ++ [fst p]) acc1
              else acc)
           (characters (snd p)) acc)
    (players s) [].

(** The loop [for (;;)] that picks the collector of one heart; every round
    but the last removes one element of [v], which bounds the rounds. *)
Fixpoint CollectHearts_pick (fuel : nat) (s : GameState) (v : list PlayerID)
  (rnd : RandomGenerator) : option (option PlayerID * RandomGenerator) :=
  match v with
  | [] => Some (None, rnd)
  | _ :: _ =>
      let n := Z.of_nat (List.length v) in
      let '(i, rnd1) := if n =? 1 then (0, rnd) else GetIntRnd rnd n in
      chosen <- at_index v i ;;
      pl <- StdMap.find chosen (players s) ;;
      if CanSpawnCharacter pl then Some (Some chosen, rnd1)
      else match fuel with
           | O => None
           | S fuel' =>
               CollectHearts_pick fuel' s (erase_at (Z.to_nat i) v) rnd1
           end
  end.

Definition CollectHearts_tile (t : Coord * list PlayerID)
  (sr : GameState * RandomGenerator) : option (GameState * RandomGenerator) :=
  let '(s, rnd) := sr in
  '(picked, rnd1) <- CollectHearts_pick (List.length (snd t)) s (snd t) rnd ;;
  match picked with
  | None => Some (s, rnd1)
  | Some chosen =>
      pl <- StdMap.find chosen (players s) ;;
      '(pl1, rnd2) <- SpawnCharacter pl s rnd1 ;;
      let s1 := set_players s (StdMap.assign chosen pl1 (players s)) in
      Some (set_hearts s1 (StdSet.erase (fst t) (hearts s1)), rnd2)
  end.

Definition CollectHearts (sr : GameState * RandomGenerator)
  : option (GameState * RandomGenerator) :=
  foreach (CollectHearts_scan (fst sr)) CollectHearts_tile sr.

Definition CollectCrown (respawn_crown : bool) (sr : GameState * RandomGenerator)
  : option (GameState * RandomGenerator) :=
  let '(s, rnd) := sr in
  if negb (String.eqb (player (crownHolder s)) EmptyString) then
    ensure (negb respawn_crown) ;; Some sr
  else
    let '(s1, rnd1) :=
      if respawn_crown then
        let '(a, rnd') := GetIntRnd rnd NUM_CROWN_LOCATIONS in
        (set_crown s (mkCoord (CrownSpawn (2 * a)) (CrownSpawn (2 * a + 1)))
           (crownHolder s), rnd')
      else (s, rnd) in
    let charactersOnCrownTile :=
      flat_map
        (fun p : PlayerID * PlayerState =>
           flat_map
             (fun pc : Z * CharacterState =>
                if Coord_eqb (coord (snd pc)) (crownPos s1)
                then [mkChid (fst p) (fst pc)] else [])
             (characters (snd p)))
        (players s1) in
    let n := Z.of_nat (List.length charactersOnCrownTile) in
    if n =? 0 then Some (s1, rnd1)
    else
      let '(i, rnd2) := if n =? 1 then (0, rnd1) else GetIntRnd rnd1 n in
      holder <- at_index charactersOnCrownTile i ;;
      Some (set_crown s1 (crownPos s1) holder, rnd2).

Definition UpdateAddress (s : GameState) (b : CollectedBounty) : CollectedBounty :=
  match StdMap.find (player (b_character b)) (players s) with
  | None => b
  | Some pl => mkBounty (b_character b) (b_loot b) (address pl)
  end.

End Hearts.

(** ** The passes that no property below reads

    Move validation and move application (game/move.cpp), and the AI passes
    of state.cpp, whose code works on the item slots, waypoints, distance
    tables and message caches kept in [Ext].  A pass answers [None] when it
    halts.  [Pathfinding] is the loop of [PerformStep] around
    [MoveTowardsWaypointX_Merchants] and [MoveTowardsWaypointX_Pathfinder],
    with the generator it seeds from [AI_rng_seed_hashblock].  [Pass0_ext]
    is what [Pass0_CacheDataForGame] leaves in [Ext]; [Pass1_DAO_idle] is
    what [Pass1_DAO] does when the voting merchant is absent, namely reset
    its counters; [Pass1_DAO_voting] is the pass in the presence of that
    merchant.  [Rpg_hearts_spawn] reads the flag of that name. *)
Class Passes `{Random} := {
  Ext : Type;
  MoveExt : Type;
  IsValid : Move MoveExt -> World Ext -> bool;
  Pass0_ext : World Ext -> Ext;
  Pass1_DAO_idle : Ext -> Ext;
  Pass1_DAO_voting : World Ext -> option (World Ext);
  KillSpawnArea : World Ext * StepResult -> option (World Ext * StepResult);
  KillRangedAttacks : World Ext * StepResult -> option (World Ext * StepResult);
  ApplyWaypoints : Move MoveExt -> World Ext -> option (World Ext);
  Pass2_Melee : World Ext -> option (World Ext);
  Pathfinding : World Ext -> option (World Ext);
  Pass3_PaymentAndHitscan : World Ext -> option (World Ext);
  Pass4_Refund : World Ext -> option (World Ext);
  ApplySpawn : Move MoveExt -> World Ext * RandomGenerator
               -> option (World Ext * RandomGenerator);
  ApplyCommon : Move MoveExt -> World Ext -> option (World Ext);
  Rpg_hearts_spawn : Ext -> bool
}.

(** [0, 1, ..., n - 1] and [lo, ..., hi], the index ranges of [for] loops. *)
Definition Z_range (n : Z) : list Z := map Z.of_nat (seq 0 (Z.to_nat n)).

Definition Z_interval (lo hi : Z) : list Z :=
  map (fun i => lo + i) (Z_range (hi - lo + 1)).

(** ** The step *)

Section Step.
Context `{ForkGate} `{GameMap} `{Header} `{Passes}.

(** The part of [Pass0_CacheDataForGame] that fills the caches modelled
    here: merchant existence and last sale, the destruct-message index, the
    minimum version and the dynamic checkpoints. *)
Definition Pass0_merchants (s : GameState) (mc : MerchantCache) : MerchantCache :=
  let cleared :=
    mkMerchants (fun _ => false) (fun _ => 0) (fun _ => 0)
      (Rpgcache_MOf mc) (Rpgcache_MOf_discount mc) (AI_dbg_allow_payments mc) in
  fold_left
    (fun mc (p : PlayerID * PlayerState) =>
       fold_left
         (fun mc (pc : Z * CharacterState) =>
            let ch := snd pc in
            let tmp_m := ai_npc_role ch in
            if IsInsideMap (cx (coord ch)) (cy (coord ch))
               && NPCROLE_IS_MERCHANT tmp_m
               && (1 <=? tmp_m) && (tmp_m <? NUM_MERCHANTS)
            then mkMerchants (upd (Merchant_exists mc) tmp_m true)
                   (Merchant_sats_received mc)
                   (upd (Merchant_last_sale mc) tmp_m (aux_last_sale_block ch))
                   (Rpgcache_MOf mc) (Rpgcache_MOf_discount mc)
                   (AI_dbg_allow_payments mc)
            else mc)
         (characters (snd p)) mc)
    (players s) cleared.

Definition Pass0_checkpoints (s : GameState) (k : CheckpointCache)
  : CheckpointCache :=
  let k1 :=
    if (Gamecache_dyncheckpointheight1 k =? 0)
       && negb (dcpoint_height1 s =? 0)
    then mkCheckpoint (dcpoint_height1 s) (Gamecache_dyncheckpointheight2 k)
           (dcpoint_hash1 s) (Gamecache_dyncheckpointhash2 k)
    else k in
  if (Gamecache_dyncheckpointheight2 k1 =? 0) && negb (dcpoint_height2 s =? 0)
  then mkCheckpoint (Gamecache_dyncheckpointheight1 k1) (dcpoint_height2 s)
         (Gamecache_dyncheckpointhash1 k1) (dcpoint_hash2 s)
  else k1.

Definition Pass0_CacheDataForGame (w : World Ext) : World Ext :=
  let c := cache w in
  let c1 := set_merchants c (Pass0_merchants (state w) (merchants c)) in
  let c2 := set_Huntermsg c1 0 (Huntermsg_destruct c1) in
  let c3 := set_Cache_min_version c2 (dao_MinVersion (state w)) in
  let c4 := set_checkpoints c3 (Pass0_checkpoints (state w) (checkpoints c3)) in
  mkWorld (state w) c4 (Pass0_ext w).

Definition Pass1_DAO (w : World Ext) : option (World Ext) :=
  if Merchant_exists (merchants (cache w)) MERCH_INFO_DEVMODE
  then Pass1_DAO_voting w
  else Some (set_ext w (Pass1_DAO_idle (ext w))).

(** The block of [PerformStep] headed "Dungeon levels part 2".  A division
    by zero ends the process. *)
Definition DungeonLevels (s : GameState) : option (GameState * DungeonCache) :=
  let s1 :=
    if dao_IntervalMonsterApocalypse s <? MIN_GAMEROUND_DURATION
    then set_dao_IntervalMonsterApocalypse s MIN_GAMEROUND_DURATION
    else s in
  let duration := dao_IntervalMonsterApocalypse s1 in
  let blockcount := Z.rem (nHeight s1) duration in
  let start := nHeight s1 - blockcount in
  ensure (negb (dao_DlevelMax s1 + 1 =? 0)) ;;
  let timeslot := duration ÷ (dao_DlevelMax s1 + 1) in
  ensure (negb (timeslot =? 0)) ;;
  let active := blockcount ÷ timeslot in
  Some (s1,
        mkDungeon true duration blockcount start timeslot
          (Z.rem (nHeight s1) timeslot) (start + timeslot * active) active).

(** From the copy of the input state to the end of [Pass1_DAO]. *)
Definition Step_begin (inState : World Ext) (stepData : StepData MoveExt)
  : option (World Ext) :=
  let s0 :=
    set_dead_players_chat
      (set_block (state inState) (nHeight (state inState) + 1)
         (newHash stepData)) [] in
  '(s1, d) <- DungeonLevels s0 ;;
  let c1 :=
    set_AI_rng_seed_hashblock (set_dungeon (cache inState) d)
      (hashBlock (state inState)) in
  Pass1_DAO (Pass0_CacheDataForGame (mkWorld s1 c1 (ext inState))).

(** The loop that pays the fees of the moves into the game fund; the second
    component is [moneyIn]. *)
Definition PayFees_move (m : Move MoveExt) (st : GameState * CAmount)
  : option (GameState * CAmount) :=
  let '(s, moneyIn) := st in
  if negb (m_IsSpawn m) then
    pl <- StdMap.find (m_player m) (players s) ;;
    ensure (lockedCoins pl <=? m_newLocked m) ;;
    let newFee := m_newLocked m - lockedCoins pl in
    let s1 := set_gameFund s (gameFund s + newFee) in
    Some (set_players s1
            (StdMap.assign (m_player m) (set_lockedCoins pl (m_newLocked m))
               (players s1)),
          moneyIn + newFee)
  else Some (s, moneyIn + m_newLocked m).

Definition PayFees (moves : list (Move MoveExt)) (s : GameState)
  : option (GameState * CAmount) :=
  foreach moves PayFees_move (s, 0).

(** The body of the banking loop for one character of player [pId]. *)
Definition Banking_character (s : GameState) (min_version : Z) (pId : PlayerID)
  (addr : string) (pc : Z * CharacterState) (step : StepResult)
  : option ((Z * CharacterState) * StepResult) :=
  let ch := snd pc in
  if negb (Z.land (ai_state2 ch) AI_STATE2_STASIS =? 0) then Some (pc, step)
  else
    let amount := nAmount (info (loot ch)) in
    onBank <- (if 0 <? amount then IsBank s (coord ch) else Some false) ;;
    if onBank
       || (state_ForkInEffect s FORK_TIMESAVE && (0 <? amount)
           && IsInsideMap (cx (coord ch)) (cy (coord ch))
           && SpawnMap_PLAYER (cy (coord ch)) (cx (coord ch)))
    then
      let nTax := if 2020700 <=? min_version then 0 else amount ÷ 10 in
      let banked := set_nAmount (loot ch) (amount - nTax) in
      Some ((fst pc, set_loot ch CollectedLootInfo_empty),
            push_bounty (mkBounty (mkChid pId (fst pc)) banked addr)
              (add_tax nTax step))
    else Some (pc, step).

Fixpoint Banking_characters (s : GameState) (min_version : Z) (pId : PlayerID)
  (addr : string) (cs : list (Z * CharacterState)) (step : StepResult)
  : option (list (Z * CharacterState) * StepResult) :=
  match cs with
  | [] => Some ([], step)
  | pc :: cs' =>
      '(pc1, step1) <- Banking_character s min_version pId addr pc step ;;
      '(cs1, step2) <- Banking_characters s min_version pId addr cs' step1 ;;
      Some (pc1 :: cs1, step2)
  end.

Fixpoint Banking_players (s : GameState) (min_version : Z)
  (ps : list (PlayerID * PlayerState)) (step : StepResult)
  : option (list (PlayerID * PlayerState) * StepResult) :=
  match ps with
  | [] => Some ([], step)
  | (pId, pl) :: ps' =>
      '(cs1, step1) <-
        Banking_characters s min_version pId (address pl) (characters pl)
          step ;;
      '(ps1, step2) <- Banking_players s min_version ps' step1 ;;
      Some ((pId, set_characters pl cs1) :: ps1, step2)
  end.

Definition Banking (min_version : Z) (sr : GameState * StepResult)
  : option (GameState * StepResult) :=
  '(ps, step) <-
    Banking_players (fst sr) min_version (players (fst sr)) (snd sr) ;;
  Some (set_players (fst sr) ps, step).

(** Lifting of a pass over the consensus state to the world. *)
Definition on_state {R : Type} (f : GameState * R -> option (GameState * R))
  (wr : World Ext * R) : option (World Ext * R) :=
  '(s, r) <- f (state (fst wr), snd wr) ;;
  Some (set_state (fst wr) s, r).

(** What the deterministic part of a step hands over to the rest: the world,
    the result so far, [moneyIn], the attack resolver and [respawn_crown]. *)
Record Banked := mkBanked {
  bk_world : World Ext;
  bk_result : StepResult;
  bk_moneyIn : CAmount;
  bk_attackedTiles : CharactersOnTiles;
  bk_respawn_crown : bool
}.

(** From the fees of the moves to the end of the banking loop. *)
Definition Step_deterministic (w0 : World Ext) (stepData : StepData MoveExt)
  : option Banked :=
  let moves := vMoves stepData in
  '(s1, moneyIn) <- PayFees moves (state w0) ;;
  '(tiles1, c1) <- ApplyAttacks CharactersOnTiles_new s1 moves (cache w0) ;;
  let tiles2 :=
    if state_ForkInEffect s1 FORK_LIFESTEAL
    then DefendMutualAttacks tiles1 s1 else tiles1 in
  '(tiles3, (s2, r2)) <-
    DrawLife tiles2 (Cache_min_version c1) (s1, StepResult_empty) ;;
  wr3 <- KillSpawnArea (mkWorld s2 c1 (ext w0), r2) ;;
  wr4 <- KillRangedAttacks wr3 ;;
  wr5 <- on_state DecrementLife wr4 ;;
  wr6 <- on_state (FinaliseKills (Cache_min_version (cache (fst wr5)))) wr5 ;;
  wr7 <-
    (if IsForkHeight FORK_LIFESTEAL (nHeight (state (fst wr6)))
     then on_state
            (RemoveHeartedCharacters (Cache_min_version (cache (fst wr6)))) wr6
     else Some wr6) ;;
  w8 <-
    foreach moves
      (fun m w => if negb (m_IsSpawn m) then ApplyWaypoints m w else Some w)
      (fst wr7) ;;
  w9 <- Pass2_Melee w8 ;;
  w10 <- Pathfinding w9 ;;
  w11 <- Pass3_PaymentAndHitscan w10 ;;
  w12 <- Pass4_Refund w11 ;;
  let w13 :=
    set_cache w12
      (set_Displaycache_blockheight (cache w12) (nHeight (state w12))) in
  '(s14, respawn_crown) <- UpdateCrownState (state w13) ;;
  '(s15, r15) <-
    Banking (Cache_min_version (cache w13)) (s14, snd wr7) ;;
  Some (mkBanked (set_state w13 s15) r15 moneyIn tiles3 respawn_crown).

(** The loop that gives the dead players in the chat list the colour they
    had in the input state. *)
Fixpoint dead_players_colors (inPlayers : list (PlayerID * PlayerState))
  (dead : list (PlayerID * PlayerState))
  : option (list (PlayerID * PlayerState)) :=
  match dead with
  | [] => Some []
  | (pId, p) :: dead' =>
      pl <- StdMap.find pId inPlayers ;;
      rest <- dead_players_colors inPlayers dead' ;;
      Some ((pId, set_color p (color pl)) :: rest)
  end.

(** The amounts of the treasure: the crown bonus and the share of harvest
    area [i]. *)
Definition crown_bonus_of (treasure : CAmount) : CAmount :=
  (CROWN_BONUS * treasure) ÷ TOTAL_HARVEST.

Definition harvest_share (treasure : CAmount) (i : Z) : CAmount :=
  (HarvestPortions i * treasure) ÷ TOTAL_HARVEST.

(** One round of the loop over the harvest areas; the second component of
    the accumulator is [nTotalTreasure]. *)
Definition DropTreasure_area (treasure : CAmount) (i : Z)
  (st : GameState * RandomGenerator * CAmount)
  : option (GameState * RandomGenerator * CAmount) :=
  let '(s, rnd, nTotalTreasure) := st in
  let '(a, rnd1) := GetIntRnd rnd (HarvestAreaSizes i) in
  let harvest := mkCoord (HarvestAreas i (2 * a)) (HarvestAreas i (2 * a + 1)) in
  let nTreasure := harvest_share treasure i in
  Some (AddLoot harvest nTreasure s, rnd1, nTotalTreasure + nTreasure).

(** The block of [PerformStep] headed "Drop a random rewards onto the
    harvest areas"; the result carries [nCrownBonus].  A division by zero
    ends the process. *)
Definition DropTreasure (treasure : CAmount) (sr : GameState * RandomGenerator)
  : option (GameState * RandomGenerator * CAmount) :=
  ensure (negb (TOTAL_HARVEST =? 0)) ;;
  let nCrownBonus := crown_bonus_of treasure in
  '(s, rnd, nTotalTreasure) <-
    foreach (Z_range NUM_HARVEST_AREAS) (DropTreasure_area treasure)
      (fst sr, snd sr, 0) ;;
  ensure (nTotalTreasure + nCrownBonus =? treasure) ;;
  Some (s, rnd, nCrownBonus).

(** The block headed "dynamic checkpoint". *)
Definition DynamicCheckpoint (w : World Ext) : World Ext :=
  let s := state w in
  let k := checkpoints (cache w) in
  if negb (IsNull (hashBlock s))
     && (Z.rem (nHeight s) 500 =? 0)
     && (Gamecache_dyncheckpointheight1 k <=? nHeight s)
  then
    let '(s1, k1) :=
      if Gamecache_dyncheckpointheight1 k <? nHeight s
      then (set_dcpoint2 s (Gamecache_dyncheckpointheight1 k)
              (Gamecache_dyncheckpointhash1 k),
            mkCheckpoint (Gamecache_dyncheckpointheight1 k)
              (Gamecache_dyncheckpointheight1 k)
              (Gamecache_dyncheckpointhash1 k)
              (Gamecache_dyncheckpointhash1 k))
      else (s, k) in
    mkWorld (set_dcpoint1 s1 (nHeight s) (hashBlock s))
      (set_checkpoints (cache w)
         (mkCheckpoint (nHeight s) (Gamecache_dyncheckpointheight2 k1)
            (hashBlock s) (Gamecache_dyncheckpointhash2 k1)))
      (ext w)
  else w.

(** The block headed "custom heart spawn". *)
Definition DropHeart_custom (hearts_spawn : bool)
  (sr : GameState * RandomGenerator) : option (GameState * RandomGenerator) :=
  if hearts_spawn then
    ensure (negb (state_ForkInEffect (fst sr) FORK_LIFESTEAL)) ;;
    let '(x, rnd1) := GetIntRnd (snd sr) MAP_WIDTH in
    let '(y, rnd2) := GetIntRnd rnd1 MAP_HEIGHT in
    let is_near_poi :=
      IsInsideMap x y && IsWalkable x y
      && existsb (fun k => (Distance_To_POI k y x <=? 12)
                           && (0 <? Distance_To_POI k y x))
           (Z_interval POIINDEX_NORMAL_FIRST POIINDEX_NORMAL_LAST) in
    if is_near_poi
    then Some (set_hearts (fst sr)
                 (StdSet.insert (mkCoord x y) (hearts (fst sr))), rnd2)
    else Some (fst sr, rnd2)
  else Some sr.

(** [moneyOut]: the tax and every bounty paid. *)
Definition moneyOut_of (step : StepResult) : CAmount :=
  fold_left (fun acc b => acc + nAmount (info (b_loot b))) (bounties step)
    (nTaxAmount step).

(** The passes seeded from the new block hash, from the disaster test to
    [CollectCrown]. *)
Definition Step_random (inState : World Ext) (stepData : StepData MoveExt)
  (b : Banked) : option (World Ext * StepResult) :=
  let w := bk_world b in
  let moves := vMoves stepData in
  let rnd := RandomGenerator_new (hashBlock (state w)) in
  let '(isDisaster, rnd0) := CheckForDisaster (state w) rnd in
  '(s1, rnd1) <-
    (if isDisaster then
       '(s, r) <- ApplyDisaster (state w) rnd0 ;;
       ensure (nHeight s =? nDisasterHeight s) ;;
       Some (s, r)
     else Some (state w, rnd0)) ;;
  '(s2, rnd2) <-
    (if state_ForkInEffect s1 FORK_LIFESTEAL
     then DistributeDrawnLife (bk_attackedTiles b) (s1, rnd1)
     else Some (s1, rnd1)) ;;
  '(w3, rnd3) <-
    foreach moves
      (fun m wr => if m_IsSpawn m then ApplySpawn m wr else Some wr)
      (set_state w s2, rnd2) ;;
  w4 <- foreach moves ApplyCommon w3 ;;
  let r4 :=
    set_bounties (bk_result b)
      (map (UpdateAddress (state w4)) (bounties (bk_result b))) in
  dead <-
    dead_players_colors (players (state inState))
      (dead_players_chat (state w4)) ;;
  let s5 := set_dead_players_chat (state w4) dead in
  '(s6, rnd6, nCrownBonus) <-
    DropTreasure (nTreasureAmount stepData) (s5, rnd3) ;;
  s7 <- DivideLootAmongPlayers s6 ;;
  s8 <- CrownBonus nCrownBonus s7 ;;
  let w9 := DynamicCheckpoint (set_state w4 s8) in
  '(s10, rnd10) <- UpdateBanks (state w9) rnd6 ;;
  '(s11, rnd11) <- DropHeart_custom (Rpg_hearts_spawn (ext w9)) (s10, rnd10) ;;
  '(s12, rnd12) <- CollectHearts (s11, rnd11) ;;
  '(s13, _) <- CollectCrown (bk_respawn_crown b) (s12, rnd12) ;;
  Some (set_state w9 s13, r4).

(** How a call of [PerformStep] ends: the process halts, the call returns
    [false], or it returns [true] with the new world and the step result. *)
Inductive StepOutcome :=
  | Halted
  | Rejected
  | Accepted (outState : World Ext) (stepResult : StepResult).

(** The comparison that closes [PerformStep]. *)
Definition money_balanced (inState outState : GameState)
  (stepData : StepData MoveExt) (moneyIn : CAmount) (step : StepResult) : bool :=
  let moneyBefore := GetCoinsOnMap inState + gameFund inState in
  let moneyAfter := GetCoinsOnMap outState + gameFund outState in
  moneyBefore + nTreasureAmount stepData + moneyIn
  =? moneyAfter + moneyOut_of step.

Definition PerformStep (inState : World Ext) (stepData : StepData MoveExt)
  : StepOutcome :=
  if negb (forallb (fun m => IsValid m inState) (vMoves stepData))
  then Rejected
  else
    match Step_begin inState stepData with
    | None => Halted
    | Some w1 =>
        if STATE_VERSION <? dao_MinVersion (state w1) then Rejected
        else
          match Step_deterministic w1 stepData with
          | None => Halted
          | Some b =>
              if IsNull (hashBlock (state (bk_world b)))
              then Accepted (bk_world b) (bk_result b)
              else
                match Step_random inState stepData b with
                | None => Halted
                | Some (w2, step) =>
                    if money_balanced (state inState) (state w2) stepData
                         (bk_moneyIn b) step
                    then Accepted w2 step
                    else Rejected
                end
          end
    end.

End Step.

(** ** A small world to run the definitions on

    Instances of the outside declarations with a toy map, a generator that
    reads its draws off the digits of its seed, and AI passes that do
    nothing.  They serve the examples below; no general statement depends on
    them. *)

Module Demo.

Definition forks_none : ForkGate :=
  {| ForkInEffect := fun _ _ => false;
     IsForkHeight := fun _ _ => false;
     TestingRules := false |}.

Definition forks_all : ForkGate :=
  {| ForkInEffect := fun _ _ => true;
     IsForkHeight := fun _ _ => false;
     TestingRules := false |}.

Definition random : Random :=
  {| RandomGenerator := Z;
     RandomGenerator_new := fun h => h;
     GetIntRnd := fun r n => if n <=? 0 then (0, r) else (r mod n, r / n) |}.

Definition row (y : Z) (n : nat) : list Coord :=
  map (fun i => mkCoord (Z.of_nat i) y) (seq 0 n).

Definition map : GameMap :=
  {| MAP_WIDTH := 502;
     MAP_HEIGHT := 502;
     Coord_ltb := fun a b =>
       (cy a <? cy b) || ((cy a =? cy b) && (cx a <? cx b));
     IsInsideMap := fun x y =>
       (0 <=? x) && (x <? 502) && (0 <=? y) && (y <? 502);
     IsWalkable := fun _ _ => true;
     Distance_To_POI := fun _ _ _ => -1;
     POIINDEX_NORMAL_FIRST := 9;
     POIINDEX_NORMAL_LAST := 96;
     IsOriginalSpawnArea := fun x y =>
       (((x =? 0) || (x =? 501)) && ((y <? 15) || (487 <=? y)))
       || (((y =? 0) || (y =? 501)) && ((x <? 15) || (487 <=? x)));
     SpawnMap_PLAYER := fun _ _ => false;
     walkableTiles := row 1 100 ++ row 2 100;
     walkableTiles_ts_players := row 1 100;
     walkableTiles_ts_banks := row 2 100;
     NUM_HARVEST_AREAS := 2;
     HarvestAreaSizes := fun _ => 1;
     HarvestAreas := fun i j => 200 + 10 * i + j;
     HarvestPortions := fun i => if i =? 0 then 500 else 375;
     CROWN_BONUS := 25;
     TOTAL_HARVEST := 900;
     NUM_CROWN_LOCATIONS := 1;
     CrownSpawn := fun _ => 250 |}.

Definition character_at (c : Coord) (amount : CAmount) : CharacterState :=
  mkCharacter c (mkCollected (mkLoot amount 1 1) 1 1) 0 0 0 0.

Definition header : Header :=
  {| PlayerState_default := mkPlayer 0 0 0 (-1) EmptyString [] 0;
     CharacterState_default := character_at (mkCoord 0 0) 0;
     HUNTERMSG_CACHE_MAX := 10000;
     CharacterID_ToString := fun c => player c;
     CharacterIsProtected := fun n => n <? 0;
     AI_STATE2_STASIS := 1;
     NUM_MERCHANTS := 39;
     NPCROLE_IS_MERCHANT := fun r => (1 <=? r) && (r <? 100);
     MERCH_INFO_DEVMODE := 9;
     MERCH_ARMOR_BUFFCOAT := 11;
     MERCH_ARMOR_LINEN := 12;
     MERCH_ARMOR_SCALE := 13;
     MERCH_ARMOR_SPLINT := 14;
     MERCH_ARMOR_PLATE := 15;
     MERCH_STINKING_CLOUD := 16;
     MERCH_RING_WORD_RECALL := 17;
     MERCH_STAFF_FIREBALL := 18;
     MERCH_STAFF_REAPER := 19;
     MERCH_AMULET_LIFE_SAVING := 20;
     MERCH_RING_IMMORTALITY := 21;
     MERCH_WEAPON_ESTOC := 22;
     MERCH_WEAPON_SWORD := 23;
     MERCH_WEAPON_XBOW := 24;
     MERCH_WEAPON_XBOW3 := 25;
     MERCH_STAFF_LIGHTNING := 26;
     PRICE_RING_IMMORTALITY := 100 |}.

Definition passes : @Passes random :=
  {| Ext := unit;
     MoveExt := unit;
     IsValid := fun _ _ => true;
     Pass0_ext := fun w => ext w;
     Pass1_DAO_idle := fun e => e;
     Pass1_DAO_voting := fun w => Some w;
     KillSpawnArea := fun wr => Some wr;
     KillRangedAttacks := fun wr => Some wr;
     ApplyWaypoints := fun _ w => Some w;
     Pass2_Melee := fun w => Some w;
     Pathfinding := fun w => Some w;
     Pass3_PaymentAndHitscan := fun w => Some w;
     Pass4_Refund := fun w => Some w;
     ApplySpawn := fun _ wr => Some wr;
     ApplyCommon := fun _ w => Some w;
     Rpg_hearts_spawn := fun _ => false |}.

Definition merchants0 : MerchantCache :=
  mkMerchants (fun _ => false) (fun _ => 0) (fun _ => 0) 0 0 true.

Definition cache0 : Cache :=
  mkCache 2020500 merchants0 0 (fun _ => EmptyString)
    (mkDungeon false 2000 0 0 2000 0 0 0) (mkCheckpoint 0 0 0 0) 0 0.

Definition player_with (col : Z) (v : CAmount) (life : Z)
  (cs : list (Z * CharacterState)) : PlayerState :=
  mkPlayer col v v life "addr" cs 1.

Definition game (height : Z) (ps : list (PlayerID * PlayerState))
  (lootMap : list (Coord * LootInfo)) (bs : list (Coord * Z)) (fund : CAmount)
  (minVersion : Z) : GameState :=
  mkGame height (-1) 1 ps [] lootMap [] bs (mkCoord 250 248) no_character fund
    minVersion 0 0 0 0 0 0.

End Demo.

(** ** The wording of the design document

    Definitions that follow the words of the document where those differ in
    form from the code, to be compared with the definitions above. *)

(** The discount ladder on the age of the last sale, in percent of the base
    price. *)
Definition discount_percent (age : Z) : Z :=
  if 10000 <? age then 10
  else if 5000 <? age then 30
  else if 2000 <? age then 50
  else if 1000 <? age then 60
  else if 500 <? age then 70
  else if 200 <? age then 80
  else if 100 <? age then 90
  else 100.

Definition scaled_price (base age : Z) : Z :=
  (base * discount_percent age) ÷ 100.

(** An attack of [attacker] on [victim] is recorded in the tile multiset. *)
Definition recorded_as_attacked (cot : CharactersOnTiles)
  (victim attacker : CharacterID) : Prop :=
  exists c a,
    In (c, a) (tiles cot) /\ chid a = victim /\ In attacker (attackers a).

(** Sum of a list of amounts. *)
Definition Zsum (l : list Z) : Z := fold_right Z.add 0 l.

(** The money on the map: loot tiles, player values and character loot. *)
Definition coins_on_map (s : GameState) : CAmount :=
  Zsum (map (fun l => nAmount (snd l)) (lootOnMap s))
  + Zsum (map (fun p => value (snd p)
                        + Zsum (map (fun pc => nAmount (info (loot (snd pc))))
                                  (characters (snd p))))
            (players s)).

(** The contract of the generator: a draw from [0, n) for [n >= 1] lies in
    that range. *)
Definition RandomContract `{Random} : Prop :=
  forall (rnd : RandomGenerator) (n : Z),
    0 < n -> 0 <= fst (GetIntRnd rnd n) < n.

(** [n] successive draws from [lo, hi], and the generator after them. *)
Fixpoint draws `{Random} (n : nat) (lo hi : Z) (rnd : RandomGenerator)
  : list Z * RandomGenerator :=
  match n with
  | O => ([], rnd)
  | S n' =>
      let '(r, rnd1) := GetIntRnd_range rnd lo hi in
      let '(rs, rnd2) := draws n' lo hi rnd1 in
      (r :: rs, rnd2)
  end.

(** What [ApplyDisaster] does to a player. *)
Definition poisoned_from (old new : PlayerID * PlayerState) : Prop :=
  fst new = fst old /\
  POISON_MIN_LIFE <= remainingLife (snd new) <= POISON_MAX_LIFE /\
  snd new = set_remainingLife (snd old) (remainingLife (snd new)).

(** What [DecrementLife] does to a player. *)
Definition aged_from (old new : PlayerID * PlayerState) : Prop :=
  fst new = fst old /\
  snd new = (if remainingLife (snd old) =? -1 then snd old
             else set_remainingLife (snd old) (remainingLife (snd old) - 1)).

(** The players whose remaining life drops to zero in this step. *)
Definition dies_now (ps : list (PlayerID * PlayerState)) (id : PlayerID) : Prop :=
  exists p, In (id, p) ps /\ remainingLife p = 1.

(** The player whose character stands on a tile of the resolver. *)
Definition victim_of (t : Coord * AttackableCharacter) : PlayerID :=
  player (chid (snd t)).

(** What [DrawLife] with life steal makes of one tile [t] of the resolver:
    [s] and [res] are the state and the step result before, [s'], [res'] and
    [t'] the state, the step result and the tile after. *)
Definition life_drawn (damage : CAmount) (s s' : GameState)
  (res res' : StepResult) (t t' : Coord * AttackableCharacter) : Prop :=
  fst t' = fst t /\
  chid (snd t') = chid (snd t) /\
  attackers (snd t') = attackers (snd t) /\
  (attackers (snd t) = [] -> snd t' = snd t) /\
  (attackers (snd t) <> [] ->
   exists victim victim',
     StdMap.find (victim_of t) (players s) = Some victim /\
     StdMap.find (victim_of t) (players s') = Some victim' /\
     let drawn :=
       Z.min (damage * Z.of_nat (List.length (attackers (snd t))))
         (value victim) in
     let rest := value victim - drawn in
     (damage <= rest ->
      value victim' = rest /\
      drawnLife (snd t') = drawn /\
      characters victim' = characters victim /\
      (In (victim_of t) (killedPlayers res') ->
       In (victim_of t) (killedPlayers res))) /\
     (rest < damage ->
      value victim' = 0 /\
      drawnLife (snd t') = drawn + rest /\
      In (victim_of t) (killedPlayers res') /\
      StdMap.find 0 (characters victim') = None)).

(** The entry [ApplyAttacks] makes in the destruct-message cache for one
    destructing character, and the destructing characters of a move: the
    indices of its destruct list that name a character of the player. *)
Definition note_destruct `{Header} (c : Cache) (id : CharacterID) : Cache :=
  if Huntermsg_idx_destruct c <? HUNTERMSG_CACHE_MAX - 1
  then set_Huntermsg c (Huntermsg_idx_destruct c + 1)
         (upd (Huntermsg_destruct c) (Huntermsg_idx_destruct c)
            (CharacterID_ToString id))
  else c.

Definition destructing {MoveExt : Type} (s : GameState) (m : Move MoveExt)
  : list CharacterID :=
  match StdMap.find (m_player m) (players s) with
  | None => []
  | Some pl =>
      map (mkChid (m_player m))
        (filter (fun i => 0 <? StdMap.count i (characters pl)) (m_destruct m))
  end.

(** The tiles new banks are drawn from at the height of a state. *)
Definition bank_pool `{ForkGate} `{GameMap} (s : GameState) : list Coord :=
  if state_ForkInEffect s FORK_TIMESAVE then walkableTiles_ts_banks
  else walkableTiles.

(** The invariant of the dynamic banks: the fixed number of entries on
    distinct tiles of the pool, each with a remaining life in [1, 100]. *)
Definition banks_ok (pool : list Coord) (bs : list (Coord * Z)) : Prop :=
  Z.of_nat (List.length bs) = DYNBANKS_NUM_BANKS /\
  NoDup (map fst bs) /\
  (forall c l, In (c, l) bs -> 1 <= l <= DYNBANKS_MAX_LIFE /\ In c pool).

(** What [UpdateBanks] expects of the banks it finds: nothing at the height
    of the LIFESTEAL fork, where it starts from no banks; otherwise the
    invariant, where the tiles need not lie in the pool at the height of the
    TIMESAVE fork, at which all banks are dropped. *)
Definition banks_expected `{ForkGate} `{GameMap} (s : GameState) : Prop :=
  IsForkHeight FORK_LIFESTEAL (nHeight s) = true \/
  (Z.of_nat (List.length (banks s)) = DYNBANKS_NUM_BANKS /\
   NoDup (map fst (banks s)) /\
   (forall c l, In (c, l) (banks s) ->
      1 <= l <= DYNBANKS_MAX_LIFE /\
      (IsForkHeight FORK_TIMESAVE (nHeight s) = true \/ In c (bank_pool s)))).

(** Whether the banks of the state before are carried over at its height. *)
Definition banks_carried_over `{ForkGate} (s : GameState) : bool :=
  negb (IsForkHeight FORK_LIFESTEAL (nHeight s))
  && negb (IsForkHeight FORK_TIMESAVE (nHeight s)).

(** The banks that outlive a step: every bank with more than one block
    left, with one block less; none where the banks are not carried over. *)
Definition banks_kept `{ForkGate} (s : GameState) : list (Coord * Z) :=
  if banks_carried_over s
  then map (fun b => (fst b, snd b - 1))
         (filter (fun b => 1 <? snd b) (banks s))
  else [].

(** The tiles open to new banks: the pool as an ordered set, without the
    tiles of the banks kept. *)
Definition bank_options `{ForkGate} `{GameMap} (s : GameState) : list Coord :=
  filter (fun c => negb (StdSet.mem c (map fst (banks_kept s))))
    (set_of_tiles (bank_pool s)).

(** [Coord::operator<], which orders the set of the options, is declared
    outside the sources; [std::set] asks of it a strict order, which on
    tiles that differ decides one way or the other. *)
Record coord_order `{GameMap} : Prop := {
  Coord_ltb_irrefl : forall a, Coord_ltb a a = false;
  Coord_ltb_trans : forall a b c,
    Coord_ltb a b = true -> Coord_ltb b c = true -> Coord_ltb a c = true;
  Coord_ltb_total : forall a b,
    a <> b -> Coord_ltb a b = true \/ Coord_ltb b a = true
}.

(** A list of tiles in ascending order: every tile is less than every tile
    behind it. *)
Fixpoint ascending `{GameMap} (l : list Coord) : Prop :=
  match l with
  | [] => True
  | c :: l' => (forall d, In d l' -> Coord_ltb c d = true) /\ ascending l'
  end.

(** Sampling without replacement: [todo] times an index below the number of
    the options left and then a life from [25, 100] are drawn; the tile at
    the index becomes a bank and leaves the options, the tiles behind it
    moving up by one place.  The result holds the banks in the order in
    which they were drawn and the generator after the last draw. *)
Fixpoint bank_draws `{Random} (todo : nat) (options : list Coord)
  (rng : RandomGenerator) : list (Coord * Z) * RandomGenerator :=
  match todo with
  | O => ([], rng)
  | S todo' =>
      let drawn := GetIntRnd rng (Z.of_nat (List.length options)) in
      let pos := Z.to_nat (fst drawn) in
      let life :=
        GetIntRnd_range (snd drawn) DYNBANKS_MIN_LIFE DYNBANKS_MAX_LIFE in
      let rest :=
        bank_draws todo' (firstn pos options ++ skipn (S pos) options)
          (snd life) in
      ((nth pos options (mkCoord 0 0), fst life) :: fst rest, snd rest)
  end.

(** The banks [bs] and the generator [rng'] that the refill leaves at the
    state [s] when it starts from the generator [rng]: the banks kept and
    the banks drawn to make up the number. *)
Definition refilled `{ForkGate} `{GameMap} `{Random} (s : GameState)
  (rng : RandomGenerator) (bs : list (Coord * Z)) (rng' : RandomGenerator)
  : Prop :=
  let todo :=
    Z.to_nat (DYNBANKS_NUM_BANKS - Z.of_nat (List.length (banks_kept s))) in
  let drawn := bank_draws todo (bank_options s) rng in
  rng' = snd drawn /\
  forall b, In b bs <-> In b (banks_kept s) \/ In b (fst drawn).

(** The tile at position [a] of the table of harvest area [i], and the state
    after the shares of the areas [areas] were put on the tiles at the
    positions [picks]. *)
Definition harvest_tile `{GameMap} (i a : Z) : Coord :=
  mkCoord (HarvestAreas i (2 * a)) (HarvestAreas i (2 * a + 1)).

Fixpoint drop_shares `{GameMap} (treasure : CAmount) (areas picks : list Z)
  (s : GameState) : GameState :=
  match areas, picks with
  | i :: areas', a :: picks' =>
      drop_shares treasure areas' picks'
        (AddLoot (harvest_tile i a) (harvest_share treasure i) s)
  | _, _ => s
  end.

(** The positions drawn for the harvest areas [areas]: one draw below the
    size of each area in turn, each from the generator the draw before has
    left; and the generator after the last draw. *)
Fixpoint harvest_draws `{GameMap} `{Random} (areas : list Z)
  (rnd : RandomGenerator) : list Z * RandomGenerator :=
  match areas with
  | [] => ([], rnd)
  | i :: areas' =>
      let drawn := GetIntRnd rnd (HarvestAreaSizes i) in
      let rest := harvest_draws areas' (snd drawn) in
      (fst drawn :: fst rest, snd rest)
  end.

(** The shares of all harvest areas together with the crown bonus, and the
    portions they are taken from. *)
Definition shares_total `{GameMap} (treasure : CAmount) : CAmount :=
  Zsum (map (harvest_share treasure) (Z_range NUM_HARVEST_AREAS))
  + crown_bonus_of treasure.

Definition portions_total `{GameMap} : Z :=
  Zsum (map HarvestPortions (Z_range NUM_HARVEST_AREAS)) + CROWN_BONUS.

(** [moneyOut] in the words of the document: the tax and the bounties
    paid. *)
Definition money_out (step : StepResult) : CAmount :=
  nTaxAmount step
  + Zsum (map (fun b => nAmount (info (b_loot b))) (bounties step)).

(** The coins every player has locked, and the locked-coin deltas of the
    moves in their order: a spawn brings the coins it locks, any other move
    what it locks beyond the coins its player has locked so far. *)
Definition locked_of (ps : list (PlayerID * PlayerState))
  : list (PlayerID * CAmount) :=
  map (fun p => (fst p, lockedCoins (snd p))) ps.

Fixpoint locked_deltas {MoveExt : Type} (locked : list (PlayerID * CAmount))
  (moves : list (Move MoveExt)) : list CAmount :=
  match moves with
  | [] => []
  | m :: moves' =>
      if m_IsSpawn m then m_newLocked m :: locked_deltas locked moves'
      else match StdMap.find (m_player m) locked with
           | Some l =>
               (m_newLocked m - l)
               :: locked_deltas
                    (StdMap.assign (m_player m) (m_newLocked m) locked) moves'
           | None => []
           end
  end.

(** The passes kept abstract leave the block hash of the state alone: the
    source assigns [hashBlock] in [PerformStep], from the step data, and in
    the constructor of the state, and nowhere else. *)
Record PassesFrame `{Passes} : Prop := {
  Pass1_DAO_voting_hash : forall w w',
    Pass1_DAO_voting w = Some w' -> hashBlock (state w') = hashBlock (state w);
  KillSpawnArea_hash : forall wr wr',
    KillSpawnArea wr = Some wr' ->
    hashBlock (state (fst wr')) = hashBlock (state (fst wr));
  KillRangedAttacks_hash : forall wr wr',
    KillRangedAttacks wr = Some wr' ->
    hashBlock (state (fst wr')) = hashBlock (state (fst wr));
  ApplyWaypoints_hash : forall m w w',
    ApplyWaypoints m w = Some w' -> hashBlock (state w') = hashBlock (state w);
  Pass2_Melee_hash : forall w w',
    Pass2_Melee w = Some w' -> hashBlock (state w') = hashBlock (state w);
  Pathfinding_hash : forall w w',
    Pathfinding w = Some w' -> hashBlock (state w') = hashBlock (state w);
  Pass3_PaymentAndHitscan_hash : forall w w',
    Pass3_PaymentAndHitscan w = Some w' ->
    hashBlock (state w') = hashBlock (state w);
  Pass4_Refund_hash : forall w w',
    Pass4_Refund w = Some w' -> hashBlock (state w') = hashBlock (state w)
}.

(** What [UpdateBanks] reads of the state: the banks and the height. *)
Definition bank_view (s : GameState) : list (Coord * Z) * Z :=
  (banks s, nHeight s).

(** Nor do they touch the banks or the height: state.cpp writes [banks] in
    [SetOriginalBanks], which the constructor of the state calls, and in
    [UpdateBanks], and [nHeight] in the constructor and on the first lines
    of [PerformStep], and nowhere else; [ApplySpawn] and [ApplyCommon] of
    the moves are declared outside the sources. *)
Record PassesBanks `{Passes} : Prop := {
  Pass1_DAO_voting_banks : forall w w',
    Pass1_DAO_voting w = Some w' ->
    bank_view (state w') = bank_view (state w);
  KillSpawnArea_banks : forall wr wr',
    KillSpawnArea wr = Some wr' ->
    bank_view (state (fst wr')) = bank_view (state (fst wr));
  KillRangedAttacks_banks : forall wr wr',
    KillRangedAttacks wr = Some wr' ->
    bank_view (state (fst wr')) = bank_view (state (fst wr));
  ApplyWaypoints_banks : forall m w w',
    ApplyWaypoints m w = Some w' ->
    bank_view (state w') = bank_view (state w);
  Pass2_Melee_banks : forall w w',
    Pass2_Melee w = Some w' -> bank_view (state w') = bank_view (state w);
  Pathfinding_banks : forall w w',
    Pathfinding w = Some w' -> bank_view (state w') = bank_view (state w);
  Pass3_PaymentAndHitscan_banks : forall w w',
    Pass3_PaymentAndHitscan w = Some w' ->
    bank_view (state w') = bank_view (state w);
  Pass4_Refund_banks : forall w w',
    Pass4_Refund w = Some w' -> bank_view (state w') = bank_view (state w);
  ApplySpawn_banks : forall m wr wr',
    ApplySpawn m wr = Some wr' ->
    bank_view (state (fst wr')) = bank_view (state (fst wr));
  ApplyCommon_banks : forall m w w',
    ApplyCommon m w = Some w' -> bank_view (state w') = bank_view (state w)
}.

(** Modelled from the spec: the fork gate is declared outside the sources.
    Every fork has an activation height; it is in effect from that height
    on, and that height is its fork height. *)
Definition activation_heights `{ForkGate} : Prop :=
  exists height_of : Fork -> Z,
    forall (f : Fork) (h : Z),
      ForkInEffect f h = (height_of f <=? h) /\
      IsForkHeight f h = (h =? height_of f).

(** A chain of steps that [PerformStep] accepts, each on a block whose hash
    is not null: the world after the last step, from the world before the
    first. *)
Inductive chain `{ForkGate} `{GameMap} `{Header} `{Passes}
  : World Ext -> World Ext -> Prop :=
  | chain_start (w : World Ext) : chain w w
  | chain_step (w w1 w2 : World Ext) (stepData : StepData MoveExt)
      (res : StepResult) :
      chain w w1 ->
      IsNull (newHash stepData) = false ->
      PerformStep w1 stepData = Accepted w2 res ->
      chain w w2.

(** What [DrawLife] asserts under life steal of a tile with attackers:
    nothing is drawn yet, the character is a general, and its player is in
    the state with a value that is not negative and, under the LESS_HEARTS
    fork, a remaining life of at least -1. *)
Definition drawable `{ForkGate} (s : GameState)
  (t : Coord * AttackableCharacter) : Prop :=
  attackers (snd t) <> [] ->
  drawnLife (snd t) = 0 /\ index (chid (snd t)) = 0 /\
  exists victim,
    StdMap.find (victim_of t) (players s) = Some victim /\
    0 <= value victim /\
    (state_ForkInEffect s FORK_LESSHEARTS = true -> -1 <= remainingLife victim).

(** The sum of a quantity over the values of a map. *)
Definition total {K V : Type} (g : V -> Z) (m : list (K * V)) : Z :=
  Zsum (map (fun p => g (snd p)) m).

(** The coins a character carries and the coins of a player: its value and
    what its characters carry. *)
Definition carried (c : CharacterState) : CAmount := nAmount (info (loot c)).

Definition player_coins (p : PlayerState) : CAmount :=
  value p + total carried (characters p).

(** The maps of a state hold every key once, as [std::map] does. *)
Definition loot_is_map (s : GameState) : Prop :=
  NoDup (StdMap.keys (lootOnMap s)).

Definition players_is_map (s : GameState) : Prop :=
  NoDup (StdMap.keys (players s)) /\
  forall id p, In (id, p) (players s) -> NoDup (StdMap.keys (characters p)).

(** No loot tile of the state is empty. *)
Definition no_empty_loot (s : GameState) : Prop :=
  forall c l, In (c, l) (lootOnMap s) -> nAmount l <> 0.

(** The coins that have left the players: those on the loot tiles, in the
    game fund, and paid out as tax or bounty. *)
Definition coins_settled (s : GameState) (step : StepResult) : CAmount :=
  total nAmount (lootOnMap s) + gameFund s + money_out step.

(** All the coins a state and a step result account for. *)
Definition coins_accounted (s : GameState) (step : StepResult) : CAmount :=
  coins_on_map s + gameFund s + money_out step.

(** What the death of character [chInd] of a player releases: what the
    character carries and, for the general, the value of the player. *)
Definition released (pl : PlayerState) (pc : Z * CharacterState) : CAmount :=
  carried (snd pc) + (if fst pc =? 0 then value pl else 0).

(** A player left with its general alone. *)
Definition without_hearted (pl : PlayerState) : PlayerState :=
  set_characters pl (filter (fun pc => fst pc =? 0) (characters pl)).

(** [from] is among the attackers of a tile of [to]. *)
Definition attacks_in (cot : CharactersOnTiles) (from to : CharacterID) : Prop :=
  exists t, In t (tiles cot) /\ chid (snd t) = to /\ In from (attackers (snd t)).

(** The life drawn from the attacked characters of a list of tiles. *)
Definition drawn_total (ts : list (Coord * AttackableCharacter)) : CAmount :=
  Zsum (map (fun t => match attackers (snd t) with
                      | [] => 0
                      | _ :: _ => drawnLife (snd t)
                      end) ts).

(** [IsInSpawnArea] of state.cpp: the tiles on the rim of the map that lie
    within [SPAWN_AREA_LENGTH] tiles of a corner. *)
Definition IsInSpawnArea `{GameMap} (x y : Z) : bool :=
  (((x =? 0) || (x =? MAP_WIDTH - 1))
   && ((y <? SPAWN_AREA_LENGTH) || (MAP_HEIGHT - SPAWN_AREA_LENGTH <=? y)))
  || (((y =? 0) || (y =? MAP_HEIGHT - 1))
      && ((x <? SPAWN_AREA_LENGTH) || (MAP_WIDTH - SPAWN_AREA_LENGTH <=? x))).

(** [GetDirection] of state.cpp: the direction from [c1] to [c2] as a key
    of the numeric keypad.  The differences are those of two coordinates of
    the map, far from the ends of [int]. *)
Definition GetDirection (c1 c2 : Coord) : Z :=
  let dx := cx c2 - cx c1 in
  let dy := cy c2 - cy c1 in
  let dx := if dx <? -1 then -1 else if 1 <? dx then 1 else dx in
  let dy := if dy <? -1 then -1 else if 1 <? dy then 1 else dy in
  (1 - dy) * 3 + dx + 2.

(** The corner of the map where the players of a colour spawned before the
    LIFESTEAL fork: yellow top-left, red top-right, green bottom-right, blue
    bottom-left; under the testing rules everyone is yellow. *)
Definition spawn_corner `{ForkGate} `{GameMap} (color : Z) : Coord :=
  if TestingRules then mkCoord 0 0
  else mkCoord (if (color =? 1) || (color =? 2) then MAP_WIDTH - 1 else 0)
               (if (color =? 2) || (color =? 3) then MAP_HEIGHT - 1 else 0).

(** The table of tiles a character spawns on once LIFESTEAL is in effect. *)
Definition spawn_tiles `{ForkGate} `{GameMap} (s : GameState) : list Coord :=
  if state_ForkInEffect s FORK_TIMESAVE then walkableTiles_ts_players
  else walkableTiles.

(** The crown is on the floor, or it is held by a character of the state
    that stands where the crown is. *)
Definition crown_ok (s : GameState) : Prop :=
  player (crownHolder s) = EmptyString \/
  exists pl ch,
    StdMap.find (player (crownHolder s)) (players s) = Some pl /\
    StdMap.find (index (crownHolder s)) (characters pl) = Some ch /\
    coord ch = crownPos s.

(** Two states that differ in the crown at most. *)
Definition same_but_crown (s s' : GameState) : Prop :=
  set_crown s' (crownPos s) (crownHolder s) = s.

(** A player after it spawned characters: the player as before, with the
    characters it had untouched and any new ones under fresh indices. *)
Definition grown_from (pl pl' : PlayerState) : Prop :=
  color pl' = color pl /\ value pl' = value pl /\
  lockedCoins pl' = lockedCoins pl /\ remainingLife pl' = remainingLife pl /\
  address pl' = address pl /\
  next_character_index pl <= next_character_index pl' /\
  forall i, i < next_character_index pl ->
    StdMap.find i (characters pl') = StdMap.find i (characters pl).

(** [SetOriginalBanks] of state.cpp, which the constructor of the state
    calls on its empty map of banks: eight tiles for every distance [d] from
    a corner, then the three checks. *)
Definition original_banks_at `{GameMap} (d : Z) : list Coord :=
  [ mkCoord 0 d; mkCoord d 0;
    mkCoord (MAP_WIDTH - 1) d; mkCoord d (MAP_HEIGHT - 1);
    mkCoord 0 (MAP_HEIGHT - d - 1); mkCoord (MAP_WIDTH - d - 1) 0;
    mkCoord (MAP_WIDTH - 1) (MAP_HEIGHT - d - 1);
    mkCoord (MAP_WIDTH - d - 1) (MAP_HEIGHT - 1) ].

Definition SetOriginalBanks `{GameMap} (banks : list (Coord * Z))
  : option (list (Coord * Z)) :=
  ensure (match banks with [] => true | _ => false end) ;;
  let banks1 :=
    fold_left
      (fun bs d =>
         fold_left (fun bs c => StdMap.insert c 0 bs) (original_banks_at d) bs)
      (Z_range SPAWN_AREA_LENGTH) banks in
  ensure (Z.of_nat (List.length banks1) =? 4 * (2 * SPAWN_AREA_LENGTH - 1)) ;;
  ensure (forallb (fun b => IsOriginalSpawnAreaCoord (fst b) && (snd b =? 0))
            banks1) ;;
  Some banks1.

(** Assignment to [stay_in_spawn_area]. *)
Definition set_stay_in_spawn_area (ch : CharacterState) (n : Z)
  : CharacterState :=
  mkCharacter (coord ch) (loot ch) n (ai_npc_role ch) (ai_state2 ch)
    (aux_last_sale_block ch).

(** The spawn-protection constants and macros of game/state.h. *)
Class SpawnModes := {
  CHARACTER_MODE_LOGOUT : Z;
  CHARACTER_MODE_SPECTATOR_BEGIN : Z;
  CharacterSpawnProtectionAlmostFinished : Z -> bool;
  CharacterNoLogout : Z -> bool
}.

(** [GameState::KillSpawnArea] on the state itself.  [timer] is the first
    half of the loop body: the character with its counter updated, and
    whether the loop goes on to the next character.  [character] is the whole
    body, with the set [toErase]; [player] is the body of the outer loop.
    [min_version] is the file-level [Cache_min_version] that
    [HandleKilledLoot] reads. *)
Module SpawnDeath.
Section Body.
Context `{ForkGate} `{GameMap} `{Header} `{SpawnModes}.

Definition timer (s : GameState) (ch : CharacterState)
  : option (CharacterState * bool) :=
  let stay := stay_in_spawn_area ch in
  if state_ForkInEffect s FORK_TIMESAVE then
    onBank <- IsBank s (coord ch) ;;
    let ch1 :=
      if onBank then set_stay_in_spawn_area ch CHARACTER_MODE_LOGOUT
      else if SpawnMap_PLAYER (cy (coord ch)) (cx (coord ch)) then
        if CharacterSpawnProtectionAlmostFinished stay
        then set_stay_in_spawn_area ch CHARACTER_MODE_SPECTATOR_BEGIN
        else if (Z.rem (nHeight s) 500 <? 490) || (0 <? stay)
             then set_stay_in_spawn_area ch (stay + 1)
             else ch
      else if CharacterIsProtected stay
           then set_stay_in_spawn_area ch (stay + 1)
           else ch in
    Some (ch1, CharacterNoLogout (stay_in_spawn_area ch1))
  else
    onBank <- IsBank s (coord ch) ;;
    if negb onBank then Some (set_stay_in_spawn_area ch 0, true)
    else if negb (Z.land (ai_state2 ch) AI_STATE2_STASIS =? 0)
    then Some (ch, true)
    else
      stillOnBank <- IsBank s (coord ch) ;;
      ensure stillOnBank ;;
      let maxStay := MaxStayOnBank s in
      Some (set_stay_in_spawn_area ch (stay + 1),
            (stay <? maxStay) || (maxStay =? -1)).

Definition character (min_version : Z) (pId : PlayerID)
  (pc : Z * CharacterState) (st : GameState * StepResult * list Z)
  : option (GameState * StepResult * list Z) :=
  let '(s, step, toErase) := st in
  '(ch1, goes_on) <- timer s (snd pc) ;;
  let s1 := assign_character pId (fst pc) ch1 s in
  if goes_on then Some (s1, step, toErase)
  else
    let killer := KilledBy_reason KILLED_SPAWN in
    '(s2, step2) <-
      HandleKilledLoot pId (fst pc) killer min_version (s1, step) ;;
    Some (s2,
          if fst pc =? 0 then KillPlayer pId killer step2 else step2,
          StdSet.insert (fst pc) toErase).

Definition player (min_version : Z) (p : PlayerID * PlayerState)
  (sr : GameState * StepResult) : option (GameState * StepResult) :=
  '(s1, step1, toErase) <-
    foreach (characters (snd p)) (character min_version (fst p))
      (fst sr, snd sr, []) ;;
  pl <- StdMap.find (fst p) (players s1) ;;
  let kept :=
    fold_left (fun cs i => StdMap.erase i cs) toErase (characters pl) in
  Some (set_players s1
          (StdMap.assign (fst p) (set_characters pl kept) (players s1)),
        step1).

Definition KillSpawnArea (min_version : Z) (sr : GameState * StepResult)
  : option (GameState * StepResult) :=
  foreach (players (fst sr)) (player min_version) sr.

End Body.
End SpawnDeath.

(** What becomes of a character in [KillSpawnArea] before the TIMESAVE fork:
    away from the banks its counter is reset; on a bank a character in
    stasis is left alone, and any other stays one block longer, or dies
    ([None]) when it has stayed [maxStay] blocks. *)
Definition spawn_fate `{Header} (onBank : bool) (maxStay : Z)
  (ch : CharacterState) : option CharacterState :=
  if negb onBank then Some (set_stay_in_spawn_area ch 0)
  else if negb (Z.land (ai_state2 ch) AI_STATE2_STASIS =? 0) then Some ch
  else if (stay_in_spawn_area ch <? maxStay) || (maxStay =? -1)
       then Some (set_stay_in_spawn_area ch (stay_in_spawn_area ch + 1))
       else None.

(** Two players that differ in their characters at most. *)
Definition same_but_characters (pl pl' : PlayerState) : Prop :=
  set_characters pl' (characters pl) = pl.

(** ** Sample inputs

    Concrete states, moves and resolvers on the small world, for the
    examples that accompany the properties. *)

Module Sample.

Definition forks_at_lifesteal : ForkGate :=
  {| ForkInEffect := fun _ _ => true;
     IsForkHeight := fun f _ =>
       match f with FORK_LIFESTEAL => true | _ => false end;
     TestingRules := false |}.

Definition general (x y : Z) (amount : CAmount) : list (Z * CharacterState) :=
  [(0, Demo.character_at (mkCoord x y) amount)].

(** A character that carries 5 and finds 10. *)
Definition packed : CharacterState := Demo.character_at (mkCoord 3 3) 5.
Definition found : LootInfo := mkLoot 10 1 1.

(** One player whose general carries 100 and who has 250 locked. *)
Definition fallen_player : PlayerState :=
  Demo.player_with 0 250 (-1) (general 5 5 100).

Definition fallen : GameState :=
  Demo.game 100 [("a"%string, fallen_player)] [] [] 0 0.

Definition by_poison : KilledByInfo := KilledBy_reason KILLED_POISON.

(** Two players that are not poisoned. *)
Definition healthy : GameState :=
  Demo.game 100
    [("a"%string, Demo.player_with 0 250 (-1) (general 5 5 100));
     ("b"%string, Demo.player_with 1 300 (-1) (general 6 5 0))] [] [] 0 0.

(** An attacker and two victims of another colour, one with enough value to
    survive a hit of 100 coins and one without; the resolver holds the two
    attacks. *)
Definition arena : GameState :=
  Demo.game 100
    [("a"%string, Demo.player_with 0 (300 * COIN) (-1) (general 5 5 0));
     ("v"%string, Demo.player_with 1 (250 * COIN) (-1) (general 5 5 7));
     ("w"%string, Demo.player_with 1 (150 * COIN) (-1) (general 5 6 9))] [] [] 0 0.

Definition resolver : CharactersOnTiles :=
  mkTiles
    [(mkCoord 5 5, mkAttackable (mkChid "v"%string 0) 1 0 [mkChid "a"%string 0]);
     (mkCoord 5 6, mkAttackable (mkChid "w"%string 0) 1 0 [mkChid "a"%string 0])]
    true.

(** Two generals of different colour on one tile, some loot on the map and
    a bank; the move by which the first general destructs and locks ten
    more coins, and the data of a block with that move and a treasure of
    900. *)
Definition duel : GameState :=
  Demo.game 100
    [("a"%string, Demo.player_with 0 (200 * COIN) (-1) (general 5 5 0));
     ("v"%string, Demo.player_with 1 (200 * COIN) (-1) (general 5 5 7))]
    [(mkCoord 200 201, mkLoot 40 1 1)] [(mkCoord 9 9, 5)] 0 0.

Definition destruct_move : Move (@MoveExt _ Demo.passes) :=
  mkMove "a"%string (210 * COIN) [0] false tt.

Definition block (hash : uint256) (treasure : CAmount)
  : StepData (@MoveExt _ Demo.passes) :=
  mkStepData hash [destruct_move] treasure.

Definition world (s : GameState) : World (@Ext _ Demo.passes) :=
  mkWorld s Demo.cache0 tt.

(** A general that stands on a bank with 1000 of loot, next to a player
    that moves. *)
Definition banker : GameState :=
  Demo.game 100
    [("a"%string, Demo.player_with 0 (200 * COIN) (-1) (general 5 5 0));
     ("c"%string, Demo.player_with 1 (200 * COIN) (-1) (general 9 9 1000))]
    [(mkCoord 200 201, mkLoot 40 1 1)] [(mkCoord 9 9, 5)] 0 0.

(** A state that asks for a newer version of the rules, and the data of a
    block without moves for a miner. *)
Definition outdated : GameState := Demo.game 100 [] [] [] 0 2020700.

Definition mining : StepData (@MoveExt _ Demo.passes) := mkStepData 0 [] 0.

(** The general of a player. *)
Definition general_of (s : GameState) (p : PlayerID) : option CharacterState :=
  pl <- StdMap.find p (players s) ;; StdMap.find 0 (characters pl).

(** A generator of the small world. *)
Definition seed : @RandomGenerator Demo.random := 123456.

(** A state without banks at the height of the LIFESTEAL fork. *)
Definition bankless : GameState := Demo.game 100 [] [] [] 0 0.

(** A merchant cache in which the buff-coat merchant has sold at 5000, and
    one in which it has not sold yet. *)
Definition sold_at_5000 : MerchantCache :=
  mkMerchants (fun _ => true) (fun _ => 0)
    (fun m => if m =? 11 then 5000 else 0) 0 0 true.

Definition never_sold : MerchantCache :=
  mkMerchants (fun _ => true) (fun _ => 0) (fun _ => 0) 0 0 true.

End Sample.

(** More states of the small world: a general on a loot tile, a player with
    a hearted character, a condemned player, a crown in hand and one on the
    tile of two generals, a heart under them, and a resolver after life was
    drawn from a victim whose attacker stands on the same tile. *)
Module Scene.

Definition harvest : GameState :=
  Demo.game 100
    [("a"%string, Demo.player_with 0 (200 * COIN) (-1) (Sample.general 200 201 3))]
    [(mkCoord 200 201, mkLoot 40 1 1)] [(mkCoord 9 9, 5)] 0 0.

Definition hearted : GameState :=
  Demo.game 100
    [("a"%string,
      Demo.player_with 0 0 (-1)
        [(0, Demo.character_at (mkCoord 5 5) 0);
         (1, Demo.character_at (mkCoord 6 6) 50)])]
    [] [(mkCoord 9 9, 5)] 0 0.

Definition condemned : StepResult :=
  KillPlayer "a"%string Sample.by_poison StepResult_empty.

Definition crowned : GameState :=
  set_crown Sample.banker (mkCoord 250 248) (mkChid "a"%string 0).

Definition crown_on_tile : GameState :=
  set_crown Sample.duel (mkCoord 5 5) no_character.

Definition with_heart : GameState := set_hearts Sample.duel [mkCoord 5 5].

Definition drawn : CharactersOnTiles :=
  mkTiles
    [(mkCoord 5 5, mkAttackable (mkChid "a"%string 0) 0 0 []);
     (mkCoord 5 5,
      mkAttackable (mkChid "v"%string 0) 1 (100 * COIN) [mkChid "a"%string 0])]
    true.

Definition fresh : CharacterState := Demo.character_at (mkCoord 0 0) 0.

(** The spawn-protection macros of the small world, and a general that has
    camped on the bank for thirty blocks next to one that just arrived. *)
Definition modes : SpawnModes :=
  {| CHARACTER_MODE_LOGOUT := 100;
     CHARACTER_MODE_SPECTATOR_BEGIN := -10;
     CharacterSpawnProtectionAlmostFinished := fun n => n =? -1;
     CharacterNoLogout := fun n => n <? 150 |}.

Definition camping : GameState :=
  Demo.game 100
    [("a"%string,
      Demo.player_with 0 (200 * COIN) (-1)
        [(0, mkCharacter (mkCoord 9 9) (mkCollected (mkLoot 0 1 1) 1 1)
               0 0 0 0)]);
     ("c"%string,
      Demo.player_with 1 (200 * COIN) (-1)
        [(0, mkCharacter (mkCoord 9 9) (mkCollected (mkLoot 70 1 1) 1 1)
               30 0 0 0)])]
    [] [(mkCoord 9 9, 5)] 0 0.

(** A fork gate that turns every fork on at height 100. *)
Definition forks_at_100 : ForkGate :=
  {| ForkInEffect := fun _ h => 100 <=? h;
     IsForkHeight := fun _ h => h =? 100;
     TestingRules := false |}.

(** Seventy-five banks on the first tiles of the bank row, five of them in
    their last block, in a state without players a hundred blocks after the
    forks; and a block without moves that brings a treasure of 900. *)
Definition old_banks : list (Coord * Z) :=
  map (fun i => (mkCoord (Z.of_nat i) 2, if (i <? 5)%nat then 1 else 30))
    (seq 0 75).

Definition aged : GameState := Demo.game 200 [] [] old_banks 0 0.

Definition quiet (hash : uint256) : StepData (@MoveExt _ Demo.passes) :=
  mkStepData hash [] 900.

(** A block hash, and generator of the small world, with many digits. *)
Definition rich : uint256 := 3 ^ 160.

Definition rich_seed : @RandomGenerator Demo.random := rich.

(** The small world with harvest areas of four and of three tiles. *)
Definition wide : GameMap :=
  {| MAP_WIDTH := 502;
     MAP_HEIGHT := 502;
     Coord_ltb := @Coord_ltb Demo.map;
     IsInsideMap := @IsInsideMap Demo.map;
     IsWalkable := @IsWalkable Demo.map;
     Distance_To_POI := @Distance_To_POI Demo.map;
     POIINDEX_NORMAL_FIRST := 9;
     POIINDEX_NORMAL_LAST := 96;
     IsOriginalSpawnArea := @IsOriginalSpawnArea Demo.map;
     SpawnMap_PLAYER := @SpawnMap_PLAYER Demo.map;
     walkableTiles := @walkableTiles Demo.map;
     walkableTiles_ts_players := @walkableTiles_ts_players Demo.map;
     walkableTiles_ts_banks := @walkableTiles_ts_banks Demo.map;
     NUM_HARVEST_AREAS := 2;
     HarvestAreaSizes := fun i => 4 - i;
     HarvestAreas := fun i j => 200 + 10 * i + j;
     HarvestPortions := fun i => if i =? 0 then 500 else 375;
     CROWN_BONUS := 25;
     TOTAL_HARVEST := 900;
     NUM_CROWN_LOCATIONS := 1;
     CrownSpawn := fun _ => 250 |}.

(** The state of the block before the forks, with the banks that the
    constructor of the state sets. *)
Definition before_forks : GameState :=
  Demo.game 99 [] []
    (match @SetOriginalBanks Demo.map [] with Some bs => bs | None => [] end)
    0 0.

End Scene.

(** * Properties *)

Unset Implicit Arguments.

(** ** Halting code *)

Lemma bind_Some {A B : Type} (c : option A) (k : A -> option B) (b : B) :
  bind c k = Some b -> exists a, c = Some a /\ k a = Some b.
Proof. destruct c as [a|]; simpl; [eauto | discriminate]. Qed.

Lemma cpp_assert_Some (b : bool) (u : unit) : cpp_assert b = Some u -> b = true.
Proof. destruct b; [reflexivity | discriminate]. Qed.

Lemma ensure_true {B : Type} (b : bool) (k : option B) :
  b = true -> (ensure b ;; k) = k.
Proof. intros ->. reflexivity. Qed.

(** Boolean tests on integers, decided as arithmetic. *)
Ltac Zbool :=
  rewrite ?andb_true_iff, ?orb_true_iff, ?negb_true_iff, ?negb_false_iff,
    ?Z.leb_le, ?Z.ltb_lt, ?Z.eqb_eq, ?Z.eqb_neq, ?Z.leb_gt, ?Z.ltb_ge;
  first [ reflexivity | lia | intuition (first [ reflexivity | lia ]) ].

(** Inversion of a hypothesis [c >>= k = Some b]. *)
Ltac inv_bind H :=
  let a := fresh "a" in
  let Ha := fresh "Ha" in
  apply bind_Some in H; destruct H as (a & Ha & H);
  try (apply cpp_assert_Some in Ha).

(** ** Loot collection *)

Section CollectLootProps.

Lemma Collect_amount (l : CollectedLootInfo) (n : LootInfo) (h : Z) :
  nAmount (info (Collect l n h)) = nAmount (info l) + nAmount n.
Proof. reflexivity. Qed.

(** Whenever [CollectLoot] returns, the remainder is not negative and the
    amounts are conserved. *)
Lemma CollectLoot_returns (ch : CharacterState) (newLoot : LootInfo)
  (nHeight cap : Z) (ch' : CharacterState) (rem : CAmount) :
  CollectLoot ch newLoot nHeight cap = Some (ch', rem) ->
  0 <= rem /\
  nAmount (info (loot ch)) + nAmount newLoot
  = nAmount (info (loot ch')) + rem.
Proof.
  unfold CollectLoot. intros H.
  inv_bind H. inv_bind H. inv_bind H. inv_bind H.
  injection H as <- <-.
  apply andb_prop in Ha. destruct Ha as [Hr _].
  split; [now apply Z.leb_le | now apply Z.eqb_eq].
Qed.

(** A negative amount of new loot trips the first assertion. *)
Lemma CollectLoot_negative (ch : CharacterState) (newLoot : LootInfo)
  (nHeight cap : Z) :
  nAmount newLoot < 0 -> CollectLoot ch newLoot nHeight cap = None.
Proof.
  intros Hneg. unfold CollectLoot.
  set (free := if cap - nAmount (info (loot ch)) <? 0 then 0
               else cap - nAmount (info (loot ch))).
  assert (Hfree : 0 <= free).
  { unfold free. destruct (Z.ltb_spec (cap - nAmount (info (loot ch))) 0); lia. }
  assert (Hle : (nAmount newLoot <=? free) = true) by (apply Z.leb_le; lia).
  rewrite Hle, orb_true_r. simpl.
  assert (Hn : (0 <=? nAmount newLoot) = false) by (apply Z.leb_gt; lia).
  rewrite Hn. reflexivity.
Qed.

End CollectLootProps.

(** C7.  For every character, new loot with a non-negative amount, height
    and carrying capacity, [CollectLoot] returns; it adds the new loot up to
    the free capacity [max 0 (cap - carried)], all of it when the capacity is
    the sentinel -1; the amount carried before plus the new amount equals the
    amount carried after plus the returned remainder, and the remainder is
    not negative.  A character within its capacity stays within it. *)
Theorem CollectLoot_conservation (ch : CharacterState) (newLoot : LootInfo)
  (nHeight cap : Z) :
  0 <= nAmount newLoot ->
  exists ch' rem,
    CollectLoot ch newLoot nHeight cap = Some (ch', rem) /\
    0 <= rem /\
    nAmount (info (loot ch)) + nAmount newLoot
    = nAmount (info (loot ch')) + rem /\
    (cap = -1 -> rem = 0) /\
    (cap <> -1 ->
     nAmount (info (loot ch')) - nAmount (info (loot ch))
     = Z.min (nAmount newLoot) (Z.max 0 (cap - nAmount (info (loot ch))))) /\
    (cap <> -1 -> nAmount (info (loot ch)) <= cap ->
     nAmount (info (loot ch')) <= cap) /\
    coord ch' = coord ch.
Proof.
  intros Hnew. unfold CollectLoot.
  set (carried := nAmount (info (loot ch))).
  set (free := if cap - carried <? 0 then 0 else cap - carried).
  assert (Hfree : free = Z.max 0 (cap - carried)).
  { unfold free. destruct (Z.ltb_spec (cap - carried) 0); lia. }
  destruct (Z.eqb_spec cap (-1)) as [Hcap | Hcap]; simpl.
  - (* unlimited *)
    do 2 eexists. split.
    + repeat rewrite ensure_true by (simpl; fold carried; Zbool).
      reflexivity.
    + simpl. fold carried. repeat split; try lia; congruence.
  - destruct (Z.leb_spec (nAmount newLoot) free) as [Hfit | Hover]; simpl.
    + (* everything fits *)
      do 2 eexists. split.
      * repeat rewrite ensure_true by (simpl; fold carried; Zbool).
        reflexivity.
      * simpl. fold carried. repeat split; try lia; congruence.
    + (* only the free capacity is taken *)
      assert (Hpos : (0 <? nAmount newLoot - free) = true) by Zbool.
      rewrite Hpos. simpl.
      do 2 eexists. split.
      * repeat rewrite ensure_true by (simpl; fold carried; Zbool).
        reflexivity.
      * simpl. fold carried. repeat split; try lia; congruence.
Qed.

(** ** Merchant prices *)

Section MerchantProps.
Context `{Header}.

Lemma scale_tenths (base k p : Z) :
  p = k * 10 -> (base * k) ÷ 10 = (base * p) ÷ 100.
Proof.
  intros ->.
  replace (base * (k * 10)) with (base * k * 10) by ring.
  change 100 with (10 * 10).
  symmetry. apply Z.quot_mul_cancel_r; discriminate.
Qed.

Lemma scale_tenth (base : Z) : base ÷ 10 = (base * 10) ÷ 100.
Proof.
  rewrite <- (scale_tenths base 1 10) by reflexivity.
  now rewrite Z.mul_1_r.
Qed.

(** With a positive height and a positive last sale the offer is the base
    price on the ladder. *)
Lemma Rpg_getMerchantOffer_discounted (mc : MerchantCache) (m h : Z) :
  0 < h -> 0 < Merchant_last_sale mc m ->
  fst (Rpg_getMerchantOffer mc m h)
  = scaled_price (merchant_base_price m) (h - Merchant_last_sale mc m).
Proof.
  intros Hh Hs. unfold Rpg_getMerchantOffer, scaled_price, discount_percent.
  assert (G : ((h <=? 0) || (Merchant_last_sale mc m <=? 0)) = false).
  { apply orb_false_iff. split; apply Z.leb_gt; assumption. }
  rewrite G.
  set (base := merchant_base_price m).
  set (age := h - Merchant_last_sale mc m).
  destruct (10000 <? age); [apply scale_tenth |].
  destruct (5000 <? age); [now apply scale_tenths |].
  destruct (2000 <? age); [now apply scale_tenths |].
  destruct (1000 <? age); [now apply scale_tenths |].
  destruct (500 <? age); [now apply scale_tenths |].
  destruct (200 <? age); [now apply scale_tenths |].
  destruct (100 <? age); [now apply scale_tenths |].
  simpl. symmetry. apply Z.quot_mul. discriminate.
Qed.

(** Without a positive height and a positive last sale there is no
    discount. *)
Lemma Rpg_getMerchantOffer_undiscounted (mc : MerchantCache) (m h : Z) :
  h <= 0 \/ Merchant_last_sale mc m <= 0 ->
  fst (Rpg_getMerchantOffer mc m h) = merchant_base_price m.
Proof.
  intros Hor. unfold Rpg_getMerchantOffer.
  assert (G : ((h <=? 0) || (Merchant_last_sale mc m <=? 0)) = true)
    by (destruct Hor; Zbool).
  rewrite G. reflexivity.
Qed.

Lemma Rpg_getMerchantOffer_cache (mc : MerchantCache) (m h : Z) :
  Rpgcache_MOf (snd (Rpg_getMerchantOffer mc m h))
  = fst (Rpg_getMerchantOffer mc m h).
Proof.
  unfold Rpg_getMerchantOffer.
  destruct (if (h <=? 0) || (Merchant_last_sale mc m <=? 0)
            then _ else _) as [price discount].
  reflexivity.
Qed.

(** A buyer whose loot is below the offer keeps slot and loot. *)
Lemma AI_BUY_FROM_MERCHANT_cannot_afford (S I M out_height : Z)
  (lootAmount : CAmount) (mc : MerchantCache) :
  lootAmount < fst (Rpg_getMerchantOffer mc M out_height) * COIN ->
  fst (AI_BUY_FROM_MERCHANT S I M out_height lootAmount mc) = (S, lootAmount).
Proof.
  intros Hlow. unfold AI_BUY_FROM_MERCHANT.
  destruct (negb (S =? I) && Merchant_exists mc M); [| reflexivity].
  destruct (Rpg_getMerchantOffer mc M out_height) as [offer mc1].
  simpl in Hlow.
  assert (G : (offer * COIN <=? lootAmount) = false) by (apply Z.leb_gt; lia).
  rewrite G. reflexivity.
Qed.

(** A buyer who can afford the offer of an existing merchant, and does not
    hold the item yet, gets the item and pays the offer. *)
Lemma AI_BUY_FROM_MERCHANT_buys (S I M out_height : Z)
  (lootAmount : CAmount) (mc : MerchantCache) :
  S <> I -> Merchant_exists mc M = true -> AI_dbg_allow_payments mc = true ->
  fst (Rpg_getMerchantOffer mc M out_height) * COIN <= lootAmount ->
  fst (AI_BUY_FROM_MERCHANT S I M out_height lootAmount mc)
  = (I, lootAmount - fst (Rpg_getMerchantOffer mc M out_height) * COIN).
Proof.
  intros Hne Hex Hpay Hok. unfold AI_BUY_FROM_MERCHANT.
  apply Z.eqb_neq in Hne. rewrite Hne, Hex. simpl.
  pose proof (Rpg_getMerchantOffer_cache mc M out_height) as Hc.
  assert (Hp : AI_dbg_allow_payments (snd (Rpg_getMerchantOffer mc M out_height))
               = true).
  { unfold Rpg_getMerchantOffer.
    destruct (if (out_height <=? 0) || (Merchant_last_sale mc M <=? 0)
              then _ else _) as [price discount].
    exact Hpay. }
  destruct (Rpg_getMerchantOffer mc M out_height) as [offer mc1].
  simpl in *.
  assert (G : (offer * COIN <=? lootAmount) = true) by (apply Z.leb_le; lia).
  rewrite G, Hp, Hc. reflexivity.
Qed.

(** C9, as the code has it.  For every merchant [m] and height [h], the
    offer is the base price of the merchant scaled by the discount ladder
    on [h - last_sale] (10, 30, 50, 60, 70, 80, 90 or 100 percent, integer
    arithmetic) when both [h] and the last sale of the merchant are
    positive; it is the full base price when the height or the last sale is
    not positive; and a purchase with loot below the offer changes neither
    the slot nor the loot of the buyer. *)
Theorem merchant_offer_ladder (mc : MerchantCache) (m h : Z) :
  (0 < h -> 0 < Merchant_last_sale mc m ->
   fst (Rpg_getMerchantOffer mc m h)
   = scaled_price (merchant_base_price m) (h - Merchant_last_sale mc m)) /\
  (h <= 0 \/ Merchant_last_sale mc m <= 0 ->
   fst (Rpg_getMerchantOffer mc m h) = merchant_base_price m) /\
  (forall (S I : Z) (lootAmount : CAmount),
     lootAmount < fst (Rpg_getMerchantOffer mc m h) * COIN ->
     fst (AI_BUY_FROM_MERCHANT S I m h lootAmount mc) = (S, lootAmount)).
Proof.
  split; [| split].
  - apply Rpg_getMerchantOffer_discounted.
  - apply Rpg_getMerchantOffer_undiscounted.
  - intros S I lootAmount. apply AI_BUY_FROM_MERCHANT_cannot_afford.
Qed.

End MerchantProps.

Lemma Forall2_impl_in {A B : Type} (R R' : A -> B -> Prop)
  (l : list A) (l' : list B) :
  Forall2 R l l' ->
  (forall x y, In x l -> R x y -> R' x y) ->
  Forall2 R' l l'.
Proof.
  induction 1 as [| x y l l' HR F IH]; intros Himp; constructor.
  - apply Himp; [now left | assumption].
  - apply IH. intros x' y' I. apply Himp. now right.
Qed.

(** ** Ordered containers *)

#[export] Instance string_key_laws : KeyLaws string.
Proof. constructor. exact String.eqb_eq. Qed.

#[export] Instance Z_key_laws : KeyLaws Z.
Proof. constructor. exact Z.eqb_eq. Qed.

Lemma Coord_eqb_eq (a b : Coord) : Coord_eqb a b = true <-> a = b.
Proof.
  unfold Coord_eqb. rewrite andb_true_iff, !Z.eqb_eq.
  destruct a, b; simpl. split; [intros [-> ->]; reflexivity |].
  intros E; injection E; auto.
Qed.

#[export] Instance Coord_key_laws `{GameMap} : KeyLaws Coord.
Proof. constructor. exact Coord_eqb_eq. Qed.

Lemma CharacterID_eqb_eq (a b : CharacterID) :
  CharacterID_eqb a b = true <-> a = b.
Proof.
  unfold CharacterID_eqb. rewrite andb_true_iff, String.eqb_eq, Z.eqb_eq.
  destruct a, b; simpl. split; [intros [-> ->]; reflexivity |].
  intros E; injection E; auto.
Qed.

#[export] Instance CharacterID_key_laws : KeyLaws CharacterID.
Proof. constructor. exact CharacterID_eqb_eq. Qed.

Section ContainerProps.
Context {K V : Type} `{KeyLaws K}.

Lemma keqb_refl (k : K) : keqb k k = true.
Proof. now apply keqb_eq. Qed.

Lemma keqb_neq (a b : K) : keqb a b = false <-> a <> b.
Proof.
  split.
  - intros E ->. rewrite keqb_refl in E. discriminate.
  - intros N. destruct (keqb a b) eqn:E; [| reflexivity].
    apply keqb_eq in E. contradiction.
Qed.

Lemma find_In (k : K) (v : V) (m : list (K * V)) :
  StdMap.find k m = Some v -> In (k, v) m.
Proof.
  induction m as [| [k' v'] m IH]; simpl; [discriminate |].
  destruct (keqb k k') eqn:E.
  - apply keqb_eq in E. subst. intros [= ->]. now left.
  - intros F. right. auto.
Qed.

Lemma find_None (k : K) (m : list (K * V)) :
  StdMap.find k m = None <-> ~ In k (StdMap.keys m).
Proof.
  induction m as [| [k' v'] m IH]; simpl.
  - split; [intros _ [] | reflexivity].
  - destruct (keqb k k') eqn:E.
    + apply keqb_eq in E. subst. split; [discriminate |].
      intros N. exfalso. apply N. now left.
    + apply keqb_neq in E. rewrite IH. split.
      * intros N [E' | I]; [congruence | contradiction].
      * intros N I. apply N. now right.
Qed.

Lemma In_find (k : K) (v : V) (m : list (K * V)) :
  NoDup (StdMap.keys m) -> In (k, v) m -> StdMap.find k m = Some v.
Proof.
  induction m as [| [k' v'] m IH]; simpl; [intros _ [] |].
  intros ND [E | I].
  - injection E as -> ->. now rewrite keqb_refl.
  - inversion ND as [| ? ? Hnot ND']; subst.
    destruct (keqb k k') eqn:E.
    + apply keqb_eq in E. subst. exfalso. apply Hnot.
      change k' with (fst (k', v)). now apply in_map.
    + auto.
Qed.

Lemma find_assign_same (k : K) (v v0 : V) (m : list (K * V)) :
  StdMap.find k m = Some v0 -> StdMap.find k (StdMap.assign k v m) = Some v.
Proof.
  induction m as [| [k' v'] m IH]; simpl; [discriminate |].
  destruct (keqb k k') eqn:E; simpl; rewrite E; auto.
Qed.

Lemma find_assign_other (k k' : K) (v : V) (m : list (K * V)) :
  k' <> k -> StdMap.find k' (StdMap.assign k v m) = StdMap.find k' m.
Proof.
  intros N. induction m as [| [k1 v1] m IH]; simpl; [reflexivity |].
  destruct (keqb k k1) eqn:E; simpl.
  - apply keqb_eq in E. subst k1.
    apply keqb_neq in N. now rewrite N.
  - now rewrite IH.
Qed.

Lemma keys_assign (k : K) (v : V) (m : list (K * V)) :
  StdMap.keys (StdMap.assign k v m) = StdMap.keys m.
Proof.
  induction m as [| [k1 v1] m IH]; simpl; [reflexivity |].
  destruct (keqb k k1); simpl; [reflexivity | now f_equal].
Qed.

Lemma In_place (k : K) (v : V) (m : list (K * V)) (x : K * V) :
  In x (StdMap.place k v m) <-> x = (k, v) \/ In x m.
Proof.
  induction m as [| [k1 v1] m IH]; simpl.
  - intuition congruence.
  - destruct (kltb k k1); simpl; [intuition congruence |].
    rewrite IH. intuition congruence.
Qed.

Lemma length_place (k : K) (v : V) (m : list (K * V)) :
  List.length (StdMap.place k v m) = S (List.length m).
Proof.
  induction m as [| [k1 v1] m IH]; simpl; [reflexivity |].
  destruct (kltb k k1); simpl; [reflexivity | now rewrite IH].
Qed.

Lemma keys_place (k : K) (v : V) (m : list (K * V)) (x : K) :
  In x (StdMap.keys (StdMap.place k v m)) <-> x = k \/ In x (StdMap.keys m).
Proof.
  induction m as [| [k1 v1] m IH]; simpl.
  - intuition congruence.
  - destruct (kltb k k1); simpl; [intuition congruence |].
    unfold StdMap.keys in IH. rewrite IH. intuition congruence.
Qed.

Lemma NoDup_keys_place (k : K) (v : V) (m : list (K * V)) :
  ~ In k (StdMap.keys m) -> NoDup (StdMap.keys m) ->
  NoDup (StdMap.keys (StdMap.place k v m)).
Proof.
  induction m as [| [k1 v1] m IH]; simpl; intros Hn ND.
  - constructor; [intros [] | constructor].
  - destruct (kltb k k1); simpl.
    + constructor; assumption.
    + inversion ND as [| ? ? Hnot ND']; subst. constructor.
      * intros I. apply (keys_place k v m k1) in I.
        destruct I as [-> | I]; [apply Hn; now left | contradiction].
      * apply IH; [| assumption]. intros I. apply Hn. now right.
Qed.

Lemma In_erase (k : K) (m : list (K * V)) (x : K * V) :
  In x (StdMap.erase k m) <-> In x m /\ fst x <> k.
Proof.
  unfold StdMap.erase. rewrite filter_In, negb_true_iff, keqb_neq.
  intuition congruence.
Qed.

Lemma find_erase_same (k : K) (m : list (K * V)) :
  StdMap.find k (StdMap.erase k m) = None.
Proof.
  apply find_None. intros I. apply in_map_iff in I.
  destruct I as (x & E & I). apply In_erase in I. destruct I. congruence.
Qed.

Lemma mem_In (k : K) (s : list K) : StdSet.mem k s = true <-> In k s.
Proof.
  unfold StdSet.mem. rewrite existsb_exists. split.
  - intros (x & I & E). apply keqb_eq in E. now subst.
  - intros I. exists k. split; [assumption | apply keqb_refl].
Qed.

Lemma In_set_place (k : K) (s : list K) (x : K) :
  In x (StdSet.place k s) <-> x = k \/ In x s.
Proof.
  induction s as [| k1 s IH]; simpl.
  - intuition congruence.
  - destruct (kltb k k1); simpl; [intuition congruence |].
    rewrite IH. intuition congruence.
Qed.

Lemma In_set_insert (k : K) (s : list K) (x : K) :
  In x (StdSet.insert k s) <-> x = k \/ In x s.
Proof.
  unfold StdSet.insert. destruct (StdSet.mem k s) eqn:E.
  - apply mem_In in E. intuition congruence.
  - apply In_set_place.
Qed.

End ContainerProps.

(** ** The death tax *)

Section KilledLootProps.
Context `{ForkGate} `{GameMap}.

Lemma HasDeathTax_spec (k : KilledByInfo) :
  HasDeathTax k = true <-> reason k <> KILLED_SPAWN.
Proof.
  unfold HasDeathTax. destruct (reason k); simpl;
    split; intros; congruence.
Qed.

(** What a call of [HandleKilledLoot] that returned has done. *)
Lemma HandleKilledLoot_returned (pId : PlayerID) (chInd : Z)
  (k : KilledByInfo) (min_version : Z) (s s' : GameState)
  (step step' : StepResult) :
  HandleKilledLoot pId chInd k min_version (s, step) = Some (s', step') ->
  exists pc ch drop,
    StdMap.find pId (players s) = Some pc /\
    StdMap.find chInd (characters pc) = Some ch /\
    DropCoins k s pc = Some drop /\
    let refunded := (chInd =? 0) && CanRefund k s pc in
    let amount :=
      nAmount (info (loot ch))
      + (if (chInd =? 0) && negb refunded then value pc else 0) in
    let tax :=
      if HasDeathTax k && (min_version <? 2020700) then amount ÷ 25 else 0 in
    nTaxAmount step' = nTaxAmount step + tax /\
    (reason k = KILLED_SPAWN -> tax = 0) /\
    (2020700 <= min_version -> tax = 0) /\
    (reason k <> KILLED_SPAWN -> min_version < 2020700 -> tax = amount ÷ 25) /\
    s' = (if drop
          then AddLoot
                 (if state_ForkInEffect s FORK_LIFESTEAL then coord ch
                  else PushCoordOutOfSpawnArea (coord ch))
                 (amount - tax) s
          else set_gameFund s (gameFund s + (amount - tax))).
Proof.
  unfold HandleKilledLoot. intros Hret.
  apply bind_Some in Hret. destruct Hret as (pc & Hpc & Hret).
  apply bind_Some in Hret. destruct Hret as (u & _ & Hret).
  apply bind_Some in Hret. destruct Hret as (ch & Hch & Hret).
  apply bind_Some in Hret. destruct Hret as (amount0 & Hamount & Hret).
  apply bind_Some in Hret. destruct Hret as (drop & Hdrop & Hret).
  exists pc, ch, drop.
  split; [assumption |]. split; [assumption |]. split; [assumption |].
  cbv zeta.
  set (refunded := (chInd =? 0) && CanRefund k s pc) in *.
  assert (Ha : amount0
               = nAmount (info (loot ch))
                 + (if (chInd =? 0) && negb refunded then value pc else 0)).
  { destruct ((chInd =? 0) && negb refunded).
    - apply bind_Some in Hamount. destruct Hamount as (u' & _ & Hamount).
      now injection Hamount as <-.
    - injection Hamount as <-. lia. }
  rewrite <- Ha. clear Hamount.
  assert (Htax : nTaxAmount
                   (if HasDeathTax k && (min_version <? 2020700)
                    then add_tax (amount0 ÷ 25)
                           (if refunded
                            then push_bounty
                                   (mkBounty (mkChid pId chInd)
                                      (SetRefund (value pc) (nHeight s))
                                      (address pc)) step
                            else step)
                    else if refunded
                         then push_bounty
                                (mkBounty (mkChid pId chInd)
                                   (SetRefund (value pc) (nHeight s))
                                   (address pc)) step
                         else step)
                 = nTaxAmount step
                   + (if HasDeathTax k && (min_version <? 2020700)
                      then amount0 ÷ 25 else 0)).
  { destruct (HasDeathTax k && (min_version <? 2020700)), refunded;
      simpl; lia. }
  repeat split.
  - destruct drop; simpl in Hret; injection Hret as <- <-; exact Htax.
  - intros Hspawn.
    assert (E : HasDeathTax k = false).
    { unfold HasDeathTax. rewrite Hspawn. reflexivity. }
    rewrite E. reflexivity.
  - intros Hv.
    assert (E : (min_version <? 2020700) = false) by (apply Z.ltb_ge; lia).
    rewrite E, andb_false_r. reflexivity.
  - intros Hreason Hv.
    apply HasDeathTax_spec in Hreason. rewrite Hreason.
    assert (E : (min_version <? 2020700) = true) by (apply Z.ltb_lt; lia).
    rewrite E. reflexivity.
  - destruct drop; simpl in Hret; injection Hret as <- <-;
      destruct (HasDeathTax k && (min_version <? 2020700));
      destruct (state_ForkInEffect s FORK_LIFESTEAL); simpl;
      rewrite ?Z.sub_0_r; reflexivity.
Qed.

(** The assertions of [HandleKilledLoot]: the player and the character are
    there, the value of the player is not negative, a general that is not
    refunded under the LIFESTEAL fork has no value left, and [DropCoins]
    passes its own assertion. *)
Lemma HandleKilledLoot_returns (pId : PlayerID) (chInd : Z)
  (k : KilledByInfo) (min_version : Z) (s : GameState) (step : StepResult)
  (pc : PlayerState) (ch : CharacterState) (drop : bool) :
  StdMap.find pId (players s) = Some pc ->
  0 <= value pc ->
  StdMap.find chInd (characters pc) = Some ch ->
  (chInd = 0 -> CanRefund k s pc = false ->
   state_ForkInEffect s FORK_LIFESTEAL = true -> value pc = 0) ->
  DropCoins k s pc = Some drop ->
  exists s' step',
    HandleKilledLoot pId chInd k min_version (s, step) = Some (s', step').
Proof.
  intros Hpc Hval Hch Hgen Hdrop. unfold HandleKilledLoot.
  rewrite Hpc. cbn [bind]. rewrite ensure_true by (now apply Z.leb_le).
  rewrite Hch. cbn [bind].
  destruct ((chInd =? 0) && negb ((chInd =? 0) && CanRefund k s pc)) eqn:Eg.
  - apply andb_true_iff in Eg. destruct Eg as [E0 En].
    rewrite E0 in En. simpl in En. apply negb_true_iff in En.
    apply Z.eqb_eq in E0.
    rewrite ensure_true.
    + cbn [bind]. rewrite Hdrop. cbn [bind].
      destruct (negb drop); eexists; eexists; reflexivity.
    + destruct (state_ForkInEffect s FORK_LIFESTEAL) eqn:El; [| reflexivity].
      simpl. apply Z.eqb_eq. now apply Hgen.
  - cbn [bind]. rewrite Hdrop. cbn [bind].
    destruct (negb drop); eexists; eexists; reflexivity.
Qed.

(** C10.  For every kill that passes the assertions of [HandleKilledLoot]
    (the player and the character exist, the value of the player is not
    negative, a general that is not refunded under the LIFESTEAL fork has no
    value left, [DropCoins] returns), the function returns and the amount it
    handles is the loot of the character, plus the locked value of the
    player when the character is a general that is not refunded.  For a
    cause other than SPAWN and while the cached minimum version is below
    2020700, a tax of that amount divided by 25 (integer division) is added
    to the tax of the step result and taken off the amount; for the cause
    SPAWN, or from version 2020700 on, the tax of the step result is
    unchanged and the whole amount is handled.  The amount after tax goes to
    the loot of a tile when coins are dropped and to the game fund
    otherwise. *)
Theorem HandleKilledLoot_death_tax (pId : PlayerID) (chInd : Z)
  (k : KilledByInfo) (min_version : Z) (s : GameState) (step : StepResult)
  (pc : PlayerState) (ch : CharacterState) (drop : bool) :
  StdMap.find pId (players s) = Some pc ->
  0 <= value pc ->
  StdMap.find chInd (characters pc) = Some ch ->
  (chInd = 0 -> CanRefund k s pc = false ->
   state_ForkInEffect s FORK_LIFESTEAL = true -> value pc = 0) ->
  DropCoins k s pc = Some drop ->
  let refunded := (chInd =? 0) && CanRefund k s pc in
  let amount :=
    nAmount (info (loot ch))
    + (if (chInd =? 0) && negb refunded then value pc else 0) in
  let tax :=
    if HasDeathTax k && (min_version <? 2020700) then amount ÷ 25 else 0 in
  exists s' step',
    HandleKilledLoot pId chInd k min_version (s, step) = Some (s', step') /\
    nTaxAmount step' = nTaxAmount step + tax /\
    (reason k = KILLED_SPAWN -> tax = 0) /\
    (2020700 <= min_version -> tax = 0) /\
    (reason k <> KILLED_SPAWN -> min_version < 2020700 -> tax = amount ÷ 25) /\
    s' = (if drop
          then AddLoot
                 (if state_ForkInEffect s FORK_LIFESTEAL then coord ch
                  else PushCoordOutOfSpawnArea (coord ch))
                 (amount - tax) s
          else set_gameFund s (gameFund s + (amount - tax))).
Proof.
  intros Hpc Hval Hch Hgen Hdrop.
  destruct (HandleKilledLoot_returns pId chInd k min_version s step pc ch drop
              Hpc Hval Hch Hgen Hdrop) as (s' & step' & E).
  destruct (HandleKilledLoot_returned _ _ _ _ _ _ _ _ E)
    as (pc' & ch' & drop' & Hpc' & Hch' & Hdrop' & Hfacts).
  assert (pc' = pc) by congruence. subst pc'.
  assert (ch' = ch) by congruence. subst ch'.
  assert (drop' = drop) by congruence. subst drop'.
  cbv zeta in *. exists s', step'. split; [exact E | exact Hfacts].
Qed.

End KilledLootProps.

(** ** Disaster and poison *)

Section PoisonProps.
Context `{ForkGate} `{Random}.

Lemma GetIntRnd_range_bounds (rnd : RandomGenerator) (lo hi : Z) :
  RandomContract -> lo <= hi ->
  lo <= fst (GetIntRnd_range rnd lo hi) <= hi.
Proof.
  intros RC Hle. unfold GetIntRnd_range.
  pose proof (RC rnd (hi - lo + 1) ltac:(lia)) as B.
  destruct (GetIntRnd rnd (hi - lo + 1)) as [r rnd']. simpl in *. lia.
Qed.

Lemma ApplyDisaster_players_spec (ps : list (PlayerID * PlayerState)) :
  RandomContract ->
  forall rng : RandomGenerator,
    (forall id p, In (id, p) ps -> remainingLife p = -1) ->
    exists ps' rng',
      ApplyDisaster_players ps rng = Some (ps', rng') /\
      Forall2 poisoned_from ps ps' /\
      map (fun p => remainingLife (snd p)) ps'
      = fst (draws (List.length ps) POISON_MIN_LIFE POISON_MAX_LIFE rng) /\
      rng' = snd (draws (List.length ps) POISON_MIN_LIFE POISON_MAX_LIFE rng).
Proof.
  intros RC. induction ps as [| [id p] ps IH]; intros rng Hall.
  - exists [], rng. simpl. repeat split; constructor.
  - simpl.
    assert (Hp : remainingLife p = -1) by (apply (Hall id); now left).
    rewrite Hp. simpl.
    pose proof (GetIntRnd_range_bounds rng POISON_MIN_LIFE POISON_MAX_LIFE RC
                  ltac:(unfold POISON_MIN_LIFE, POISON_MAX_LIFE; lia)) as B.
    destruct (GetIntRnd_range rng POISON_MIN_LIFE POISON_MAX_LIFE)
      as [life rng1].
    destruct (IH rng1) as (ps' & rng' & E & F & D & R).
    { intros id' p' I. apply (Hall id'). now right. }
    rewrite E. simpl.
    exists ((id, set_remainingLife p life) :: ps'), rng'.
    destruct (draws (List.length ps) POISON_MIN_LIFE POISON_MAX_LIFE rng1)
      as [rs rnd2].
    simpl in *. repeat split; try congruence.
    constructor; [| assumption].
    unfold poisoned_from. simpl. repeat split; lia.
Qed.

(** A player who is poisoned already trips the assertion of
    [ApplyDisaster]. *)
Lemma ApplyDisaster_players_poisoned (ps : list (PlayerID * PlayerState))
  (rng : RandomGenerator) (id : PlayerID) (p : PlayerState) :
  In (id, p) ps -> remainingLife p <> -1 ->
  ApplyDisaster_players ps rng = None.
Proof.
  revert rng. induction ps as [| [id' p'] ps IH]; intros rng I N; [destruct I |].
  simpl. destruct (Z.eqb_spec (remainingLife p') (-1)) as [E | E];
    [| reflexivity].
  simpl. destruct (GetIntRnd_range rng POISON_MIN_LIFE POISON_MAX_LIFE)
    as [life rng1].
  destruct I as [I | I].
  - injection I as -> ->. contradiction.
  - rewrite (IH rng1 I N). reflexivity.
Qed.

Lemma DecrementLife_players_spec (ps : list (PlayerID * PlayerState)) :
  forall step : StepResult,
    (forall id p, In (id, p) ps -> remainingLife p = -1 \/ 0 < remainingLife p) ->
    exists ps' step',
      DecrementLife_players ps step = Some (ps', step') /\
      Forall2 aged_from ps ps' /\
      (forall id, In id (killedPlayers step')
                  <-> In id (killedPlayers step) \/ dies_now ps id) /\
      (forall id kb, In (id, kb) (killedBy step')
                     <-> In (id, kb) (killedBy step)
                         \/ (kb = KilledBy_reason KILLED_POISON
                             /\ dies_now ps id)) /\
      bounties step' = bounties step /\
      nTaxAmount step' = nTaxAmount step.
Proof.
  induction ps as [| [id p] ps IH]; intros step Hall.
  - exists [], step. simpl. repeat split; try constructor; auto.
    + intros [I | (p & [] & _)]; assumption.
    + intros [I | (_ & p & [] & _)]; assumption.
  - simpl.
    assert (Hp : remainingLife p = -1 \/ 0 < remainingLife p)
      by (apply (Hall id); now left).
    assert (Hrest : forall id' p', In (id', p') ps ->
                      remainingLife p' = -1 \/ 0 < remainingLife p')
      by (intros id' p' I; apply (Hall id'); now right).
    destruct (Z.eqb_spec (remainingLife p) (-1)) as [E | E].
    + destruct (IH step Hrest) as (ps' & step' & R & F & KP & KB & B & T).
      rewrite R. simpl. exists ((id, p) :: ps'), step'.
      repeat split; try assumption.
      * constructor; [| assumption].
        unfold aged_from. simpl. rewrite E. auto.
      * intros I. apply KP in I. destruct I as [I | (q & I & L)];
          [now left | right; exists q; split; [now right | assumption]].
      * intros [I | (q & [I | I] & L)]; apply KP.
        -- now left.
        -- injection I as -> ->. lia.
        -- right. exists q. auto.
      * intros I. apply KB in I. destruct I as [I | (Ek & q & I & L)];
          [now left | right; split; [assumption |]; exists q;
                      split; [now right | assumption]].
      * intros [I | (Ek & q & [I | I] & L)]; apply KB.
        -- now left.
        -- injection I as -> ->. lia.
        -- right. split; [assumption |]. exists q. auto.
    + assert (Hpos : (0 <? remainingLife p) = true) by (apply Z.ltb_lt; lia).
      rewrite Hpos. simpl.
      set (step1 := if remainingLife p - 1 =? 0
                    then KillPlayer id (KilledBy_reason KILLED_POISON) step
                    else step).
      destruct (IH step1 Hrest) as (ps' & step' & R & F & KP & KB & B & T).
      rewrite R. simpl.
      exists ((id, set_remainingLife p (remainingLife p - 1)) :: ps'), step'.
      assert (KP1 : forall x, In x (killedPlayers step1)
                              <-> In x (killedPlayers step)
                                  \/ (x = id /\ remainingLife p = 1)).
      { intros x. unfold step1.
        destruct (Z.eqb_spec (remainingLife p - 1) 0) as [Z0 | Z0]; simpl.
        - rewrite In_set_insert. intuition lia.
        - intuition lia. }
      assert (KB1 : forall x kb, In (x, kb) (killedBy step1)
                                 <-> In (x, kb) (killedBy step)
                                     \/ (kb = KilledBy_reason KILLED_POISON
                                         /\ x = id /\ remainingLife p = 1)).
      { intros x kb. unfold step1.
        destruct (Z.eqb_spec (remainingLife p - 1) 0) as [Z0 | Z0]; simpl.
        - rewrite In_place. split.
          + intros [I | I]; [injection I as -> ->; right; repeat split; lia
                            | now left].
          + intros [I | (-> & -> & _)]; [now right | now left].
        - intuition lia. }
      assert (B1 : bounties step1 = bounties step /\
                   nTaxAmount step1 = nTaxAmount step).
      { unfold step1. destruct (remainingLife p - 1 =? 0); auto. }
      destruct B1 as [B1 T1].
      repeat split; try congruence.
      * constructor; [| assumption].
        unfold aged_from. simpl.
        destruct (Z.eqb_spec (remainingLife p) (-1)); [contradiction | auto].
      * intros I. apply KP in I. destruct I as [I | (q & I & L)].
        -- apply KP1 in I. destruct I as [I | [-> L]]; [now left |].
           right. exists p. split; [now left | assumption].
        -- right. exists q. split; [now right | assumption].
      * intros [I | (q & [I | I] & L)]; apply KP.
        -- left. apply KP1. now left.
        -- injection I as -> ->. left. apply KP1. now right.
        -- right. exists q. auto.
      * intros I. apply KB in I. destruct I as [I | (Ek & q & I & L)].
        -- apply KB1 in I. destruct I as [I | (Ek & -> & L)]; [now left |].
           right. split; [assumption |]. exists p. split; [now left | assumption].
        -- right. split; [assumption |]. exists q.
           split; [now right | assumption].
      * intros [I | (Ek & q & [I | I] & L)]; apply KB.
        -- left. apply KB1. now left.
        -- injection I as -> ->. left. apply KB1. right. auto.
        -- right. split; [assumption |]. exists q. auto.
Qed.

End PoisonProps.

Section PoisonTheorem.
Context `{ForkGate} `{Random}.

(** C8.  With a generator that keeps its contract: on a state in which no
    player is poisoned, [ApplyDisaster] returns, gives every player a
    remaining life in [1, 50] (the successive draws of the generator, in
    key order) and changes nothing else of the players, clears the hearts
    exactly when the LESS_HEARTS fork is in effect, and sets the disaster
    height to the current height.  On a state in which every remaining life
    is -1 or positive, [DecrementLife] returns, takes one off the remaining
    life of every poisoned player, leaves the players with remaining life -1
    as they are, and records as killed, with the cause POISON, exactly the
    players whose remaining life reaches zero. *)
Theorem poison_lifecycle (s : GameState) (rng : RandomGenerator)
  (step : StepResult) :
  RandomContract ->
  ((forall id p, In (id, p) (players s) -> remainingLife p = -1) ->
   exists s' rng',
     ApplyDisaster s rng = Some (s', rng') /\
     Forall2 poisoned_from (players s) (players s') /\
     map (fun p => remainingLife (snd p)) (players s')
     = fst (draws (List.length (players s)) POISON_MIN_LIFE POISON_MAX_LIFE rng) /\
     hearts s' = (if state_ForkInEffect s FORK_LESSHEARTS then []
                  else hearts s) /\
     nDisasterHeight s' = nHeight s /\
     nHeight s' = nHeight s) /\
  ((forall id p, In (id, p) (players s) ->
                 remainingLife p = -1 \/ 0 < remainingLife p) ->
   exists s' step',
     DecrementLife (s, step) = Some (s', step') /\
     Forall2 aged_from (players s) (players s') /\
     (forall id, In id (killedPlayers step')
                 <-> In id (killedPlayers step) \/ dies_now (players s) id) /\
     (forall id kb, In (id, kb) (killedBy step')
                    <-> In (id, kb) (killedBy step)
                        \/ (kb = KilledBy_reason KILLED_POISON
                            /\ dies_now (players s) id))).
Proof.
  intros RC. split.
  - intros Hall.
    destruct (ApplyDisaster_players_spec (players s) RC rng Hall)
      as (ps' & rng' & E & F & D & _).
    unfold ApplyDisaster. rewrite E. simpl.
    eexists _, rng'. split; [reflexivity |].
    unfold state_ForkInEffect. simpl.
    destruct (ForkInEffect FORK_LESSHEARTS (nHeight s)); simpl; auto.
  - intros Hall.
    destruct (DecrementLife_players_spec (players s) step Hall)
      as (ps' & step' & E & F & KP & KB & _).
    unfold DecrementLife. simpl. rewrite E. simpl.
    exists (set_players s ps'), step'. auto.
Qed.

End PoisonTheorem.

(** ** The attack resolver *)

Section AttackProps.
Context `{ForkGate} `{GameMap} `{Header}.

Lemma GetNameCoinAmount_ladder (h : Z) :
  (30000 < h -> GetNameCoinAmount h = 20 * COIN) /\
  (20000 < h <= 30000 -> GetNameCoinAmount h = 30 * COIN) /\
  (10000 < h <= 20000 -> GetNameCoinAmount h = 50 * COIN) /\
  (h <= 10000 -> GetNameCoinAmount h = 100 * COIN).
Proof.
  unfold GetNameCoinAmount.
  destruct (Z.ltb_spec 30000 h), (Z.ltb_spec 20000 h), (Z.ltb_spec 10000 h);
    repeat split; intros; try reflexivity; lia.
Qed.

Lemma GetNameCoinAmount_pos (h : Z) : 0 < GetNameCoinAmount h.
Proof.
  unfold GetNameCoinAmount, COIN.
  destruct (30000 <? h), (20000 <? h), (10000 <? h); lia.
Qed.

Lemma AddLoot_frame (c : Coord) (amount : CAmount) (s : GameState) :
  players (AddLoot c amount s) = players s /\
  nHeight (AddLoot c amount s) = nHeight s /\
  hashBlock (AddLoot c amount s) = hashBlock s /\
  gameFund (AddLoot c amount s) = gameFund s /\
  banks (AddLoot c amount s) = banks s.
Proof.
  unfold AddLoot. destruct (amount =? 0); [auto |].
  destruct (StdMap.find c (lootOnMap s)) as [l |]; [| auto].
  destruct (nAmount l + amount =? 0); auto.
Qed.

(** [HandleKilledLoot] writes the loot of the map, the game fund, the
    bounties and the tax, and nothing else. *)
Lemma HandleKilledLoot_frame (pId : PlayerID) (chInd : Z) (k : KilledByInfo)
  (min_version : Z) (s s' : GameState) (step step' : StepResult) :
  HandleKilledLoot pId chInd k min_version (s, step) = Some (s', step') ->
  players s' = players s /\ nHeight s' = nHeight s /\
  hashBlock s' = hashBlock s /\ banks s' = banks s /\
  killedPlayers step' = killedPlayers step /\
  killedBy step' = killedBy step.
Proof.
  unfold HandleKilledLoot. intros Hret.
  apply bind_Some in Hret. destruct Hret as (pc & Hpc & Hret).
  apply bind_Some in Hret. destruct Hret as (u & _ & Hret).
  apply bind_Some in Hret. destruct Hret as (ch & Hch & Hret).
  apply bind_Some in Hret. destruct Hret as (amount0 & Hamount & Hret).
  apply bind_Some in Hret. destruct Hret as (drop & Hdrop & Hret).
  assert (Hstep : forall (b1 b2 : bool) (t : CAmount) (B : CollectedBounty),
    killedPlayers (if b1 then add_tax t (if b2 then push_bounty B step else step)
                   else if b2 then push_bounty B step else step)
    = killedPlayers step /\
    killedBy (if b1 then add_tax t (if b2 then push_bounty B step else step)
              else if b2 then push_bounty B step else step)
    = killedBy step).
  { intros [] [] t B; simpl; auto. }
  destruct drop; simpl in Hret; injection Hret as <- <-.
  - destruct (AddLoot_frame
                (if negb (state_ForkInEffect s FORK_LIFESTEAL)
                 then PushCoordOutOfSpawnArea (coord ch) else coord ch)
                (if HasDeathTax k && (min_version <? 2020700)
                 then amount0 - amount0 ÷ 25 else amount0) s)
      as (P & N & Hh & _ & B).
    repeat split; try assumption; apply Hstep.
  - repeat split; try reflexivity; apply Hstep.
Qed.

Lemma KillPlayer_keeps_killedBy (p : PlayerID) (atts : list CharacterID)
  (x : PlayerID * KilledByInfo) :
  forall res : StepResult,
    In x (killedBy res) ->
    In x (killedBy (fold_left
                      (fun r att => KillPlayer p (KilledBy_character att) r)
                      atts res)).
Proof.
  induction atts as [| a atts IH]; intros res I; simpl; [assumption |].
  apply IH. simpl. apply In_place. now right.
Qed.

Lemma KillPlayer_all_killed (p : PlayerID) (atts : list CharacterID)
  (res : StepResult) :
  let res' :=
    fold_left (fun r att => KillPlayer p (KilledBy_character att) r) atts res in
  (forall q, In q (killedPlayers res')
             <-> In q (killedPlayers res) \/ (q = p /\ atts <> [])) /\
  (forall att, In att atts -> In (p, KilledBy_character att) (killedBy res')).
Proof.
  revert res. induction atts as [| a atts IH]; intros res; simpl.
  - split; [| intros att []].
    intros q. split; [now left | intros [I | [_ N]]; [assumption | congruence]].
  - destruct (IH (KillPlayer p (KilledBy_character a) res)) as [IH1 IH2].
    split.
    + intros q. rewrite IH1. simpl. rewrite In_set_insert. split.
      * intros [[E | I] | [E _]].
        -- right. split; [exact E | discriminate].
        -- now left.
        -- right. split; [exact E | discriminate].
      * intros [I | [E _]]; [left; now right | left; now left].
    + intros att [-> | I]; [| auto].
      apply KillPlayer_keeps_killedBy. simpl. apply In_place. now left.
Qed.

(** One round of [DrawLife] touches the victim of its tile, the loot of the
    map, the game fund and the step result, and nothing else. *)
Lemma DrawLife_tile_frame (lifeSteal : bool) (damage : CAmount)
  (min_version : Z) (a a' : AttackableCharacter) (s s' : GameState)
  (res res' : StepResult) :
  DrawLife_tile lifeSteal damage min_version a (s, res) = Some (a', (s', res')) ->
  nHeight s' = nHeight s /\
  (forall q, q <> player (chid a) ->
             StdMap.find q (players s') = StdMap.find q (players s)) /\
  (forall q, In q (killedPlayers res') ->
             In q (killedPlayers res) \/ q = player (chid a)) /\
  (forall q, In q (killedPlayers res) -> In q (killedPlayers res')) /\
  chid a' = chid a /\ attackers a' = attackers a /\
  (attackers a = [] -> a' = a /\ s' = s /\ res' = res).
Proof.
  unfold DrawLife_tile. intros Hret.
  destruct (attackers a) as [| att0 atts] eqn:Eatt.
  { injection Hret as <- <- <-. rewrite Eatt. repeat split; auto. }
  apply bind_Some in Hret. destruct Hret as (u & _ & Hret).
  apply bind_Some in Hret. destruct Hret as (victim & Hv & Hret).
  apply bind_Some in Hret. destruct Hret as ([a1 victim1] & Hdraw & Hret).
  apply bind_Some in Hret. destruct Hret as (u1 & _ & Hret).
  apply bind_Some in Hret. destruct Hret as (u2 & _ & Hret).
  assert (Ha1 : chid a1 = chid a /\ attackers a1 = attackers a).
  { destruct lifeSteal.
    - apply bind_Some in Hdraw. destruct Hdraw as (u3 & _ & Hdraw).
      apply bind_Some in Hdraw. destruct Hdraw as (u4 & _ & Hdraw).
      match type of Hdraw with
      | (if ?b then _ else _) = _ => destruct b
      end; injection Hdraw as <- <-; auto.
    - injection Hdraw as <- <-. auto. }
  destruct Ha1 as [Hc1 Hat1]. rewrite Eatt in Hat1.
  set (p := player (chid a)) in *.
  set (s1 := set_players s (StdMap.assign p victim1 (players s))) in *.
  assert (Hs1 : forall q, q <> p ->
            StdMap.find q (players s1) = StdMap.find q (players s)).
  { intros q N. unfold s1. simpl. now apply find_assign_other. }
  match type of Hret with
  | (if ?b then _ else _) = _ => destruct b
  end.
  { apply bind_Some in Hret. destruct Hret as (u5 & _ & Hret).
    injection Hret as <- <- <-.
    repeat split; auto; discriminate. }
  set (res1 := if index (chid a) =? 0
               then fold_left
                      (fun r att => KillPlayer p (KilledBy_character att) r)
                      (att0 :: atts) res
               else res) in *.
  assert (Hres1 : (forall q, In q (killedPlayers res1) ->
                             In q (killedPlayers res) \/ q = p) /\
                  (forall q, In q (killedPlayers res) ->
                             In q (killedPlayers res1))).
  { unfold res1. destruct (index (chid a) =? 0); [| auto].
    destruct (KillPlayer_all_killed p (att0 :: atts) res) as [K _].
    split; intros q I.
    - apply K in I. destruct I as [I | [E _]]; auto.
    - apply K. now left. }
  destruct Hres1 as [Hin Hmono].
  destruct (StdMap.find (index (chid a)) (characters victim1)) as [ch0 |].
  - apply bind_Some in Hret. destruct Hret as ([s2 r2] & Hkl & Hret).
    apply bind_Some in Hret. destruct Hret as (victim2 & Hv2 & Hret).
    injection Hret as <- <- <-.
    apply HandleKilledLoot_frame in Hkl.
    destruct Hkl as (P & N & _ & _ & KP & _).
    repeat split; auto; try discriminate.
    + simpl. intros q Nq. rewrite find_assign_other by assumption.
      rewrite P. now apply Hs1.
    + intros q I. rewrite KP in I. now apply Hin.
    + intros q I. rewrite KP. now apply Hmono.
  - injection Hret as <- <- <-.
    repeat split; auto; discriminate.
Qed.

#[local] Arguments HandleKilledLoot : simpl never.
#[local] Arguments fold_left : simpl never.

(** One round of [DrawLife] with life steal in effect. *)
Lemma DrawLife_tile_lifesteal (damage : CAmount) (min_version : Z)
  (a a' : AttackableCharacter) (s s' : GameState) (res res' : StepResult) :
  0 < damage ->
  attackers a <> [] ->
  DrawLife_tile true damage min_version a (s, res) = Some (a', (s', res')) ->
  exists victim victim',
    StdMap.find (player (chid a)) (players s) = Some victim /\
    StdMap.find (player (chid a)) (players s') = Some victim' /\
    let drawn :=
      Z.min (damage * Z.of_nat (List.length (attackers a))) (value victim) in
    let rest := value victim - drawn in
    (damage <= rest ->
     value victim' = rest /\ drawnLife a' = drawn /\
     characters victim' = characters victim /\ res' = res) /\
    (rest < damage ->
     value victim' = 0 /\ drawnLife a' = drawn + rest /\
     In (player (chid a)) (killedPlayers res') /\
     StdMap.find 0 (characters victim') = None /\
     (forall att, In att (attackers a) ->
        In (player (chid a), KilledBy_character att) (killedBy res'))).
Proof.
  intros Hdmg Hne. unfold DrawLife_tile. intros Hret.
  destruct (attackers a) as [| att0 atts] eqn:Eatt; [contradiction |].
  apply bind_Some in Hret. destruct Hret as (u & Hd0 & Hret).
  apply cpp_assert_Some, Z.eqb_eq in Hd0.
  apply bind_Some in Hret. destruct Hret as (victim & Hv & Hret).
  apply bind_Some in Hret. destruct Hret as ([a1 victim1] & Hdraw & Hret).
  apply bind_Some in Hret. destruct Hret as (u1 & _ & Hret).
  apply bind_Some in Hret. destruct Hret as (u2 & _ & Hret).
  apply bind_Some in Hdraw. destruct Hdraw as (u3 & Hidx & Hdraw).
  apply cpp_assert_Some in Hidx.
  apply bind_Some in Hdraw. destruct Hdraw as (u4 & Hv1 & Hdraw).
  apply cpp_assert_Some, Z.leb_le in Hv1.
  set (p := player (chid a)) in *.
  set (n := Z.of_nat (List.length (att0 :: atts))) in *.
  set (full := if value victim <? damage * n then value victim
               else damage * n) in *.
  assert (Hfull : full = Z.min (damage * n) (value victim)).
  { unfold full. destruct (Z.ltb_spec (value victim) (damage * n)); lia. }
  exists victim.
  destruct (Z.ltb_spec (value victim - full) damage) as [Hlow | Hhigh].
  - (* drained *)
    injection Hdraw as <- <-. simpl in Hret.
    rewrite Hidx in Hret.
    set (s1 := set_players s
                 (StdMap.assign p (set_value victim 0) (players s))) in *.
    set (res1 := fold_left
                   (fun r att => KillPlayer p (KilledBy_character att) r)
                   (att0 :: atts) res) in *.
    destruct (KillPlayer_all_killed p (att0 :: atts) res) as [K1 K2].
    fold res1 in K1, K2.
    assert (Hp : In p (killedPlayers res1)).
    { apply K1. right. split; [reflexivity | discriminate]. }
    assert (Hfind1 : StdMap.find p (players s1) = Some (set_value victim 0)).
    { unfold s1. simpl. eapply find_assign_same. exact Hv. }
    apply Z.eqb_eq in Hidx.
    destruct (StdMap.find (index (chid a)) (characters victim)) as [ch0 |] eqn:Ech.
    + apply bind_Some in Hret. destruct Hret as ([s2 r2] & Hkl & Hret).
      apply bind_Some in Hret. destruct Hret as (victim2 & Hv2 & Hret).
      injection Hret as <- <- <-.
      apply HandleKilledLoot_frame in Hkl.
      destruct Hkl as (P & _ & _ & _ & KP & KB).
      rewrite P, Hfind1 in Hv2. injection Hv2 as <-.
      eexists. split; [exact Hv |]. split.
      { simpl. eapply find_assign_same. rewrite P. exact Hfind1. }
      cbv zeta. rewrite <- Hfull. split; [lia |].
      intros _. simpl. rewrite Hd0, KP, KB, Hidx.
      repeat split; try assumption; try lia.
      apply find_erase_same.
    + injection Hret as <- <- <-.
      eexists. split; [exact Hv |]. split; [exact Hfind1 |].
      cbv zeta. rewrite <- Hfull. split; [lia |].
      intros _. simpl. rewrite Hd0.
      repeat split; try assumption; try lia.
      rewrite <- Hidx. exact Ech.
  - (* survives *)
    injection Hdraw as <- <-. simpl in Hret.
    assert (Hnz : (value victim - full =? 0) = false) by (apply Z.eqb_neq; lia).
    rewrite Hnz in Hret. simpl in Hret.
    apply bind_Some in Hret. destruct Hret as (u5 & _ & Hret).
    injection Hret as <- <- <-.
    eexists. split; [exact Hv |]. split.
    { simpl. eapply find_assign_same. exact Hv. }
    cbv zeta. rewrite <- Hfull. split; [| lia].
    intros _. simpl. rewrite Hd0. repeat split; lia.
Qed.

#[local] Arguments DrawLife_tile : simpl never.

Lemma DrawLife_tiles_lifesteal (damage : CAmount) (min_version : Z) :
  0 < damage ->
  forall (ts ts' : list (Coord * AttackableCharacter)) (s s' : GameState)
         (res res' : StepResult),
    NoDup (map victim_of ts) ->
    DrawLife_tiles true damage min_version ts (s, res) = Some (ts', (s', res')) ->
    Forall2 (life_drawn damage s s' res res') ts ts' /\
    nHeight s' = nHeight s /\
    (forall q, ~ In q (map victim_of ts) ->
       StdMap.find q (players s') = StdMap.find q (players s) /\
       (In q (killedPlayers res') -> In q (killedPlayers res))) /\
    (forall q, In q (killedPlayers res) -> In q (killedPlayers res')).
Proof.
  intros Hdmg. induction ts as [| [c a] ts IH]; intros ts' s s' res res' ND Hret.
  - simpl in Hret. injection Hret as <- <- <-.
    split; [constructor |]. repeat split; auto.
  - simpl in Hret.
    apply bind_Some in Hret. destruct Hret as ([a1 [s1 res1]] & Htile & Hret).
    apply bind_Some in Hret. destruct Hret as ([ts1 [s2 res2]] & Hrest & Hret).
    injection Hret as <- <- <-.
    inversion ND as [| ? ? Hnotin ND']; subst.
    destruct (IH ts1 s1 s2 res1 res2 ND' Hrest) as (F & N & Fr & Mono).
    pose proof (DrawLife_tile_frame _ _ _ _ _ _ _ _ _ Htile)
      as (N1 & Fr1 & In1 & Mono1 & Hc & Hatt & Hnil).
    change (player (chid a)) with (victim_of (c, a)) in *.
    set (p := victim_of (c, a)) in *.
    destruct (Fr p Hnotin) as [Fp Kp].
    split; [| split; [congruence | split]].
    + constructor.
      * (* the tile at the head *)
        unfold life_drawn. simpl.
        split; [reflexivity |]. split; [assumption |]. split; [assumption |].
        split; [intros E; now apply Hnil |].
        intros Hne.
        destruct (DrawLife_tile_lifesteal _ _ _ _ _ _ _ _ Hdmg Hne Htile)
          as (victim & victim1 & Hv & Hv1 & Hsurv & Hkill).
        exists victim, victim1. fold p.
        split; [exact Hv |]. split; [now rewrite Fp |].
        cbv zeta in *. split.
        -- intros Hge. destruct (Hsurv Hge) as (V & D & C & R).
           repeat split; try assumption. intros I. apply Kp in I. congruence.
        -- intros Hlt. destruct (Hkill Hlt) as (V & D & K & C & _).
           repeat split; try assumption. now apply Mono.
      * (* the tiles behind it *)
        apply (Forall2_impl_in _ _ _ _ F).
        intros t t' It (E1 & E2 & E3 & E4 & E5).
        assert (Nq : victim_of t <> p).
        { intros E. apply Hnotin. rewrite <- E. now apply in_map. }
        unfold life_drawn.
        repeat (split; [assumption |]).
        intros Hne. destruct (E5 Hne) as (v & v' & Hv & Hv' & Hs & Hk).
        exists v, v'. rewrite <- (Fr1 _ Nq). split; [assumption |].
        split; [assumption |]. cbv zeta in *. split.
        -- intros Hge. destruct (Hs Hge) as (V & D & C & R).
           repeat split; try assumption.
           intros I. apply R in I. apply In1 in I.
           destruct I as [I | I]; [assumption | contradiction].
        -- assumption.
    + intros q Hq. simpl in Hq.
      assert (Nq : q <> p) by (intros E; apply Hq; now left).
      assert (Hq' : ~ In q (map victim_of ts))
        by (intros I; apply Hq; now right).
      destruct (Fr q Hq') as [Fq Kq]. split.
      * rewrite Fq. now apply Fr1.
      * intros I. apply Kq in I. apply In1 in I.
        destruct I as [I | I]; [assumption | contradiction].
    + intros q I. apply Mono, Mono1, I.
Qed.

(** A round of [DrawLife] with life steal passes its assertions on a tile
    that is [drawable]. *)
Lemma DrawLife_tile_returns (damage : CAmount) (min_version : Z)
  (c : Coord) (a : AttackableCharacter) (s : GameState) (res : StepResult) :
  0 < damage ->
  drawable s (c, a) ->
  exists a' s' res',
    DrawLife_tile true damage min_version a (s, res) = Some (a', (s', res')).
Proof.
  intros Hdmg Hok. unfold DrawLife_tile.
  destruct (attackers a) as [| att0 atts] eqn:Eatt.
  { now exists a, s, res. }
  destruct Hok as (Hd0 & Hidx & victim & Hv & Hval & Hlife).
  { simpl. rewrite Eatt. discriminate. }
  simpl in Hd0, Hidx. unfold victim_of in Hv. simpl in Hv.
  rewrite ensure_true by (now apply Z.eqb_eq).
  rewrite Hv. cbn [bind].
  rewrite ensure_true by (now apply Z.eqb_eq).
  set (n := Z.of_nat (List.length (att0 :: atts))).
  assert (Hn : 0 < n) by (unfold n; simpl List.length; lia).
  set (full := if value victim <? damage * n then value victim
               else damage * n).
  assert (Hfull : full = Z.min (damage * n) (value victim)).
  { unfold full. destruct (Z.ltb_spec (value victim) (damage * n)); lia. }
  assert (Hprod : 0 < damage * n) by lia.
  rewrite ensure_true by (apply Z.leb_le; lia).
  destruct (Z.ltb_spec (value victim - full) damage) as [Hlow | Hhigh];
    cbn [bind fst snd].
  - (* drained *)
    rewrite ensure_true by reflexivity.
    rewrite ensure_true by (simpl; apply Z.leb_le; lia).
    cbn [value set_value andb negb Z.eqb].
    set (p := player (chid a)).
    set (s1 := set_players s
                 (StdMap.assign p (set_value victim 0) (players s))).
    assert (Hfind1 : StdMap.find p (players s1) = Some (set_value victim 0)).
    { unfold s1. simpl. eapply find_assign_same. exact Hv. }
    simpl characters.
    destruct (StdMap.find (index (chid a)) (characters victim)) as [ch0 |] eqn:Ech.
    2: { eexists. eexists. eexists. reflexivity. }
    assert (Hdrop : exists drop,
              DropCoins (KilledBy_character att0) s1 (set_value victim 0)
              = Some drop).
    { unfold DropCoins.
      change (state_ForkInEffect s1 FORK_LESSHEARTS)
        with (state_ForkInEffect s FORK_LESSHEARTS).
      destruct (state_ForkInEffect s FORK_LESSHEARTS) eqn:El;
        [| now exists true].
      simpl. specialize (Hlife eq_refl).
      destruct (Z.leb_spec 0 (remainingLife victim)); [now exists false |].
      exists true. rewrite ensure_true; [reflexivity |].
      apply Z.eqb_eq. lia. }
    destruct Hdrop as (drop & Hdrop).
    match goal with
    | |- context [HandleKilledLoot ?q ?i ?k ?v (s1, ?r)] =>
        destruct (HandleKilledLoot_returns q i k v s1 r (set_value victim 0)
                    ch0 drop Hfind1 ltac:(simpl; lia) Ech
                    ltac:(intros; reflexivity) Hdrop)
          as (s2 & r2 & Ek)
    end.
    rewrite Ek. cbn [bind].
    pose proof (HandleKilledLoot_frame _ _ _ _ _ _ _ _ Ek) as (P & _).
    fold p. rewrite P, Hfind1. cbn [bind].
    eexists. eexists. eexists. reflexivity.
  - (* survives *)
    rewrite ensure_true by (simpl; apply Z.leb_le; lia).
    rewrite ensure_true by (simpl; apply Z.leb_le; lia).
    cbn [value set_value andb].
    assert (Hnz : (value victim - full =? 0) = false) by (apply Z.eqb_neq; lia).
    rewrite Hnz. cbn [negb].
    rewrite ensure_true by (now apply Z.leb_le).
    eexists. eexists. eexists. reflexivity.
Qed.

Lemma DrawLife_tiles_returns (damage : CAmount) (min_version : Z) :
  0 < damage ->
  forall (ts : list (Coord * AttackableCharacter)) (s : GameState)
         (res : StepResult),
    NoDup (map victim_of ts) ->
    Forall (drawable s) ts ->
    exists ts' s' res',
      DrawLife_tiles true damage min_version ts (s, res)
      = Some (ts', (s', res')).
Proof.
  intros Hdmg. induction ts as [| [c a] ts IH]; intros s res ND Hok.
  - now exists [], s, res.
  - inversion ND as [| ? ? Hnotin ND']; subst.
    inversion Hok as [| ? ? Hhead Htail]; subst.
    destruct (DrawLife_tile_returns damage min_version c a s res Hdmg Hhead)
      as (a1 & s1 & res1 & Etile).
    pose proof (DrawLife_tile_frame _ _ _ _ _ _ _ _ _ Etile)
      as (N1 & Fr1 & _).
    destruct (IH s1 res1 ND') as (ts' & s' & res' & Erest).
    { apply Forall_forall. intros t It.
      assert (Nq : victim_of t <> player (chid a)).
      { intros E. apply Hnotin.
        change (victim_of (c, a)) with (player (chid a)).
        rewrite <- E. now apply in_map. }
      pose proof (proj1 (Forall_forall _ _) Htail t It) as Ht.
      unfold drawable in *. unfold state_ForkInEffect in *.
      rewrite N1, (Fr1 _ Nq). exact Ht. }
    simpl. rewrite Etile. cbn [bind]. rewrite Erest. cbn [bind].
    eexists. eexists. eexists. reflexivity.
Qed.

(** What a call of [DrawLife] with life steal that returned has done. *)
Lemma DrawLife_returned (cot cot' : CharactersOnTiles) (min_version : Z)
  (s s' : GameState) (res res' : StepResult) :
  built cot = true ->
  state_ForkInEffect s FORK_LIFESTEAL = true ->
  NoDup (map victim_of (tiles cot)) ->
  DrawLife cot min_version (s, res) = Some (cot', (s', res')) ->
  Forall2
    (life_drawn (GetNameCoinAmount (to_unsigned (nHeight s))) s s' res res')
    (tiles cot) (tiles cot').
Proof.
  intros Hbuilt Hfork ND Hret.
  unfold DrawLife in Hret. rewrite Hbuilt in Hret. simpl in Hret.
  rewrite Hfork in Hret.
  apply bind_Some in Hret. destruct Hret as ([ts [s1 res1]] & Hts & Hret).
  injection Hret as <- <- <-. simpl.
  eapply DrawLife_tiles_lifesteal; eauto using GetNameCoinAmount_pos.
Qed.

(** C4.  With the LIFESTEAL fork in effect, on a resolver that was built,
    has at most one tile entry per player and whose attacked entries are
    [drawable] (what the assertions of the function ask for), [DrawLife]
    returns and has treated every tile entry as [life_drawn] says.  For an
    attacked character with a non-empty set of attackers, with
    [damage = GetNameCoinAmount (height)] (20, 30, 50 or 100 coins on the
    ladder of heights 30000, 20000, 10000) and
    [drawn = min (damage * number of attackers) (value of the victim)]:
    when the value left after [drawn] is at least [damage], the victim keeps
    that value and its characters, is not recorded as killed, and [drawn] is
    remembered as drawn life; when less than [damage] is left, that rest is
    drawn as well, the value of the victim is zero, the victim is recorded
    as killed and its general is removed. *)
Theorem DrawLife_lifesteal (cot : CharactersOnTiles) (min_version : Z)
  (s : GameState) (res : StepResult) :
  built cot = true ->
  state_ForkInEffect s FORK_LIFESTEAL = true ->
  NoDup (map victim_of (tiles cot)) ->
  Forall (drawable s) (tiles cot) ->
  let h := to_unsigned (nHeight s) in
  let damage := GetNameCoinAmount h in
  (exists cot' s' res',
     DrawLife cot min_version (s, res) = Some (cot', (s', res')) /\
     Forall2 (life_drawn damage s s' res res') (tiles cot) (tiles cot')) /\
  (30000 < h -> damage = 20 * COIN) /\
  (20000 < h <= 30000 -> damage = 30 * COIN) /\
  (10000 < h <= 20000 -> damage = 50 * COIN) /\
  (h <= 10000 -> damage = 100 * COIN).
Proof.
  intros Hbuilt Hfork ND Hok. cbv zeta.
  split; [| apply GetNameCoinAmount_ladder].
  destruct (DrawLife_tiles_returns
              (GetNameCoinAmount (to_unsigned (nHeight s))) min_version
              (GetNameCoinAmount_pos _) (tiles cot) s res ND Hok)
    as (ts' & s' & res' & Ets).
  assert (E : DrawLife cot min_version (s, res)
              = Some (mkTiles ts' (built cot), (s', res'))).
  { unfold DrawLife. rewrite Hbuilt. cbn [negb fst]. rewrite Hfork.
    rewrite Ets. reflexivity. }
  exists (mkTiles ts' (built cot)), s', res'. split; [exact E |].
  exact (DrawLife_returned _ _ _ _ _ _ _ Hbuilt Hfork ND E).
Qed.

End AttackProps.

Section ApplyAttacksProps.
Context `{ForkGate} `{GameMap} `{Header}.

Lemma ApplyAttacks_destruct_notes (pId : PlayerID) (pl : PlayerState)
  (ds : list Z) :
  forall c : Cache,
    fold_left (fun c i => ApplyAttacks_destruct pId pl i c) ds c
    = fold_left note_destruct
        (map (mkChid pId)
           (filter (fun i => 0 <? StdMap.count i (characters pl)) ds))
        c.
Proof.
  induction ds as [| i ds IH]; intros c; [reflexivity |].
  cbn [fold_left filter]. rewrite IH.
  unfold ApplyAttacks_destruct at 1, StdMap.count.
  destruct (StdMap.find i (characters pl)); reflexivity.
Qed.

Lemma ApplyAttacks_notes {MoveExt : Type} (s : GameState)
  (moves : list (Move MoveExt)) :
  forall c : Cache,
    (forall m, In m moves -> m_destruct m <> [] ->
               StdMap.find (m_player m) (players s) <> None) ->
    foreach moves (ApplyAttacks_move s) c
    = Some (fold_left note_destruct (flat_map (destructing s) moves) c).
Proof.
  induction moves as [| m moves IH]; intros c Hpl; [reflexivity |].
  cbn [foreach flat_map]. rewrite fold_left_app.
  assert (Hm : ApplyAttacks_move s m c
               = Some (fold_left note_destruct (destructing s m) c)).
  { unfold ApplyAttacks_move, destructing.
    destruct (m_destruct m) as [| i ds] eqn:E.
    - destruct (StdMap.find (m_player m) (players s)); reflexivity.
    - destruct (StdMap.find (m_player m) (players s)) as [pl |] eqn:F.
      + cbn [bind]. now rewrite ApplyAttacks_destruct_notes.
      + exfalso. apply (Hpl m); [now left | | assumption].
        rewrite E. discriminate. }
  rewrite Hm. simpl. apply IH.
  intros m' I. apply Hpl. now right.
Qed.

(** C2, as the code has it.  For every game state and list of moves whose
    destructing players are in the state, [ApplyAttacks] returns the
    resolver it was given: it builds no tile and records no attack.  What it
    does is to note every destructing character that exists, in the order
    of the moves, in the destruct-message cache.  For the fresh resolver of
    a step this means that no character is recorded as attacked, and that
    [DefendMutualAttacks] and [DrawLife] leave the resolver, the state and
    the step result as they are: no victim is removed, no loot is
    dropped. *)
Theorem ApplyAttacks_records_nothing {MoveExt : Type}
  (cot : CharactersOnTiles) (s : GameState) (moves : list (Move MoveExt))
  (c : Cache) :
  (forall m, In m moves -> m_destruct m <> [] ->
             StdMap.find (m_player m) (players s) <> None) ->
  ApplyAttacks cot s moves c
  = Some (cot, fold_left note_destruct (flat_map (destructing s) moves) c) /\
  (forall victim attacker,
     ~ recorded_as_attacked CharactersOnTiles_new victim attacker) /\
  DefendMutualAttacks CharactersOnTiles_new s = CharactersOnTiles_new /\
  (forall min_version sr,
     DrawLife CharactersOnTiles_new min_version sr
     = Some (CharactersOnTiles_new, sr)).
Proof.
  intros Hpl. repeat split.
  - unfold ApplyAttacks. now rewrite ApplyAttacks_notes.
  - intros victim attacker (t & a & [] & _).
Qed.

End ApplyAttacksProps.

(** ** Dynamic banks *)

Section ListProps.
Context {A : Type}.

Lemma erase_at_split (l1 l2 : list A) (a : A) :
  erase_at (List.length l1) (l1 ++ a :: l2) = l1 ++ l2.
Proof.
  unfold erase_at. induction l1 as [| x l1 IH]; simpl; [reflexivity |].
  now f_equal.
Qed.

Lemma nth_error_split_at (l : list A) (i : nat) (a : A) :
  nth_error l i = Some a ->
  exists l1 l2, l = l1 ++ a :: l2 /\ List.length l1 = i.
Proof.
  revert i. induction l as [| x l IH]; intros [| i] E; simpl in E;
    try discriminate.
  - injection E as ->. now exists [], l.
  - destruct (IH i E) as (l1 & l2 & -> & <-). now exists (x :: l1), l2.
Qed.

(** Removal of the drawn element: the others stay, in their order, and a
    vector without duplicates loses the element for good. *)
Lemma erase_at_drawn (l : list A) (i : nat) (a : A) :
  NoDup l -> nth_error l i = Some a ->
  NoDup (erase_at i l) /\
  ~ In a (erase_at i l) /\
  (forall x, In x (erase_at i l) <-> In x l /\ x <> a) /\
  S (List.length (erase_at i l)) = List.length l.
Proof.
  intros ND E. destruct (nth_error_split_at l i a E) as (l1 & l2 & -> & <-).
  rewrite erase_at_split.
  pose proof (NoDup_remove_1 _ _ _ ND) as ND1.
  pose proof (NoDup_remove_2 _ _ _ ND) as ND2.
  split; [assumption |]. split; [assumption |]. split.
  - intros x. split.
    + intros I. split.
      * apply in_app_iff. apply in_app_iff in I.
        destruct I as [I | I]; [now left | right; now right].
      * intros ->. contradiction.
    + intros [I N]. apply in_app_iff in I. apply in_app_iff.
      destruct I as [I | [I | I]]; [now left | congruence | now right].
  - rewrite !length_app. simpl. lia.
Qed.

End ListProps.

Section SetProps.
Context {K : Type} `{KeyLaws K}.

Lemma NoDup_set_place (k : K) (s : list K) :
  ~ In k s -> NoDup s -> NoDup (StdSet.place k s).
Proof.
  induction s as [| k1 s IH]; simpl; intros Hn ND.
  - constructor; [intros [] | constructor].
  - destruct (kltb k k1).
    + constructor; assumption.
    + inversion ND as [| ? ? Hnot ND']; subst. constructor.
      * intros I. apply In_set_place in I.
        destruct I as [-> | I]; [apply Hn; now left | contradiction].
      * apply IH; [| assumption]. intros I. apply Hn. now right.
Qed.

Lemma length_set_place (k : K) (s : list K) :
  List.length (StdSet.place k s) = S (List.length s).
Proof.
  induction s as [| k1 s IH]; simpl; [reflexivity |].
  destruct (kltb k k1); simpl; [reflexivity | now rewrite IH].
Qed.

Lemma NoDup_set_insert (k : K) (s : list K) :
  NoDup s -> NoDup (StdSet.insert k s).
Proof.
  intros ND. unfold StdSet.insert. destruct (StdSet.mem k s) eqn:E;
    [assumption |].
  apply NoDup_set_place; [| assumption].
  intros I. apply mem_In in I. congruence.
Qed.

(** The set made of a vector without duplicates has the elements of the
    vector, once each. *)
Lemma set_of_list_spec (tiles : list K) :
  forall acc : list K,
    NoDup acc -> NoDup tiles -> (forall x, In x tiles -> ~ In x acc) ->
    let set := fold_left (fun acc c => StdSet.insert c acc) tiles acc in
    NoDup set /\
    (forall x, In x set <-> In x acc \/ In x tiles) /\
    List.length set = (List.length acc + List.length tiles)%nat.
Proof.
  induction tiles as [| t tiles IH]; intros acc NDa NDt Hdis; simpl.
  - split; [assumption |]. split; [intros x; tauto | lia].
  - inversion NDt as [| ? ? Hnot NDt']; subst.
    assert (Hfresh : ~ In t acc) by (apply Hdis; now left).
    destruct (IH (StdSet.insert t acc)) as (ND & Hin & Hlen).
    + now apply NoDup_set_insert.
    + assumption.
    + intros x I J. apply In_set_insert in J. destruct J as [-> | J].
      * contradiction.
      * apply (Hdis x); [now right | assumption].
    + split; [assumption |]. split.
      * intros x. rewrite Hin, In_set_insert. intuition congruence.
      * rewrite Hlen. unfold StdSet.insert.
        destruct (StdSet.mem t acc) eqn:E.
        -- apply mem_In in E. contradiction.
        -- rewrite length_set_place. lia.
Qed.

Lemma set_erase_spec (k : K) (s : list K) :
  NoDup s -> In k s ->
  NoDup (StdSet.erase k s) /\
  (forall x, In x (StdSet.erase k s) <-> In x s /\ x <> k) /\
  S (List.length (StdSet.erase k s)) = List.length s.
Proof.
  intros ND I. unfold StdSet.erase.
  split; [now apply NoDup_filter |]. split.
  - intros x. rewrite filter_In, negb_true_iff, keqb_neq.
    split; intros [J N]; (split; [assumption | congruence]).
  - induction s as [| k1 s IH]; [destruct I |].
    inversion ND as [| ? ? Hnot ND']; subst. simpl.
    destruct (keqb k k1) eqn:E; simpl.
    + apply keqb_eq in E. subst k1. f_equal.
      clear IH I ND. induction s as [| k2 s IH]; [reflexivity |].
      simpl. destruct (keqb k k2) eqn:E2.
      * apply keqb_eq in E2. subst. exfalso. apply Hnot. now left.
      * simpl. f_equal. apply IH.
        -- intros J. apply Hnot. now right.
        -- now inversion ND'.
    + apply keqb_neq in E. f_equal. apply IH; [assumption |].
      destruct I as [-> | I]; [contradiction | assumption].
Qed.

End SetProps.

Section BankProps.
Context `{ForkGate} `{GameMap} `{Random}.

(** The loop over the old banks: every bank with more than one block left
    is kept with one block less, unless all banks are reset. *)
Lemma UpdateBanks_age_loop (reset : bool) (bs : list (Coord * Z)) :
  forall acc : list (Coord * Z),
    (forall c l, In (c, l) bs -> 1 <= l) ->
    NoDup (StdMap.keys bs) -> NoDup (StdMap.keys acc) ->
    (forall c, In c (StdMap.keys bs) -> ~ In c (StdMap.keys acc)) ->
    exists nb,
      foreach bs (UpdateBanks_age reset) acc = Some nb /\
      NoDup (StdMap.keys nb) /\
      (forall c l, In (c, l) nb <->
         In (c, l) acc \/ (reset = false /\ 1 <= l /\ In (c, l + 1) bs)) /\
      (List.length nb <= List.length acc + List.length bs)%nat.
Proof.
  induction bs as [| [c0 l0] bs IH]; intros acc Hlife NDb NDa Hdis.
  - exists acc. simpl. split; [reflexivity |]. split; [assumption |].
    split; [intros c l; tauto | lia].
  - assert (Hl0 : 1 <= l0) by (apply (Hlife c0); now left).
    simpl in NDb. inversion NDb as [| ? ? Hnot NDb']; subst.
    assert (Hlife' : forall c l, In (c, l) bs -> 1 <= l)
      by (intros c l I; apply (Hlife c); now right).
    simpl. unfold UpdateBanks_age at 1. simpl.
    rewrite ensure_true by Zbool.
    destruct reset.
    + simpl. destruct (IH acc Hlife' NDb' NDa) as (nb & E & ND & Hin & Hlen).
      { intros c I. apply Hdis. now right. }
      exists nb. split; [assumption |]. split; [assumption |]. split.
      * intros c l. rewrite Hin. intuition congruence.
      * simpl. lia.
    + destruct (1 <? l0) eqn:E1; simpl.
      * apply Z.ltb_lt in E1.
        assert (Hf : StdMap.find c0 acc = None)
          by (apply find_None; apply Hdis; now left).
        unfold StdMap.insert. rewrite Hf.
        destruct (IH (StdMap.place c0 (l0 - 1) acc) Hlife' NDb')
          as (nb & E & ND & Hin & Hlen).
        { apply NoDup_keys_place; [| assumption]. apply Hdis. now left. }
        { intros c I J. apply keys_place in J. destruct J as [-> | J].
          - contradiction.
          - apply (Hdis c); [now right | assumption]. }
        exists nb. split; [assumption |]. split; [assumption |]. split.
        -- intros c l. rewrite Hin, In_place. split.
           ++ intros [[E' | I] | (R & L & I)].
              ** injection E' as -> ->. right.
                 split; [reflexivity |]. split; [lia |]. left.
                 f_equal. lia.
              ** now left.
              ** right. split; [assumption |]. split; [assumption |].
                 now right.
           ++ intros [I | (R & L & [E' | I])].
              ** left. now right.
              ** injection E' as -> ->. left. left. f_equal. lia.
              ** right. split; [assumption |]. split; assumption.
        -- rewrite length_place in Hlen. simpl. lia.
      * apply Z.ltb_ge in E1.
        destruct (IH acc Hlife' NDb' NDa) as (nb & E & ND & Hin & Hlen).
        { intros c I. apply Hdis. now right. }
        exists nb. split; [assumption |]. split; [assumption |]. split.
        -- intros c l. rewrite Hin. split.
           ++ intros [I | (R & L & I)]; [now left |].
              right. split; [assumption |]. split; [assumption |].
              now right.
           ++ intros [I | (R & L & [E' | I])]; [now left | |].
              ** injection E' as -> ->. lia.
              ** right. split; [assumption |]. split; assumption.
        -- simpl. lia.
Qed.

(** The loop that takes the tiles of the kept banks out of the options. *)
Lemma UpdateBanks_exclude_loop (nb : list (Coord * Z)) :
  forall set : list Coord,
    NoDup set -> NoDup (StdMap.keys nb) ->
    (forall c, In c (StdMap.keys nb) -> In c set) ->
    exists opts,
      foreach nb UpdateBanks_exclude set = Some opts /\
      NoDup opts /\
      (forall c, In c opts <-> In c set /\ ~ In c (StdMap.keys nb)) /\
      (List.length opts + List.length nb = List.length set)%nat.
Proof.
  induction nb as [| [c0 l0] nb IH]; intros set NDs NDn Hsub.
  - exists set. simpl. split; [reflexivity |]. split; [assumption |].
    split; [intros c; tauto | lia].
  - simpl in NDn. inversion NDn as [| ? ? Hnot NDn']; subst.
    assert (I0 : In c0 set) by (apply Hsub; now left).
    destruct (set_erase_spec c0 set NDs I0) as (NDe & Hine & Hlene).
    simpl. unfold UpdateBanks_exclude at 1. simpl.
    rewrite ensure_true by (now apply mem_In).
    destruct (IH (StdSet.erase c0 set) NDe NDn') as (opts & E & ND & Hin & Hlen).
    { intros c I. apply Hine. split; [apply Hsub; now right |].
      intros ->. contradiction. }
    exists opts. split; [assumption |]. split; [assumption |]. split.
    + intros c. rewrite Hin, Hine. split.
      * intros [[I N] M]. split; [assumption |].
        intros [E' | J]; [congruence | contradiction].
      * intros [I M]. split; [split; [assumption |] |].
        -- intros ->. apply M. now left.
        -- intros J. apply M. now right.
    + simpl. lia.
Qed.

End BankProps.

Section BankDraws.
Context `{ForkGate} `{GameMap} `{Random}.

Lemma Coord_eqb_sym (a b : Coord) : Coord_eqb a b = Coord_eqb b a.
Proof.
  destruct (Coord_eqb a b) eqn:E1, (Coord_eqb b a) eqn:E2; try reflexivity.
  - apply Coord_eqb_eq in E1. subst b.
    rewrite (proj2 (Coord_eqb_eq a a) eq_refl) in E2. discriminate.
  - apply Coord_eqb_eq in E2. subst b.
    rewrite (proj2 (Coord_eqb_eq a a) eq_refl) in E1. discriminate.
Qed.

(** The loop that takes the tiles of the kept banks out of the options is a
    filter: the tiles that stay keep their order. *)
Lemma UpdateBanks_exclude_filter (nb : list (Coord * Z)) :
  forall set opts : list Coord,
    foreach nb UpdateBanks_exclude set = Some opts ->
    opts = filter (fun c => negb (StdSet.mem c (StdMap.keys nb))) set.
Proof.
  induction nb as [| [c0 l0] nb IH]; intros set opts E; simpl in E.
  - injection E as <-. simpl. induction set as [| x set IHs]; simpl;
      congruence.
  - apply bind_Some in E. destruct E as (set1 & E1 & E).
    unfold UpdateBanks_exclude in E1.
    apply bind_Some in E1. destruct E1 as (u & _ & E1).
    injection E1 as <-. apply IH in E. subst opts. clear IH.
    unfold StdSet.erase. simpl.
    induction set as [| x set IHs]; simpl; [reflexivity |].
    rewrite (Coord_eqb_sym x c0).
    destruct (Coord_eqb c0 x); simpl; [exact IHs |].
    destruct (StdSet.mem x (StdMap.keys nb)); simpl; [exact IHs |].
    now rewrite IHs.
Qed.

(** The refill loop draws as the sampling does: its banks are the banks it
    started from and the banks drawn, and it leaves the generator of the
    last draw. *)
Lemma UpdateBanks_refill_draws (todo : nat) :
  forall (options : list Coord) (nb nb' : list (Coord * Z))
         (rng rng' : RandomGenerator),
    UpdateBanks_refill todo options nb rng = Some (nb', rng') ->
    rng' = snd (bank_draws todo options rng) /\
    forall b, In b nb' <-> In b nb \/ In b (fst (bank_draws todo options rng)).
Proof.
  induction todo as [| todo IH]; intros options nb nb' rng rng' E;
    cbn [UpdateBanks_refill bank_draws] in *.
  - injection E as <- <-. simpl. split; [reflexivity |]. intros b. tauto.
  - destruct (GetIntRnd rng (Z.of_nat (List.length options))) as [ind rng1].
    cbn [fst snd].
    destruct (GetIntRnd_range rng1 DYNBANKS_MIN_LIFE DYNBANKS_MAX_LIFE)
      as [life rng2].
    cbn [fst snd].
    apply bind_Some in E. destruct E as (c & Ec & E).
    apply bind_Some in E. destruct E as (u & Hu & E).
    apply cpp_assert_Some, Z.eqb_eq in Hu.
    apply IH in E. destruct E as [-> Hin]. unfold erase_at in Hin.
    split; [reflexivity |]. intros b. rewrite Hin.
    unfold StdMap.count in Hu.
    destruct (StdMap.find c nb) eqn:Hf; [discriminate |].
    unfold StdMap.insert. rewrite Hf, In_place.
    unfold at_index in Ec. destruct (ind <? 0); [discriminate |].
    rewrite (nth_error_nth _ _ (mkCoord 0 0) Ec). simpl.
    intuition congruence.
Qed.

Lemma NoDup_keys_filter {V : Type} (p : Coord * V -> bool)
  (m : list (Coord * V)) :
  NoDup (StdMap.keys m) -> NoDup (StdMap.keys (filter p m)).
Proof.
  unfold StdMap.keys. induction m as [| x m IH]; simpl; intros ND;
    [constructor |].
  inversion ND as [| ? ? Hnot ND']; subst.
  destruct (p x); simpl; [| now apply IH].
  constructor; [| now apply IH].
  intros I. apply Hnot. apply in_map_iff in I.
  destruct I as (y & Ey & Iy). apply filter_In in Iy.
  apply in_map_iff. exists y. tauto.
Qed.

(** The banks kept, in the words of the loop over the old banks. *)
Lemma banks_kept_spec (s : GameState) (c : Coord) (l : Z) :
  In (c, l) (banks_kept s) <->
  banks_carried_over s = true /\ 1 <= l /\ In (c, l + 1) (banks s).
Proof.
  unfold banks_kept. destruct (banks_carried_over s).
  - rewrite in_map_iff. split.
    + intros ([c' l'] & E & I). injection E as <- <-.
      apply filter_In in I. destruct I as [I L]. simpl in L.
      apply Z.ltb_lt in L. split; [reflexivity |]. split; [lia |].
      now replace (l' - 1 + 1) with l' by lia.
    + intros (_ & L & I). exists (c, l + 1). split.
      * simpl. f_equal. lia.
      * apply filter_In. split; [assumption |]. simpl. apply Z.ltb_lt. lia.
  - simpl. split; [intros [] | intros [D _]; discriminate].
Qed.

Lemma NoDup_banks_kept (s : GameState) :
  NoDup (StdMap.keys (banks s)) -> NoDup (StdMap.keys (banks_kept s)).
Proof.
  intros ND. unfold banks_kept. destruct (banks_carried_over s);
    [| constructor].
  unfold StdMap.keys. rewrite map_map. simpl.
  exact (NoDup_keys_filter _ _ ND).
Qed.

(** A list of banks with the entries of the banks kept, on distinct tiles,
    has their number and leaves the same options. *)
Lemma banks_kept_same (s : GameState) (nb : list (Coord * Z)) :
  NoDup (StdMap.keys (banks s)) -> NoDup (StdMap.keys nb) ->
  (forall c l, In (c, l) nb <-> In (c, l) (banks_kept s)) ->
  List.length nb = List.length (banks_kept s) /\
  filter (fun c => negb (StdSet.mem c (StdMap.keys nb)))
    (set_of_tiles (bank_pool s))
  = bank_options s.
Proof.
  intros NDb NDn Hsame. split.
  - apply Nat.le_antisymm; apply NoDup_incl_length.
    + exact (NoDup_map_inv _ _ NDn).
    + intros [c l] I. now apply Hsame.
    + exact (NoDup_map_inv _ _ (NoDup_banks_kept s NDb)).
    + intros [c l] I. now apply Hsame.
  - unfold bank_options. apply filter_ext. intros c. f_equal.
    destruct (StdSet.mem c (StdMap.keys nb)) eqn:E1,
             (StdSet.mem c (map fst (banks_kept s))) eqn:E2;
      try reflexivity.
    + apply mem_In in E1. apply in_map_iff in E1.
      destruct E1 as ([c' l] & <- & I). apply Hsame in I.
      assert (J : In c' (map fst (banks_kept s)))
        by (apply in_map_iff; now exists (c', l)).
      apply mem_In in J. simpl in E2. congruence.
    + apply mem_In in E2. apply in_map_iff in E2.
      destruct E2 as ([c' l] & <- & I). apply Hsame in I.
      assert (J : In c' (StdMap.keys nb))
        by (apply in_map_iff; now exists (c', l)).
      apply mem_In in J. simpl in E1. congruence.
Qed.

(** The set of the options is in ascending order, and so is what is left of
    it when the tiles of the kept banks are taken out. *)
Lemma place_ascending (k : Coord) (s : list Coord) :
  coord_order -> ascending s -> ~ In k s -> ascending (StdSet.place k s).
Proof.
  intros Hord. induction s as [| k1 s IH]; simpl; intros Hs Hk.
  - split; [intros d [] | exact I].
  - destruct Hs as [Hfirst Hs]. destruct (Coord_ltb k k1) eqn:E; simpl.
    + split; [| split; assumption].
      intros d [<- | I]; [exact E |].
      exact (Coord_ltb_trans Hord _ _ _ E (Hfirst d I)).
    + split; [| apply IH; [assumption | tauto]].
      intros d I. apply In_set_place in I. destruct I as [-> | I];
        [| now apply Hfirst].
      destruct (Coord_ltb_total Hord (a := k) (b := k1)) as [L | L];
        [intros ->; tauto | congruence | exact L].
Qed.

Lemma set_of_tiles_ascending (tiles : list Coord) :
  coord_order ->
  forall acc : list Coord,
    ascending acc ->
    ascending (fold_left (fun acc c => StdSet.insert c acc) tiles acc).
Proof.
  intros Hord. induction tiles as [| t tiles IH]; intros acc Ha; simpl;
    [exact Ha |].
  apply IH. unfold StdSet.insert.
  destruct (StdSet.mem t acc) eqn:E; [exact Ha |].
  apply place_ascending; [assumption | assumption |].
  intros I. apply mem_In in I. congruence.
Qed.

Lemma set_of_tiles_In (tiles : list Coord) (c : Coord) :
  forall acc : list Coord,
    In c (fold_left (fun acc c => StdSet.insert c acc) tiles acc)
    <-> In c acc \/ In c tiles.
Proof.
  induction tiles as [| t tiles IH]; intros acc; simpl; [tauto |].
  rewrite IH, In_set_insert. intuition congruence.
Qed.

Lemma filter_ascending (p : Coord -> bool) (l : list Coord) :
  ascending l -> ascending (filter p l).
Proof.
  induction l as [| c l IH]; simpl; [trivial |]. intros [Hfirst Hl].
  destruct (p c); simpl; [| now apply IH].
  split; [| now apply IH].
  intros d I. apply filter_In in I. now apply Hfirst.
Qed.

Lemma bank_options_ordered (s : GameState) :
  coord_order ->
  ascending (bank_options s) /\
  forall c, In c (bank_options s) <->
            In c (bank_pool s) /\ ~ In c (map fst (banks_kept s)).
Proof.
  intros Hord. unfold bank_options. split.
  - apply filter_ascending. now apply set_of_tiles_ascending.
  - intros c. rewrite filter_In. unfold set_of_tiles.
    rewrite set_of_tiles_In, negb_true_iff. simpl.
    destruct (StdSet.mem c (map fst (banks_kept s))) eqn:E.
    + apply mem_In in E. intuition congruence.
    + assert (N : ~ In c (map fst (banks_kept s)))
        by (intros I; apply mem_In in I; congruence).
      tauto.
Qed.

End BankDraws.

Section BankRefill.
Context `{ForkGate} `{GameMap} `{Random}.
Hypothesis RC : RandomContract.

(** The refill loop: [todo] tiles are drawn from the options, no tile twice
    and none that has a bank, each with a life from [25, 100]. *)
Lemma UpdateBanks_refill_spec (todo : nat) :
  forall (options : list Coord) (nb : list (Coord * Z)) (rng : RandomGenerator),
    NoDup options -> NoDup (StdMap.keys nb) ->
    (forall c, In c options -> ~ In c (StdMap.keys nb)) ->
    (todo <= List.length options)%nat ->
    exists nb' rng',
      UpdateBanks_refill todo options nb rng = Some (nb', rng') /\
      List.length nb' = (List.length nb + todo)%nat /\
      NoDup (StdMap.keys nb') /\
      (forall x, In x nb -> In x nb') /\
      (forall c l, In (c, l) nb' ->
         In (c, l) nb \/
         (In c options /\ DYNBANKS_MIN_LIFE <= l <= DYNBANKS_MAX_LIFE)).
Proof.
  induction todo as [| todo IH]; intros options nb rng NDo NDn Hdis Hle.
  - exists nb, rng. simpl. split; [reflexivity |]. split; [lia |].
    split; [assumption |]. split; [auto |]. intros c l I. now left.
  - simpl.
    pose proof (RC rng (Z.of_nat (List.length options)) ltac:(lia)) as Bi.
    destruct (GetIntRnd rng (Z.of_nat (List.length options))) as [ind rng1].
    simpl in Bi.
    pose proof (GetIntRnd_range_bounds rng1 DYNBANKS_MIN_LIFE DYNBANKS_MAX_LIFE
                  RC ltac:(unfold DYNBANKS_MIN_LIFE, DYNBANKS_MAX_LIFE; lia))
      as Bl.
    destruct (GetIntRnd_range rng1 DYNBANKS_MIN_LIFE DYNBANKS_MAX_LIFE)
      as [life rng2].
    simpl in Bl. unfold at_index.
    assert (Ei : (ind <? 0) = false) by (apply Z.ltb_ge; lia).
    rewrite Ei.
    destruct (nth_error options (Z.to_nat ind)) as [c |] eqn:En.
    2: { apply nth_error_None in En. lia. }
    simpl.
    assert (Ic : In c options) by (eapply nth_error_In; eassumption).
    assert (Hf : StdMap.find c nb = None)
      by (apply find_None; now apply Hdis).
    unfold StdMap.count, StdMap.insert. rewrite Hf. simpl.
    destruct (erase_at_drawn options (Z.to_nat ind) c NDo En)
      as (NDe & Hnc & Hine & Hlene).
    destruct (IH (erase_at (Z.to_nat ind) options) (StdMap.place c life nb) rng2)
      as (nb' & rng' & E & Hlen & ND & Hkeep & Hnew).
    + assumption.
    + apply NoDup_keys_place; [now apply Hdis | assumption].
    + intros x I J. apply Hine in I. destruct I as [I N].
      apply keys_place in J. destruct J as [-> | J]; [congruence |].
      now apply (Hdis x).
    + lia.
    + exists nb', rng'. split; [assumption |]. split.
      * rewrite Hlen, length_place. lia.
      * split; [assumption |]. split.
        -- intros x I. apply Hkeep. apply In_place. now right.
        -- intros c' l' I. apply Hnew in I. destruct I as [I | [I B]].
           ++ apply In_place in I. destruct I as [E' | I]; [| now left].
              injection E' as -> ->. right. split; assumption.
           ++ right. split; [| assumption]. now apply Hine in I.
Qed.

(** Where the LIFESTEAL fork is in effect and the tiles of the bank pool
    are distinct and at least 75, [UpdateBanks] returns; the banks it leaves
    are exactly [DYNBANKS_NUM_BANKS] = 75, on distinct tiles of the pool,
    each with a remaining life in [1, 100].  They are the banks kept, each
    decremented by one and still at least 1, and the banks that the sampling
    draws from the ordered options with the generator of the call, which is
    left as the sampling leaves it.  Nothing but the banks changes. *)
Lemma UpdateBanks_refills (s : GameState) (rng : RandomGenerator) :
  state_ForkInEffect s FORK_LIFESTEAL = true ->
  FillWalkableTiles = Some tt ->
  NoDup (bank_pool s) ->
  DYNBANKS_NUM_BANKS <= Z.of_nat (List.length (bank_pool s)) ->
  banks_expected s ->
  exists s' rng',
    UpdateBanks s rng = Some (s', rng') /\
    s' = set_banks s (banks s') /\
    banks_ok (bank_pool s) (banks s') /\
    refilled s rng (banks s') rng' /\
    (forall c l, In (c, l) (banks s') ->
       (banks_carried_over s = true /\ In (c, l + 1) (banks s)) \/
       DYNBANKS_MIN_LIFE <= l <= DYNBANKS_MAX_LIFE) /\
    (forall c l, banks_carried_over s = true ->
       In (c, l) (banks s) -> 1 < l -> In (c, l - 1) (banks s')).
Proof.
  intros Hfork Hfill NDp Hsize Hexp.
  unfold UpdateBanks. rewrite Hfork. cbn [negb].
  assert (Hage : exists nb,
    (if IsForkHeight FORK_LIFESTEAL (nHeight s) then Some []
     else
       ensure (Z.of_nat (List.length (banks s)) =? DYNBANKS_NUM_BANKS) ;;
       foreach (banks s)
         (UpdateBanks_age (IsForkHeight FORK_TIMESAVE (nHeight s))) [])
    = Some nb /\
    NoDup (StdMap.keys nb) /\
    (forall c l, In (c, l) nb <->
       banks_carried_over s = true /\ 1 <= l /\ In (c, l + 1) (banks s)) /\
    (Z.of_nat (List.length nb) <= DYNBANKS_NUM_BANKS) /\
    (forall c l, In (c, l) nb -> l <= DYNBANKS_MAX_LIFE /\ In c (bank_pool s))).
  { unfold banks_carried_over.
    destruct (IsForkHeight FORK_LIFESTEAL (nHeight s)) eqn:EL.
    - exists []. simpl. split; [reflexivity |]. split; [constructor |].
      split; [| split; [unfold DYNBANKS_NUM_BANKS; lia | intros c l []]].
      intros c l. split; [intros [] | intros [D _]; discriminate].
    - destruct Hexp as [D | (Hn & ND & Hall)]; [congruence |].
      rewrite ensure_true by (now apply Z.eqb_eq).
      destruct (UpdateBanks_age_loop
                  (IsForkHeight FORK_TIMESAVE (nHeight s)) (banks s) [])
        as (nb & E & NDn & Hin & Hlen).
      + intros c l I. now apply (Hall c l).
      + assumption.
      + constructor.
      + intros c _ [].
      + exists nb. split; [assumption |]. split; [assumption |]. split.
        * intros c l. rewrite Hin. simpl. rewrite negb_true_iff.
          split.
          -- intros [[] | (R & L & I)]. tauto.
          -- intros (R & L & I). right. tauto.
        * split; [simpl in Hlen; lia |].
          intros c l I. apply Hin in I. destruct I as [[] | (R & L & I)].
          destruct (Hall c (l + 1) I) as [B [T | P]]; [congruence |].
          split; [lia | assumption]. }
  assert (NDb : IsForkHeight FORK_LIFESTEAL (nHeight s) = false ->
                NoDup (StdMap.keys (banks s))).
  { intros EL. destruct Hexp as [D | (_ & ND & _)]; [congruence | exact ND]. }
  destruct Hage as (nb & -> & NDn & Hnb & Hcnt & Hnbok). cbn [bind].
  rewrite ensure_true by (now apply Z.leb_le).
  rewrite Hfill. cbn [bind]. fold (bank_pool s).
  destruct (set_of_list_spec (bank_pool s) [] ltac:(constructor) NDp
              ltac:(intros x _ []))
    as (NDset & Hinset & Hlenset).
  simpl in Hinset, Hlenset.
  destruct (UpdateBanks_exclude_loop nb (set_of_tiles (bank_pool s)) NDset NDn)
    as (opts & Eopts & NDo & Hino & Hleno).
  { intros c I. apply Hinset. right.
    apply in_map_iff in I. destruct I as ([c' l'] & <- & I).
    now apply (Hnbok c' l'). }
  rewrite Eopts. cbn [bind]. unfold set_of_tiles in Hleno.
  rewrite Hlenset in Hleno.
  rewrite ensure_true by (apply Z.eqb_eq; lia).
  destruct (UpdateBanks_refill_spec
              (Z.to_nat (DYNBANKS_NUM_BANKS - Z.of_nat (List.length nb)))
              opts nb rng NDo NDn)
    as (nb' & rng' & Erefill & Hlen' & ND' & Hkeep & Hnew).
  { intros c I. now apply Hino in I. }
  { lia. }
  rewrite Erefill. cbn [bind]. rewrite ensure_true by (apply Z.eqb_eq; lia).
  exists (set_banks s nb'), rng'.
  split; [reflexivity |]. split; [reflexivity |]. simpl.
  split; [| split; [| split]].
  2: { apply UpdateBanks_refill_draws in Erefill.
       apply UpdateBanks_exclude_filter in Eopts.
       assert (Hsame : forall c l, In (c, l) nb <-> In (c, l) (banks_kept s))
         by (intros c l; now rewrite Hnb, banks_kept_spec).
       assert (Hkept : List.length nb = List.length (banks_kept s) /\
                       opts = bank_options s).
       { destruct (banks_carried_over s) eqn:Ec.
         - unfold banks_carried_over in Ec. apply andb_true_iff in Ec.
           destruct Ec as [Ec _]. apply negb_true_iff in Ec.
           rewrite Eopts. now apply banks_kept_same; [apply NDb | |].
         - assert (Enb : nb = []).
           { destruct nb as [| [c l] nb0]; [reflexivity |].
             destruct (proj1 (Hnb c l) (or_introl eq_refl)) as [D _].
             discriminate. }
           subst nb. unfold bank_options, banks_kept in *. rewrite Ec.
           split; [reflexivity | exact Eopts]. }
       destruct Hkept as [Hlenk Hopts]. unfold refilled.
       rewrite <- Hlenk, <- Hopts. destruct Erefill as [Er Hin].
       split; [exact Er |]. intros [c l]. rewrite Hin, Hsame. tauto. }
  - unfold banks_ok. split; [lia |]. split; [assumption |].
    intros c l I. apply Hnew in I. destruct I as [I | [I B]].
    + destruct (Hnbok c l I) as [U P]. apply Hnb in I.
      destruct I as (_ & L & _). split; [lia | assumption].
    + split; [unfold DYNBANKS_MIN_LIFE, DYNBANKS_MAX_LIFE in *; lia |].
      apply Hino in I. destruct I as [I _]. apply Hinset in I.
      destruct I as [[] | I]. assumption.
  - intros c l I. apply Hnew in I. destruct I as [I | [I B]].
    + left. apply Hnb in I. tauto.
    + now right.
  - intros c l Hc I L. apply Hkeep. apply Hnb.
    split; [assumption |]. split; [lia |].
    replace (l - 1 + 1) with l by lia. assumption.
Qed.

End BankRefill.

(** ** The treasure *)

Section TreasureProps.
Context `{GameMap} `{Random}.

Lemma DropTreasure_area_eq (treasure : CAmount) (i : Z) (s : GameState)
  (rnd : RandomGenerator) (acc : CAmount) :
  DropTreasure_area treasure i (s, rnd, acc)
  = Some (AddLoot (harvest_tile i (fst (GetIntRnd rnd (HarvestAreaSizes i))))
            (harvest_share treasure i) s,
          snd (GetIntRnd rnd (HarvestAreaSizes i)),
          acc + harvest_share treasure i).
Proof.
  unfold DropTreasure_area, harvest_tile.
  now destruct (GetIntRnd rnd (HarvestAreaSizes i)).
Qed.

(** The loop over the harvest areas never halts: it puts the share of every
    area on the tile of the area at the position drawn for it, adds the
    shares up and leaves the generator of the last draw. *)
Lemma DropTreasure_loop (treasure : CAmount) (areas : list Z) :
  forall (s : GameState) (rnd : RandomGenerator) (acc : Z),
    foreach areas (DropTreasure_area treasure) (s, rnd, acc)
    = Some (drop_shares treasure areas (fst (harvest_draws areas rnd)) s,
            snd (harvest_draws areas rnd),
            acc + Zsum (map (harvest_share treasure) areas)).
Proof.
  induction areas as [| i areas IH]; intros s rnd acc.
  - simpl. now rewrite Z.add_0_r.
  - cbn [foreach]. rewrite DropTreasure_area_eq. cbn [bind]. rewrite IH.
    cbn [harvest_draws fst snd drop_shares map]. unfold Zsum.
    cbn [fold_right]. now rewrite Z.add_assoc.
Qed.

Lemma harvest_draws_length (areas : list Z) :
  forall rnd : RandomGenerator,
    List.length (fst (harvest_draws areas rnd)) = List.length areas.
Proof.
  induction areas as [| i areas IH]; intros rnd; simpl; [reflexivity |].
  now rewrite IH.
Qed.

Lemma harvest_draws_range (areas : list Z) :
  RandomContract ->
  forall rnd : RandomGenerator,
    Forall2 (fun i a => 0 < HarvestAreaSizes i -> 0 <= a < HarvestAreaSizes i)
      areas (fst (harvest_draws areas rnd)).
Proof.
  intros RC. induction areas as [| i areas IH]; intros rnd; simpl;
    constructor; [| apply IH].
  intros Hsize. exact (RC rnd (HarvestAreaSizes i) Hsize).
Qed.

(** Shares that divide without rest add up like the portions. *)
Lemma exact_shares (treasure : CAmount) (areas : list Z) :
  TOTAL_HARVEST <> 0 ->
  (forall i, In i areas ->
             Z.rem (HarvestPortions i * treasure) TOTAL_HARVEST = 0) ->
  TOTAL_HARVEST * Zsum (map (harvest_share treasure) areas)
  = Zsum (map HarvestPortions areas) * treasure.
Proof.
  intros Hnz Hdiv. induction areas as [| i areas IH]; simpl; [lia |].
  assert (Hi : HarvestPortions i * treasure
               = TOTAL_HARVEST * harvest_share treasure i).
  { apply Z.quot_exact; [assumption |]. apply Hdiv. now left. }
  rewrite Z.mul_add_distr_l, IH by (intros j I; apply Hdiv; now right).
  lia.
Qed.

(** Of a treasure of one coin nothing is left by portions below the
    total. *)
Lemma unit_shares (areas : list Z) :
  (forall i, In i areas -> 0 <= HarvestPortions i < TOTAL_HARVEST) ->
  Zsum (map (harvest_share 1) areas) = 0.
Proof.
  intros Hlow. induction areas as [| i areas IH]; simpl; [reflexivity |].
  rewrite IH by (intros j I; apply Hlow; now right).
  unfold harvest_share. rewrite Z.mul_1_r, Z.quot_small; [reflexivity |].
  apply Hlow. now left.
Qed.

(** C6, on the code.  With a harvest total other than zero, the
    treasure-drop pass draws one position below the size of each harvest
    area in turn and compares the sum of the shares of the areas
    ([HarvestPortions i * T / TOTAL_HARVEST], integer division) and of the
    crown bonus ([CROWN_BONUS * T / TOTAL_HARVEST]) with [T]: where they are
    equal it returns the state with the share of every area on the tile at
    the position drawn for it, the generator after the last draw and the
    crown bonus; where they differ its assertion fails.  The positions drawn
    are as many as the areas and lie within the areas.  The sum is [T]
    whenever the portions and the crown bonus add up to the harvest total
    and every product of a portion, or of the crown bonus, with [T] is a
    multiple of the harvest total; and for a treasure of one coin the sum is
    0 when the portions and the crown bonus lie below the harvest total, so
    that the assertion fails on it. *)
Theorem DropTreasure_exact (treasure : CAmount) (s : GameState)
  (rnd : RandomGenerator) :
  TOTAL_HARVEST <> 0 ->
  DropTreasure treasure (s, rnd)
  = (if shares_total treasure =? treasure
     then Some (drop_shares treasure (Z_range NUM_HARVEST_AREAS)
                  (fst (harvest_draws (Z_range NUM_HARVEST_AREAS) rnd)) s,
                snd (harvest_draws (Z_range NUM_HARVEST_AREAS) rnd),
                crown_bonus_of treasure)
     else None) /\
  List.length (fst (harvest_draws (Z_range NUM_HARVEST_AREAS) rnd))
  = List.length (Z_range NUM_HARVEST_AREAS) /\
  (RandomContract ->
   Forall2 (fun i a => 0 < HarvestAreaSizes i -> 0 <= a < HarvestAreaSizes i)
     (Z_range NUM_HARVEST_AREAS)
     (fst (harvest_draws (Z_range NUM_HARVEST_AREAS) rnd))) /\
  (portions_total = TOTAL_HARVEST ->
   (forall i, In i (Z_range NUM_HARVEST_AREAS) ->
              Z.rem (HarvestPortions i * treasure) TOTAL_HARVEST = 0) ->
   Z.rem (CROWN_BONUS * treasure) TOTAL_HARVEST = 0 ->
   shares_total treasure = treasure) /\
  ((forall i, In i (Z_range NUM_HARVEST_AREAS) ->
              0 <= HarvestPortions i < TOTAL_HARVEST) ->
   0 <= CROWN_BONUS < TOTAL_HARVEST ->
   shares_total 1 = 0 /\ DropTreasure 1 (s, rnd) = None).
Proof.
  intros Hnz.
  assert (Hrun : forall T,
            DropTreasure T (s, rnd)
            = (if shares_total T =? T
               then Some (drop_shares T (Z_range NUM_HARVEST_AREAS)
                            (fst (harvest_draws (Z_range NUM_HARVEST_AREAS)
                                    rnd)) s,
                          snd (harvest_draws (Z_range NUM_HARVEST_AREAS) rnd),
                          crown_bonus_of T)
               else None)).
  { intros T. unfold DropTreasure.
    rewrite ensure_true by (now apply negb_true_iff, Z.eqb_neq).
    cbn [fst snd]. rewrite DropTreasure_loop. cbn [bind].
    unfold shares_total. cbn [Z.add].
    now destruct (Zsum (map (harvest_share T) (Z_range NUM_HARVEST_AREAS))
                  + crown_bonus_of T =? T). }
  split; [apply Hrun |]. split; [apply harvest_draws_length |].
  split; [intros RC; now apply harvest_draws_range |]. split.
  - intros Hport Hdiv Hcrown. unfold shares_total.
    pose proof (exact_shares treasure (Z_range NUM_HARVEST_AREAS) Hnz Hdiv)
      as Hshares.
    assert (Hbonus : CROWN_BONUS * treasure
                     = TOTAL_HARVEST * crown_bonus_of treasure)
      by (apply Z.quot_exact; assumption).
    unfold portions_total in Hport.
    apply (Z.mul_reg_l _ _ TOTAL_HARVEST); [assumption |].
    rewrite Z.mul_add_distr_l, Hshares, <- Hbonus, <- Hport. lia.
  - intros Hlow Hbonus.
    assert (Hzero : shares_total 1 = 0).
    { unfold shares_total. rewrite unit_shares by assumption.
      unfold crown_bonus_of. rewrite Z.mul_1_r, Z.quot_small; [reflexivity |].
      exact Hbonus. }
    split; [exact Hzero |]. now rewrite Hrun, Hzero.
Qed.

End TreasureProps.

(** ** The step *)

Lemma fold_left_add {A : Type} (f : A -> Z) (l : list A) (a : Z) :
  fold_left (fun acc x => acc + f x) l a = a + Zsum (map f l).
Proof.
  revert a. induction l as [| x l IH]; intros a; simpl; [lia |].
  rewrite IH. lia.
Qed.

(** [GetCoinsOnMap] counts the loot tiles, the player values and the loot of
    the characters. *)
Lemma GetCoinsOnMap_players (ps : list (PlayerID * PlayerState)) (a : Z) :
  fold_left
    (fun acc p =>
       fold_left (fun acc pc => acc + nAmount (info (loot (snd pc))))
         (characters (snd p)) (acc + value (snd p)))
    ps a
  = a + Zsum (map (fun p => value (snd p)
                            + Zsum (map (fun pc => nAmount (info (loot (snd pc))))
                                      (characters (snd p))))
                ps).
Proof.
  revert a. induction ps as [| p ps IH]; intros a; simpl; [lia |].
  rewrite IH, fold_left_add. unfold CAmount. lia.
Qed.

Lemma GetCoinsOnMap_sum (s : GameState) : GetCoinsOnMap s = coins_on_map s.
Proof.
  unfold GetCoinsOnMap, coins_on_map.
  etransitivity; [apply GetCoinsOnMap_players |].
  rewrite fold_left_add. reflexivity.
Qed.

Lemma moneyOut_of_sum (step : StepResult) : moneyOut_of step = money_out step.
Proof. unfold moneyOut_of, money_out. apply fold_left_add. Qed.

Lemma foreach_keeps {A S T : Type} (f : S -> T) (xs : list A)
  (body : A -> S -> option S) :
  (forall x s s', In x xs -> body x s = Some s' -> f s' = f s) ->
  forall s s', foreach xs body s = Some s' -> f s' = f s.
Proof.
  induction xs as [| x xs IH]; intros Hbody s s' E; simpl in E.
  - now injection E as <-.
  - apply bind_Some in E. destruct E as (s1 & E1 & E).
    rewrite (IH (fun y t t' I => Hbody y t t' (or_intror I)) s1 s' E).
    apply (Hbody x); [now left | assumption].
Qed.

Section MapValues.
Context {K V W : Type} `{KeyOps K} (g : V -> W).

Lemma find_map_values (k : K) (m : list (K * V)) :
  StdMap.find k (map (fun p => (fst p, g (snd p))) m)
  = option_map g (StdMap.find k m).
Proof.
  induction m as [| [k1 v1] m IH]; simpl; [reflexivity |].
  now destruct (keqb k k1).
Qed.

Lemma assign_map_values (k : K) (v : V) (m : list (K * V)) :
  map (fun p => (fst p, g (snd p))) (StdMap.assign k v m)
  = StdMap.assign k (g v) (map (fun p => (fst p, g (snd p))) m).
Proof.
  induction m as [| [k1 v1] m IH]; simpl; [reflexivity |].
  destruct (keqb k k1); simpl; [reflexivity | now rewrite IH].
Qed.

End MapValues.

Section StepProps.
Context `{ForkGate} `{GameMap} `{Header} `{Passes}.

(** The fees: [moneyIn] is the sum of the locked-coin deltas of the moves. *)
Lemma PayFees_loop (moves : list (Move MoveExt)) :
  forall (s s' : GameState) (a a' : CAmount),
    foreach moves PayFees_move (s, a) = Some (s', a') ->
    hashBlock s' = hashBlock s /\
    a' = a + Zsum (locked_deltas (locked_of (players s)) moves).
Proof.
  induction moves as [| m moves IH]; intros s s' a a' E; simpl in E.
  - injection E as <- <-. simpl. split; [reflexivity | lia].
  - apply bind_Some in E. destruct E as ([s1 a1] & E1 & E).
    apply IH in E. destruct E as [Hh Ha].
    unfold PayFees_move in E1. simpl.
    destruct (m_IsSpawn m); simpl in E1.
    + injection E1 as <- <-. split; [assumption |]. simpl. lia.
    + apply bind_Some in E1. destruct E1 as (pl & Hpl & E1).
      apply bind_Some in E1. destruct E1 as (u & _ & E1).
      injection E1 as <- <-. simpl in Hh, Ha.
      unfold locked_of at 1. rewrite find_map_values, Hpl. simpl.
      unfold locked_of in Ha. rewrite assign_map_values in Ha. simpl in Ha.
      split; [assumption |]. unfold locked_of. lia.
Qed.

Lemma DecrementLife_hash (sr sr' : GameState * StepResult) :
  DecrementLife sr = Some sr' -> hashBlock (fst sr') = hashBlock (fst sr).
Proof.
  unfold DecrementLife. intros E.
  apply bind_Some in E. destruct E as ([ps step] & _ & E).
  now injection E as <-.
Qed.

Lemma HandleKilledLoot_loop_hash {A : Type} (xs : list A)
  (kill : A -> GameState * StepResult -> option (GameState * StepResult))
  (sr sr' : GameState * StepResult) :
  (forall x, exists pId chInd k min_version,
     kill x = HandleKilledLoot pId chInd k min_version) ->
  foreach xs kill sr = Some sr' -> hashBlock (fst sr') = hashBlock (fst sr).
Proof.
  intros Hkill.
  apply (foreach_keeps (fun t : GameState * StepResult => hashBlock (fst t))).
  intros x [s step] [s' step'] _ E.
  destruct (Hkill x) as (pId & chInd & k & v & Ek). rewrite Ek in E.
  apply HandleKilledLoot_frame in E. simpl. tauto.
Qed.

Lemma FinaliseKills_hash (min_version : Z) (sr sr' : GameState * StepResult) :
  FinaliseKills min_version sr = Some sr' ->
  hashBlock (fst sr') = hashBlock (fst sr).
Proof.
  unfold FinaliseKills. intros E.
  apply bind_Some in E. destruct E as ([s step] & E1 & E).
  injection E as <-. simpl.
  apply (foreach_keeps (fun t : GameState * StepResult => hashBlock (fst t)))
    in E1; [exact E1 |].
  intros victim t t' _ Ev. unfold FinaliseKills_victim in Ev.
  apply bind_Some in Ev. destruct Ev as (vs & _ & Ev).
  apply bind_Some in Ev. destruct Ev as (k & _ & Ev).
  apply HandleKilledLoot_loop_hash in Ev; [exact Ev |].
  intros pc. now exists victim, (fst pc), k, min_version.
Qed.

Lemma RemoveHeartedCharacters_hash (min_version : Z)
  (sr sr' : GameState * StepResult) :
  RemoveHeartedCharacters min_version sr = Some sr' ->
  hashBlock (fst sr') = hashBlock (fst sr).
Proof.
  unfold RemoveHeartedCharacters. intros E.
  apply bind_Some in E. destruct E as (u & _ & E).
  apply (foreach_keeps (fun t : GameState * StepResult => hashBlock (fst t)))
    in E; [exact E |].
  intros p t t' _ Ep. unfold RemoveHeartedCharacters_player in Ep.
  apply bind_Some in Ep. destruct Ep as ([s step] & E1 & Ep).
  apply bind_Some in Ep. destruct Ep as (pl & _ & Ep).
  injection Ep as <-. simpl.
  apply HandleKilledLoot_loop_hash in E1; [exact E1 |].
  intros pc.
  now exists (fst p), (fst pc), (KilledBy_reason KILLED_POISON), min_version.
Qed.

Lemma UpdateCrownState_hash (s s' : GameState) (respawn : bool) :
  UpdateCrownState s = Some (s', respawn) -> hashBlock s' = hashBlock s.
Proof.
  unfold UpdateCrownState. intros E.
  destruct (String.eqb (player (crownHolder s)) EmptyString).
  { now injection E as <- _. }
  destruct (StdMap.find (player (crownHolder s)) (players s)) as [pl |].
  2: { now injection E as <- _. }
  destruct (StdMap.find (index (crownHolder s)) (characters pl)) as [ch |].
  2: { now injection E as <- _. }
  apply bind_Some in E. destruct E as (onBank & _ & E).
  destruct onBank; now injection E as <- _.
Qed.

Lemma Banking_hash (min_version : Z) (sr sr' : GameState * StepResult) :
  Banking min_version sr = Some sr' -> hashBlock (fst sr') = hashBlock (fst sr).
Proof.
  unfold Banking. intros E.
  apply bind_Some in E. destruct E as ([ps step] & _ & E).
  now injection E as <-.
Qed.

Lemma on_state_hash
  (f : GameState * StepResult -> option (GameState * StepResult))
  (wr wr' : World Ext * StepResult) :
  (forall sr sr', f sr = Some sr' -> hashBlock (fst sr') = hashBlock (fst sr)) ->
  on_state f wr = Some wr' ->
  hashBlock (state (fst wr')) = hashBlock (state (fst wr)).
Proof.
  intros Hf E. unfold on_state in E.
  apply bind_Some in E. destruct E as ([s r] & E1 & E).
  injection E as <-. simpl. exact (Hf _ _ E1).
Qed.

(** The version gate does not depend on the passes kept abstract: on a
    state without players that asks for version 2020700 a block without
    moves is refused whatever they do. *)
Lemma PerformStep_outdated (c : Cache) (e : Ext) (hash : uint256) :
  PerformStep (mkWorld Sample.outdated c e) (mkStepData hash [] 0) = Rejected.
Proof. reflexivity. Qed.

End StepProps.

Section StepTheorems.
Context `{ForkGate} `{GameMap} `{Header} `{Passes}.
Hypothesis frame : PassesFrame.

(** The state that leaves [Step_begin] carries the hash of the new block. *)
Lemma Step_begin_hash (inState w1 : World Ext) (stepData : StepData MoveExt) :
  Step_begin inState stepData = Some w1 ->
  hashBlock (state w1) = newHash stepData.
Proof.
  unfold Step_begin. intros E.
  apply bind_Some in E. destruct E as ([s1 d] & Ed & E).
  assert (Hs1 : hashBlock s1 = newHash stepData).
  { unfold DungeonLevels in Ed.
    apply bind_Some in Ed. destruct Ed as (u & _ & Ed).
    apply bind_Some in Ed. destruct Ed as (u' & _ & Ed).
    injection Ed as <- _.
    now destruct (_ <? MIN_GAMEROUND_DURATION). }
  unfold Pass1_DAO in E.
  destruct (Merchant_exists _ MERCH_INFO_DEVMODE).
  - apply (Pass1_DAO_voting_hash frame) in E. now rewrite E.
  - now injection E as <-.
Qed.

(** The deterministic part of the step keeps the hash, hands on the sum of
    the locked-coin deltas as [moneyIn] and a resolver without attacks. *)
Lemma Step_deterministic_spec (w0 : World Ext) (stepData : StepData MoveExt)
  (b : Banked) :
  Step_deterministic w0 stepData = Some b ->
  hashBlock (state (bk_world b)) = hashBlock (state w0) /\
  bk_moneyIn b
  = Zsum (locked_deltas (locked_of (players (state w0))) (vMoves stepData)) /\
  bk_attackedTiles b = CharactersOnTiles_new.
Proof.
  unfold Step_deterministic. intros E.
  apply bind_Some in E. destruct E as ([s1 moneyIn] & Efee & E).
  apply PayFees_loop in Efee. destruct Efee as [Hs1 Hin].
  apply bind_Some in E. destruct E as ([tiles1 c1] & Eatt & E).
  assert (Htiles : tiles1 = CharactersOnTiles_new).
  { unfold ApplyAttacks in Eatt.
    apply bind_Some in Eatt. destruct Eatt as (c' & _ & Eatt).
    now injection Eatt as <- _. }
  subst tiles1.
  replace (if state_ForkInEffect s1 FORK_LIFESTEAL
           then DefendMutualAttacks CharactersOnTiles_new s1
           else CharactersOnTiles_new)
    with CharactersOnTiles_new in E
    by (now destruct (state_ForkInEffect s1 FORK_LIFESTEAL)).
  apply bind_Some in E. destruct E as ([tiles3 [s2 r2]] & Edraw & E).
  injection Edraw as <- <- <-.
  apply bind_Some in E. destruct E as (wr3 & E3 & E).
  apply (KillSpawnArea_hash frame) in E3. simpl in E3.
  apply bind_Some in E. destruct E as (wr4 & E4 & E).
  apply (KillRangedAttacks_hash frame) in E4.
  apply bind_Some in E. destruct E as (wr5 & E5 & E).
  apply (on_state_hash _ _ _ DecrementLife_hash) in E5.
  apply bind_Some in E. destruct E as (wr6 & E6 & E).
  apply (on_state_hash _ _ _ (FinaliseKills_hash _)) in E6.
  apply bind_Some in E. destruct E as (wr7 & E7 & E).
  assert (H7 : hashBlock (state (fst wr7)) = hashBlock (state (fst wr6))).
  { destruct (IsForkHeight FORK_LIFESTEAL (nHeight (state (fst wr6)))).
    - now apply (on_state_hash _ _ _ (RemoveHeartedCharacters_hash _)) in E7.
    - now injection E7 as <-. }
  apply bind_Some in E. destruct E as (w8 & E8 & E).
  apply (foreach_keeps (fun w : World Ext => hashBlock (state w))) in E8.
  2: { intros m w w' _ Em. destruct (negb (m_IsSpawn m)).
       - now apply (ApplyWaypoints_hash frame) in Em.
       - now injection Em as <-. }
  apply bind_Some in E. destruct E as (w9 & E9 & E).
  apply (Pass2_Melee_hash frame) in E9.
  apply bind_Some in E. destruct E as (w10 & E10 & E).
  apply (Pathfinding_hash frame) in E10.
  apply bind_Some in E. destruct E as (w11 & E11 & E).
  apply (Pass3_PaymentAndHitscan_hash frame) in E11.
  apply bind_Some in E. destruct E as (w12 & E12 & E).
  apply (Pass4_Refund_hash frame) in E12.
  apply bind_Some in E. destruct E as ([s14 respawn] & E14 & E).
  apply UpdateCrownState_hash in E14. simpl in E14.
  apply bind_Some in E. destruct E as ([s15 r15] & E15 & E).
  apply Banking_hash in E15. simpl in E15.
  injection E as <-. simpl.
  split; [| split; [rewrite Hin; simpl; lia | reflexivity]].
  congruence.
Qed.

(** The test that closes [PerformStep], in the words of the document. *)
Lemma money_balanced_spec (inState outState : GameState)
  (stepData : StepData MoveExt) (moneyIn : CAmount) (step : StepResult) :
  money_balanced inState outState stepData moneyIn step = true <->
  coins_on_map inState + gameFund inState + nTreasureAmount stepData + moneyIn
  = coins_on_map outState + gameFund outState + money_out step.
Proof.
  unfold money_balanced.
  now rewrite Z.eqb_eq, !GetCoinsOnMap_sum, moneyOut_of_sum.
Qed.

(** C1.  For a block with a hash that is not null: every step that
    [PerformStep] accepts has passed the deterministic and the random part
    and conserves the coins.  The money on the map before the step (loot
    tiles, player values and character loot) plus the game fund, the
    treasure and [moneyIn], the sum of the locked-coin deltas of the moves,
    equals the money on the map after the step plus the game fund and
    [moneyOut], the tax and all bounties paid.  Whenever a step gets as far
    as that comparison and the two sides differ, [PerformStep] returns
    false. *)
Theorem PerformStep_coin_conservation (inState : World Ext)
  (stepData : StepData MoveExt) :
  IsNull (newHash stepData) = false ->
  (forall out res,
     PerformStep inState stepData = Accepted out res ->
     exists w1 b,
       Step_begin inState stepData = Some w1 /\
       Step_deterministic w1 stepData = Some b /\
       Step_random inState stepData b = Some (out, res) /\
       bk_moneyIn b
       = Zsum (locked_deltas (locked_of (players (state w1)))
                 (vMoves stepData)) /\
       coins_on_map (state inState) + gameFund (state inState)
       + nTreasureAmount stepData + bk_moneyIn b
       = coins_on_map (state out) + gameFund (state out) + money_out res) /\
  (forall w1 b out res,
     Step_begin inState stepData = Some w1 ->
     Step_deterministic w1 stepData = Some b ->
     Step_random inState stepData b = Some (out, res) ->
     coins_on_map (state inState) + gameFund (state inState)
     + nTreasureAmount stepData + bk_moneyIn b
     <> coins_on_map (state out) + gameFund (state out) + money_out res ->
     PerformStep inState stepData = Rejected).
Proof.
  intros Hhash.
  assert (Hnull : forall w1 b,
            Step_begin inState stepData = Some w1 ->
            Step_deterministic w1 stepData = Some b ->
            IsNull (hashBlock (state (bk_world b))) = false).
  { intros w1 b E1 Eb.
    destruct (Step_deterministic_spec w1 stepData b Eb) as (-> & _).
    now rewrite (Step_begin_hash inState w1 stepData E1). }
  split.
  - intros out res E. unfold PerformStep in E.
    destruct (negb (forallb _ (vMoves stepData))); [discriminate |].
    destruct (Step_begin inState stepData) as [w1 |] eqn:E1; [| discriminate].
    destruct (STATE_VERSION <? dao_MinVersion (state w1)); [discriminate |].
    destruct (Step_deterministic w1 stepData) as [b |] eqn:Eb;
      [| discriminate].
    rewrite (Hnull w1 b eq_refl Eb) in E.
    destruct (Step_random inState stepData b) as [[w2 step] |] eqn:Er;
      [| discriminate].
    destruct (money_balanced (state inState) (state w2) stepData
                (bk_moneyIn b) step) eqn:Em; [| discriminate].
    injection E as <- <-.
    exists w1, b. split; [reflexivity |]. split; [assumption |].
    split; [assumption |]. split.
    + now destruct (Step_deterministic_spec w1 stepData b Eb) as (_ & ? & _).
    + now apply money_balanced_spec.
  - intros w1 b out res E1 Eb Er Hdiff. unfold PerformStep.
    destruct (negb (forallb _ (vMoves stepData))); [reflexivity |].
    rewrite E1.
    destruct (STATE_VERSION <? dao_MinVersion (state w1)); [reflexivity |].
    rewrite Eb, (Hnull w1 b E1 Eb), Er.
    destruct (money_balanced (state inState) (state out) stepData
                (bk_moneyIn b) res) eqn:Em; [| reflexivity].
    apply money_balanced_spec in Em. contradiction.
Qed.

(** C3, as the code has it.  For a block whose hash is null, [PerformStep]
    returns false when a move is not valid or when the state asks for a
    version of the rules above [STATE_VERSION]; otherwise it returns true
    right after the banking pass, with the state and the step result (the
    tax amount among it) as the banking pass leaves them, and runs none of
    the passes that follow: the result is the result of [PerformStep] with
    those passes cut off. *)
Theorem PerformStep_null_hash (inState : World Ext)
  (stepData : StepData MoveExt) :
  IsNull (newHash stepData) = true ->
  PerformStep inState stepData
  = if negb (forallb (fun m => IsValid m inState) (vMoves stepData))
    then Rejected
    else match Step_begin inState stepData with
         | None => Halted
         | Some w1 =>
             if STATE_VERSION <? dao_MinVersion (state w1) then Rejected
             else match Step_deterministic w1 stepData with
                  | None => Halted
                  | Some b => Accepted (bk_world b) (bk_result b)
                  end
         end.
Proof.
  intros Hhash. unfold PerformStep.
  destruct (negb (forallb _ (vMoves stepData))); [reflexivity |].
  destruct (Step_begin inState stepData) as [w1 |] eqn:E1; [| reflexivity].
  destruct (STATE_VERSION <? dao_MinVersion (state w1)); [reflexivity |].
  destruct (Step_deterministic w1 stepData) as [b |] eqn:Eb; [| reflexivity].
  destruct (Step_deterministic_spec w1 stepData b Eb) as (-> & _).
  now rewrite (Step_begin_hash inState w1 stepData E1), Hhash.
Qed.

End StepTheorems.

(** ** The banks after a step *)

Section BanksAfterStep.
Context `{ForkGate} `{GameMap} `{Header} `{Passes}.

(** With the LIFESTEAL fork in effect a call of [UpdateBanks] that returns
    has passed its closing assertion. *)
Lemma UpdateBanks_count (s s' : GameState) (rng rng' : RandomGenerator) :
  UpdateBanks s rng = Some (s', rng') ->
  nHeight s' = nHeight s /\
  (state_ForkInEffect s FORK_LIFESTEAL = true ->
   Z.of_nat (List.length (banks s')) = DYNBANKS_NUM_BANKS).
Proof.
  unfold UpdateBanks. intros E.
  destruct (state_ForkInEffect s FORK_LIFESTEAL); cbn [negb] in E.
  2: { injection E as <- _. split; [reflexivity | discriminate]. }
  apply bind_Some in E. destruct E as (nb & _ & E).
  apply bind_Some in E. destruct E as (u1 & _ & E).
  apply bind_Some in E. destruct E as (u2 & _ & E).
  apply bind_Some in E. destruct E as (opts & _ & E).
  apply bind_Some in E. destruct E as (u3 & _ & E).
  apply bind_Some in E. destruct E as ([nb' rng1] & _ & E).
  apply bind_Some in E. destruct E as (u4 & Hcount & E).
  apply cpp_assert_Some, Z.eqb_eq in Hcount.
  injection E as <- _. split; [reflexivity |]. intros _. exact Hcount.
Qed.

Lemma DropHeart_custom_banks (spawn : bool)
  (sr sr' : GameState * RandomGenerator) :
  DropHeart_custom spawn sr = Some sr' ->
  banks (fst sr') = banks (fst sr) /\ nHeight (fst sr') = nHeight (fst sr).
Proof.
  unfold DropHeart_custom. intros E. destruct spawn.
  2: { injection E as <-. now split. }
  apply bind_Some in E. destruct E as (u & _ & E).
  destruct (GetIntRnd (snd sr) MAP_WIDTH) as [x rnd1].
  destruct (GetIntRnd rnd1 MAP_HEIGHT) as [y rnd2].
  match type of E with (if ?c then _ else _) = _ => destruct c end;
    injection E as <-; now split.
Qed.

Lemma CollectHearts_banks (sr sr' : GameState * RandomGenerator) :
  CollectHearts sr = Some sr' ->
  banks (fst sr') = banks (fst sr) /\ nHeight (fst sr') = nHeight (fst sr).
Proof.
  unfold CollectHearts. intros E.
  apply (foreach_keeps
           (fun t : GameState * RandomGenerator =>
              (banks (fst t), nHeight (fst t)))) in E.
  - injection E as Eb Eh. now split.
  - intros t [s rnd] [s' rnd'] _ Et. unfold CollectHearts_tile in Et.
    apply bind_Some in Et. destruct Et as ([picked rnd1] & _ & Et).
    destruct picked as [chosen |]; [| now injection Et as <- _].
    apply bind_Some in Et. destruct Et as (pl & _ & Et).
    apply bind_Some in Et. destruct Et as ([pl1 rnd2] & _ & Et).
    now injection Et as <- _.
Qed.

Lemma CollectCrown_banks (respawn : bool)
  (sr sr' : GameState * RandomGenerator) :
  CollectCrown respawn sr = Some sr' ->
  banks (fst sr') = banks (fst sr) /\ nHeight (fst sr') = nHeight (fst sr).
Proof.
  unfold CollectCrown. destruct sr as [s rnd]. intros E.
  destruct (negb (String.eqb (player (crownHolder s)) EmptyString)).
  { apply bind_Some in E. destruct E as (u & _ & E).
    injection E as <-. now split. }
  assert (Hs1 : forall p : GameState * RandomGenerator,
            p = (if respawn
                 then let '(a, rnd') := GetIntRnd rnd NUM_CROWN_LOCATIONS in
                      (set_crown s
                         (mkCoord (CrownSpawn (2 * a)) (CrownSpawn (2 * a + 1)))
                         (crownHolder s), rnd')
                 else (s, rnd)) ->
            banks (fst p) = banks s /\ nHeight (fst p) = nHeight s).
  { intros p ->. destruct respawn; [| now split].
    destruct (GetIntRnd rnd NUM_CROWN_LOCATIONS). now split. }
  specialize (Hs1 _ eq_refl).
  destruct (if respawn
            then let '(a, rnd') := GetIntRnd rnd NUM_CROWN_LOCATIONS in
                 (set_crown s
                    (mkCoord (CrownSpawn (2 * a)) (CrownSpawn (2 * a + 1)))
                    (crownHolder s), rnd')
            else (s, rnd)) as [s1 rnd1].
  simpl in Hs1.
  match type of E with (if ?c then _ else _) = _ => destruct c end.
  { now injection E as <-. }
  match type of E with
  | (let '(_, _) := ?c in _) = _ => destruct c as [i rnd2]
  end.
  apply bind_Some in E. destruct E as (holder & _ & E).
  now injection E as <-.
Qed.

End BanksAfterStep.

(** ** The banks from the beginning of a step to [UpdateBanks] *)

Section BanksBeforeStep.
Context `{ForkGate} `{GameMap} `{Header} `{Passes}.
Hypothesis untouched : PassesBanks.

Lemma PayFees_banks (moves : list (Move MoveExt)) (s s' : GameState)
  (a : CAmount) :
  PayFees moves s = Some (s', a) -> bank_view s' = bank_view s.
Proof.
  unfold PayFees. intros E.
  apply (foreach_keeps (fun t : GameState * CAmount => bank_view (fst t))) in E;
    [exact E |].
  intros m [s1 a1] [s2 a2] _ Em. unfold PayFees_move in Em.
  destruct (negb (m_IsSpawn m)).
  - apply bind_Some in Em. destruct Em as (pl & _ & Em).
    apply bind_Some in Em. destruct Em as (u & _ & Em).
    now injection Em as <- _.
  - now injection Em as <- _.
Qed.

Lemma DecrementLife_banks (sr sr' : GameState * StepResult) :
  DecrementLife sr = Some sr' -> bank_view (fst sr') = bank_view (fst sr).
Proof.
  unfold DecrementLife. intros E.
  apply bind_Some in E. destruct E as ([ps step] & _ & E).
  now injection E as <-.
Qed.

Lemma HandleKilledLoot_loop_banks {A : Type} (xs : list A)
  (kill : A -> GameState * StepResult -> option (GameState * StepResult))
  (sr sr' : GameState * StepResult) :
  (forall x, exists pId chInd k min_version,
     kill x = HandleKilledLoot pId chInd k min_version) ->
  foreach xs kill sr = Some sr' -> bank_view (fst sr') = bank_view (fst sr).
Proof.
  intros Hkill.
  apply (foreach_keeps (fun t : GameState * StepResult => bank_view (fst t))).
  intros x [s step] [s' step'] _ E.
  destruct (Hkill x) as (pId & chInd & k & v & Ek). rewrite Ek in E.
  apply HandleKilledLoot_frame in E. destruct E as (_ & Hn & _ & Hb & _).
  unfold bank_view. simpl. now rewrite Hb, Hn.
Qed.

Lemma FinaliseKills_banks (min_version : Z) (sr sr' : GameState * StepResult) :
  FinaliseKills min_version sr = Some sr' -> bank_view (fst sr') = bank_view (fst sr).
Proof.
  unfold FinaliseKills. intros E.
  apply bind_Some in E. destruct E as ([s step] & E1 & E).
  injection E as <-. simpl.
  apply (foreach_keeps (fun t : GameState * StepResult => bank_view (fst t)))
    in E1; [exact E1 |].
  intros victim t t' _ Ev. unfold FinaliseKills_victim in Ev.
  apply bind_Some in Ev. destruct Ev as (vs & _ & Ev).
  apply bind_Some in Ev. destruct Ev as (k & _ & Ev).
  apply HandleKilledLoot_loop_banks in Ev; [exact Ev |].
  intros pc. now exists victim, (fst pc), k, min_version.
Qed.

Lemma RemoveHeartedCharacters_banks (min_version : Z)
  (sr sr' : GameState * StepResult) :
  RemoveHeartedCharacters min_version sr = Some sr' ->
  bank_view (fst sr') = bank_view (fst sr).
Proof.
  unfold RemoveHeartedCharacters. intros E.
  apply bind_Some in E. destruct E as (u & _ & E).
  apply (foreach_keeps (fun t : GameState * StepResult => bank_view (fst t)))
    in E; [exact E |].
  intros p t t' _ Ep. unfold RemoveHeartedCharacters_player in Ep.
  apply bind_Some in Ep. destruct Ep as ([s step] & E1 & Ep).
  apply bind_Some in Ep. destruct Ep as (pl & _ & Ep).
  injection Ep as <-. simpl.
  apply HandleKilledLoot_loop_banks in E1; [exact E1 |].
  intros pc.
  now exists (fst p), (fst pc), (KilledBy_reason KILLED_POISON), min_version.
Qed.

Lemma UpdateCrownState_banks (s s' : GameState) (respawn : bool) :
  UpdateCrownState s = Some (s', respawn) -> bank_view s' = bank_view s.
Proof.
  unfold UpdateCrownState. intros E.
  destruct (String.eqb (player (crownHolder s)) EmptyString).
  { now injection E as <- _. }
  destruct (StdMap.find (player (crownHolder s)) (players s)) as [pl |].
  2: { now injection E as <- _. }
  destruct (StdMap.find (index (crownHolder s)) (characters pl)) as [ch |].
  2: { now injection E as <- _. }
  apply bind_Some in E. destruct E as (onBank & _ & E).
  destruct onBank; now injection E as <- _.
Qed.

Lemma Banking_banks (min_version : Z) (sr sr' : GameState * StepResult) :
  Banking min_version sr = Some sr' -> bank_view (fst sr') = bank_view (fst sr).
Proof.
  unfold Banking. intros E.
  apply bind_Some in E. destruct E as ([ps step] & _ & E).
  now injection E as <-.
Qed.

Lemma on_state_banks
  (f : GameState * StepResult -> option (GameState * StepResult))
  (wr wr' : World Ext * StepResult) :
  (forall sr sr', f sr = Some sr' -> bank_view (fst sr') = bank_view (fst sr)) ->
  on_state f wr = Some wr' ->
  bank_view (state (fst wr')) = bank_view (state (fst wr)).
Proof.
  intros Hf E. unfold on_state in E.
  apply bind_Some in E. destruct E as ([s r] & E1 & E).
  injection E as <-. simpl. exact (Hf _ _ E1).
Qed.

(** [Step_begin] hands on the banks of the input state, at the next
    height. *)
Lemma Step_begin_banks (inState w1 : World Ext) (stepData : StepData MoveExt) :
  Step_begin inState stepData = Some w1 ->
  bank_view (state w1)
  = (banks (state inState), nHeight (state inState) + 1).
Proof.
  unfold Step_begin. intros E.
  apply bind_Some in E. destruct E as ([s1 d] & Ed & E).
  assert (Hs1 : bank_view s1
                = (banks (state inState), nHeight (state inState) + 1)).
  { unfold DungeonLevels in Ed.
    apply bind_Some in Ed. destruct Ed as (u & _ & Ed).
    apply bind_Some in Ed. destruct Ed as (u' & _ & Ed).
    injection Ed as <- _.
    now destruct (_ <? MIN_GAMEROUND_DURATION). }
  unfold Pass1_DAO in E.
  destruct (Merchant_exists _ MERCH_INFO_DEVMODE).
  - apply (Pass1_DAO_voting_banks untouched) in E. now rewrite E.
  - now injection E as <-.
Qed.

(** So does the deterministic part of the step. *)
Lemma Step_deterministic_banks (w0 : World Ext) (stepData : StepData MoveExt)
  (b : Banked) :
  Step_deterministic w0 stepData = Some b ->
  bank_view (state (bk_world b)) = bank_view (state w0).
Proof.
  unfold Step_deterministic. intros E.
  apply bind_Some in E. destruct E as ([s1 moneyIn] & Efee & E).
  apply PayFees_banks in Efee.
  apply bind_Some in E. destruct E as ([tiles1 c1] & Eatt & E).
  assert (Htiles : tiles1 = CharactersOnTiles_new).
  { unfold ApplyAttacks in Eatt.
    apply bind_Some in Eatt. destruct Eatt as (c' & _ & Eatt).
    now injection Eatt as <- _. }
  subst tiles1.
  replace (if state_ForkInEffect s1 FORK_LIFESTEAL
           then DefendMutualAttacks CharactersOnTiles_new s1
           else CharactersOnTiles_new)
    with CharactersOnTiles_new in E
    by (now destruct (state_ForkInEffect s1 FORK_LIFESTEAL)).
  apply bind_Some in E. destruct E as ([tiles3 [s2 r2]] & Edraw & E).
  injection Edraw as <- <- <-.
  apply bind_Some in E. destruct E as (wr3 & E3 & E).
  apply (KillSpawnArea_banks untouched) in E3. simpl in E3.
  apply bind_Some in E. destruct E as (wr4 & E4 & E).
  apply (KillRangedAttacks_banks untouched) in E4.
  apply bind_Some in E. destruct E as (wr5 & E5 & E).
  apply (on_state_banks _ _ _ DecrementLife_banks) in E5.
  apply bind_Some in E. destruct E as (wr6 & E6 & E).
  apply (on_state_banks _ _ _ (FinaliseKills_banks _)) in E6.
  apply bind_Some in E. destruct E as (wr7 & E7 & E).
  assert (H7 : bank_view (state (fst wr7)) = bank_view (state (fst wr6))).
  { destruct (IsForkHeight FORK_LIFESTEAL (nHeight (state (fst wr6)))).
    - now apply (on_state_banks _ _ _ (RemoveHeartedCharacters_banks _)) in E7.
    - now injection E7 as <-. }
  apply bind_Some in E. destruct E as (w8 & E8 & E).
  apply (foreach_keeps (fun w : World Ext => bank_view (state w))) in E8.
  2: { intros m w w' _ Em. destruct (negb (m_IsSpawn m)).
       - now apply (ApplyWaypoints_banks untouched) in Em.
       - now injection Em as <-. }
  apply bind_Some in E. destruct E as (w9 & E9 & E).
  apply (Pass2_Melee_banks untouched) in E9.
  apply bind_Some in E. destruct E as (w10 & E10 & E).
  apply (Pathfinding_banks untouched) in E10.
  apply bind_Some in E. destruct E as (w11 & E11 & E).
  apply (Pass3_PaymentAndHitscan_banks untouched) in E11.
  apply bind_Some in E. destruct E as (w12 & E12 & E).
  apply (Pass4_Refund_banks untouched) in E12.
  apply bind_Some in E. destruct E as ([s14 respawn] & E14 & E).
  apply UpdateCrownState_banks in E14. simpl in E14.
  apply bind_Some in E. destruct E as ([s15 r15] & E15 & E).
  apply Banking_banks in E15. simpl in E15.
  injection E as <-. simpl. congruence.
Qed.

Lemma ApplyDisaster_banks (s s' : GameState) (rng rng' : RandomGenerator) :
  ApplyDisaster s rng = Some (s', rng') -> bank_view s' = bank_view s.
Proof.
  unfold ApplyDisaster. intros E.
  apply bind_Some in E. destruct E as ([ps r] & _ & E).
  injection E as <- _.
  now destruct (state_ForkInEffect (set_players s ps) FORK_LESSHEARTS).
Qed.

Lemma distribute_banks (fuel : nat) :
  forall (damage : CAmount) (alivePlayers alive : list CharacterID)
         (toSpend rest : CAmount) (sr sr' : GameState * RandomGenerator),
    distribute fuel damage alivePlayers alive toSpend sr = Some (rest, sr') ->
    bank_view (fst sr') = bank_view (fst sr).
Proof.
  induction fuel as [| fuel IH];
    intros damage alivePlayers alive toSpend rest sr sr' E;
    cbn [distribute] in E.
  - now injection E as _ <-.
  - destruct alive as [| a alive]; [now injection E as _ <- |].
    destruct (toSpend <? damage); [now injection E as _ <- |].
    destruct sr as [s rnd].
    destruct (GetIntRnd rnd (Z.of_nat (List.length (a :: alive))))
      as [ind rnd1].
    apply bind_Some in E. destruct E as (target & _ & E).
    apply bind_Some in E. destruct E as (u & _ & E).
    apply bind_Some in E. destruct E as (pl & _ & E).
    apply IH in E. exact E.
Qed.

Lemma DistributeDrawnLife_banks (cot : CharactersOnTiles)
  (sr sr' : GameState * RandomGenerator) :
  DistributeDrawnLife cot sr = Some sr' -> bank_view (fst sr') = bank_view (fst sr).
Proof.
  unfold DistributeDrawnLife. intros E.
  destruct (negb (built cot)); [now injection E as <- |].
  apply bind_Some in E. destruct E as (alivePlayers & _ & E).
  apply (foreach_keeps (fun t : GameState * RandomGenerator => bank_view (fst t)))
    in E; [exact E |].
  intros t sr1 sr2 _ Et. unfold DistributeDrawnLife_tile in Et.
  destruct (attackers (snd t)) as [| a0 atts]; [now injection Et as <- |].
  destruct (drawnLife (snd t) =? 0); [now injection Et as <- |].
  apply bind_Some in Et. destruct Et as ([toSpend [s rnd]] & Ed & Et).
  apply bind_Some in Et. destruct Et as (u & _ & Et).
  injection Et as <-. apply distribute_banks in Ed. exact Ed.
Qed.

Lemma DropTreasure_banks (treasure bonus : CAmount)
  (sr : GameState * RandomGenerator) (s' : GameState)
  (rnd' : RandomGenerator) :
  DropTreasure treasure sr = Some (s', rnd', bonus) ->
  bank_view s' = bank_view (fst sr).
Proof.
  unfold DropTreasure. intros E.
  apply bind_Some in E. destruct E as (u & _ & E).
  apply bind_Some in E. destruct E as ([[s1 rnd1] total1] & Eloop & E).
  apply bind_Some in E. destruct E as (u' & _ & E).
  injection E as <- _ _.
  apply (foreach_keeps
           (fun t : GameState * RandomGenerator * CAmount =>
              bank_view (fst (fst t)))) in Eloop; [exact Eloop |].
  intros i [[s rnd] acc] t' _ Ei. rewrite DropTreasure_area_eq in Ei.
  injection Ei as <-. simpl.
  destruct (AddLoot_frame
              (harvest_tile i (fst (GetIntRnd rnd (HarvestAreaSizes i))))
              (harvest_share treasure i) s) as (_ & Hn & _ & _ & Hb).
  unfold bank_view. now rewrite Hb, Hn.
Qed.

Lemma DivideLootAmongPlayers_banks (s s' : GameState) :
  DivideLootAmongPlayers s = Some s' -> bank_view s' = bank_view s.
Proof.
  unfold DivideLootAmongPlayers. intros E.
  destruct (DivideLoot_scan s) as [onTile collectors].
  apply bind_Some in E. destruct E as ([s1 onTile1] & Eloop & E).
  injection E as <-.
  apply (foreach_keeps
           (fun t : GameState * list (Coord * Z) => bank_view (fst t)))
    in Eloop; [exact Eloop |].
  intros i [t ot] [t' ot'] _ Ei. unfold DivideLoot_collect in Ei.
  apply bind_Some in Ei. destruct Ei as (pl & _ & Ei).
  apply bind_Some in Ei. destruct Ei as (ch & _ & Ei).
  apply bind_Some in Ei. destruct Ei as (n & _ & Ei).
  destruct (StdMap.subscript (coord ch) (mkLoot 0 (-1) (-1)) (lootOnMap t))
    as [lootInfo lootMap].
  apply bind_Some in Ei. destruct Ei as (u & _ & Ei).
  destruct (0 <? nAmount lootInfo ÷ n).
  2: { now injection Ei as <- _. }
  apply bind_Some in Ei. destruct Ei as ([ch1 rem] & _ & Ei).
  injection Ei as <- _. simpl.
  destruct (AddLoot_frame (coord ch) (rem - nAmount lootInfo ÷ n)
              (assign_character (pid i) (cid i) ch1
                 (set_lootOnMap t lootMap))) as (_ & Hn & _ & _ & Hb).
  unfold bank_view. rewrite Hb, Hn. unfold assign_character.
  now destruct (StdMap.find (pid i) (players (set_lootOnMap t lootMap))).
Qed.

Lemma CrownBonus_banks (amount : CAmount) (s s' : GameState) :
  CrownBonus amount s = Some s' -> bank_view s' = bank_view s.
Proof.
  unfold CrownBonus. intros E.
  destruct (negb (String.eqb (player (crownHolder s)) EmptyString)).
  2: { now injection E as <-. }
  destruct (StdMap.subscript (player (crownHolder s)) PlayerState_default
              (players s)) as [p ps].
  destruct (StdMap.subscript (index (crownHolder s)) CharacterState_default
              (characters p)) as [ch cs].
  apply bind_Some in E. destruct E as ([ch1 rem] & _ & E).
  now injection E as <-.
Qed.

Lemma DynamicCheckpoint_banks (w : World Ext) :
  bank_view (state (DynamicCheckpoint w)) = bank_view (state w).
Proof.
  unfold DynamicCheckpoint.
  destruct (negb (IsNull (hashBlock (state w)))
            && (Z.rem (nHeight (state w)) 500 =? 0)
            && (Gamecache_dyncheckpointheight1 (checkpoints (cache w))
                <=? nHeight (state w))); [| reflexivity].
  now destruct (Gamecache_dyncheckpointheight1 (checkpoints (cache w))
                <? nHeight (state w)).
Qed.

(** The random part of a step calls [UpdateBanks] on the banks it was
    handed, at their height, and the passes behind that call leave the
    banks alone. *)
Lemma Step_random_refill (inState : World Ext) (stepData : StepData MoveExt)
  (b : Banked) (out : World Ext) (res : StepResult) :
  Step_random inState stepData b = Some (out, res) ->
  exists s9 rnd9 s10 rnd10,
    UpdateBanks s9 rnd9 = Some (s10, rnd10) /\
    bank_view s9 = bank_view (state (bk_world b)) /\
    banks (state out) = banks s10 /\
    nHeight (state out) = nHeight s9.
Proof.
  unfold Step_random. intros E.
  destruct (CheckForDisaster (state (bk_world b))
              (RandomGenerator_new (hashBlock (state (bk_world b)))))
    as [isDisaster rnd0].
  apply bind_Some in E. destruct E as ([s1 rnd1] & E1 & E).
  assert (B1 : bank_view s1 = bank_view (state (bk_world b))).
  { destruct isDisaster; [| now injection E1 as <- _].
    apply bind_Some in E1. destruct E1 as ([s r] & Ed & E1).
    apply bind_Some in E1. destruct E1 as (u & _ & E1).
    injection E1 as <- _. now apply ApplyDisaster_banks in Ed. }
  apply bind_Some in E. destruct E as ([s2 rnd2] & E2 & E).
  assert (B2 : bank_view s2 = bank_view s1).
  { destruct (state_ForkInEffect s1 FORK_LIFESTEAL);
      [| now injection E2 as <- _].
    now apply DistributeDrawnLife_banks in E2. }
  apply bind_Some in E. destruct E as ([w3 rnd3] & E3 & E).
  apply (foreach_keeps
           (fun t : World Ext * RandomGenerator =>
              bank_view (state (fst t)))) in E3.
  2: { intros m wr wr' _ Em. destruct (m_IsSpawn m).
       - now apply (ApplySpawn_banks untouched) in Em.
       - now injection Em as <-. }
  simpl in E3.
  apply bind_Some in E. destruct E as (w4 & E4 & E).
  apply (foreach_keeps (fun w : World Ext => bank_view (state w))) in E4.
  2: { intros m w w' _ Em. now apply (ApplyCommon_banks untouched) in Em. }
  apply bind_Some in E. destruct E as (dead & _ & E).
  apply bind_Some in E. destruct E as ([[s6 rnd6] nCrownBonus] & E6 & E).
  apply DropTreasure_banks in E6. simpl in E6.
  change (bank_view (set_dead_players_chat (state w4) dead))
    with (bank_view (state w4)) in E6.
  apply bind_Some in E. destruct E as (s7 & E7 & E).
  apply DivideLootAmongPlayers_banks in E7.
  apply bind_Some in E. destruct E as (s8 & E8 & E).
  apply CrownBonus_banks in E8.
  pose proof (DynamicCheckpoint_banks (set_state w4 s8)) as B9.
  simpl in B9.
  apply bind_Some in E. destruct E as ([s10 rnd10] & Ebanks & E).
  apply bind_Some in E. destruct E as ([s11 rnd11] & E11 & E).
  apply bind_Some in E. destruct E as ([s12 rnd12] & E12 & E).
  apply bind_Some in E. destruct E as ([s13 rnd13] & E13 & E).
  injection E as <- _.
  apply DropHeart_custom_banks in E11. apply CollectHearts_banks in E12.
  apply CollectCrown_banks in E13. simpl in E11, E12, E13.
  destruct E11 as [B11 N11], E12 as [B12 N12], E13 as [B13 N13].
  destruct (UpdateBanks_count _ _ _ _ Ebanks) as [N10 _].
  eexists. eexists. exists s10, rnd10. split; [exact Ebanks |].
  cbn [state set_state]. split; [congruence |]. split; congruence.
Qed.

(** An accepted step on a block whose hash is not null has called
    [UpdateBanks] on the banks of its input state, at the next height. *)
Lemma PerformStep_refill (inState : World Ext) (stepData : StepData MoveExt)
  (out : World Ext) (res : StepResult) :
  PassesFrame ->
  IsNull (newHash stepData) = false ->
  PerformStep inState stepData = Accepted out res ->
  exists s9 rnd9 s10 rnd10,
    UpdateBanks s9 rnd9 = Some (s10, rnd10) /\
    banks s9 = banks (state inState) /\
    nHeight s9 = nHeight (state inState) + 1 /\
    banks (state out) = banks s10 /\
    nHeight (state out) = nHeight s9.
Proof.
  intros frame Hhash E. unfold PerformStep in E.
  destruct (negb (forallb _ (vMoves stepData))); [discriminate |].
  destruct (Step_begin inState stepData) as [w1 |] eqn:E1; [| discriminate].
  destruct (STATE_VERSION <? dao_MinVersion (state w1)); [discriminate |].
  destruct (Step_deterministic w1 stepData) as [b |] eqn:Eb;
    [| discriminate].
  assert (Hnull : IsNull (hashBlock (state (bk_world b))) = false).
  { destruct (Step_deterministic_spec frame w1 stepData b Eb) as (-> & _).
    now rewrite (Step_begin_hash frame inState w1 stepData E1). }
  rewrite Hnull in E.
  destruct (Step_random inState stepData b) as [[w2 step] |] eqn:Er;
    [| discriminate].
  destruct (money_balanced (state inState) (state w2) stepData
              (bk_moneyIn b) step); [| discriminate].
  injection E as <- <-.
  destruct (Step_random_refill _ _ _ _ _ Er)
    as (s9 & rnd9 & s10 & rnd10 & Eu & B9 & B10 & N10).
  rewrite (Step_deterministic_banks _ _ _ Eb),
    (Step_begin_banks _ _ _ E1) in B9.
  injection B9 as B9 N9.
  exists s9, rnd9, s10, rnd10. split; [exact Eu |].
  split; [exact B9 |]. split; [exact N9 |]. split; assumption.
Qed.

(** An accepted step on a block whose hash is null leaves the banks of its
    input state. *)
Lemma PerformStep_null_banks (inState : World Ext)
  (stepData : StepData MoveExt) (out : World Ext) (res : StepResult) :
  PassesFrame ->
  IsNull (newHash stepData) = true ->
  PerformStep inState stepData = Accepted out res ->
  banks (state out) = banks (state inState).
Proof.
  intros frame Hhash E. unfold PerformStep in E.
  destruct (negb (forallb _ (vMoves stepData))); [discriminate |].
  destruct (Step_begin inState stepData) as [w1 |] eqn:E1; [| discriminate].
  destruct (STATE_VERSION <? dao_MinVersion (state w1)); [discriminate |].
  destruct (Step_deterministic w1 stepData) as [b |] eqn:Eb;
    [| discriminate].
  assert (Hnull : IsNull (hashBlock (state (bk_world b))) = true).
  { destruct (Step_deterministic_spec frame w1 stepData b Eb) as (-> & _).
    now rewrite (Step_begin_hash frame inState w1 stepData E1). }
  rewrite Hnull in E. injection E as <- _.
  pose proof (Step_deterministic_banks _ _ _ Eb) as B.
  rewrite (Step_begin_banks _ _ _ E1) in B. now injection B as B _.
Qed.

End BanksBeforeStep.

(** ** The invariant of the banks *)

Section BanksTheorem.
Context `{ForkGate} `{GameMap} `{Header} `{Passes}.
Hypothesis RC : RandomContract.
Hypothesis frame : PassesFrame.
Hypothesis untouched : PassesBanks.

(** What [UpdateBanks] expects and where it draws from depends on the banks
    and on the height of the state only. *)
Lemma banks_expected_ext (s t : GameState) :
  banks s = banks t -> nHeight s = nHeight t ->
  bank_pool s = bank_pool t /\
  (forall f, state_ForkInEffect s f = state_ForkInEffect t f) /\
  (banks_expected s -> banks_expected t).
Proof.
  intros Hb Hn.
  assert (Hf : forall f, state_ForkInEffect s f = state_ForkInEffect t f)
    by (intros f; unfold state_ForkInEffect; now rewrite Hn).
  assert (Hp : bank_pool s = bank_pool t)
    by (unfold bank_pool; now rewrite Hf).
  split; [exact Hp |]. split; [exact Hf |].
  unfold banks_expected. now rewrite Hb, Hn, Hp.
Qed.

(** The banks after an accepted step on a block whose hash is not null. *)
Lemma PerformStep_banks (inState out : World Ext)
  (stepData : StepData MoveExt) (res : StepResult) :
  PerformStep inState stepData = Accepted out res ->
  IsNull (newHash stepData) = false ->
  state_ForkInEffect (state out) FORK_LIFESTEAL = true ->
  NoDup (bank_pool (state out)) ->
  DYNBANKS_NUM_BANKS <= Z.of_nat (List.length (bank_pool (state out))) ->
  banks_expected (set_banks (state out) (banks (state inState))) ->
  nHeight (state out) = nHeight (state inState) + 1 /\
  banks_ok (bank_pool (state out)) (banks (state out)) /\
  exists (before : GameState) (rng rng' : RandomGenerator),
    banks before = banks (state inState) /\
    nHeight before = nHeight (state out) /\
    UpdateBanks before rng
    = Some (set_banks before (banks (state out)), rng') /\
    refilled before rng (banks (state out)) rng'.
Proof.
  intros E Hhash Hfork NDp Hsize Hexp.
  destruct (PerformStep_refill untouched _ _ _ _ frame Hhash E)
    as (s9 & rnd9 & s10 & rnd10 & Eu & B9 & N9 & B10 & N10).
  destruct (banks_expected_ext
              (set_banks (state out) (banks (state inState))) s9)
    as (Hp & Hf & He); [now rewrite B9 | now rewrite <- N10 |].
  simpl in Hp. fold (bank_pool (state out)) in Hp.
  assert (Hp' : bank_pool (state out) = bank_pool s9).
  { rewrite <- Hp. unfold bank_pool, state_ForkInEffect. reflexivity. }
  assert (Hfork9 : state_ForkInEffect s9 FORK_LIFESTEAL = true).
  { rewrite <- Hf. exact Hfork. }
  assert (Hfill : FillWalkableTiles = Some tt).
  { unfold UpdateBanks in Eu. rewrite Hfork9 in Eu. cbn [negb] in Eu.
    apply bind_Some in Eu. destruct Eu as (nb & _ & Eu).
    apply bind_Some in Eu. destruct Eu as (u1 & _ & Eu).
    apply bind_Some in Eu. destruct Eu as ([] & Efill & _). exact Efill. }
  rewrite Hp' in NDp, Hsize |- *.
  destruct (UpdateBanks_refills RC s9 rnd9 Hfork9 Hfill NDp Hsize (He Hexp))
    as (s' & rng' & Eu' & Es' & Hok & Hre & _).
  rewrite Eu in Eu'. injection Eu' as <- <-.
  rewrite B10. split; [now rewrite N10 |]. split; [exact Hok |].
  exists s9, rnd9, rnd10. split; [exact B9 |]. split; [now rewrite N10 |].
  split; [now rewrite <- Es' | exact Hre].
Qed.

(** A fork that is in effect stays in effect, and the height at which it
    comes into effect is its fork height. *)
Lemma fork_next (f : Fork) (h : Z) :
  activation_heights ->
  (ForkInEffect f h = true -> ForkInEffect f (h + 1) = true) /\
  (ForkInEffect f h = false -> ForkInEffect f (h + 1) = true ->
   IsForkHeight f (h + 1) = true).
Proof.
  intros (height_of & Hact).
  destruct (Hact f h) as [E1 _]. destruct (Hact f (h + 1)) as [E2 E3].
  rewrite E1, E2, E3. split.
  - rewrite !Z.leb_le. lia.
  - rewrite Z.leb_gt, Z.leb_le, Z.eqb_eq. lia.
Qed.

(** Banks that meet the invariant at one height are what [UpdateBanks]
    expects at the next. *)
Lemma banks_expected_next (s t : GameState) :
  activation_heights ->
  nHeight t = nHeight s + 1 -> banks t = banks s ->
  (state_ForkInEffect s FORK_LIFESTEAL = true ->
   banks_ok (bank_pool s) (banks s)) ->
  state_ForkInEffect t FORK_LIFESTEAL = true ->
  banks_expected t.
Proof.
  intros Hact Hn Hb Hinv Hfork. unfold banks_expected.
  unfold state_ForkInEffect in *. rewrite Hn in *. rewrite Hb.
  destruct (IsForkHeight FORK_LIFESTEAL (nHeight s + 1)) eqn:EL;
    [now left | right].
  destruct (ForkInEffect FORK_LIFESTEAL (nHeight s)) eqn:E1.
  2: { rewrite (proj2 (fork_next FORK_LIFESTEAL (nHeight s) Hact) E1 Hfork)
         in EL. discriminate. }
  destruct (Hinv eq_refl) as (Hcount & ND & Hall).
  split; [exact Hcount |]. split; [exact ND |].
  intros c l I. destruct (Hall c l I) as [Hl Hc]. split; [exact Hl |].
  unfold bank_pool, state_ForkInEffect in *. rewrite Hn.
  destruct (ForkInEffect FORK_TIMESAVE (nHeight s)) eqn:T1.
  - rewrite (proj1 (fork_next FORK_TIMESAVE (nHeight s) Hact) T1).
    now right.
  - destruct (ForkInEffect FORK_TIMESAVE (nHeight s + 1)) eqn:T2.
    + left. exact (proj2 (fork_next FORK_TIMESAVE (nHeight s) Hact) T1 T2).
    + now right.
Qed.

(** Along a chain of accepted steps that starts before the LIFESTEAL fork,
    the invariant of the banks holds wherever the fork is in effect. *)
Lemma chain_banks (w0 w : World Ext) :
  activation_heights ->
  (forall s : GameState,
     NoDup (bank_pool s) /\
     DYNBANKS_NUM_BANKS <= Z.of_nat (List.length (bank_pool s))) ->
  chain w0 w ->
  state_ForkInEffect (state w0) FORK_LIFESTEAL = false ->
  state_ForkInEffect (state w) FORK_LIFESTEAL = true ->
  banks_ok (bank_pool (state w)) (banks (state w)).
Proof.
  intros Hact Hpool Hchain Hstart.
  induction Hchain as [w | w w1 w2 stepData res Hchain IH Hhash E];
    intros Hfork; [congruence |].
  destruct (Hpool (state w2)) as [NDp Hsize].
  destruct (PerformStep_refill untouched _ _ _ _ frame Hhash E)
    as (s9 & rnd9 & s10 & rnd10 & _ & _ & N9 & _ & N10).
  apply (PerformStep_banks w1 w2 stepData res E Hhash Hfork NDp Hsize).
  apply (banks_expected_next (state w1)); try assumption.
  - simpl. congruence.
  - reflexivity.
  - apply IH. exact Hstart.
Qed.


End BanksTheorem.

(** * Further properties of the engine *)

(** ** Sums over maps *)

Section MapFacts.
Context {K V : Type} `{KeyLaws K}.

Lemma erase_absent (k : K) (m : list (K * V)) :
  ~ In k (StdMap.keys m) -> StdMap.erase k m = m.
Proof.
  induction m as [| [k1 v1] m IH]; simpl; intros N; [reflexivity |].
  destruct (keqb k k1) eqn:E.
  - apply keqb_eq in E. subst. exfalso. apply N. now left.
  - simpl. f_equal. apply IH. intros I. apply N. now right.
Qed.

Lemma keys_erase (k : K) (m : list (K * V)) (x : K) :
  In x (StdMap.keys (StdMap.erase k m)) <-> In x (StdMap.keys m) /\ x <> k.
Proof.
  unfold StdMap.keys. rewrite !in_map_iff. split.
  - intros ([k1 v1] & <- & I). apply In_erase in I. destruct I as [I N].
    split; [| exact N]. exists (k1, v1). now split.
  - intros [([k1 v1] & <- & I) N]. exists (k1, v1). split; [reflexivity |].
    apply In_erase. now split.
Qed.

Lemma NoDup_keys_erase (k : K) (m : list (K * V)) :
  NoDup (StdMap.keys m) -> NoDup (StdMap.keys (StdMap.erase k m)).
Proof.
  induction m as [| [k1 v1] m IH]; simpl; intros ND; [constructor |].
  inversion ND as [| ? ? Hnot ND']; subst.
  destruct (keqb k k1); simpl; [now apply IH |].
  constructor; [| now apply IH].
  intros I. apply (keys_erase k m k1) in I. now destruct I.
Qed.

Lemma find_erase_other (k k' : K) (m : list (K * V)) :
  k' <> k -> StdMap.find k' (StdMap.erase k m) = StdMap.find k' m.
Proof.
  intros N. induction m as [| [k1 v1] m IH]; simpl; [reflexivity |].
  destruct (keqb k k1) eqn:E; simpl.
  - apply keqb_eq in E. subst k1.
    apply keqb_neq in N. now rewrite N.
  - now rewrite IH.
Qed.

Lemma find_place_same (k : K) (v : V) (m : list (K * V)) :
  StdMap.find k m = None -> StdMap.find k (StdMap.place k v m) = Some v.
Proof.
  induction m as [| [k1 v1] m IH]; simpl.
  - now rewrite keqb_refl.
  - destruct (keqb k k1) eqn:E; [discriminate |]. intros F.
    destruct (kltb k k1); simpl.
    + now rewrite keqb_refl.
    + rewrite E. now apply IH.
Qed.

Lemma find_place_other (k k' : K) (v : V) (m : list (K * V)) :
  k' <> k -> StdMap.find k' (StdMap.place k v m) = StdMap.find k' m.
Proof.
  intros N. apply keqb_neq in N.
  induction m as [| [k1 v1] m IH]; simpl.
  - now rewrite N.
  - destruct (kltb k k1); simpl.
    + now rewrite N.
    + now rewrite IH.
Qed.

Lemma In_assign (k : K) (v : V) (m : list (K * V)) (x : K * V) :
  In x (StdMap.assign k v m) -> In x m \/ x = (k, v).
Proof.
  induction m as [| [k1 v1] m IH]; simpl; [tauto |].
  destruct (keqb k k1) eqn:E; simpl.
  - apply keqb_eq in E. subst k1. intros [<- | I]; auto.
  - intros [<- | I]; [auto |]. destruct (IH I); auto.
Qed.

End MapFacts.

Section MapSums.
Context {K V : Type} `{KeyLaws K} (g : V -> Z).

Lemma total_place (k : K) (v : V) (m : list (K * V)) :
  total g (StdMap.place k v m) = total g m + g v.
Proof.
  unfold total. induction m as [| [k1 v1] m IH]; simpl; [lia |].
  destruct (kltb k k1); simpl; lia.
Qed.

Lemma total_assign (k : K) (v v0 : V) (m : list (K * V)) :
  StdMap.find k m = Some v0 ->
  total g (StdMap.assign k v m) = total g m - g v0 + g v.
Proof.
  unfold total. induction m as [| [k1 v1] m IH]; simpl; [discriminate |].
  destruct (keqb k k1); simpl.
  - intros [= ->]. lia.
  - intros F. rewrite (IH F). lia.
Qed.

Lemma total_erase (k : K) (v0 : V) (m : list (K * V)) :
  NoDup (StdMap.keys m) -> StdMap.find k m = Some v0 ->
  total g (StdMap.erase k m) = total g m - g v0.
Proof.
  unfold total. induction m as [| [k1 v1] m IH]; simpl; [discriminate |].
  intros ND. inversion ND as [| ? ? Hnot ND']; subst.
  destruct (keqb k k1) eqn:E; simpl.
  - intros [= ->]. apply keqb_eq in E. subst k1.
    fold (StdMap.erase k m). rewrite (erase_absent k m Hnot). lia.
  - intros F. fold (StdMap.erase k m) in *. rewrite (IH ND' F). lia.
Qed.

End MapSums.

(** ** Loot on the map *)

Lemma coins_on_map_total (s : GameState) :
  coins_on_map s
  = total nAmount (lootOnMap s) + total player_coins (players s).
Proof. reflexivity. Qed.

(** ** Helpers on loops, loot and characters *)

Lemma foreach_invariant {A S : Type} (P : S -> Prop) (xs : list A)
  (body : A -> S -> option S) :
  (forall x s s', In x xs -> P s -> body x s = Some s' -> P s') ->
  forall s s', P s -> foreach xs body s = Some s' -> P s'.
Proof.
  induction xs as [| x xs IH]; intros Hbody s s' Hs E; simpl in E.
  - now injection E as <-.
  - apply bind_Some in E. destruct E as (s1 & E1 & E).
    apply (IH (fun y t t' I => Hbody y t t' (or_intror I)) s1 s');
      [| assumption].
    apply (Hbody x s s1); [now left | assumption | assumption].
Qed.

Lemma Zsum_app (l1 l2 : list Z) : Zsum (l1 ++ l2) = Zsum l1 + Zsum l2.
Proof. induction l1 as [| x l1 IH]; simpl; lia. Qed.

(** With the unlimited capacity -1 everything is collected. *)
Lemma CollectLoot_unlimited (ch : CharacterState) (newLoot : LootInfo)
  (nHeight : Z) :
  0 <= nAmount newLoot ->
  CollectLoot ch newLoot nHeight (-1)
  = Some (set_loot ch (Collect (loot ch) newLoot nHeight), 0).
Proof.
  intros Hpos. unfold CollectLoot. simpl.
  rewrite ensure_true by (now apply Z.leb_le).
  rewrite ensure_true by (apply Z.eqb_eq; lia).
  rewrite ensure_true by (now destruct (nAmount newLoot =? 0)).
  reflexivity.
Qed.

Section LootHelpers.
Context `{GameMap}.

Lemma AddLoot_sum (c : Coord) (amount : CAmount) (s : GameState) :
  loot_is_map s ->
  coins_on_map (AddLoot c amount s) = coins_on_map s + amount /\
  loot_is_map (AddLoot c amount s).
Proof.
  intros ND. unfold loot_is_map in *.
  rewrite !coins_on_map_total. unfold AddLoot.
  destruct (Z.eqb_spec amount 0) as [E0 | E0]; [split; [lia | assumption] |].
  destruct (StdMap.find c (lootOnMap s)) as [l |] eqn:F.
  - destruct (Z.eqb_spec (nAmount l + amount) 0) as [Ez | Ez]; simpl.
    + rewrite (total_erase nAmount c l _ ND F).
      split; [lia | now apply NoDup_keys_erase].
    + rewrite (total_assign nAmount c _ l _ F). simpl.
      split; [lia | now rewrite keys_assign].
  - simpl. unfold StdMap.insert. rewrite F, total_place.
    split; [unfold LootInfo_at; simpl; lia |].
    apply NoDup_keys_place; [now apply find_None | assumption].
Qed.

Lemma AddLoot_other (c : Coord) (amount : CAmount) (s : GameState) :
  players (AddLoot c amount s) = players s /\
  gameFund (AddLoot c amount s) = gameFund s /\
  nHeight (AddLoot c amount s) = nHeight s /\
  crownHolder (AddLoot c amount s) = crownHolder s.
Proof.
  unfold AddLoot. destruct (amount =? 0); [auto |].
  destruct (StdMap.find c (lootOnMap s)) as [l |]; [| auto].
  destruct (nAmount l + amount =? 0); auto.
Qed.

End LootHelpers.

(** The coins of the players after one character was replaced. *)
Lemma assign_character_sum (pId : PlayerID) (chInd : Z)
  (ch ch1 : CharacterState) (pl : PlayerState) (s : GameState) :
  StdMap.find pId (players s) = Some pl ->
  StdMap.find chInd (characters pl) = Some ch ->
  coins_on_map (assign_character pId chInd ch1 s)
  = coins_on_map s - carried ch + carried ch1 /\
  lootOnMap (assign_character pId chInd ch1 s) = lootOnMap s /\
  gameFund (assign_character pId chInd ch1 s) = gameFund s /\
  nHeight (assign_character pId chInd ch1 s) = nHeight s.
Proof.
  intros Hpl Hch. unfold assign_character. rewrite Hpl.
  rewrite !coins_on_map_total. simpl.
  rewrite (total_assign player_coins pId _ pl _ Hpl).
  unfold player_coins at 2 3. simpl.
  rewrite (total_assign carried chInd _ ch _ Hch).
  repeat split. lia.
Qed.


Section AddLootProps.
Context `{GameMap}.

(** X1.  [AddLoot] changes the coins on the map by exactly the amount it is
    given, which may be negative: it makes a tile for a new coordinate,
    adds to the tile that is there and removes the tile whose amount
    becomes zero.  The tiles at other coordinates, the players and the game
    fund stay as they are, the loot stays a map, and a map without empty
    tiles stays without empty tiles. *)
Theorem AddLoot_accounts (c : Coord) (amount : CAmount) (s : GameState) :
  loot_is_map s ->
  coins_on_map (AddLoot c amount s) = coins_on_map s + amount /\
  loot_is_map (AddLoot c amount s) /\
  (forall c', c' <> c ->
     StdMap.find c' (lootOnMap (AddLoot c amount s))
     = StdMap.find c' (lootOnMap s)) /\
  StdMap.find c (lootOnMap (AddLoot c amount s))
  = (match StdMap.find c (lootOnMap s) with
     | Some l =>
         if amount =? 0 then Some l
         else if nAmount l + amount =? 0 then None
         else Some (mkLoot (nAmount l + amount) (firstBlock l) (nHeight s))
     | None =>
         if amount =? 0 then None
         else Some (LootInfo_at amount (nHeight s))
     end) /\
  (no_empty_loot s -> no_empty_loot (AddLoot c amount s)).
Proof.
  intros ND. unfold loot_is_map in *.
  rewrite !coins_on_map_total. unfold AddLoot, no_empty_loot.
  destruct (Z.eqb_spec amount 0) as [E0 | E0].
  { subst. rewrite Z.add_0_r. repeat split; auto.
    now destruct (StdMap.find c (lootOnMap s)). }
  destruct (StdMap.find c (lootOnMap s)) as [l |] eqn:F.
  - destruct (Z.eqb_spec (nAmount l + amount) 0) as [Ez | Ez]; simpl.
    + rewrite (total_erase nAmount c l _ ND F).
      split; [lia |]. split; [now apply NoDup_keys_erase |].
      split; [intros c' N; now apply find_erase_other |].
      split; [apply find_erase_same |].
      intros Hne c' l' I. apply In_erase in I. now apply (Hne c' l').
    + rewrite (total_assign nAmount c _ l _ F). simpl.
      split; [lia |]. split; [now rewrite keys_assign |].
      split; [intros c' N; now apply find_assign_other |].
      split; [now apply (find_assign_same c _ l) |].
      intros Hne c' l' I. apply In_assign in I.
      destruct I as [I | I]; [now apply (Hne c' l') |].
      injection I as _ ->. simpl. exact Ez.
  - simpl. unfold StdMap.insert. rewrite F. rewrite total_place.
    assert (Hfresh : ~ In c (StdMap.keys (lootOnMap s)))
      by (now apply find_None).
    split; [unfold LootInfo_at; simpl; lia |].
    split; [now apply NoDup_keys_place |].
    split; [intros c' N; now apply find_place_other |].
    split; [now apply find_place_same |].
    intros Hne c' l' I. apply In_place in I.
    destruct I as [I | I]; [| now apply (Hne c' l')].
    injection I as _ ->. unfold LootInfo_at. simpl. exact E0.
Qed.

End AddLootProps.

(** ** The crown bonus *)

Section CrownBonusProps.
Context `{ForkGate} `{GameMap} `{Random} `{Header}.

(** X2.  [CrownBonus] with an amount that is not negative: while nobody
    holds the crown the whole amount goes to the game fund and the coins on
    the map stay as they are; a crown holder that is in the state collects
    the whole amount (its capacity is unlimited), the game fund and the
    loot tiles stay as they are, and the coins on the map grow by the
    amount. *)
Theorem CrownBonus_accounts (amount : CAmount) (s : GameState) :
  0 <= amount ->
  (player (crownHolder s) = EmptyString ->
   CrownBonus amount s = Some (set_gameFund s (gameFund s + amount))) /\
  (forall pl ch,
     player (crownHolder s) <> EmptyString ->
     StdMap.find (player (crownHolder s)) (players s) = Some pl ->
     StdMap.find (index (crownHolder s)) (characters pl) = Some ch ->
     exists s' pl' ch',
       CrownBonus amount s = Some s' /\
       coins_on_map s' = coins_on_map s + amount /\
       gameFund s' = gameFund s /\
       lootOnMap s' = lootOnMap s /\
       StdMap.find (player (crownHolder s)) (players s') = Some pl' /\
       StdMap.find (index (crownHolder s)) (characters pl') = Some ch' /\
       carried ch' = carried ch + amount /\
       coord ch' = coord ch /\
       value pl' = value pl).
Proof.
  intros Hpos. split.
  - intros Hnone. unfold CrownBonus. rewrite Hnone. reflexivity.
  - intros pl ch Hsome Hpl Hch. unfold CrownBonus.
    apply String.eqb_neq in Hsome. rewrite Hsome. cbn [negb].
    unfold StdMap.subscript. rewrite Hpl, Hch.
    unfold GetCarryingCapacity.
    rewrite CollectLoot_unlimited by (simpl; lia). cbn [bind].
    eexists. eexists. eexists. split; [reflexivity |].
    rewrite !coins_on_map_total. simpl.
    rewrite (total_assign player_coins _ _ pl _ Hpl).
    unfold player_coins at 2 3. simpl.
    rewrite (total_assign carried _ _ ch _ Hch).
    split; [unfold carried; simpl; lia |].
    split; [lia |]. split; [reflexivity |].
    split; [now apply (find_assign_same _ _ pl) |]. simpl.
    split; [now apply (find_assign_same _ _ ch) |].
    unfold carried. simpl. repeat split; lia.
Qed.

End CrownBonusProps.

(** ** The division of the loot *)

Section DivideLootProps.
Context `{ForkGate} `{GameMap} `{Random} `{Header}.

(** One collector takes its share off the tile it stands on. *)
Lemma DivideLoot_collect_conserves (i : CharacterOnLootTile)
  (s s' : GameState) (onTile onTile' : list (Coord * Z)) :
  loot_is_map s ->
  DivideLoot_collect i (s, onTile) = Some (s', onTile') ->
  coins_on_map s' = coins_on_map s /\ gameFund s' = gameFund s /\
  nHeight s' = nHeight s /\ loot_is_map s'.
Proof.
  intros ND E. unfold DivideLoot_collect in E.
  apply bind_Some in E. destruct E as (pl & Hpl & E).
  apply bind_Some in E. destruct E as (ch & Hch & E).
  apply bind_Some in E. destruct E as (n & Hn & E).
  set (c := coord ch) in *.
  assert (Hsub : exists l m,
            StdMap.subscript c (mkLoot 0 (-1) (-1)) (lootOnMap s) = (l, m) /\
            total nAmount m = total nAmount (lootOnMap s) /\
            NoDup (StdMap.keys m)).
  { unfold StdMap.subscript.
    destruct (StdMap.find c (lootOnMap s)) as [l |] eqn:F.
    - exists l, (lootOnMap s). now split.
    - eexists. eexists. split; [reflexivity |]. rewrite total_place.
      split; [simpl; lia |].
      apply NoDup_keys_place; [now apply find_None | exact ND]. }
  destruct Hsub as (l & m & Hsub & Htot & NDm). rewrite Hsub in E.
  apply bind_Some in E. destruct E as (u & _ & E).
  set (s1 := set_lootOnMap s m) in *.
  assert (Hs1 : coins_on_map s1 = coins_on_map s).
  { rewrite !coins_on_map_total. unfold s1. simpl. lia. }
  destruct (0 <? nAmount l ÷ n).
  - apply bind_Some in E. destruct E as ([ch1 rem] & Hcol & E).
    injection E as <- _.
    apply CollectLoot_returns in Hcol. destruct Hcol as [_ Hsum].
    simpl in Hsum.
    destruct (assign_character_sum (pid i) (cid i) ch ch1 pl s1 Hpl Hch)
      as (Hc & Hl & Hg & Hh).
    destruct (AddLoot_sum c (rem - nAmount l ÷ n)
                (assign_character (pid i) (cid i) ch1 s1)) as [Ha NDa].
    { unfold loot_is_map. rewrite Hl. exact NDm. }
    destruct (AddLoot_other c (rem - nAmount l ÷ n)
                (assign_character (pid i) (cid i) ch1 s1))
      as (_ & Hg' & Hh' & _).
    split; [| split; [| split]].
    + rewrite Ha, Hc, Hs1. unfold carried. lia.
    + now rewrite Hg', Hg.
    + now rewrite Hh', Hh.
    + exact NDa.
  - injection E as <- _. repeat split; assumption.
Qed.

(** X3.  Whenever [DivideLootAmongPlayers] returns on a state whose loot is
    a map, it has moved coins between the loot tiles and the characters
    only: the coins on the map and the game fund are the same as before,
    and the loot is still a map. *)
Theorem DivideLootAmongPlayers_conserves (s s' : GameState) :
  loot_is_map s ->
  DivideLootAmongPlayers s = Some s' ->
  coins_on_map s' = coins_on_map s /\ gameFund s' = gameFund s /\
  nHeight s' = nHeight s /\ loot_is_map s'.
Proof.
  intros ND E. unfold DivideLootAmongPlayers in E.
  destruct (DivideLoot_scan s) as [onTile collectors].
  apply bind_Some in E. destruct E as ([s1 onTile1] & Eloop & E).
  injection E as <-.
  apply (foreach_invariant
           (fun st : GameState * list (Coord * Z) =>
              coins_on_map (fst st) = coins_on_map s /\
              gameFund (fst st) = gameFund s /\
              nHeight (fst st) = nHeight s /\ loot_is_map (fst st)))
    in Eloop; [exact Eloop | | simpl; auto].
  intros i [s0 ot0] [s2 ot2] _ (Hc & Hg & Hh & NDs) Ei. simpl in *.
  destruct (DivideLoot_collect_conserves i s0 s2 ot0 ot2 NDs Ei)
    as (Hc' & Hg' & Hh' & ND').
  repeat split; congruence.
Qed.

End DivideLootProps.

(** ** Banking *)

Lemma money_out_banked (b : CollectedBounty) (t : CAmount) (step : StepResult) :
  money_out (push_bounty b (add_tax t step))
  = money_out step + t + nAmount (info (b_loot b)).
Proof.
  unfold money_out, push_bounty, add_tax. simpl.
  rewrite map_app, Zsum_app. simpl. lia.
Qed.

Section BankingProps.
Context `{ForkGate} `{GameMap} `{Header}.

Lemma Banking_character_conserves (s : GameState) (min_version : Z)
  (pId : PlayerID) (addr : string) (pc pc1 : Z * CharacterState)
  (step step1 : StepResult) :
  Banking_character s min_version pId addr pc step = Some (pc1, step1) ->
  fst pc1 = fst pc /\
  carried (snd pc) + money_out step = carried (snd pc1) + money_out step1 /\
  (2020700 <= min_version -> nTaxAmount step1 = nTaxAmount step) /\
  (carried (snd pc1) = carried (snd pc) \/ carried (snd pc1) = 0).
Proof.
  unfold Banking_character. intros E.
  destruct (negb (Z.land (ai_state2 (snd pc)) AI_STATE2_STASIS =? 0)).
  { injection E as <- <-. repeat split; auto. }
  apply bind_Some in E. destruct E as (onBank & _ & E).
  match type of E with (if ?c then _ else _) = _ => destruct c end.
  2: { injection E as <- <-. repeat split; auto. }
  injection E as <- <-. rewrite money_out_banked. unfold carried. simpl.
  split; [reflexivity |]. split; [| split; [| now right]].
  - destruct (2020700 <=? min_version); simpl; lia.
  - intros Hv. apply Z.leb_le in Hv. rewrite Hv. lia.
Qed.

Lemma Banking_characters_conserves (s : GameState) (min_version : Z)
  (pId : PlayerID) (addr : string) (cs : list (Z * CharacterState)) :
  forall (cs1 : list (Z * CharacterState)) (step step1 : StepResult),
    Banking_characters s min_version pId addr cs step = Some (cs1, step1) ->
    StdMap.keys cs1 = StdMap.keys cs /\
    total carried cs + money_out step = total carried cs1 + money_out step1 /\
    (2020700 <= min_version -> nTaxAmount step1 = nTaxAmount step).
Proof.
  induction cs as [| pc cs IH]; intros cs1 step step1 E; simpl in E.
  - injection E as <- <-. repeat split; auto.
  - apply bind_Some in E. destruct E as ([pc1 stepa] & Ea & E).
    apply bind_Some in E. destruct E as ([cs2 stepb] & Eb & E).
    injection E as <- <-.
    apply Banking_character_conserves in Ea.
    destruct Ea as (Hk & Hsum & Htax & _).
    destruct (IH _ _ _ Eb) as (Hks & Hsums & Htaxs).
    unfold total in *. simpl. split; [now rewrite Hk, Hks |].
    split; [lia |]. intros Hv. rewrite Htaxs, Htax; auto.
Qed.

Lemma Banking_players_conserves (s : GameState) (min_version : Z)
  (ps : list (PlayerID * PlayerState)) :
  forall (ps1 : list (PlayerID * PlayerState)) (step step1 : StepResult),
    Banking_players s min_version ps step = Some (ps1, step1) ->
    StdMap.keys ps1 = StdMap.keys ps /\
    total player_coins ps + money_out step
    = total player_coins ps1 + money_out step1 /\
    total value ps1 = total value ps /\
    (2020700 <= min_version -> nTaxAmount step1 = nTaxAmount step).
Proof.
  induction ps as [| [pId pl] ps IH]; intros ps1 step step1 E; simpl in E.
  - injection E as <- <-. repeat split; auto.
  - apply bind_Some in E. destruct E as ([cs1 stepa] & Ea & E).
    apply bind_Some in E. destruct E as ([ps2 stepb] & Eb & E).
    injection E as <- <-.
    apply Banking_characters_conserves in Ea.
    destruct Ea as (_ & Hsum & Htax).
    destruct (IH _ _ _ Eb) as (Hks & Hsums & Hval & Htaxs).
    unfold total in *. simpl. split; [now rewrite Hks |].
    unfold player_coins at 1 3. unfold total. simpl.
    split; [lia |]. split; [lia |].
    intros Hv. rewrite Htaxs, Htax; auto.
Qed.

(** X4.  Whenever the banking loop of [PerformStep] returns, it has taken
    coins off the characters and put the same amount into the step result:
    the coins on the map together with the tax and the bounties of the
    step result are the same as before.  It keeps the players, their
    values, the loot tiles and the game fund, and from version 2020700 on
    it takes no tax. *)
Theorem Banking_conserves (min_version : Z) (s s' : GameState)
  (step step' : StepResult) :
  Banking min_version (s, step) = Some (s', step') ->
  coins_on_map s + money_out step = coins_on_map s' + money_out step' /\
  StdMap.keys (players s') = StdMap.keys (players s) /\
  total value (players s') = total value (players s) /\
  lootOnMap s' = lootOnMap s /\
  gameFund s' = gameFund s /\
  (2020700 <= min_version -> nTaxAmount step' = nTaxAmount step).
Proof.
  unfold Banking. intros E.
  apply bind_Some in E. destruct E as ([ps step1] & Eps & E).
  injection E as <- <-. simpl in Eps.
  apply Banking_players_conserves in Eps.
  destruct Eps as (Hk & Hsum & Hval & Htax).
  rewrite !coins_on_map_total. simpl.
  split; [lia |]. repeat split; assumption.
Qed.

End BankingProps.

(** ** The fees of the moves *)

Section PayFeesProps.
Context `{Passes}.

Lemma PayFees_accounts_loop (moves : list (Move MoveExt)) :
  forall (s s' : GameState) (a a' : CAmount),
    foreach moves PayFees_move (s, a) = Some (s', a') ->
    coins_on_map s' = coins_on_map s /\
    gameFund s' + Zsum (map (@m_newLocked _) (filter (@m_IsSpawn _) moves))
    = gameFund s + (a' - a) /\
    StdMap.keys (players s') = StdMap.keys (players s) /\
    lootOnMap s' = lootOnMap s /\
    (forall id pl',
       StdMap.find id (players s') = Some pl' ->
       exists pl,
         StdMap.find id (players s) = Some pl /\
         lockedCoins pl <= lockedCoins pl' /\
         value pl' = value pl /\ characters pl' = characters pl).
Proof.
  induction moves as [| m moves IH]; intros s s' a a' E; simpl in E.
  - injection E as <- <-. simpl. repeat split; try lia.
    intros id pl' F. exists pl'. repeat split; [assumption | lia].
  - apply bind_Some in E. destruct E as ([s1 a1] & E1 & E).
    apply IH in E. destruct E as (Hc & Hg & Hk & Hl & Hp).
    unfold PayFees_move in E1. simpl.
    destruct (m_IsSpawn m); simpl in E1.
    + injection E1 as <- <-. simpl. repeat split; try assumption. lia.
    + apply bind_Some in E1. destruct E1 as (pl & Hpl & E1).
      apply bind_Some in E1. destruct E1 as (u & Hle & E1).
      apply cpp_assert_Some, Z.leb_le in Hle.
      injection E1 as <- <-. simpl in *.
      split; [| split; [| split; [| split]]].
      * rewrite Hc, !coins_on_map_total. simpl.
        rewrite (total_assign player_coins _ _ pl _ Hpl).
        unfold player_coins. simpl. lia.
      * lia.
      * now rewrite Hk, keys_assign.
      * assumption.
      * intros id pl' F. destruct (Hp id pl' F) as (pl1 & F1 & L & V & C).
        destruct (string_dec id (m_player m)) as [-> | N].
        -- rewrite (find_assign_same _ _ pl _ Hpl) in F1.
           injection F1 as <-. exists pl. simpl in *.
           repeat split; [assumption | lia | assumption | assumption].
        -- rewrite (find_assign_other _ _ _ _ N) in F1.
           exists pl1. repeat split; assumption.
Qed.

(** X5.  Whenever the loop of [PerformStep] over the fees of the moves
    returns: the game fund has grown by [moneyIn] less the coins locked by
    the spawn moves, that is by the fees of the other moves; the coins on
    the map, the loot tiles and the set of players are unchanged; and no
    player has fewer coins locked than before, while its value and its
    characters are the same. *)
Theorem PayFees_accounts (moves : list (Move MoveExt))
  (s s' : GameState) (moneyIn : CAmount) :
  PayFees moves s = Some (s', moneyIn) ->
  coins_on_map s' = coins_on_map s /\
  gameFund s' + Zsum (map (@m_newLocked _) (filter (@m_IsSpawn _) moves))
  = gameFund s + moneyIn /\
  StdMap.keys (players s') = StdMap.keys (players s) /\
  lootOnMap s' = lootOnMap s /\
  (forall id pl',
     StdMap.find id (players s') = Some pl' ->
     exists pl,
       StdMap.find id (players s) = Some pl /\
       lockedCoins pl <= lockedCoins pl' /\
       value pl' = value pl /\ characters pl' = characters pl).
Proof.
  unfold PayFees. intros E.
  destruct (PayFees_accounts_loop moves s s' 0 moneyIn E)
    as (Hc & Hg & Hk & Hl & Hp).
  rewrite Z.sub_0_r in Hg. repeat split; assumption.
Qed.

End PayFeesProps.

(** ** The loot of the killed *)

Lemma money_out_add_tax (t : CAmount) (step : StepResult) :
  money_out (add_tax t step) = money_out step + t.
Proof. unfold money_out, add_tax. simpl. lia. Qed.

Lemma money_out_push_bounty (b : CollectedBounty) (step : StepResult) :
  money_out (push_bounty b step)
  = money_out step + nAmount (info (b_loot b)).
Proof.
  unfold money_out, push_bounty. simpl.
  rewrite map_app, Zsum_app. simpl. lia.
Qed.

(** Among the characters of a player the general is met once. *)
Lemma released_total (pl : PlayerState) (cs : list (Z * CharacterState)) :
  NoDup (StdMap.keys cs) ->
  Zsum (map (released pl) cs)
  = total carried cs
    + (match StdMap.find 0 cs with Some _ => value pl | None => 0 end).
Proof.
  unfold total, released.
  induction cs as [| [i c] cs IH]; intros ND; [reflexivity |].
  inversion ND as [| ? ? Hnot ND']; subst.
  specialize (IH ND').
  destruct (Z.eq_dec i 0) as [-> | N].
  - apply (find_None (K := Z)) in Hnot. rewrite Hnot in IH.
    simpl in *. lia.
  - destruct i as [| i | i]; [contradiction | |]; simpl in *; lia.
Qed.

(** The players of a map after a list of them was erased. *)
Lemma find_erase_list {V : Type} (l : list PlayerID)
  (m : list (PlayerID * V)) (id : PlayerID) :
  StdMap.find id (fold_left (fun ps v => StdMap.erase v ps) l m)
  = if in_dec string_dec id l then None else StdMap.find id m.
Proof.
  revert m. induction l as [| v l IH]; intros m; simpl; [reflexivity |].
  rewrite IH. destruct (string_dec v id) as [-> | N].
  - rewrite find_erase_same. now destruct (in_dec string_dec id l).
  - rewrite find_erase_other by congruence.
    now destruct (in_dec string_dec id l).
Qed.

Lemma total_erase_list {V : Type} (g : V -> Z) (l : list PlayerID) :
  forall m : list (PlayerID * V),
    NoDup l -> NoDup (StdMap.keys m) ->
    (forall v, In v l -> StdMap.find v m <> None) ->
    total g (fold_left (fun ps v => StdMap.erase v ps) l m)
    = total g m
      - Zsum (map (fun v => match StdMap.find v m with
                            | Some x => g x
                            | None => 0
                            end) l).
Proof.
  induction l as [| v l IH]; intros m NDl NDm Hin; simpl; [lia |].
  inversion NDl as [| ? ? Hnot NDl']; subst.
  destruct (StdMap.find v m) as [x |] eqn:F;
    [| exfalso; apply (Hin v); [now left | assumption]].
  rewrite IH; [| assumption | now apply NoDup_keys_erase |].
  - rewrite (total_erase g v x m NDm F).
    assert (E : map (fun v0 => match StdMap.find v0 (StdMap.erase v m) with
                               | Some y => g y | None => 0 end) l
                = map (fun v0 => match StdMap.find v0 m with
                                 | Some y => g y | None => 0 end) l).
    { apply map_ext_in. intros w I.
      rewrite find_erase_other; [reflexivity |]. intros ->. contradiction. }
    rewrite E. lia.
  - intros w I. rewrite find_erase_other; [apply Hin; now right |].
    intros ->. contradiction.
Qed.

Section FinaliseKillsProps.
Context `{ForkGate} `{GameMap}.

(** One call of [HandleKilledLoot] settles what the death of the character
    releases: on a loot tile or in the game fund, and as tax or refund. *)
Lemma HandleKilledLoot_settles (pId : PlayerID) (chInd : Z) (k : KilledByInfo)
  (min_version : Z) (s s' : GameState) (step step' : StepResult) :
  loot_is_map s ->
  HandleKilledLoot pId chInd k min_version (s, step) = Some (s', step') ->
  exists pl ch,
    StdMap.find pId (players s) = Some pl /\
    StdMap.find chInd (characters pl) = Some ch /\
    players s' = players s /\ loot_is_map s' /\
    killedPlayers step' = killedPlayers step /\
    killedBy step' = killedBy step /\
    coins_settled s' step' = coins_settled s step + released pl (chInd, ch).
Proof.
  intros ND Hret.
  destruct (HandleKilledLoot_frame _ _ _ _ _ _ _ _ Hret)
    as (Hplayers & _ & _ & _ & Hkp & Hkb).
  unfold HandleKilledLoot in Hret.
  apply bind_Some in Hret. destruct Hret as (pl & Hpl & Hret).
  apply bind_Some in Hret. destruct Hret as (u & _ & Hret).
  apply bind_Some in Hret. destruct Hret as (ch & Hch & Hret).
  apply bind_Some in Hret. destruct Hret as (amount0 & Hamount & Hret).
  apply bind_Some in Hret. destruct Hret as (drop & Hdrop & Hret).
  exists pl, ch.
  split; [assumption |]. split; [assumption |]. split; [assumption |].
  set (refunded := (chInd =? 0) && CanRefund k s pl) in *.
  set (taxed := HasDeathTax k && (min_version <? 2020700)) in *.
  set (B := mkBounty (mkChid pId chInd) (SetRefund (value pl) (nHeight s))
              (address pl)) in *.
  set (step1 := if refunded then push_bounty B step else step) in *.
  assert (H1 : money_out step1 + amount0
               = money_out step + released pl (chInd, ch)).
  { unfold step1, released, carried. simpl.
    destruct (chInd =? 0); simpl in *.
    - destruct refunded; simpl in Hamount.
      + injection Hamount as <-. rewrite money_out_push_bounty. simpl. lia.
      + apply bind_Some in Hamount. destruct Hamount as (u' & _ & Hamount).
        injection Hamount as <-. lia.
    - unfold refunded in *. simpl in *. injection Hamount as <-. lia. }
  assert (H2 : money_out (if taxed then add_tax (amount0 ÷ 25) step1
                          else step1)
               + (if taxed then amount0 - amount0 ÷ 25 else amount0)
               = money_out step + released pl (chInd, ch)).
  { destruct taxed; [rewrite money_out_add_tax |]; lia. }
  unfold coins_settled.
  destruct drop; simpl in Hret; injection Hret as <- <-.
  - match goal with
    | |- context [AddLoot ?c ?a s] =>
        destruct (AddLoot_sum c a s ND) as (Hsum & ND');
        destruct (AddLoot_other c a s) as (Hp & Hg & _)
    end.
    rewrite !coins_on_map_total, Hp in Hsum. rewrite Hg.
    repeat split; try assumption. lia.
  - simpl. repeat split; try assumption. lia.
Qed.

(** The loop of [FinaliseKills] over the characters of one victim. *)
Lemma FinaliseKills_characters (pId : PlayerID) (k : KilledByInfo)
  (min_version : Z) (pl : PlayerState) (cs : list (Z * CharacterState)) :
  (forall pc, In pc cs -> StdMap.find (fst pc) (characters pl) = Some (snd pc)) ->
  forall (s s' : GameState) (step step' : StepResult),
    loot_is_map s ->
    StdMap.find pId (players s) = Some pl ->
    foreach cs (fun pc => HandleKilledLoot pId (fst pc) k min_version)
      (s, step) = Some (s', step') ->
    players s' = players s /\ loot_is_map s' /\
    killedPlayers step' = killedPlayers step /\
    killedBy step' = killedBy step /\
    coins_settled s' step'
    = coins_settled s step + Zsum (map (released pl) cs).
Proof.
  induction cs as [| [i c] cs IH]; intros Hcs s s' step step' ND Hpl E;
    simpl in E.
  - injection E as <- <-. simpl. repeat split; try assumption. lia.
  - apply bind_Some in E. destruct E as ([s1 step1] & E1 & E).
    simpl in E1.
    destruct (HandleKilledLoot_settles _ _ _ _ _ _ _ _ ND E1)
      as (pl1 & ch1 & Hpl1 & Hch1 & Hp1 & ND1 & Hkp1 & Hkb1 & Hs1).
    assert (pl1 = pl) by congruence. subst pl1.
    assert (ch1 = c).
    { specialize (Hcs (i, c) (or_introl eq_refl)). simpl in Hcs. congruence. }
    subst ch1.
    assert (Hpl' : StdMap.find pId (players s1) = Some pl) by now rewrite Hp1.
    destruct (IH (fun pc I => Hcs pc (or_intror I)) s1 s' step1 step' ND1 Hpl' E)
      as (Hp & ND' & Hkp & Hkb & Hs).
    simpl. repeat split; try congruence. lia.
Qed.

(** The outer loop of [FinaliseKills], over the victims. *)
Lemma FinaliseKills_victims (min_version : Z) (killed : list PlayerID) :
  forall (s s' : GameState) (step step' : StepResult),
    loot_is_map s -> players_is_map s ->
    foreach killed (FinaliseKills_victim min_version) (s, step)
    = Some (s', step') ->
    players s' = players s /\ loot_is_map s' /\
    killedPlayers step' = killedPlayers step /\
    killedBy step' = killedBy step /\
    (forall v, In v killed ->
       StdMap.find v (players s) <> None /\
       StdMap.find v (killedBy step) <> None) /\
    coins_settled s' step'
    = coins_settled s step
      + Zsum (map (fun v => match StdMap.find v (players s) with
                            | Some pl => Zsum (map (released pl) (characters pl))
                            | None => 0
                            end) killed).
Proof.
  induction killed as [| v killed IH]; intros s s' step step' ND PM E;
    simpl in E.
  - injection E as <- <-. simpl. repeat split; try assumption;
      try (intros v []); try lia.
  - apply bind_Some in E. destruct E as ([s1 step1] & E1 & E).
    unfold FinaliseKills_victim in E1. simpl in E1.
    apply bind_Some in E1. destruct E1 as (pl & Hpl & E1).
    apply bind_Some in E1. destruct E1 as (k & Hk & E1).
    assert (Hcs : forall pc, In pc (characters pl) ->
                    StdMap.find (fst pc) (characters pl) = Some (snd pc)).
    { intros [i c] I. simpl. apply In_find; [| assumption].
      destruct PM as [_ PM]. apply (PM v pl). now apply find_In. }
    destruct (FinaliseKills_characters v k min_version pl (characters pl) Hcs
                s s1 step step1 ND Hpl E1)
      as (Hp1 & ND1 & Hkp1 & Hkb1 & Hs1).
    assert (PM1 : players_is_map s1).
    { unfold players_is_map. now rewrite Hp1. }
    destruct (IH s1 s' step1 step' ND1 PM1 E)
      as (Hp & ND' & Hkp & Hkb & Hin & Hs).
    rewrite Hp1 in Hp, Hs, Hin. rewrite Hkb1 in Hin.
    simpl. rewrite Hpl.
    split; [congruence |]. split; [assumption |].
    split; [congruence |]. split; [congruence |]. split; [| lia].
    intros w [<- | I]; [| now apply Hin].
    rewrite Hpl, Hk. split; discriminate.
Qed.

(** X6.  Whenever [FinaliseKills] returns, every killed player was in the
    state and had a cause of death recorded; the killed players are gone
    from the state and every other player is as before; and when each of
    them still had its general, no coin is lost: what the killed players
    had and carried is on loot tiles, in the game fund, or paid out as tax
    or refund. *)
Theorem FinaliseKills_accounts (min_version : Z) (s s' : GameState)
  (step step' : StepResult) :
  loot_is_map s -> players_is_map s -> NoDup (killedPlayers step) ->
  FinaliseKills min_version (s, step) = Some (s', step') ->
  (forall v, In v (killedPlayers step) ->
     StdMap.find v (players s) <> None /\
     StdMap.find v (killedBy step) <> None /\
     StdMap.find v (players s') = None) /\
  (forall id, ~ In id (killedPlayers step) ->
     StdMap.find id (players s') = StdMap.find id (players s)) /\
  killedPlayers step' = killedPlayers step /\
  loot_is_map s' /\
  ((forall v pl, In v (killedPlayers step) ->
      StdMap.find v (players s) = Some pl ->
      StdMap.find 0 (characters pl) <> None) ->
   coins_accounted s' step' = coins_accounted s step).
Proof.
  intros ND PM NDk E. unfold FinaliseKills in E. simpl in E.
  apply bind_Some in E. destruct E as ([s1 step1] & E1 & E).
  injection E as <- <-.
  destruct (FinaliseKills_victims _ _ _ _ _ _ ND PM E1)
    as (Hp & ND' & Hkp & Hkb & Hin & Hs).
  simpl. rewrite Hp.
  split; [| split; [| split; [| split]]].
  - intros v I. destruct (Hin v I) as [Hv Hk].
    split; [assumption |]. split; [assumption |].
    rewrite find_erase_list.
    destruct (in_dec string_dec v (killedPlayers step)); [reflexivity |].
    contradiction.
  - intros id N. rewrite find_erase_list.
    destruct (in_dec string_dec id (killedPlayers step));
      [contradiction | reflexivity].
  - assumption.
  - exact ND'.
  - intros Hgen. unfold coins_accounted. rewrite !coins_on_map_total. simpl.
    unfold coins_settled in Hs.
    destruct PM as [NDp PMc].
    rewrite (total_erase_list player_coins (killedPlayers step) (players s)
               NDk NDp (fun v I => proj1 (Hin v I))).
    assert (Eq : map (fun v => match StdMap.find v (players s) with
                               | Some pl =>
                                   Zsum (map (released pl) (characters pl))
                               | None => 0
                               end) (killedPlayers step)
                 = map (fun v => match StdMap.find v (players s) with
                                 | Some x => player_coins x
                                 | None => 0
                                 end) (killedPlayers step)).
    { apply map_ext_in. intros v I.
      destruct (StdMap.find v (players s)) as [pl |] eqn:F; [| reflexivity].
      rewrite released_total by (apply (PMc v pl); now apply find_In).
      specialize (Hgen v pl I F).
      destruct (StdMap.find 0 (characters pl)); [| contradiction].
      unfold player_coins. lia. }
    rewrite Eq in Hs. unfold CAmount in *. lia.
Qed.

End FinaliseKillsProps.

(** ** The hearted characters at the LIFESTEAL fork *)

Lemma erase_each {V : Type} (l m : list (Z * V)) :
  fold_left (fun cs pc => StdMap.erase (fst pc) cs) l m
  = filter (fun x => negb (existsb (fun pc => fst pc =? fst x) l)) m.
Proof.
  revert m. induction l as [| a l IH]; intros m; simpl.
  - symmetry. apply forallb_filter_id. now apply forallb_forall.
  - rewrite IH. unfold StdMap.erase.
    induction m as [| x m IHm]; simpl; [reflexivity |].
    destruct (fst a =? fst x); simpl; [exact IHm |].
    destruct (existsb (fun pc => fst pc =? fst x) l); simpl;
      [exact IHm | now f_equal].
Qed.

(** Erasing the hearted characters of a list leaves its general. *)
Lemma erase_hearted {V : Type} (cs : list (Z * V)) :
  fold_left (fun m pc => StdMap.erase (fst pc) m)
    (filter (fun pc => negb (fst pc =? 0)) cs) cs
  = filter (fun pc => fst pc =? 0) cs.
Proof.
  rewrite erase_each. apply filter_ext_in. intros x I.
  destruct (Z.eqb_spec (fst x) 0) as [E | N]; simpl.
  - destruct (existsb _ _) eqn:Ex; [| reflexivity].
    apply existsb_exists in Ex. destruct Ex as (pc & Ipc & Epc).
    apply filter_In in Ipc. destruct Ipc as [_ Hpc].
    apply Z.eqb_eq in Epc. rewrite Epc, E in Hpc. discriminate.
  - apply negb_false_iff, existsb_exists. exists x.
    split; [| apply Z.eqb_refl].
    apply filter_In. split; [assumption |].
    apply negb_true_iff. now apply Z.eqb_neq.
Qed.

Lemma total_split {K V : Type} (g : V -> Z) (f : K * V -> bool)
  (m : list (K * V)) :
  total g m
  = total g (filter f m) + total g (filter (fun x => negb (f x)) m).
Proof.
  unfold total. induction m as [| x m IH]; simpl; [reflexivity |].
  destruct (f x); simpl; lia.
Qed.

Lemma released_hearted (pl : PlayerState) (cs : list (Z * CharacterState)) :
  Zsum (map (released pl) (filter (fun pc => negb (fst pc =? 0)) cs))
  = total carried (filter (fun pc => negb (fst pc =? 0)) cs).
Proof.
  unfold total, released.
  induction cs as [| [i c] cs IH]; simpl; [reflexivity |].
  destruct (Z.eqb_spec i 0) as [E | N]; simpl; [exact IH |].
  apply Z.eqb_neq in N. rewrite N, IH. lia.
Qed.

Section RemoveHeartedProps.
Context `{ForkGate} `{GameMap}.

Lemma HandleKilledLoot_hearts (pId : PlayerID) (chInd : Z) (k : KilledByInfo)
  (min_version : Z) (sr sr' : GameState * StepResult) :
  HandleKilledLoot pId chInd k min_version sr = Some sr' ->
  hearts (fst sr') = hearts (fst sr).
Proof.
  destruct sr as [s step]. unfold HandleKilledLoot. intros Hret.
  apply bind_Some in Hret. destruct Hret as (pl & _ & Hret).
  apply bind_Some in Hret. destruct Hret as (u & _ & Hret).
  apply bind_Some in Hret. destruct Hret as (ch & _ & Hret).
  apply bind_Some in Hret. destruct Hret as (amount0 & _ & Hret).
  apply bind_Some in Hret. destruct Hret as (drop & _ & Hret).
  destruct drop; simpl in Hret; injection Hret as <-; simpl;
    [| reflexivity].
  unfold AddLoot.
  repeat match goal with
         | |- context [if ?b then _ else _] => destruct b
         | |- context [match ?o with Some _ => _ | None => _ end] =>
             destruct o
         end; reflexivity.
Qed.

(** The body of the loop of [RemoveHeartedCharacters] for one player whose
    entry in the state is the one the loop holds. *)
Lemma RemoveHeartedCharacters_player_spec (min_version : Z)
  (p : PlayerID * PlayerState) (s s' : GameState) (step step' : StepResult) :
  loot_is_map s ->
  StdMap.find (fst p) (players s) = Some (snd p) ->
  NoDup (StdMap.keys (characters (snd p))) ->
  RemoveHeartedCharacters_player min_version p (s, step) = Some (s', step') ->
  loot_is_map s' /\ hearts s' = hearts s /\
  players s'
  = StdMap.assign (fst p) (without_hearted (snd p)) (players s) /\
  coins_accounted s' step' = coins_accounted s step.
Proof.
  intros ND Hp NDc E. unfold RemoveHeartedCharacters_player in E.
  apply bind_Some in E. destruct E as ([s1 step1] & E1 & E).
  apply bind_Some in E. destruct E as (pl & Hpl & E).
  injection E as <- <-.
  assert (Hh : hearts s1 = hearts s).
  { apply (foreach_keeps (fun t : GameState * StepResult => hearts (fst t)))
      in E1; [exact E1 |].
    intros pc t t' _ Et. now apply HandleKilledLoot_hearts in Et. }
  assert (Hcs : forall pc,
            In pc (filter (fun pc => negb (fst pc =? 0)) (characters (snd p))) ->
            StdMap.find (fst pc) (characters (snd p)) = Some (snd pc)).
  { intros [i c] I. apply filter_In in I. destruct I as [I _].
    simpl. now apply In_find. }
  destruct (FinaliseKills_characters (fst p) (KilledBy_reason KILLED_POISON)
              min_version (snd p) _ Hcs s s1 step step1 ND Hp E1)
    as (Hp1 & ND1 & _ & _ & Hs).
  rewrite Hp1 in Hpl. assert (pl = snd p) by congruence. subst pl.
  rewrite released_hearted in Hs.
  rewrite erase_hearted. rewrite Hp1.
  split; [exact ND1 |]. split; [exact Hh |]. split; [reflexivity |].
  unfold coins_accounted, coins_settled in *.
  rewrite !coins_on_map_total. simpl.
  rewrite (total_assign player_coins _ _ (snd p) _ Hp).
  unfold player_coins, without_hearted. simpl.
  rewrite (total_split carried (fun pc => fst pc =? 0) (characters (snd p))).
  unfold CAmount in *. lia.
Qed.

Lemma RemoveHeartedCharacters_loop (min_version : Z)
  (ps : list (PlayerID * PlayerState)) :
  forall (s s' : GameState) (step step' : StepResult),
    loot_is_map s -> NoDup (StdMap.keys ps) ->
    (forall p, In p ps ->
       StdMap.find (fst p) (players s) = Some (snd p) /\
       NoDup (StdMap.keys (characters (snd p)))) ->
    foreach ps (RemoveHeartedCharacters_player min_version) (s, step)
    = Some (s', step') ->
    loot_is_map s' /\ hearts s' = hearts s /\
    StdMap.keys (players s') = StdMap.keys (players s) /\
    (forall p, In p ps ->
       StdMap.find (fst p) (players s') = Some (without_hearted (snd p))) /\
    (forall id, ~ In id (StdMap.keys ps) ->
       StdMap.find id (players s') = StdMap.find id (players s)) /\
    coins_accounted s' step' = coins_accounted s step.
Proof.
  induction ps as [| p ps IH]; intros s s' step step' ND NDp Hps E;
    simpl in E.
  - injection E as <- <-. repeat split; try assumption; try reflexivity.
    intros p [].
  - apply bind_Some in E. destruct E as ([s1 step1] & E1 & E).
    inversion NDp as [| ? ? Hnot NDp']; subst.
    destruct (Hps p (or_introl eq_refl)) as [Hp NDc].
    destruct (RemoveHeartedCharacters_player_spec _ _ _ _ _ _ ND Hp NDc E1)
      as (ND1 & Hh1 & Hp1 & Hc1).
    assert (Hps1 : forall q, In q ps ->
              StdMap.find (fst q) (players s1) = Some (snd q) /\
              NoDup (StdMap.keys (characters (snd q)))).
    { intros q I. destruct (Hps q (or_intror I)) as [Hq NDq].
      split; [| assumption]. rewrite Hp1, find_assign_other; [assumption |].
      intros Eq. apply Hnot. rewrite <- Eq.
      unfold StdMap.keys. now apply in_map. }
    destruct (IH s1 s' step1 step' ND1 NDp' Hps1 E)
      as (ND' & Hh & Hk & Hin & Hout & Hc).
    split; [exact ND' |]. split; [congruence |].
    split; [now rewrite Hk, Hp1, keys_assign |].
    split; [| split; [| congruence]].
    + intros q [<- | I]; [| now apply Hin].
      rewrite (Hout (fst p) Hnot), Hp1.
      now apply (find_assign_same _ _ (snd p)).
    + intros id N. simpl in N.
      rewrite Hout by tauto. rewrite Hp1.
      apply find_assign_other. intros ->. tauto.
Qed.

(** X7.  Whenever [RemoveHeartedCharacters] returns, the block is the one
    of the LIFESTEAL fork, no heart is left on the map, the players are the
    same and each is left with its general alone, its other characters
    removed; and no coin is lost: what the removed characters carried is on
    loot tiles, in the game fund or taxed. *)
Theorem RemoveHeartedCharacters_accounts (min_version : Z)
  (s s' : GameState) (step step' : StepResult) :
  loot_is_map s -> players_is_map s ->
  RemoveHeartedCharacters min_version (s, step) = Some (s', step') ->
  IsForkHeight FORK_LIFESTEAL (nHeight s) = true /\
  hearts s' = [] /\
  StdMap.keys (players s') = StdMap.keys (players s) /\
  (forall id pl,
     StdMap.find id (players s) = Some pl ->
     StdMap.find id (players s') = Some (without_hearted pl)) /\
  coins_accounted s' step' = coins_accounted s step.
Proof.
  intros ND [NDp PMc] E. unfold RemoveHeartedCharacters in E.
  apply bind_Some in E. destruct E as (u & Hfork & E).
  apply cpp_assert_Some in Hfork. simpl in Hfork, E.
  assert (Hps : forall p, In p (players s) ->
            StdMap.find (fst p) (players (set_hearts s [])) = Some (snd p) /\
            NoDup (StdMap.keys (characters (snd p)))).
  { intros [id pl] I. simpl. split; [now apply In_find |].
    now apply (PMc id pl). }
  destruct (RemoveHeartedCharacters_loop min_version (players s)
              (set_hearts s []) s' step step' ND NDp Hps E)
    as (ND' & Hh & Hk & Hin & _ & Hc).
  split; [exact Hfork |]. split; [exact Hh |]. split; [exact Hk |].
  split; [| exact Hc].
  intros id pl F. apply find_In in F. exact (Hin (id, pl) F).
Qed.

End RemoveHeartedProps.

(** ** Mutual attacks and the life that was drawn *)

Section DefendProps.
Context `{ForkGate} `{Random}.

(** The set of attacks that [DefendMutualAttacks] builds holds the attacks
    of the resolver. *)
Lemma attacks_set_spec (ts : list (Coord * AttackableCharacter))
  (from to : CharacterID) :
  existsb (fun p => CharacterID_eqb (fst p) from && CharacterID_eqb (snd p) to)
    (flat_map (fun t => map (fun mi => (mi, chid (snd t))) (attackers (snd t)))
       ts) = true
  <-> exists t, In t ts /\ chid (snd t) = to /\ In from (attackers (snd t)).
Proof.
  rewrite existsb_exists. split.
  - intros ([a b] & I & E). simpl in E.
    apply andb_true_iff in E. destruct E as [Ea Eb].
    apply CharacterID_eqb_eq in Ea, Eb. subst.
    apply in_flat_map in I. destruct I as (t & It & I).
    apply in_map_iff in I. destruct I as (mi & E & Imi).
    injection E as <- <-. now exists t.
  - intros (t & It & <- & I). exists (from, chid (snd t)). split.
    + apply in_flat_map. exists t. split; [assumption |].
      apply in_map_iff. now exists from.
    + simpl. apply andb_true_iff. split; now apply CharacterID_eqb_eq.
Qed.

(** X8.  [DefendMutualAttacks] on a built resolver keeps exactly the attacks
    that are not answered: [from] attacks [to] afterwards when it did before
    and [to] did not attack [from].  So no attack is added, no two
    characters attack each other afterwards, and the tiles, the characters
    on them and the life drawn are untouched; a resolver that was not built
    is returned as it is. *)
Theorem DefendMutualAttacks_spec (cot : CharactersOnTiles) (s : GameState) :
  let cot' := DefendMutualAttacks cot s in
  (built cot = false -> cot' = cot) /\
  built cot' = built cot /\
  map (fun t => (fst t, chid (snd t), a_color (snd t), drawnLife (snd t)))
    (tiles cot')
  = map (fun t => (fst t, chid (snd t), a_color (snd t), drawnLife (snd t)))
      (tiles cot) /\
  (built cot = true ->
   (forall from to,
      attacks_in cot' from to
      <-> attacks_in cot from to /\ ~ attacks_in cot to from) /\
   (forall a b, ~ (attacks_in cot' a b /\ attacks_in cot' b a))).
Proof.
  cbv zeta. unfold DefendMutualAttacks.
  destruct (built cot) eqn:B; simpl.
  2: { repeat split; intros; try reflexivity; congruence. }
  split; [discriminate |]. split; [reflexivity |].
  split.
  { rewrite map_map. reflexivity. }
  intros _.
  assert (Hspec : forall from to,
    attacks_in
      (mkTiles
         (map (fun t =>
            (fst t,
             set_attackers (snd t)
               (filter
                  (fun mi =>
                     negb
                       (existsb
                          (fun p => CharacterID_eqb (fst p) (chid (snd t))
                                    && CharacterID_eqb (snd p) mi)
                          (flat_map
                             (fun t0 =>
                                map (fun mi0 => (mi0, chid (snd t0)))
                                  (attackers (snd t0)))
                             (tiles cot))))
                  (attackers (snd t)))))
            (tiles cot)) true) from to
    <-> attacks_in cot from to /\ ~ attacks_in cot to from).
  { intros from to. unfold attacks_in. simpl. split.
    - intros (t' & It & Ec & I).
      apply in_map_iff in It. destruct It as (t & <- & It).
      simpl in Ec, I. apply filter_In in I. destruct I as [I Hn].
      split; [now exists t |].
      apply negb_true_iff in Hn. rewrite Ec in Hn.
      intros C. apply attacks_set_spec in C. congruence.
    - intros [(t & It & Ec & I) Hn].
      eexists. split; [apply in_map_iff; exists t; split;
                       [reflexivity | assumption] |].
      simpl. split; [assumption |].
      apply filter_In. split; [assumption |].
      apply negb_true_iff. rewrite Ec.
      destruct (existsb _ _) eqn:Ex; [| reflexivity].
      exfalso. apply Hn. now apply attacks_set_spec. }
  split; [exact Hspec |].
  intros a b [Hab Hba].
  apply Hspec in Hab, Hba. destruct Hab as [Hab _], Hba as [_ Hba].
  contradiction.
Qed.

End DefendProps.

Section DistributeProps.
Context `{ForkGate} `{Random}.

(** The loop that hands the drawn life to the attackers moves coins from
    what is left to spend to the players, and never spends below zero what
    was not below zero. *)
Lemma distribute_conserves (damage : CAmount)
  (alivePlayers : list CharacterID) (fuel : nat) :
  forall (alive : list CharacterID) (toSpend toSpend' : CAmount)
         (s s' : GameState) (rnd rnd' : RandomGenerator),
    distribute fuel damage alivePlayers alive toSpend (s, rnd)
    = Some (toSpend', (s', rnd')) ->
    coins_on_map s' + toSpend' = coins_on_map s + toSpend /\
    lootOnMap s' = lootOnMap s /\ gameFund s' = gameFund s /\
    nHeight s' = nHeight s /\
    StdMap.keys (players s') = StdMap.keys (players s) /\
    (0 <= damage -> 0 <= toSpend -> 0 <= toSpend').
Proof.
  induction fuel as [| fuel IH]; intros alive toSpend toSpend' s s' rnd rnd' E;
    simpl in E.
  - injection E as <- <- <-. repeat split; auto.
  - destruct alive as [| a0 alive0].
    + injection E as <- <- <-. repeat split; auto.
    + destruct (Z.ltb_spec toSpend damage) as [Hlt | Hge].
      * injection E as <- <- <-. repeat split; auto.
      * destruct (GetIntRnd rnd _) as [ind rnd1].
        apply bind_Some in E. destruct E as (target & _ & E).
        apply bind_Some in E. destruct E as (u & _ & E).
        apply bind_Some in E. destruct E as (pl & Hpl & E).
        apply IH in E. destruct E as (Hc & Hl & Hg & Hh & Hk & Hpos).
        simpl in Hl, Hg, Hh, Hk.
        rewrite !coins_on_map_total in *. simpl in Hc.
        rewrite (total_assign player_coins _ _ pl _ Hpl) in Hc.
        assert (Hv : player_coins (set_value pl (value pl + damage))
                     = player_coins pl + damage).
        { unfold player_coins. simpl. lia. }
        rewrite Hv in Hc. rewrite keys_assign in Hk.
        repeat split; try assumption.
        -- unfold CAmount in *. lia.
        -- intros Hd Ht. apply Hpos; lia.
Qed.

Lemma DistributeDrawnLife_tile_conserves (damage : CAmount)
  (alivePlayers : list CharacterID) (t : Coord * AttackableCharacter)
  (s s' : GameState) (rnd rnd' : RandomGenerator) :
  DistributeDrawnLife_tile damage alivePlayers t (s, rnd) = Some (s', rnd') ->
  coins_on_map s' + gameFund s'
  = coins_on_map s + gameFund s + drawn_total [t] /\
  lootOnMap s' = lootOnMap s /\ nHeight s' = nHeight s /\
  StdMap.keys (players s') = StdMap.keys (players s).
Proof.
  unfold DistributeDrawnLife_tile, drawn_total. simpl. intros E.
  destruct (attackers (snd t)) as [| a0 l] eqn:Ea.
  - injection E as <- <-. repeat split. lia.
  - destruct (Z.eqb_spec (drawnLife (snd t)) 0) as [E0 | N0].
    + injection E as <- <-. repeat split. lia.
    + apply bind_Some in E. destruct E as ([toSpend [s1 rnd1]] & E1 & E).
      apply bind_Some in E. destruct E as (u & _ & E).
      injection E as <- <-.
      apply distribute_conserves in E1.
      destruct E1 as (Hc & Hl & Hg & Hh & Hk & _).
      rewrite !coins_on_map_total in *. simpl.
      repeat split; try assumption. lia.
Qed.

(** X9.  Whenever [DistributeDrawnLife] returns on a built resolver, the
    life drawn from every attacked character is handed out in full: the
    coins of the players and the game fund together grow by exactly the
    drawn life, the loot tiles and the set of players are untouched.  On a
    resolver that was not built it returns the state as it is. *)
Theorem DistributeDrawnLife_conserves (cot : CharactersOnTiles)
  (s s' : GameState) (rnd rnd' : RandomGenerator) :
  DistributeDrawnLife cot (s, rnd) = Some (s', rnd') ->
  (built cot = false -> s' = s /\ rnd' = rnd) /\
  (built cot = true ->
   coins_on_map s' + gameFund s'
   = coins_on_map s + gameFund s + drawn_total (tiles cot) /\
   lootOnMap s' = lootOnMap s /\
   StdMap.keys (players s') = StdMap.keys (players s)).
Proof.
  unfold DistributeDrawnLife. intros E.
  destruct (built cot); simpl in E.
  2: { injection E as <- <-. split; [auto | discriminate]. }
  split; [discriminate |]. intros _.
  apply bind_Some in E. destruct E as (alivePlayers & _ & E).
  simpl in E.
  set (damage := GetNameCoinAmount (to_unsigned (nHeight s))) in E.
  clearbody damage. revert s rnd E.
  induction (tiles cot) as [| t ts IH]; intros s rnd E; simpl in E.
  - injection E as <- <-. unfold drawn_total. simpl. repeat split. lia.
  - apply bind_Some in E. destruct E as ([s1 rnd1] & E1 & E).
    apply DistributeDrawnLife_tile_conserves in E1.
    destruct E1 as (Hc1 & Hl1 & _ & Hk1).
    apply IH in E. destruct E as (Hc & Hl & Hk).
    unfold drawn_total in *. simpl in *.
    repeat split; try congruence. lia.
Qed.

End DistributeProps.

(** ** Spawning and directions *)

Section SpawnProps.
Context `{ForkGate} `{Random} `{GameMap}.

Lemma at_index_In {A : Type} (v : list A) (ind : Z) (a : A) :
  at_index v ind = Some a -> In a v.
Proof.
  unfold at_index. destruct (ind <? 0); [discriminate |].
  apply nth_error_In.
Qed.

Lemma at_index_Some {A : Type} (v : list A) (ind : Z) :
  0 <= ind < Z.of_nat (List.length v) -> exists a, at_index v ind = Some a.
Proof.
  intros B. unfold at_index.
  destruct (Z.ltb_spec ind 0); [lia |].
  destruct (nth_error v (Z.to_nat ind)) as [a |] eqn:E; [now exists a |].
  apply nth_error_None in E. lia.
Qed.

Lemma Spawn_random_spec (tiles : list Coord) (ch : CharacterState)
  (rnd : RandomGenerator) :
  RandomContract ->
  (FillWalkableTiles = Some tt -> tiles <> [] ->
   exists ch' rnd',
     Spawn_random tiles ch rnd = Some (ch', rnd') /\
     In (coord ch') tiles /\ ch' = set_coord ch (coord ch')) /\
  (FillWalkableTiles = None -> Spawn_random tiles ch rnd = None).
Proof.
  intros RC. unfold Spawn_random. split.
  - intros -> Hne. simpl.
    assert (Hlen : 0 < Z.of_nat (List.length tiles)).
    { destruct tiles; [contradiction | simpl; lia]. }
    pose proof (RC rnd _ Hlen) as Bpos.
    destruct (GetIntRnd rnd (Z.of_nat (List.length tiles))) as [pos rnd1].
    simpl in Bpos.
    destruct (at_index_Some tiles pos Bpos) as (c & Hc). rewrite Hc. simpl.
    pose proof (GetIntRnd_range_bounds rnd1 1 8 RC ltac:(lia)) as Bdir.
    destruct (GetIntRnd_range rnd1 1 8) as [dir0 rnd2]. simpl in Bdir.
    rewrite ensure_true.
    + exists (set_coord ch c), rnd2. split; [reflexivity |].
      split; [exact (at_index_In _ _ _ Hc) | reflexivity].
    + destruct (Z.leb_spec 5 dir0).
      * rewrite !andb_true_iff, negb_true_iff, !Z.leb_le, Z.eqb_neq. lia.
      * rewrite !andb_true_iff, negb_true_iff, !Z.leb_le, Z.eqb_neq. lia.
  - intros ->. reflexivity.
Qed.

(** X10.  Where a fresh character is put, for a generator that keeps its
    range.  Before the LIFESTEAL fork a colour from 0 to 3 puts it in the
    spawn area, on the rim of the map and fewer than 15 tiles from the
    corner of its colour, and any other colour makes [Spawn] fail.  With
    the fork in effect it is put on a tile of the table of spawn tiles, and
    [Spawn] fails exactly when [FillWalkableTiles] does.  Of the attributes
    of a character kept here, only the coordinate changes. *)
Theorem Spawn_lands (ch : CharacterState) (s : GameState) (color : Z)
  (rnd : RandomGenerator) :
  RandomContract ->
  (state_ForkInEffect s FORK_TIMESAVE = false ->
   state_ForkInEffect s FORK_LIFESTEAL = false ->
   (0 <= color <= 3 ->
    exists ch' rnd',
      Spawn ch s color rnd = Some (ch', rnd') /\
      ch' = set_coord ch (coord ch') /\
      IsInSpawnArea (cx (coord ch')) (cy (coord ch')) = true /\
      (cx (coord ch') = cx (spawn_corner color) \/
       cy (coord ch') = cy (spawn_corner color)) /\
      Z.abs (cx (coord ch') - cx (spawn_corner color)) < SPAWN_AREA_LENGTH /\
      Z.abs (cy (coord ch') - cy (spawn_corner color)) < SPAWN_AREA_LENGTH) /\
   (~ 0 <= color <= 3 -> Spawn ch s color rnd = None)) /\
  (state_ForkInEffect s FORK_TIMESAVE = true \/
   state_ForkInEffect s FORK_LIFESTEAL = true ->
   (FillWalkableTiles = Some tt ->
    exists ch' rnd',
      Spawn ch s color rnd = Some (ch', rnd') /\
      ch' = set_coord ch (coord ch') /\
      In (coord ch') (spawn_tiles s)) /\
   (FillWalkableTiles = None -> Spawn ch s color rnd = None)).
Proof.
  intros RC. split.
  - intros Hts Hls. unfold Spawn. rewrite Hts, Hls.
    pose proof (RC rnd (2 * SPAWN_AREA_LENGTH - 1) ltac:(reflexivity)) as B.
    destruct (GetIntRnd rnd (2 * SPAWN_AREA_LENGTH - 1)) as [pos rnd1].
    simpl in B. unfold SPAWN_AREA_LENGTH in *.
    split.
    + intros Hcol.
      assert (Hc : color = 0 \/ color = 1 \/ color = 2 \/ color = 3) by lia.
      unfold spawn_corner, IsInSpawnArea, SPAWN_AREA_LENGTH.
      destruct TestingRules;
        destruct Hc as [-> | [-> | [-> | ->]]]; simpl;
        (eexists; eexists; split; [reflexivity |]);
        (split; [reflexivity |]); simpl;
        destruct (Z.ltb_spec pos 15);
        (split; [| split; [| split]]); try lia;
        rewrite ?orb_true_iff, ?andb_true_iff, ?orb_true_iff,
          ?Z.eqb_eq, ?Z.ltb_lt, ?Z.leb_le;
        lia.
    + intros Hcol. simpl.
      destruct (Z.eqb_spec color 0); [lia |].
      destruct (Z.eqb_spec color 1); [lia |].
      destruct (Z.eqb_spec color 2); [lia |].
      destruct (Z.eqb_spec color 3); [lia |].
      reflexivity.
  - intros Hfork. unfold Spawn, spawn_tiles.
    assert (Hne : FillWalkableTiles = Some tt ->
                  walkableTiles_ts_players <> [] /\ walkableTiles <> []).
    { unfold FillWalkableTiles, nonempty.
      destruct walkableTiles_ts_players; [discriminate |].
      destruct walkableTiles_ts_banks; [discriminate |].
      destruct walkableTiles; [discriminate |].
      intros _. split; discriminate. }
    destruct (state_ForkInEffect s FORK_TIMESAVE).
    + destruct (Spawn_random_spec walkableTiles_ts_players ch rnd RC)
        as [Hok Hfail].
      split; [| exact Hfail].
      intros F. destruct (Hok F (proj1 (Hne F))) as (ch' & rnd' & E & I & Ec).
      now exists ch', rnd'.
    + destruct Hfork as [Hf | Hf]; [discriminate |]. rewrite Hf.
      destruct (Spawn_random_spec walkableTiles ch rnd RC) as [Hok Hfail].
      split; [| exact Hfail].
      intros F. destruct (Hok F (proj2 (Hne F))) as (ch' & rnd' & E & I & Ec).
      now exists ch', rnd'.
Qed.

End SpawnProps.

(** X11.  [GetDirection] answers with a key of the numeric keypad: a number
    from 1 to 9, which is 5 exactly when the two coordinates are the same;
    the direction back is the opposite key; and for a neighbouring tile the
    key encodes the step, its column the step in [x] and its row the step
    in [y]. *)
Theorem GetDirection_keypad (c1 c2 : Coord) :
  1 <= GetDirection c1 c2 <= 9 /\
  (GetDirection c1 c2 = 5 <-> c1 = c2) /\
  GetDirection c1 c2 + GetDirection c2 c1 = 10 /\
  (Z.abs (cx c2 - cx c1) <= 1 -> Z.abs (cy c2 - cy c1) <= 1 ->
   cx c2 = cx c1 + ((GetDirection c1 c2 - 1) mod 3 - 1) /\
   cy c2 = cy c1 + (1 - (GetDirection c1 c2 - 1) / 3)).
Proof.
  destruct c1 as [x1 y1], c2 as [x2 y2]. unfold GetDirection.
  cbn [cx cy].
  destruct (Z.ltb_spec (x2 - x1) (-1)), (Z.ltb_spec 1 (x2 - x1)),
    (Z.ltb_spec (y2 - y1) (-1)), (Z.ltb_spec 1 (y2 - y1)),
    (Z.ltb_spec (x1 - x2) (-1)), (Z.ltb_spec 1 (x1 - x2)),
    (Z.ltb_spec (y1 - y2) (-1)), (Z.ltb_spec 1 (y1 - y2));
    try lia;
    (split; [lia |]);
    (split; [split; [intros E; f_equal; lia | intros [= -> ->]; lia] |]);
    (split; [lia |]);
    intros Hx Hy; Z.div_mod_to_equations; lia.
Qed.

(** ** The crown *)

Section CrownProps.
Context `{ForkGate} `{Random} `{GameMap}.

Lemma set_crown_same (s : GameState) :
  set_crown s (crownPos s) (crownHolder s) = s.
Proof. now destruct s. Qed.

(** X12.  Whenever [UpdateCrownState] returns, the crown is on the floor or
    in the hands of a living character, and then it lies where that
    character stands, whatever the state was before.  The holder is the old
    one or nobody; a respawn is asked for only when the holder has walked
    onto a bank, and then the crown is on the floor; nothing but the crown
    changes, and a crown on the floor stays where it is. *)
Theorem UpdateCrownState_spec (s s' : GameState) (respawn : bool) :
  UpdateCrownState s = Some (s', respawn) ->
  crown_ok s' /\
  same_but_crown s s' /\
  (crownHolder s' = crownHolder s \/ crownHolder s' = no_character) /\
  (player (crownHolder s) = EmptyString -> s' = s /\ respawn = false) /\
  (respawn = true ->
   crownHolder s' = no_character /\ crownPos s' = crownPos s /\
   exists pl ch,
     StdMap.find (player (crownHolder s)) (players s) = Some pl /\
     StdMap.find (index (crownHolder s)) (characters pl) = Some ch /\
     IsBank s (coord ch) = Some true).
Proof.
  unfold UpdateCrownState, crown_ok, same_but_crown. intros E.
  destruct (String.eqb_spec (player (crownHolder s)) EmptyString) as [Ee | Ne].
  { injection E as <- <-. rewrite set_crown_same.
    repeat split; auto; discriminate. }
  destruct (StdMap.find (player (crownHolder s)) (players s)) as [pl |] eqn:Fp.
  2: { injection E as <- <-.
       split; [now left |]. split; [now destruct s |].
       split; [now right |]. split; [contradiction | discriminate]. }
  destruct (StdMap.find (index (crownHolder s)) (characters pl))
    as [ch |] eqn:Fc.
  2: { injection E as <- <-.
       split; [now left |]. split; [now destruct s |].
       split; [now right |]. split; [contradiction | discriminate]. }
  apply bind_Some in E. destruct E as (onBank & Hb & E).
  destruct onBank; injection E as <- <-.
  - split; [now left |]. split; [now destruct s |]. split; [now right |].
    split; [contradiction |]. intros _.
    split; [reflexivity |]. split; [reflexivity |].
    now exists pl, ch.
  - split; [right; now exists pl, ch |]. split; [now destruct s |].
    split; [now left |]. split; [contradiction | discriminate].
Qed.

(** X13.  Whenever [CollectCrown] returns on a state whose maps hold every
    key once: a crown that is held stays with its holder and nothing
    changes, and no respawn was asked for; a crown on the floor is picked
    up only by a character of the state standing on the tile of the crown,
    so the crown is again on the floor or with a living character on its
    tile.  Nothing but the crown changes. *)
Theorem CollectCrown_spec (respawn_crown : bool) (s s' : GameState)
  (rnd rnd' : RandomGenerator) :
  players_is_map s ->
  CollectCrown respawn_crown (s, rnd) = Some (s', rnd') ->
  same_but_crown s s' /\
  (player (crownHolder s) <> EmptyString ->
   s' = s /\ rnd' = rnd /\ respawn_crown = false) /\
  (player (crownHolder s) = EmptyString ->
   crown_ok s' /\
   (respawn_crown = false -> crownPos s' = crownPos s) /\
   (crownHolder s' = crownHolder s \/
    exists pl ch,
      StdMap.find (player (crownHolder s')) (players s) = Some pl /\
      StdMap.find (index (crownHolder s')) (characters pl) = Some ch /\
      coord ch = crownPos s')).
Proof.
  intros [NDp PMc] E. unfold CollectCrown in E. unfold same_but_crown.
  destruct (String.eqb_spec (player (crownHolder s)) EmptyString) as [Ee | Ne];
    cbn [negb] in E.
  2: { apply bind_Some in E. destruct E as (u & Hr & E).
    apply cpp_assert_Some, negb_true_iff in Hr.
    injection E as <- <-. rewrite set_crown_same.
    split; [reflexivity |]. split; [auto | contradiction]. }
  set (s1 := if respawn_crown
             then set_crown s
                    (mkCoord
                       (CrownSpawn
                          (2 * fst (GetIntRnd rnd NUM_CROWN_LOCATIONS)))
                       (CrownSpawn
                          (2 * fst (GetIntRnd rnd NUM_CROWN_LOCATIONS) + 1)))
                    (crownHolder s)
             else s).
  set (rnd1 := if respawn_crown
               then snd (GetIntRnd rnd NUM_CROWN_LOCATIONS) else rnd).
  assert (E1 : (if respawn_crown
                then let '(a, rnd0) := GetIntRnd rnd NUM_CROWN_LOCATIONS in
                     (set_crown s
                        (mkCoord (CrownSpawn (2 * a))
                           (CrownSpawn (2 * a + 1)))
                        (crownHolder s), rnd0)
                else (s, rnd)) = (s1, rnd1)).
  { unfold s1, rnd1. destruct respawn_crown; [| reflexivity].
    now destruct (GetIntRnd rnd NUM_CROWN_LOCATIONS). }
  rewrite E1 in E. clear E1.
  assert (Hp1 : players s1 = players s)
    by (unfold s1; now destruct respawn_crown).
  assert (Hh1 : crownHolder s1 = crownHolder s)
    by (unfold s1; now destruct respawn_crown).
  assert (Hc1 : respawn_crown = false -> crownPos s1 = crownPos s)
    by (unfold s1; now intros ->).
  assert (Hs1 : forall pos holder,
            set_crown (set_crown s1 pos holder) (crownPos s) (crownHolder s)
            = s).
  { intros pos holder. unfold s1.
    destruct respawn_crown; now destruct s. }
  clearbody s1 rnd1.
  match type of E with
  | (if ?b then _ else _) = _ => destruct b
  end.
  - injection E as <- <-. unfold crown_ok. rewrite Hh1.
    split; [rewrite <- (set_crown_same s1) at 1; apply Hs1 |].
    split; [contradiction |]. intros _.
    split; [now left |]. split; [exact Hc1 | now left].
  - match type of E with
    | (let '(_, _) := ?x in _) = _ => destruct x as [i rnd2]
    end.
    apply bind_Some in E. destruct E as (holder & Hat & E).
    injection E as <- <-.
    split; [apply Hs1 |]. split; [contradiction |]. intros _. simpl.
    assert (I : In holder
                  (flat_map
                     (fun p : PlayerID * PlayerState =>
                        flat_map
                          (fun pc : Z * CharacterState =>
                             if Coord_eqb (coord (snd pc)) (crownPos s1)
                             then [mkChid (fst p) (fst pc)] else [])
                          (characters (snd p)))
                     (players s1))).
    { unfold at_index in Hat. destruct (i <? 0); [discriminate |].
      exact (nth_error_In _ _ Hat). }
    apply in_flat_map in I. destruct I as ([id pl] & Ip & I).
    apply in_flat_map in I. destruct I as ([ci ch] & Ic & I).
    simpl in I.
    destruct (Coord_eqb (coord ch) (crownPos s1)) eqn:Ec; [| destruct I].
    destruct I as [<- | []]. apply Coord_eqb_eq in Ec. simpl.
    rewrite Hp1 in Ip.
    assert (Fp : StdMap.find id (players s) = Some pl)
      by now apply In_find.
    assert (Fc : StdMap.find ci (characters pl) = Some ch).
    { apply In_find; [| assumption]. now apply (PMc id pl). }
    unfold crown_ok. simpl. rewrite Hp1.
    split; [right; now exists pl, ch |].
    split; [exact Hc1 |]. right. now exists pl, ch.
Qed.

End CrownProps.

(** ** Building the resolver *)

Section EnsureIsBuiltProps.
Context `{ForkGate} `{GameMap} `{Header}.

Lemma EnsureIsBuilt_characters (s : GameState) (p : PlayerID * PlayerState)
  (cs : list (Z * CharacterState)) :
  forall (ts : list (Coord * AttackableCharacter))
         (x : Coord * AttackableCharacter),
    In x
      (fold_left
         (fun ts (pc : Z * CharacterState) =>
            if state_ForkInEffect s FORK_TIMESAVE
               && CharacterIsProtected (stay_in_spawn_area (snd pc))
            then ts
            else StdMap.place (coord (snd pc))
                   (mkAttackable (mkChid (fst p) (fst pc)) (color (snd p)) 0 [])
                   ts)
         cs ts)
    <-> In x ts \/
        exists pc,
          In pc cs /\
          state_ForkInEffect s FORK_TIMESAVE
          && CharacterIsProtected (stay_in_spawn_area (snd pc)) = false /\
          x = (coord (snd pc),
               mkAttackable (mkChid (fst p) (fst pc)) (color (snd p)) 0 []).
Proof.
  induction cs as [| pc cs IH]; intros ts x; simpl.
  - split; [auto | intros [I | (pc & [] & _)]; exact I].
  - rewrite IH.
    destruct (state_ForkInEffect s FORK_TIMESAVE
              && CharacterIsProtected (stay_in_spawn_area (snd pc))) eqn:P.
    + split.
      * intros [I | (q & I & Hq)]; [now left |].
        right. exists q. split; [now right | exact Hq].
      * intros [I | (q & [<- | I] & Hp & Hq)]; [now left | congruence |].
        right. now exists q.
    + rewrite In_place. split.
      * intros [[E | I] | (q & I & Hq)].
        -- right. exists pc. split; [now left |]. now split.
        -- now left.
        -- right. exists q. split; [now right | exact Hq].
      * intros [I | (q & [<- | I] & Hp & Hq)].
        -- left. now right.
        -- left. now left.
        -- right. now exists q.
Qed.

(** X14.  [EnsureIsBuilt] leaves a built resolver as it is, and fails on one
    that is not built and yet has tiles.  From the fresh resolver it builds
    one entry for every character of the state that is not protected (the
    protection counts once TIMESAVE is in effect) and no other entry: on the
    tile of the character, with its identity and the colour of its player,
    no life drawn and no attacker.  A second call changes nothing. *)
Theorem EnsureIsBuilt_spec (cot : CharactersOnTiles) (s : GameState) :
  (built cot = true -> EnsureIsBuilt cot s = Some cot) /\
  (built cot = false -> tiles cot <> [] -> EnsureIsBuilt cot s = None) /\
  (built cot = false -> tiles cot = [] ->
   exists cot',
     EnsureIsBuilt cot s = Some cot' /\ built cot' = true /\
     EnsureIsBuilt cot' s = Some cot' /\
     forall c a,
       In (c, a) (tiles cot')
       <-> exists id pl i ch,
             In (id, pl) (players s) /\ In (i, ch) (characters pl) /\
             state_ForkInEffect s FORK_TIMESAVE
             && CharacterIsProtected (stay_in_spawn_area ch) = false /\
             c = coord ch /\
             a = mkAttackable (mkChid id i) (color pl) 0 []).
Proof.
  unfold EnsureIsBuilt. split; [intros ->; reflexivity |]. split.
  - intros -> Hne. destruct (tiles cot); [contradiction | reflexivity].
  - intros -> ->. simpl. eexists. split; [reflexivity |].
    split; [reflexivity |]. split; [reflexivity |]. simpl.
    intros c a.
    assert (Hloop : forall ps ts x,
      In x
        (fold_left
           (fun ts0 (p : PlayerID * PlayerState) =>
              fold_left
                (fun ts1 (pc : Z * CharacterState) =>
                   if state_ForkInEffect s FORK_TIMESAVE
                      && CharacterIsProtected (stay_in_spawn_area (snd pc))
                   then ts1
                   else StdMap.place (coord (snd pc))
                          (mkAttackable (mkChid (fst p) (fst pc))
                             (color (snd p)) 0 [])
                          ts1)
                (characters (snd p)) ts0)
           ps ts)
      <-> In x ts \/
          exists p pc,
            In p ps /\ In pc (characters (snd p)) /\
            state_ForkInEffect s FORK_TIMESAVE
            && CharacterIsProtected (stay_in_spawn_area (snd pc)) = false /\
            x = (coord (snd pc),
                 mkAttackable (mkChid (fst p) (fst pc)) (color (snd p)) 0 [])).
    { induction ps as [| p ps IH]; intros ts x; simpl.
      - split; [auto | intros [I | (p & pc & [] & _)]; exact I].
      - rewrite IH, EnsureIsBuilt_characters. split.
        + intros [[I | (pc & Ic & Hpc)] | (q & pc & Iq & Hq)].
          * now left.
          * right. exists p, pc. split; [now left | exact (conj Ic Hpc)].
          * right. exists q, pc. split; [now right | exact Hq].
        + intros [I | (q & pc & [<- | Iq] & Ic & Hpc)].
          * left. now left.
          * left. right. exists pc. exact (conj Ic Hpc).
          * right. now exists q, pc. }
    rewrite Hloop. split.
    + intros [[] | ([id pl] & [i ch] & Ip & Ic & Hp & E)].
      injection E as -> ->. now exists id, pl, i, ch.
    + intros (id & pl & i & ch & Ip & Ic & Hp & -> & ->).
      right. now exists (id, pl), (i, ch).
Qed.

End EnsureIsBuiltProps.

(** ** The locked coins *)

(** X15.  The coins a name must lock never rise with the height and stay
    between 20 and 100 coins.  The height is read as [unsigned]: for the
    height -1 of the state before the first block, as for any negative
    height, the amount is the lowest one, 20 coins. *)
Theorem GetNameCoinAmount_antitone (h1 h2 : Z) :
  (h1 <= h2 -> GetNameCoinAmount h2 <= GetNameCoinAmount h1) /\
  20 * COIN <= GetNameCoinAmount h1 <= 100 * COIN /\
  (- 2 ^ 31 <= h1 < 0 -> GetNameCoinAmount (to_unsigned h1) = 20 * COIN).
Proof.
  unfold GetNameCoinAmount, to_unsigned, COIN.
  split; [| split].
  - intros Hle.
    destruct (Z.ltb_spec 30000 h1), (Z.ltb_spec 20000 h1),
      (Z.ltb_spec 10000 h1), (Z.ltb_spec 30000 h2), (Z.ltb_spec 20000 h2),
      (Z.ltb_spec 10000 h2); lia.
  - destruct (Z.ltb_spec 30000 h1), (Z.ltb_spec 20000 h1),
      (Z.ltb_spec 10000 h1); lia.
  - intros B.
    assert (E : h1 mod 2 ^ 32 = h1 + 2 ^ 32).
    { symmetry. apply Z.mod_unique with (q := -1); lia. }
    rewrite E. destruct (Z.ltb_spec 30000 (h1 + 2 ^ 32)); lia.
Qed.

(** ** Buying from a merchant *)

Section PurchaseProps.
Context `{Header}.

(** X16.  What [AI_BUY_FROM_MERCHANT] does with the coins: what the buyer
    pays is what merchant [M] receives, no other merchant receives anything,
    and a buyer whose loot was not negative never ends below zero.  The slot
    is the old one or the item; the buyer pays only when the slot changes,
    and with payments switched off the item changes hands and no coin
    moves.  The time of the last sale is not touched. *)
Theorem AI_BUY_FROM_MERCHANT_accounts (S I M out_height : Z)
  (lootAmount : CAmount) (mc : MerchantCache) :
  let '(S', lootAmount', mc') :=
    AI_BUY_FROM_MERCHANT S I M out_height lootAmount mc in
  lootAmount' + Merchant_sats_received mc' M
  = lootAmount + Merchant_sats_received mc M /\
  (forall M', M' <> M ->
     Merchant_sats_received mc' M' = Merchant_sats_received mc M') /\
  (0 <= lootAmount -> 0 <= lootAmount') /\
  (S' = S \/ S' = I) /\
  (lootAmount' <> lootAmount -> S' = I /\ S <> I) /\
  (AI_dbg_allow_payments mc = false -> lootAmount' = lootAmount) /\
  Merchant_last_sale mc' = Merchant_last_sale mc /\
  Merchant_exists mc' = Merchant_exists mc /\
  AI_dbg_allow_payments mc' = AI_dbg_allow_payments mc.
Proof.
  unfold AI_BUY_FROM_MERCHANT.
  destruct (Z.eqb_spec S I) as [E | N]; simpl.
  { repeat split; auto; try lia; contradiction. }
  destruct (Merchant_exists mc M); simpl.
  2: { repeat split; auto; try lia; contradiction. }
  pose proof (Rpg_getMerchantOffer_cache mc M out_height) as Hc.
  assert (Hr : Merchant_sats_received (snd (Rpg_getMerchantOffer mc M out_height))
               = Merchant_sats_received mc /\
               Merchant_last_sale (snd (Rpg_getMerchantOffer mc M out_height))
               = Merchant_last_sale mc /\
               Merchant_exists (snd (Rpg_getMerchantOffer mc M out_height))
               = Merchant_exists mc /\
               AI_dbg_allow_payments (snd (Rpg_getMerchantOffer mc M out_height))
               = AI_dbg_allow_payments mc).
  { unfold Rpg_getMerchantOffer.
    destruct (if (out_height <=? 0) || (Merchant_last_sale mc M <=? 0)
              then _ else _) as [price discount].
    simpl. auto. }
  destruct (Rpg_getMerchantOffer mc M out_height) as [offer mc1].
  simpl in Hc, Hr. destruct Hr as (Hs & Hl & He & Hp).
  destruct (Z.leb_spec (offer * COIN) lootAmount) as [Hle | Hgt].
  2: { repeat split; auto; try lia; try congruence; contradiction. }
  destruct (AI_dbg_allow_payments mc1) eqn:Pay; simpl.
  - unfold upd. rewrite Z.eqb_refl, Hc, Hs.
    split; [lia |]. split.
    { intros M' NM. destruct (Z.eqb_spec M' M); [contradiction | reflexivity]. }
    split; [lia |]. split; [now right |]. split; [auto |].
    split; [congruence |]. auto.
  - rewrite Hs. split; [lia |]. split; [auto |]. split; [auto |].
    split; [now right |]. split; [contradiction |].
    split; [auto |]. split; [auto |]. split; [auto | congruence].
Qed.

End PurchaseProps.

(** ** Collecting hearts *)

Section HeartProps.
Context `{ForkGate} `{GameMap} `{Random} `{Header}.

Lemma grown_from_refl (pl : PlayerState) : grown_from pl pl.
Proof. unfold grown_from. repeat split; auto; lia. Qed.

Lemma grown_from_trans (a b c : PlayerState) :
  grown_from a b -> grown_from b c -> grown_from a c.
Proof.
  unfold grown_from.
  intros (C1 & V1 & L1 & R1 & A1 & N1 & F1) (C2 & V2 & L2 & R2 & A2 & N2 & F2).
  repeat split; try congruence; try lia.
  intros i Hi. rewrite F2 by lia. now apply F1.
Qed.

(** [SpawnCharacter] puts the new character under the next index of the
    player and moves that index on. *)
Lemma SpawnCharacter_returned (p p' : PlayerState) (s : GameState)
  (rnd rnd' : RandomGenerator) :
  SpawnCharacter p s rnd = Some (p', rnd') ->
  grown_from p p' /\
  next_character_index p' = next_character_index p + 1 /\
  StdMap.find (next_character_index p) (characters p') <> None /\
  forall i, i <> next_character_index p ->
    StdMap.find i (characters p') = StdMap.find i (characters p).
Proof.
  unfold SpawnCharacter, StdMap.subscript. intros E.
  assert (Hother : forall (ch1 : CharacterState) i,
            i <> next_character_index p ->
            StdMap.find i
              (StdMap.assign (next_character_index p) ch1
                 (match StdMap.find (next_character_index p) (characters p) with
                  | Some _ => characters p
                  | None => StdMap.place (next_character_index p)
                              CharacterState_default (characters p)
                  end))
            = StdMap.find i (characters p)).
  { intros ch1 i N. rewrite find_assign_other by congruence.
    destruct (StdMap.find (next_character_index p) (characters p));
      [reflexivity |].
    apply find_place_other. congruence. }
  assert (Hsame : forall ch1 : CharacterState,
            StdMap.find (next_character_index p)
              (StdMap.assign (next_character_index p) ch1
                 (match StdMap.find (next_character_index p) (characters p) with
                  | Some _ => characters p
                  | None => StdMap.place (next_character_index p)
                              CharacterState_default (characters p)
                  end))
            = Some ch1).
  { intros ch1.
    destruct (StdMap.find (next_character_index p) (characters p))
      as [c0 |] eqn:F.
    - now apply (find_assign_same _ _ c0).
    - apply (find_assign_same _ _ CharacterState_default).
      now apply find_place_same. }
  destruct (StdMap.find (next_character_index p) (characters p)) as [c0 |];
    apply bind_Some in E; destruct E as ([ch1 rnd1] & _ & E);
    injection E as <- <-; unfold grown_from; simpl;
    (split; [repeat split; try lia; intros i Hi; apply Hother; lia |]);
    (split; [reflexivity |]);
    (split; [rewrite Hsame; discriminate | apply Hother]).
Qed.

(** X17.  Whenever [CollectHearts] returns, it has only removed hearts and
    given characters: every heart left was there before, the loot tiles, the
    game fund and the set of players are untouched, and every player is as
    before, with its value and its old characters, and new characters only
    under fresh indices. *)
Theorem CollectHearts_frame (s s' : GameState) (rnd rnd' : RandomGenerator) :
  CollectHearts (s, rnd) = Some (s', rnd') ->
  (forall c, In c (hearts s') -> In c (hearts s)) /\
  lootOnMap s' = lootOnMap s /\ gameFund s' = gameFund s /\
  nHeight s' = nHeight s /\ banks s' = banks s /\
  StdMap.keys (players s') = StdMap.keys (players s) /\
  forall id pl',
    StdMap.find id (players s') = Some pl' ->
    exists pl, StdMap.find id (players s) = Some pl /\ grown_from pl pl'.
Proof.
  unfold CollectHearts. simpl. intros E.
  apply (foreach_invariant
           (fun t : GameState * RandomGenerator =>
              (forall c, In c (hearts (fst t)) -> In c (hearts s)) /\
              lootOnMap (fst t) = lootOnMap s /\
              gameFund (fst t) = gameFund s /\
              nHeight (fst t) = nHeight s /\ banks (fst t) = banks s /\
              StdMap.keys (players (fst t)) = StdMap.keys (players s) /\
              forall id pl',
                StdMap.find id (players (fst t)) = Some pl' ->
                exists pl,
                  StdMap.find id (players s) = Some pl /\ grown_from pl pl'))
    in E; [exact E | |].
  - intros t [s1 rnd1] [s2 rnd2] _ (Hh & Hl & Hg & Hn & Hb & Hk & Hp) Et.
    simpl in *. unfold CollectHearts_tile in Et.
    apply bind_Some in Et. destruct Et as ([picked rnd3] & _ & Et).
    destruct picked as [chosen |].
    2: { injection Et as <- <-. repeat split; assumption. }
    apply bind_Some in Et. destruct Et as (pl & Fpl & Et).
    apply bind_Some in Et. destruct Et as ([pl1 rnd4] & Es & Et).
    injection Et as <- <-. simpl.
    apply SpawnCharacter_returned in Es. destruct Es as (Hgrow & _).
    split; [| split; [| split; [| split; [| split; [| split]]]]];
      try assumption.
    + intros c I. apply Hh. unfold StdSet.erase in I.
      apply filter_In in I. tauto.
    + now rewrite keys_assign.
    + intros id pl' F.
      destruct (string_dec id chosen) as [-> | N].
      * rewrite (find_assign_same _ _ pl _ Fpl) in F. injection F as <-.
        destruct (Hp chosen pl Fpl) as (pl0 & F0 & G0).
        exists pl0. split; [assumption |].
        exact (grown_from_trans _ _ _ G0 Hgrow).
      * rewrite (find_assign_other _ _ _ _ N) in F. now apply Hp.
  - simpl. repeat split; auto.
    intros id pl' F. exists pl'. split; [assumption | apply grown_from_refl].
Qed.

End HeartProps.

(** ** The banks of the first state *)

Section OriginalBanksProps.
Context `{GameMap}.

Lemma keys_insert {V : Type} (k : Coord) (v : V) (m : list (Coord * V))
  (x : Coord) :
  In x (StdMap.keys (StdMap.insert k v m)) <-> x = k \/ In x (StdMap.keys m).
Proof.
  unfold StdMap.insert. destruct (StdMap.find k m) as [v0 |] eqn:F.
  - split; [now right |]. intros [-> | I]; [| assumption].
    apply find_In in F. change k with (fst (k, v0)). now apply in_map.
  - apply keys_place.
Qed.

Lemma In_insert_old {V : Type} (k : Coord) (v : V) (m : list (Coord * V))
  (x : Coord * V) :
  In x (StdMap.insert k v m) -> x = (k, v) \/ In x m.
Proof.
  unfold StdMap.insert. destruct (StdMap.find k m); [now right |].
  apply In_place.
Qed.

Lemma keys_insert_each (cs : list Coord) :
  forall (m : list (Coord * Z)) (x : Coord),
    In x (StdMap.keys (fold_left (fun bs c => StdMap.insert c 0 bs) cs m))
    <-> In x cs \/ In x (StdMap.keys m).
Proof.
  induction cs as [| c cs IH]; intros m x; cbn [fold_left In].
  - tauto.
  - rewrite IH, keys_insert. intuition congruence.
Qed.

Lemma keys_original_banks (ds : list Z) :
  forall (m : list (Coord * Z)) (x : Coord),
    In x
      (StdMap.keys
         (fold_left
            (fun bs d =>
               fold_left (fun bs c => StdMap.insert c 0 bs)
                 (original_banks_at d) bs)
            ds m))
    <-> (exists d, In d ds /\ In x (original_banks_at d))
        \/ In x (StdMap.keys m).
Proof.
  induction ds as [| d ds IH]; intros m x; cbn [fold_left In].
  - split; [now right | intros [(d & [] & _) | I]; exact I].
  - rewrite IH, keys_insert_each. split.
    + intros [(d' & I & Hx) | [Hx | I]].
      * left. exists d'. split; [now right | exact Hx].
      * left. exists d. split; [now left | exact Hx].
      * now right.
    + intros [(d' & [<- | I] & Hx) | I].
      * right. now left.
      * left. now exists d'.
      * right. now right.
Qed.

Lemma In_Z_range (n d : Z) : In d (Z_range n) <-> 0 <= d < n.
Proof.
  unfold Z_range. rewrite in_map_iff. split.
  - intros (k & <- & I). apply in_seq in I. lia.
  - intros B. exists (Z.to_nat d). split; [lia |]. apply in_seq. lia.
Qed.

(** X18.  Whenever [SetOriginalBanks] returns, on a map at least as wide and
    as high as the spawn area is long, the map of banks it was given was
    empty and the banks it leaves are exactly the tiles of the map that lie
    in the spawn area: 116 of them, each with lifetime 0. *)
Theorem SetOriginalBanks_spec (banks banks' : list (Coord * Z)) :
  SPAWN_AREA_LENGTH <= MAP_WIDTH -> SPAWN_AREA_LENGTH <= MAP_HEIGHT ->
  SetOriginalBanks banks = Some banks' ->
  banks = [] /\
  List.length banks' = 116%nat /\
  (forall c t, In (c, t) banks' ->
     t = 0 /\ IsOriginalSpawnAreaCoord c = true) /\
  (forall x y,
     In (mkCoord x y) (StdMap.keys banks')
     <-> 0 <= x < MAP_WIDTH /\ 0 <= y < MAP_HEIGHT /\
         IsInSpawnArea x y = true).
Proof.
  intros HW HH E. unfold SetOriginalBanks in E.
  destruct banks as [| b0 banks0]; [| discriminate E].
  rewrite ensure_true in E by reflexivity.
  set (banks1 := fold_left _ (Z_range SPAWN_AREA_LENGTH) []) in E.
  assert (Hkeys : forall c,
            In c (StdMap.keys banks1)
            <-> (exists d, In d (Z_range SPAWN_AREA_LENGTH) /\
                           In c (original_banks_at d))
                \/ In c (StdMap.keys (@nil (Coord * Z)))).
  { intros c. apply keys_original_banks. }
  clearbody banks1.
  apply bind_Some in E. destruct E as (u2 & Hlen & E).
  apply cpp_assert_Some in Hlen. apply Z.eqb_eq in Hlen.
  apply bind_Some in E. destruct E as (u3 & Hall & E).
  apply cpp_assert_Some in Hall. injection E as <-.
  split; [reflexivity |]. split.
  { unfold SPAWN_AREA_LENGTH in Hlen. lia. }
  split.
  { intros c t I. rewrite forallb_forall in Hall.
    specialize (Hall (c, t) I). simpl in Hall.
    apply andb_true_iff in Hall. destruct Hall as [Ha Ht].
    apply Z.eqb_eq in Ht. now split. }
  intros x y. rewrite Hkeys. clear Hkeys Hall Hlen.
  unfold IsInSpawnArea, SPAWN_AREA_LENGTH in *.
  rewrite !orb_true_iff, !andb_true_iff, !orb_true_iff, !Z.eqb_eq,
    !Z.ltb_lt, !Z.leb_le.
  split.
  - intros [(d & Id & Ix) | []]. apply In_Z_range in Id.
    unfold original_banks_at in Ix. simpl in Ix.
    repeat (destruct Ix as [Ix | Ix]; [injection Ix as <- <-; lia |]).
    destruct Ix.
  - intros (Hx & Hy & Hs). left.
    destruct Hs as [[[Ex | Ex] [Ey | Ey]] | [[Ey | Ey] [Ex | Ex]]].
    + exists y. split; [apply In_Z_range; lia |].
      subst x. now left.
    + exists (MAP_HEIGHT - 1 - y). split; [apply In_Z_range; lia |].
      do 4 right. left. f_equal; lia.
    + exists y. split; [apply In_Z_range; lia |].
      do 2 right. left. f_equal; lia.
    + exists (MAP_HEIGHT - 1 - y). split; [apply In_Z_range; lia |].
      do 6 right. left. f_equal; lia.
    + exists x. split; [apply In_Z_range; lia |].
      right. left. f_equal; lia.
    + exists (MAP_WIDTH - 1 - x). split; [apply In_Z_range; lia |].
      do 5 right. left. f_equal; lia.
    + exists x. split; [apply In_Z_range; lia |].
      do 3 right. left. f_equal; lia.
    + exists (MAP_WIDTH - 1 - x). split; [apply In_Z_range; lia |].
      do 7 right. left. f_equal; lia.
Qed.

End OriginalBanksProps.

(** ** The order in which loot is collected *)

Lemma String_ltb_irrefl (a : string) : String.ltb a a = false.
Proof.
  unfold String.ltb.
  assert (E : String.compare a a = Eq)
    by now apply OrderedTypeEx.String_as_OT.cmp_eq.
  now rewrite E.
Qed.

Lemma String_ltb_asym (a b : string) :
  String.ltb a b = true -> String.ltb b a = false.
Proof.
  unfold String.ltb. rewrite (String.compare_antisym a b).
  destruct (String.compare b a); simpl; congruence.
Qed.

Lemma String_ltb_trans (a b c : string) :
  String.ltb a b = true -> String.ltb b c = true -> String.ltb a c = true.
Proof.
  unfold String.ltb. intros H1 H2.
  destruct (String.compare a b) eqn:E1; try discriminate.
  destruct (String.compare b c) eqn:E2; try discriminate.
  apply OrderedTypeEx.String_as_OT.cmp_lt in E1, E2.
  pose proof (OrderedTypeEx.String_as_OT.lt_trans _ _ _ E1 E2) as L.
  apply OrderedTypeEx.String_as_OT.cmp_lt in L.
  unfold OrderedTypeEx.String_as_OT.cmp in L. now rewrite L.
Qed.

Lemma String_ltb_total (a b : string) :
  String.ltb a b = false -> String.ltb b a = false -> a = b.
Proof.
  unfold String.ltb. rewrite (String.compare_antisym a b).
  destruct (String.compare b a) eqn:E; simpl; try discriminate.
  intros _ _. symmetry. now apply String.compare_eq_iff.
Qed.

Lemma GetRemainingCapacity_range (t : CharacterOnLootTile) :
  GetRemainingCapacity t = -1 \/ 0 <= GetRemainingCapacity t.
Proof.
  unfold GetRemainingCapacity.
  destruct (Z.eqb_spec (carryCap t) (-1)); [now left |].
  destruct (Z.ltb_spec (carryCap t) (nAmount (info (loot (ch_sorted t)))));
    right; lia.
Qed.

(** X19.  [operator<] on the collectors of a loot tile is a strict total
    order on the remaining capacity, the player and the character index:
    it is irreflexive, asymmetric and transitive, and two collectors that
    it does not order agree on all three.  A remaining capacity is -1 or not
    negative, so the two assertions of the operator cannot fail; smaller
    remaining capacities come first, unlimited ones (-1) last, and equal
    ones are ordered by player and then by index. *)
Theorem CharacterOnLootTile_order :
  (forall a, GetRemainingCapacity a = -1 \/ 0 <= GetRemainingCapacity a) /\
  (forall a, CharacterOnLootTile_ltb a a = false) /\
  (forall a b, CharacterOnLootTile_ltb a b = true ->
               CharacterOnLootTile_ltb b a = false) /\
  (forall a b c, CharacterOnLootTile_ltb a b = true ->
                 CharacterOnLootTile_ltb b c = true ->
                 CharacterOnLootTile_ltb a c = true) /\
  (forall a b, CharacterOnLootTile_ltb a b = false ->
               CharacterOnLootTile_ltb b a = false ->
               GetRemainingCapacity a = GetRemainingCapacity b /\
               pid a = pid b /\ cid a = cid b) /\
  (forall a b, 0 <= GetRemainingCapacity a -> GetRemainingCapacity b = -1 ->
               CharacterOnLootTile_ltb a b = true) /\
  (forall a b, 0 <= GetRemainingCapacity a < GetRemainingCapacity b ->
               CharacterOnLootTile_ltb a b = true) /\
  (forall a b, GetRemainingCapacity a = GetRemainingCapacity b ->
               CharacterOnLootTile_ltb a b
               = if String.eqb (pid a) (pid b) then cid a <? cid b
                 else String.ltb (pid a) (pid b)).
Proof.
  split; [exact GetRemainingCapacity_range |].
  unfold CharacterOnLootTile_ltb.
  split; [| split; [| split; [| split; [| split; [| split]]]]].
  - intros a. rewrite Z.eqb_refl, String.eqb_refl. simpl. apply Z.ltb_irrefl.
  - intros a b.
    pose proof (GetRemainingCapacity_range a) as Ra.
    pose proof (GetRemainingCapacity_range b) as Rb.
    destruct (Z.eqb_spec (GetRemainingCapacity a) (GetRemainingCapacity b))
      as [E | N].
    + rewrite <- E, Z.eqb_refl, (String.eqb_sym (pid b)).
      destruct (String.eqb_spec (pid a) (pid b)) as [Ep | Np]; simpl.
      * intros L. apply Z.ltb_lt in L. apply Z.ltb_ge. lia.
      * apply String_ltb_asym.
    + destruct (Z.eqb_spec (GetRemainingCapacity b) (GetRemainingCapacity a));
        [congruence |].
      destruct (Z.eqb_spec (GetRemainingCapacity a) (-1)); [discriminate |].
      destruct (Z.eqb_spec (GetRemainingCapacity b) (-1)); [reflexivity |].
      intros L. apply Z.ltb_lt in L. apply Z.ltb_ge. lia.
  - intros a b c.
    pose proof (GetRemainingCapacity_range a) as Ra.
    pose proof (GetRemainingCapacity_range b) as Rb.
    pose proof (GetRemainingCapacity_range c) as Rc.
    destruct (Z.eqb_spec (GetRemainingCapacity a) (GetRemainingCapacity b))
      as [Eab | Nab];
      destruct (Z.eqb_spec (GetRemainingCapacity b) (GetRemainingCapacity c))
        as [Ebc | Nbc];
      destruct (Z.eqb_spec (GetRemainingCapacity a) (GetRemainingCapacity c))
        as [Eac | Nac]; try congruence.
    + destruct (String.eqb_spec (pid a) (pid b)) as [Epab | Npab];
        destruct (String.eqb_spec (pid b) (pid c)) as [Epbc | Npbc];
        destruct (String.eqb_spec (pid a) (pid c)) as [Epac | Npac];
        simpl; intros L1 L2;
        first
          [ congruence
          | apply Z.ltb_lt in L1; apply Z.ltb_lt in L2; apply Z.ltb_lt; lia
          | rewrite Epab; exact L2
          | rewrite <- Epbc; exact L1
          | exfalso; rewrite Epac in L1;
            rewrite (String_ltb_asym _ _ L2) in L1; discriminate
          | exact (String_ltb_trans _ _ _ L1 L2) ].
    + destruct (Z.eqb_spec (GetRemainingCapacity a) (-1)),
        (Z.eqb_spec (GetRemainingCapacity b) (-1)),
        (Z.eqb_spec (GetRemainingCapacity c) (-1));
        rewrite ?Z.ltb_lt; intros; first [reflexivity | congruence | lia].
    + destruct (Z.eqb_spec (GetRemainingCapacity a) (-1)),
        (Z.eqb_spec (GetRemainingCapacity b) (-1)),
        (Z.eqb_spec (GetRemainingCapacity c) (-1));
        rewrite ?Z.ltb_lt; intros; first [reflexivity | congruence | lia].
    + destruct (Z.eqb_spec (GetRemainingCapacity a) (-1)),
        (Z.eqb_spec (GetRemainingCapacity b) (-1)),
        (Z.eqb_spec (GetRemainingCapacity c) (-1));
        rewrite ?Z.ltb_lt; intros; first [reflexivity | congruence | lia].
    + destruct (Z.eqb_spec (GetRemainingCapacity a) (-1)),
        (Z.eqb_spec (GetRemainingCapacity b) (-1)),
        (Z.eqb_spec (GetRemainingCapacity c) (-1));
        rewrite ?Z.ltb_lt; intros; first [reflexivity | congruence | lia].
  - intros a b.
    pose proof (GetRemainingCapacity_range a) as Ra.
    pose proof (GetRemainingCapacity_range b) as Rb.
    destruct (Z.eqb_spec (GetRemainingCapacity a) (GetRemainingCapacity b))
      as [E | N].
    + rewrite <- E, Z.eqb_refl, (String.eqb_sym (pid b)).
      destruct (String.eqb_spec (pid a) (pid b)) as [Ep | Np]; simpl.
      * rewrite !Z.ltb_ge. intros L1 L2. repeat split; auto. lia.
      * intros L1 L2. exfalso. apply Np. now apply String_ltb_total.
    + destruct (Z.eqb_spec (GetRemainingCapacity b) (GetRemainingCapacity a));
        [congruence |].
      destruct (Z.eqb_spec (GetRemainingCapacity a) (-1));
        destruct (Z.eqb_spec (GetRemainingCapacity b) (-1));
        rewrite ?Z.ltb_ge; intros; first [congruence | lia].
  - intros a b Ha Hb.
    destruct (Z.eqb_spec (GetRemainingCapacity a) (GetRemainingCapacity b));
      [lia |].
    destruct (Z.eqb_spec (GetRemainingCapacity a) (-1)); [lia |].
    destruct (Z.eqb_spec (GetRemainingCapacity b) (-1)); [reflexivity | lia].
  - intros a b Hab.
    destruct (Z.eqb_spec (GetRemainingCapacity a) (GetRemainingCapacity b));
      [lia |].
    destruct (Z.eqb_spec (GetRemainingCapacity a) (-1)); [lia |].
    destruct (Z.eqb_spec (GetRemainingCapacity b) (-1)); [reflexivity |].
    apply Z.ltb_lt. lia.
  - intros a b E. rewrite E, Z.eqb_refl.
    now destruct (String.eqb (pid a) (pid b)).
Qed.

(** ** Loot of the killed near the spawn area *)

Section PushOutProps.
Context `{GameMap}.

(** X20.  On a map at least three tiles wide and high whose original spawn
    area is the one [IsInSpawnArea] describes, [PushCoordOutOfSpawnArea]
    answers with a tile outside the spawn area that is the coordinate itself
    or one of its eight neighbours; a coordinate outside the spawn area is
    returned as it is, and a coordinate of the map stays on the map. *)
Theorem PushCoordOutOfSpawnArea_leaves (c : Coord) :
  (forall x y, IsOriginalSpawnArea x y = IsInSpawnArea x y) ->
  3 <= MAP_WIDTH -> 3 <= MAP_HEIGHT ->
  let c' := PushCoordOutOfSpawnArea c in
  IsInSpawnArea (cx c') (cy c') = false /\
  Z.abs (cx c' - cx c) <= 1 /\ Z.abs (cy c' - cy c) <= 1 /\
  (IsInSpawnArea (cx c) (cy c) = false -> c' = c) /\
  (0 <= cx c < MAP_WIDTH -> 0 <= cy c < MAP_HEIGHT ->
   0 <= cx c' < MAP_WIDTH /\ 0 <= cy c' < MAP_HEIGHT).
Proof.
  intros Hsame HW HH. cbv zeta.
  unfold PushCoordOutOfSpawnArea, IsOriginalSpawnAreaCoord.
  rewrite Hsame. destruct c as [x y]. cbn [cx cy].
  destruct (IsInSpawnArea x y) eqn:A; cbn [negb].
  2: { cbn [cx cy]. repeat split; auto; lia. }
  assert (Hout : forall x' y',
            x' <> 0 -> x' <> MAP_WIDTH - 1 ->
            y' <> 0 -> y' <> MAP_HEIGHT - 1 ->
            IsInSpawnArea x' y' = false).
  { intros x' y' X0 X1 Y0 Y1. unfold IsInSpawnArea.
    apply Z.eqb_neq in X0, X1, Y0, Y1. now rewrite X0, X1, Y0, Y1. }
  assert (Hrim : x = 0 \/ x = MAP_WIDTH - 1 \/ y = 0 \/ y = MAP_HEIGHT - 1).
  { unfold IsInSpawnArea in A.
    rewrite !orb_true_iff, !andb_true_iff, !orb_true_iff, !Z.eqb_eq in A.
    tauto. }
  destruct (Z.eqb_spec x 0) as [X0 | X0];
    [| destruct (Z.eqb_spec x (MAP_WIDTH - 1)) as [X1 | X1]];
    destruct (Z.eqb_spec y 0) as [Y0 | Y0];
    try destruct (Z.eqb_spec y (MAP_HEIGHT - 1)) as [Y1 | Y1];
    cbn [cx cy];
    (split; [apply Hout; lia |]);
    (split; [lia |]); (split; [lia |]);
    (split; [discriminate | lia]).
Qed.

End PushOutProps.

(** ** The dungeon levels *)

(** X21.  The block of [PerformStep] that computes the game round, for a
    height and a highest level that are not negative: it fails, dividing by
    zero, exactly when there are more levels than blocks in the round;
    otherwise the round lasts the voted interval but at least 2000 blocks,
    the round starts at a multiple of its duration no later than the height,
    the time slot is at least one block long, the active level is not
    negative, and the slot of the active level holds the height. *)
Theorem DungeonLevels_spec (s : GameState) :
  0 <= nHeight s -> 0 <= dao_DlevelMax s ->
  let duration :=
    Z.max (dao_IntervalMonsterApocalypse s) MIN_GAMEROUND_DURATION in
  (duration < dao_DlevelMax s + 1 -> DungeonLevels s = None) /\
  (dao_DlevelMax s + 1 <= duration ->
   exists d,
     DungeonLevels s
     = Some (set_dao_IntervalMonsterApocalypse s duration, d) /\
     Cache_gamecache_good d = true /\
     Cache_gameround_duration d = duration /\
     0 <= Cache_gameround_blockcount d < duration /\
     Cache_gameround_start d + Cache_gameround_blockcount d = nHeight s /\
     Cache_gameround_start d mod duration = 0 /\
     1 <= Cache_timeslot_duration d /\
     Cache_timeslot_duration d * (dao_DlevelMax s + 1) <= duration /\
     0 <= Cache_timeslot_blockcount d < Cache_timeslot_duration d /\
     0 <= nCalculatedActiveDlevel d /\
     Cache_timeslot_start d <= nHeight s
     < Cache_timeslot_start d + Cache_timeslot_duration d).
Proof.
  intros Hn Hm. cbv zeta.
  set (D := Z.max (dao_IntervalMonsterApocalypse s) MIN_GAMEROUND_DURATION).
  assert (HD : 2000 <= D) by (unfold D, MIN_GAMEROUND_DURATION; lia).
  unfold DungeonLevels.
  assert (Es1 : (if dao_IntervalMonsterApocalypse s <? MIN_GAMEROUND_DURATION
                 then set_dao_IntervalMonsterApocalypse s MIN_GAMEROUND_DURATION
                 else s)
                = set_dao_IntervalMonsterApocalypse s D).
  { unfold D.
    destruct (Z.ltb_spec (dao_IntervalMonsterApocalypse s)
                MIN_GAMEROUND_DURATION).
    - now rewrite Z.max_r by lia.
    - rewrite Z.max_l by lia. now destruct s. }
  rewrite Es1.
  change (dao_IntervalMonsterApocalypse
            (set_dao_IntervalMonsterApocalypse s D)) with D.
  change (nHeight (set_dao_IntervalMonsterApocalypse s D)) with (nHeight s).
  change (dao_DlevelMax (set_dao_IntervalMonsterApocalypse s D))
    with (dao_DlevelMax s).
  set (n := nHeight s) in *. set (m := dao_DlevelMax s + 1).
  assert (Hm1 : 1 <= m) by (unfold m; lia).
  rewrite ensure_true by (apply negb_true_iff, Z.eqb_neq; lia).
  rewrite (Z.rem_mod_nonneg n D) by lia.
  rewrite (Z.quot_div_nonneg D m) by lia.
  split.
  - intros Hlt. rewrite (Z.div_small D m) by lia. reflexivity.
  - intros Hle.
    assert (Ht : 1 <= D / m) by (apply Z.div_le_lower_bound; lia).
    rewrite ensure_true by (apply negb_true_iff, Z.eqb_neq; lia).
    pose proof (Z.mod_pos_bound n D ltac:(lia)) as Hb.
    rewrite (Z.rem_mod_nonneg n (D / m)) by lia.
    rewrite (Z.quot_div_nonneg (n mod D) (D / m)) by lia.
    eexists. split; [reflexivity |].
    cbn [Cache_gamecache_good Cache_gameround_duration
         Cache_gameround_blockcount Cache_gameround_start
         Cache_timeslot_duration Cache_timeslot_blockcount
         Cache_timeslot_start nCalculatedActiveDlevel].
    pose proof (Z.mul_div_le D m ltac:(lia)) as Hslot.
    pose proof (Z.mul_div_le (n mod D) (D / m) ltac:(lia)) as Hlo.
    pose proof (Z.mul_succ_div_gt (n mod D) (D / m) ltac:(lia)) as Hhi.
    pose proof (Z.mod_pos_bound n (D / m) ltac:(lia)) as Hsb.
    assert (Hact : 0 <= n mod D / (D / m)) by (apply Z.div_pos; lia).
    assert (Hstart : (n - n mod D) mod D = 0).
    { rewrite (Z.div_mod n D) at 1 by lia.
      replace (D * (n / D) + n mod D - n mod D) with ((n / D) * D) by ring.
      apply Z.mod_mul. lia. }
    split; [reflexivity |]. split; [reflexivity |]. split; [lia |].
    split; [lia |]. split; [exact Hstart |]. split; [lia |].
    split; [lia |]. split; [lia |]. split; [exact Hact |]. lia.
Qed.

(** ** Dropping a heart *)

Section DropHeartProps.
Context `{ForkGate} `{Random} `{GameMap}.

Lemma In_Z_interval (lo hi k : Z) : In k (Z_interval lo hi) <-> lo <= k <= hi.
Proof.
  unfold Z_interval, Z_range. rewrite in_map_iff. split.
  - intros (i & <- & I). apply in_map_iff in I.
    destruct I as (j & <- & I). apply in_seq in I. lia.
  - intros B. exists (k - lo). split; [lia |].
    apply in_map_iff. exists (Z.to_nat (k - lo)). split; [lia |].
    apply in_seq. lia.
Qed.

(** X22.  The heart spawn of [PerformStep]: with the switch off nothing
    happens; with the switch on it fails once LIFESTEAL is in effect, and
    otherwise draws one tile and, whenever it returns, has kept every heart
    and added at most that one tile, which then is a walkable tile of the map
    at a distance between 1 and 12 from one of the normal points of
    interest.  Nothing but the hearts changes. *)
Theorem DropHeart_custom_spec (hearts_spawn : bool) (s s' : GameState)
  (rnd rnd' : RandomGenerator) :
  DropHeart_custom hearts_spawn (s, rnd) = Some (s', rnd') ->
  s' = set_hearts s (hearts s') /\
  (hearts_spawn = false -> s' = s /\ rnd' = rnd) /\
  (hearts_spawn = true -> state_ForkInEffect s FORK_LIFESTEAL = false) /\
  (forall c, In c (hearts s) -> In c (hearts s')) /\
  (forall c c', In c (hearts s') -> In c' (hearts s') ->
                ~ In c (hearts s) -> ~ In c' (hearts s) -> c = c') /\
  (forall c, In c (hearts s') -> ~ In c (hearts s) ->
     IsInsideMap (cx c) (cy c) = true /\ IsWalkable (cx c) (cy c) = true /\
     exists k,
       POIINDEX_NORMAL_FIRST <= k <= POIINDEX_NORMAL_LAST /\
       0 < Distance_To_POI k (cy c) (cx c) <= 12).
Proof.
  unfold DropHeart_custom. intros E. destruct hearts_spawn.
  2: { injection E as <- <-. split; [now destruct s |].
       repeat split; auto; try discriminate; contradiction. }
  apply bind_Some in E. destruct E as (u & Hfork & E).
  apply cpp_assert_Some, negb_true_iff in Hfork.
  cbn [fst snd] in *.
  destruct (GetIntRnd rnd MAP_WIDTH) as [x rnd1].
  destruct (GetIntRnd rnd1 MAP_HEIGHT) as [y rnd2].
  match type of E with
  | (if ?c then _ else _) = _ => destruct c eqn:Near
  end; injection E as <- <-.
  2: { split; [now destruct s |].
       repeat split; auto; try discriminate; contradiction. }
  cbn [hearts set_hearts].
  apply andb_true_iff in Near. destruct Near as [Near Hpoi].
  apply andb_true_iff in Near. destruct Near as [Hin Hwalk].
  apply existsb_exists in Hpoi. destruct Hpoi as (k & Ik & Hk).
  apply In_Z_interval in Ik.
  apply andb_true_iff in Hk. destruct Hk as [Hle Hlt].
  apply Z.leb_le in Hle. apply Z.ltb_lt in Hlt.
  split; [reflexivity |]. split; [discriminate |].
  split; [intros _; exact Hfork |].
  split; [| split].
  - intros c I. apply In_set_insert. now right.
  - intros c c' I I' N N'.
    apply In_set_insert in I, I'.
    destruct I as [-> | I]; [| contradiction].
    destruct I' as [-> | I']; [reflexivity | contradiction].
  - intros c I N. apply In_set_insert in I.
    destruct I as [-> | I]; [| contradiction].
    cbn [cx cy]. split; [exact Hin |]. split; [exact Hwalk |].
    exists k. split; [exact Ik | lia].
Qed.

End DropHeartProps.

(** ** Death in the spawn area *)

Section SpawnDeathProps.
Context `{ForkGate} `{GameMap} `{Header} `{SpawnModes}.

Lemma find_erase_indices {V : Type} (l : list Z) (m : list (Z * V)) (i : Z) :
  StdMap.find i (fold_left (fun cs k => StdMap.erase k cs) l m)
  = if in_dec Z.eq_dec i l then None else StdMap.find i m.
Proof.
  revert m. induction l as [| k l IH]; intros m; simpl; [reflexivity |].
  rewrite IH. destruct (Z.eq_dec k i) as [-> | N].
  - rewrite find_erase_same. now destruct (in_dec Z.eq_dec i l).
  - rewrite find_erase_other by congruence.
    now destruct (in_dec Z.eq_dec i l).
Qed.

(** The timer before the TIMESAVE fork. *)
Lemma timer_prefork (s : GameState) (ch ch1 : CharacterState)
  (goes_on : bool) :
  state_ForkInEffect s FORK_TIMESAVE = false ->
  SpawnDeath.timer s ch = Some (ch1, goes_on) ->
  exists onBank,
    IsBank s (coord ch) = Some onBank /\
    spawn_fate onBank (MaxStayOnBank s) ch
    = (if goes_on then Some ch1 else None).
Proof.
  intros Hf E. unfold SpawnDeath.timer in E. rewrite Hf in E.
  apply bind_Some in E. destruct E as (onBank & Hb & E).
  exists onBank. split; [exact Hb |]. unfold spawn_fate.
  destruct onBank; cbn [negb] in *.
  2: { now injection E as <- <-. }
  destruct (negb (Z.land (ai_state2 ch) AI_STATE2_STASIS =? 0)).
  { now injection E as <- <-. }
  rewrite Hb in E. cbn [bind] in E. rewrite ensure_true in E by reflexivity.
  injection E as <- <-.
  now destruct ((stay_in_spawn_area ch <? MaxStayOnBank s)
                || (MaxStayOnBank s =? -1)).
Qed.

Lemma same_but_characters_set (pl : PlayerState)
  (cs : list (Z * CharacterState)) :
  same_but_characters pl (set_characters pl cs).
Proof. unfold same_but_characters. now destruct pl. Qed.

Lemma same_but_characters_trans (a b c : PlayerState) :
  same_but_characters a b -> same_but_characters b c ->
  same_but_characters a c.
Proof.
  unfold same_but_characters. destruct a, b, c. simpl.
  intros [= -> -> -> -> -> ->] [= -> -> -> -> -> ->]. reflexivity.
Qed.

Lemma IsBank_banks (s1 s : GameState) (c : Coord) :
  banks s1 = banks s -> IsBank s1 c = IsBank s c.
Proof. unfold IsBank. now intros ->. Qed.

Lemma MaxStayOnBank_height (s1 s : GameState) :
  nHeight s1 = nHeight s -> MaxStayOnBank s1 = MaxStayOnBank s.
Proof. unfold MaxStayOnBank, state_ForkInEffect. now intros ->. Qed.

(** One round of the inner loop before the TIMESAVE fork. *)
Lemma character_prefork (min_version : Z) (pId : PlayerID) (i : Z)
  (ch : CharacterState) (s s1 : GameState) (step step1 : StepResult)
  (te te1 : list Z) (pl : PlayerState) :
  state_ForkInEffect s FORK_TIMESAVE = false ->
  StdMap.find pId (players s) = Some pl ->
  SpawnDeath.character min_version pId (i, ch) (s, step, te)
  = Some (s1, step1, te1) ->
  exists onBank ch1,
    IsBank s (coord ch) = Some onBank /\
    players s1
    = StdMap.assign pId
        (set_characters pl (StdMap.assign i ch1 (characters pl))) (players s) /\
    banks s1 = banks s /\ nHeight s1 = nHeight s /\
    nTaxAmount step1 = nTaxAmount step /\
    match spawn_fate onBank (MaxStayOnBank s) ch with
    | Some c => c = ch1 /\ te1 = te /\ step1 = step
    | None =>
        te1 = StdSet.insert i te /\
        killedPlayers step1
        = (if i =? 0 then StdSet.insert pId (killedPlayers step)
           else killedPlayers step) /\
        killedBy step1
        = (if i =? 0
           then StdMap.place pId (KilledBy_reason KILLED_SPAWN) (killedBy step)
           else killedBy step)
    end.
Proof.
  intros Hf Hpl E. unfold SpawnDeath.character in E. cbn [fst snd] in E.
  apply bind_Some in E. destruct E as ([ch1 goes_on] & Et & E).
  destruct (timer_prefork s ch ch1 goes_on Hf Et) as (onBank & Hb & Hfate).
  exists onBank, ch1. split; [exact Hb |]. rewrite Hfate.
  assert (Ha : assign_character pId i ch1 s
               = set_players s
                   (StdMap.assign pId
                      (set_characters pl (StdMap.assign i ch1 (characters pl)))
                      (players s))).
  { unfold assign_character. now rewrite Hpl. }
  rewrite Ha in E. clear Ha.
  destruct goes_on.
  - injection E as <- <- <-. simpl. repeat split; reflexivity.
  - apply bind_Some in E. destruct E as ([s2 step2] & Ek & E).
    injection E as <- <- <-.
    destruct (HandleKilledLoot_frame _ _ _ _ _ _ _ _ Ek)
      as (Hp & Hn & _ & Hbk & Hkp & Hkb).
    pose proof (HandleKilledLoot_returned _ _ _ _ _ _ _ _ Ek) as R.
    destruct R as (pc & ch0 & drop & _ & _ & _ & R). cbv zeta in R.
    destruct R as (Htax & Hspawn & _).
    rewrite (Hspawn eq_refl), Z.add_0_r in Htax.
    simpl in Hp, Hn, Hbk.
    split; [exact Hp |]. split; [exact Hbk |]. split; [exact Hn |].
    split.
    { destruct (i =? 0); simpl; exact Htax. }
    split; [reflexivity |].
    destruct (i =? 0); simpl; rewrite ?Hkp, ?Hkb; split; reflexivity.
Qed.

(** The inner loop before the TIMESAVE fork, over characters [cs] of player
    [pId] that are still as the state holds them. *)
Lemma characters_prefork (min_version : Z) (pId : PlayerID)
  (cs : list (Z * CharacterState)) :
  forall (s s1 : GameState) (step step1 : StepResult) (te te1 : list Z)
         (pl : PlayerState),
    state_ForkInEffect s FORK_TIMESAVE = false ->
    StdMap.find pId (players s) = Some pl ->
    NoDup (StdMap.keys cs) ->
    (forall pc, In pc cs ->
       StdMap.find (fst pc) (characters pl) = Some (snd pc)) ->
    foreach cs (SpawnDeath.character min_version pId) (s, step, te)
    = Some (s1, step1, te1) ->
    exists pl1,
      StdMap.find pId (players s1) = Some pl1 /\
      same_but_characters pl pl1 /\
      StdMap.keys (players s1) = StdMap.keys (players s) /\
      (forall id, id <> pId ->
         StdMap.find id (players s1) = StdMap.find id (players s)) /\
      banks s1 = banks s /\ nHeight s1 = nHeight s /\
      nTaxAmount step1 = nTaxAmount step /\
      (forall q, In q (killedPlayers step) -> In q (killedPlayers step1)) /\
      (forall x, In x (killedBy step) -> In x (killedBy step1)) /\
      (forall q, In q (killedPlayers step1) ->
         In q (killedPlayers step) \/ (q = pId /\ In 0 te1)) /\
      (forall j, In j te -> In j te1) /\
      (forall j, ~ In j (StdMap.keys cs) ->
         StdMap.find j (characters pl1) = StdMap.find j (characters pl) /\
         (In j te1 -> In j te)) /\
      (forall pc, In pc cs ->
         exists onBank,
           IsBank s (coord (snd pc)) = Some onBank /\
           match spawn_fate onBank (MaxStayOnBank s) (snd pc) with
           | Some c =>
               StdMap.find (fst pc) (characters pl1) = Some c /\
               (In (fst pc) te1 -> In (fst pc) te)
           | None =>
               In (fst pc) te1 /\
               (fst pc = 0 ->
                In pId (killedPlayers step1) /\
                In (pId, KilledBy_reason KILLED_SPAWN) (killedBy step1))
           end).
Proof.
  induction cs as [| [i ch] cs IH];
    intros s s1 step step1 te te1 pl Hf Hpl ND Hcs E; simpl in E.
  - injection E as <- <- <-. exists pl.
    split; [exact Hpl |].
    split; [unfold same_but_characters; now destruct pl |].
    repeat split; auto. intros pc [].
  - apply bind_Some in E. destruct E as ([[sa stepa] tea] & Ea & E).
    inversion ND as [| ? ? Hnot ND']; subst.
    assert (Hch : StdMap.find i (characters pl) = Some ch)
      by exact (Hcs (i, ch) (or_introl eq_refl)).
    destruct (character_prefork min_version pId i ch s sa step stepa te tea
                pl Hf Hpl Ea)
      as (onBank & ch1 & Hb & Hpa & Hba & Hna & Hta & Hfate).
    set (pla := set_characters pl (StdMap.assign i ch1 (characters pl))) in *.
    assert (Hfa : state_ForkInEffect sa FORK_TIMESAVE = false).
    { unfold state_ForkInEffect in *. now rewrite Hna. }
    assert (Hpla : StdMap.find pId (players sa) = Some pla).
    { rewrite Hpa. now apply (find_assign_same _ _ pl). }
    assert (Hcsa : forall pc, In pc cs ->
              StdMap.find (fst pc) (characters pla) = Some (snd pc)).
    { intros pc I. unfold pla. simpl.
      rewrite find_assign_other; [exact (Hcs pc (or_intror I)) |].
      intros Eq. apply Hnot. rewrite <- Eq.
      unfold StdMap.keys. now apply in_map. }
    destruct (IH sa s1 stepa step1 tea te1 pla Hfa Hpla ND' Hcsa E)
      as (pl1 & Hp1 & Hs1 & Hk1 & Ho1 & Hb1 & Hn1 & Ht1 & Hkp1 & Hkb1
          & Hnew1 & Hte1 & Hrest1 & Hin1).
    assert (Htea : forall j, In j te -> In j tea).
    { intros j I. destruct (spawn_fate onBank (MaxStayOnBank s) ch).
      - destruct Hfate as (_ & -> & _). exact I.
      - destruct Hfate as (-> & _). apply In_set_insert. now right. }
    assert (Htea' : forall j, j <> i -> In j tea -> In j te).
    { intros j N I. destruct (spawn_fate onBank (MaxStayOnBank s) ch).
      - destruct Hfate as (_ & -> & _). exact I.
      - destruct Hfate as (-> & _). apply In_set_insert in I.
        destruct I; [contradiction | assumption]. }
    assert (Hkpa : forall q, In q (killedPlayers step) ->
                             In q (killedPlayers stepa)).
    { intros q I. destruct (spawn_fate onBank (MaxStayOnBank s) ch).
      - destruct Hfate as (_ & _ & ->). exact I.
      - destruct Hfate as (_ & -> & _). destruct (i =? 0); [| exact I].
        apply In_set_insert. now right. }
    assert (Hkba : forall x, In x (killedBy step) -> In x (killedBy stepa)).
    { intros x I. destruct (spawn_fate onBank (MaxStayOnBank s) ch).
      - destruct Hfate as (_ & _ & ->). exact I.
      - destruct Hfate as (_ & _ & ->). destruct (i =? 0); [| exact I].
        apply In_place. now right. }
    assert (Hnewa : forall q, In q (killedPlayers stepa) ->
                      In q (killedPlayers step) \/ (q = pId /\ In 0 tea)).
    { intros q I. destruct (spawn_fate onBank (MaxStayOnBank s) ch).
      - destruct Hfate as (_ & _ & ->). now left.
      - destruct Hfate as (-> & Ekp & _). rewrite Ekp in I.
        destruct (Z.eqb_spec i 0) as [-> | N]; [| now left].
        apply In_set_insert in I. destruct I as [-> | I]; [| now left].
        right. split; [reflexivity |]. apply In_set_insert. now left. }
    exists pl1. split; [exact Hp1 |].
    split.
    { apply (same_but_characters_trans pl pla pl1); [| exact Hs1].
      apply same_but_characters_set. }
    split; [now rewrite Hk1, Hpa, keys_assign |].
    split.
    { intros id N. rewrite (Ho1 id N), Hpa. now apply find_assign_other. }
    split; [congruence |]. split; [congruence |]. split; [congruence |].
    split; [auto |]. split; [auto |].
    split.
    { intros q I. destruct (Hnew1 q I) as [Ia | Ia]; [| now right].
      destruct (Hnewa q Ia) as [I0 | [-> I0]]; [now left |].
      right. split; [reflexivity | now apply Hte1]. }
    split; [auto |].
    split.
    { intros j N. simpl in N.
      assert (Nj : j <> i) by (intros ->; apply N; now left).
      assert (Nc : ~ In j (StdMap.keys cs)) by (intros I; apply N; now right).
      destruct (Hrest1 j Nc) as [F T]. split.
      - rewrite F. unfold pla. simpl. now apply find_assign_other.
      - intros I. apply (Htea' j Nj). now apply T. }
    intros pc [<- | I].
    + cbn [fst snd]. exists onBank. split; [exact Hb |].
      destruct (Hrest1 i Hnot) as [F T].
      assert (Fi : StdMap.find i (characters pl1) = Some ch1).
      { rewrite F. unfold pla. simpl. now apply (find_assign_same _ _ ch). }
      destruct (spawn_fate onBank (MaxStayOnBank s) ch) as [c |].
      * destruct Hfate as (-> & -> & _). split; [exact Fi | exact T].
      * destruct Hfate as (-> & Ekp & Ekb). split.
        -- apply Hte1. apply In_set_insert. now left.
        -- intros ->. rewrite Z.eqb_refl in Ekp, Ekb. split.
           ++ apply Hkp1. rewrite Ekp. apply In_set_insert. now left.
           ++ apply Hkb1. rewrite Ekb. apply In_place. now left.
    + destruct (Hin1 pc I) as (ob & Hob & Hf1).
      exists ob. split; [now rewrite <- (IsBank_banks sa s _ Hba) |].
      rewrite <- (MaxStayOnBank_height sa s Hna).
      destruct (spawn_fate ob (MaxStayOnBank sa) (snd pc)) as [c |];
        [| exact Hf1].
      destruct Hf1 as [F T]. split; [exact F |].
      intros It. apply (Htea' (fst pc)); [| now apply T].
      intros Eq. apply Hnot. rewrite <- Eq.
      unfold StdMap.keys. now apply in_map.
Qed.

(** The body of the outer loop before the TIMESAVE fork, for a player whose
    entry in the state is the one the loop holds. *)
Lemma player_prefork (min_version : Z) (p : PlayerID * PlayerState)
  (s s' : GameState) (step step' : StepResult) :
  state_ForkInEffect s FORK_TIMESAVE = false ->
  StdMap.find (fst p) (players s) = Some (snd p) ->
  NoDup (StdMap.keys (characters (snd p))) ->
  SpawnDeath.player min_version p (s, step) = Some (s', step') ->
  StdMap.keys (players s') = StdMap.keys (players s) /\
  (forall id, id <> fst p ->
     StdMap.find id (players s') = StdMap.find id (players s)) /\
  banks s' = banks s /\ nHeight s' = nHeight s /\
  nTaxAmount step' = nTaxAmount step /\
  (forall q, In q (killedPlayers step) -> In q (killedPlayers step')) /\
  (forall x, In x (killedBy step) -> In x (killedBy step')) /\
  exists pl',
    StdMap.find (fst p) (players s') = Some pl' /\
    same_but_characters (snd p) pl' /\
    (forall q, In q (killedPlayers step') ->
       In q (killedPlayers step) \/
       (q = fst p /\ StdMap.find 0 (characters pl') = None)) /\
    (forall j, StdMap.find j (characters (snd p)) = None ->
               StdMap.find j (characters pl') = None) /\
    (forall i ch,
       StdMap.find i (characters (snd p)) = Some ch ->
       exists onBank,
         IsBank s (coord ch) = Some onBank /\
         StdMap.find i (characters pl')
         = spawn_fate onBank (MaxStayOnBank s) ch /\
         (StdMap.find i (characters pl') = None -> i = 0 ->
          In (fst p) (killedPlayers step') /\
          In (fst p, KilledBy_reason KILLED_SPAWN) (killedBy step'))).
Proof.
  intros Hf Hp ND E. unfold SpawnDeath.player in E. cbn [fst snd] in E.
  apply bind_Some in E. destruct E as ([[s1 step1] te1] & Eloop & E).
  apply bind_Some in E. destruct E as (pl & Hpl & E).
  injection E as <- <-.
  assert (Hcs : forall pc, In pc (characters (snd p)) ->
            StdMap.find (fst pc) (characters (snd p)) = Some (snd pc)).
  { intros [i c] I. simpl. now apply In_find. }
  destruct (characters_prefork min_version (fst p) (characters (snd p))
              s s1 step step1 [] te1 (snd p) Hf Hp ND Hcs Eloop)
    as (pl1 & Hp1 & Hs1 & Hk1 & Ho1 & Hb1 & Hn1 & Ht1 & Hkp1 & Hkb1
        & Hnew1 & _ & Hrest1 & Hin1).
  assert (pl = pl1) by congruence. subst pl.
  cbn [players set_players banks nHeight].
  split; [now rewrite keys_assign |].
  split.
  { intros id N. rewrite find_assign_other by exact N. now apply Ho1. }
  split; [exact Hb1 |]. split; [exact Hn1 |]. split; [exact Ht1 |].
  split; [exact Hkp1 |]. split; [exact Hkb1 |].
  eexists. split; [now apply (find_assign_same _ _ pl1) |].
  split.
  { apply (same_but_characters_trans (snd p) pl1 _); [exact Hs1 |].
    apply same_but_characters_set. }
  cbn [characters set_characters].
  split; [| split].
  - intros q I. destruct (Hnew1 q I) as [I0 | [-> I0]]; [now left |].
    right. split; [reflexivity |]. rewrite find_erase_indices.
    destruct (in_dec Z.eq_dec 0 te1); [reflexivity | contradiction].
  - intros j F. rewrite find_erase_indices.
    destruct (in_dec Z.eq_dec j te1); [reflexivity |].
    apply (find_None (K := Z)) in F.
    destruct (Hrest1 j F) as [F1 _]. rewrite F1.
    now apply (find_None (K := Z)).
  - intros i ch F. apply find_In in F.
    destruct (Hin1 (i, ch) F) as (onBank & Hb & Hfate).
    cbn [fst snd] in Hfate.
    exists onBank. split; [exact Hb |].
    rewrite find_erase_indices.
    destruct (spawn_fate onBank (MaxStayOnBank s) ch) as [c |].
    + destruct Hfate as [Fi T].
      destruct (in_dec Z.eq_dec i te1) as [I | N];
        [destruct (T I) |].
      split; [exact Fi |]. rewrite Fi. discriminate.
    + destruct Hfate as [I Hkill].
      destruct (in_dec Z.eq_dec i te1); [| contradiction].
      split; [reflexivity |]. intros _. exact Hkill.
Qed.

Lemma KillSpawnArea_loop (min_version : Z)
  (ps : list (PlayerID * PlayerState)) :
  forall (s s' : GameState) (step step' : StepResult),
    state_ForkInEffect s FORK_TIMESAVE = false ->
    NoDup (StdMap.keys ps) ->
    (forall p, In p ps ->
       StdMap.find (fst p) (players s) = Some (snd p) /\
       NoDup (StdMap.keys (characters (snd p)))) ->
    foreach ps (SpawnDeath.player min_version) (s, step) = Some (s', step') ->
    StdMap.keys (players s') = StdMap.keys (players s) /\
    (forall id, ~ In id (StdMap.keys ps) ->
       StdMap.find id (players s') = StdMap.find id (players s)) /\
    banks s' = banks s /\ nHeight s' = nHeight s /\
    nTaxAmount step' = nTaxAmount step /\
    (forall q, In q (killedPlayers step) -> In q (killedPlayers step')) /\
    (forall x, In x (killedBy step) -> In x (killedBy step')) /\
    (forall q, In q (killedPlayers step') ->
       In q (killedPlayers step) \/
       (In q (StdMap.keys ps) /\
        exists pl', StdMap.find q (players s') = Some pl' /\
                    StdMap.find 0 (characters pl') = None)) /\
    (forall p, In p ps ->
       exists pl',
         StdMap.find (fst p) (players s') = Some pl' /\
         same_but_characters (snd p) pl' /\
         (forall j, StdMap.find j (characters (snd p)) = None ->
                    StdMap.find j (characters pl') = None) /\
         (forall i ch,
            StdMap.find i (characters (snd p)) = Some ch ->
            exists onBank,
              IsBank s (coord ch) = Some onBank /\
              StdMap.find i (characters pl')
              = spawn_fate onBank (MaxStayOnBank s) ch /\
              (StdMap.find i (characters pl') = None -> i = 0 ->
               In (fst p) (killedPlayers step') /\
               In (fst p, KilledBy_reason KILLED_SPAWN) (killedBy step')))).
Proof.
  induction ps as [| p ps IH]; intros s s' step step' Hf ND Hps E;
    simpl in E.
  - injection E as <- <-. repeat split; auto. intros p [].
  - apply bind_Some in E. destruct E as ([sa stepa] & Ea & E).
    inversion ND as [| ? ? Hnot ND']; subst.
    destruct (Hps p (or_introl eq_refl)) as [Hp NDc].
    destruct (player_prefork min_version p s sa step stepa Hf Hp NDc Ea)
      as (Hka & Hoa & Hba & Hna & Hta & Hkpa & Hkba & pla & Hpla & Hsa
          & Hnewa & Hnonea & Hfatea).
    assert (Hfa : state_ForkInEffect sa FORK_TIMESAVE = false).
    { unfold state_ForkInEffect in *. now rewrite Hna. }
    assert (Hpsa : forall q, In q ps ->
              StdMap.find (fst q) (players sa) = Some (snd q) /\
              NoDup (StdMap.keys (characters (snd q)))).
    { intros q I. destruct (Hps q (or_intror I)) as [Hq NDq].
      split; [| exact NDq]. rewrite Hoa; [exact Hq |].
      intros Eq. apply Hnot. rewrite <- Eq.
      unfold StdMap.keys. now apply in_map. }
    destruct (IH sa s' stepa step' Hfa ND' Hpsa E)
      as (Hk & Ho & Hb & Hn & Ht & Hkp & Hkb & Hnew & Hin).
    assert (Hp' : StdMap.find (fst p) (players s') = Some pla)
      by (rewrite (Ho (fst p) Hnot); exact Hpla).
    split; [congruence |].
    split.
    { intros id N. simpl in N. rewrite Ho by tauto.
      apply Hoa. intros ->. apply N. now left. }
    split; [congruence |]. split; [congruence |]. split; [congruence |].
    split; [auto |]. split; [auto |].
    split.
    { intros q I. destruct (Hnew q I) as [Ia | [Iq Hq]].
      - destruct (Hnewa q Ia) as [I0 | [-> F0]]; [now left |].
        right. split; [now left |]. now exists pla.
      - right. split; [now right | exact Hq]. }
    intros q [<- | I].
    + exists pla. split; [exact Hp' |]. split; [exact Hsa |].
      split; [exact Hnonea |].
      intros i ch F. destruct (Hfatea i ch F) as (ob & Hob & Hfi & Hkill).
      exists ob. split; [exact Hob |]. split; [exact Hfi |].
      intros Fn Ei. destruct (Hkill Fn Ei) as [K1 K2]. split; auto.
    + destruct (Hin q I) as (pl' & Hq' & Hsq & Hnoneq & Hfateq).
      exists pl'. split; [exact Hq' |]. split; [exact Hsq |].
      split; [exact Hnoneq |].
      intros i ch F. destruct (Hfateq i ch F) as (ob & Hob & Hfi & Hkill).
      exists ob.
      split; [now rewrite <- (IsBank_banks sa s _ Hba) |].
      split; [now rewrite <- (MaxStayOnBank_height sa s Hna) |].
      exact Hkill.
Qed.

(** X23.  [KillSpawnArea] before the TIMESAVE fork, whenever it returns on
    a state whose maps hold every key once.  The players are the same and
    differ from before in their characters at most, and no character
    appears.  A character away from the banks has its counter reset; on a
    bank a character in stasis is left alone and any other has stayed one
    block longer, unless it had stayed [MaxStayOnBank] blocks already (and
    that limit is not -1): then it is removed, and when it is the general
    its player is recorded as killed by the spawn area.  A player is newly
    recorded as killed only when its general was removed.  No tax is
    charged, and the banks and the height are untouched. *)
Theorem KillSpawnArea_prefork (min_version : Z) (s s' : GameState)
  (step step' : StepResult) :
  players_is_map s ->
  state_ForkInEffect s FORK_TIMESAVE = false ->
  SpawnDeath.KillSpawnArea min_version (s, step) = Some (s', step') ->
  StdMap.keys (players s') = StdMap.keys (players s) /\
  banks s' = banks s /\ nHeight s' = nHeight s /\
  nTaxAmount step' = nTaxAmount step /\
  (forall q, In q (killedPlayers step) -> In q (killedPlayers step')) /\
  (forall q, In q (killedPlayers step') ->
     In q (killedPlayers step) \/
     exists pl', StdMap.find q (players s') = Some pl' /\
                 StdMap.find 0 (characters pl') = None) /\
  (forall id pl,
     StdMap.find id (players s) = Some pl ->
     exists pl',
       StdMap.find id (players s') = Some pl' /\
       same_but_characters pl pl' /\
       (forall j, StdMap.find j (characters pl) = None ->
                  StdMap.find j (characters pl') = None) /\
       (forall i ch,
          StdMap.find i (characters pl) = Some ch ->
          exists onBank,
            IsBank s (coord ch) = Some onBank /\
            StdMap.find i (characters pl')
            = spawn_fate onBank (MaxStayOnBank s) ch /\
            (StdMap.find i (characters pl') = None -> i = 0 ->
             In id (killedPlayers step') /\
             In (id, KilledBy_reason KILLED_SPAWN) (killedBy step')))).
Proof.
  intros [NDp PMc] Hf E. unfold SpawnDeath.KillSpawnArea in E.
  cbn [fst] in E.
  assert (Hps : forall p, In p (players s) ->
            StdMap.find (fst p) (players s) = Some (snd p) /\
            NoDup (StdMap.keys (characters (snd p)))).
  { intros [id pl] I. simpl. split; [now apply In_find |].
    now apply (PMc id pl). }
  destruct (KillSpawnArea_loop min_version (players s) s s' step step'
              Hf NDp Hps E)
    as (Hk & _ & Hb & Hn & Ht & Hkp & _ & Hnew & Hin).
  split; [exact Hk |]. split; [exact Hb |]. split; [exact Hn |].
  split; [exact Ht |]. split; [exact Hkp |].
  split.
  { intros q I. destruct (Hnew q I) as [I0 | [_ Hq]]; [now left | now right]. }
  intros id pl F. apply find_In in F. exact (Hin (id, pl) F).
Qed.

End SpawnDeathProps.

(** * Examples on the small world *)

Lemma Demo_random_contract : @RandomContract Demo.random.
Proof.
  intros rnd n Hn. simpl.
  destruct (Z.leb_spec n 0) as [Hle | _]; [lia |]. simpl.
  apply Z.mod_pos_bound. assumption.
Qed.

Lemma NoDup_row (y : Z) (n : nat) : NoDup (Demo.row y n).
Proof.
  unfold Demo.row. apply Finite.Injective_map_NoDup; [| apply seq_NoDup].
  intros i j E. injection E as E. lia.
Qed.

(** A character that carries 5 collects 7 of 10 under a capacity of 12. *)
Lemma CollectLoot_conservation_witness :
  0 <= nAmount Sample.found /\
  exists ch' rem,
    CollectLoot Sample.packed Sample.found 7 12 = Some (ch', rem) /\
    rem = 3 /\ nAmount (info (loot ch')) = 12.
Proof.
  assert (Hpos : 0 <= nAmount Sample.found) by (simpl; lia).
  split; [exact Hpos |].
  destruct (CollectLoot_conservation Sample.packed Sample.found 7 12 Hpos)
    as (ch' & rem & E & _ & Hsum & _ & Hcap & _).
  exists ch', rem. split; [exact E |].
  specialize (Hcap ltac:(lia)). simpl in Hsum, Hcap. lia.
Defined.

Section MerchantExamples.
#[local] Existing Instance Demo.header.

(** A buff coat of base price 50, last sold 15000 blocks ago, is offered
    for 5. *)
Lemma merchant_offer_ladder_witness :
  0 < 20000 /\ 0 < Merchant_last_sale Sample.sold_at_5000 11 /\
  fst (Rpg_getMerchantOffer Sample.sold_at_5000 11 20000) = 5.
Proof.
  assert (Hh : 0 < 20000) by lia.
  assert (Hs : 0 < Merchant_last_sale Sample.sold_at_5000 11)
    by (simpl; lia).
  split; [exact Hh |]. split; [exact Hs |].
  rewrite (proj1 (merchant_offer_ladder Sample.sold_at_5000 11 20000) Hh Hs).
  reflexivity.
Defined.

(** C9 fails where the merchant has not sold yet: at height 20000 the age
    of the last sale is 20000, for which the ladder of the document gives
    10 percent of the base price 50, and the code offers the full price. *)
Lemma merchant_offer_counterexample :
  Merchant_last_sale Sample.never_sold 11 = 0 /\
  fst (Rpg_getMerchantOffer Sample.never_sold 11 20000) = 50 /\
  scaled_price (merchant_base_price 11)
    (20000 - Merchant_last_sale Sample.never_sold 11) = 5 /\
  fst (Rpg_getMerchantOffer Sample.never_sold 11 20000)
  <> scaled_price (merchant_base_price 11)
       (20000 - Merchant_last_sale Sample.never_sold 11).
Proof.
  split; [reflexivity |]. split; [reflexivity |]. split; [reflexivity |].
  vm_compute. discriminate.
Qed.

End MerchantExamples.

Section PreForkExamples.
#[local] Existing Instance Demo.forks_none.
#[local] Existing Instance Demo.random.
#[local] Existing Instance Demo.map.
#[local] Existing Instance Demo.header.
#[local] Existing Instance Demo.passes.

(** A poisoned general with 100 of loot and 250 locked leaves 350, of which
    14 are tax and 336 drop on its tile. *)
Lemma HandleKilledLoot_death_tax_witness :
  StdMap.find "a"%string (players Sample.fallen) = Some Sample.fallen_player /\
  0 <= value Sample.fallen_player /\
  StdMap.find 0 (characters Sample.fallen_player)
  = Some (Demo.character_at (mkCoord 5 5) 100) /\
  DropCoins Sample.by_poison Sample.fallen Sample.fallen_player = Some true /\
  exists s' step',
    HandleKilledLoot "a"%string 0 Sample.by_poison 2020500
      (Sample.fallen, StepResult_empty) = Some (s', step') /\
    nTaxAmount step' = 14 /\
    s' = AddLoot (mkCoord 5 5) 336 Sample.fallen.
Proof.
  assert (Hp : StdMap.find "a"%string (players Sample.fallen)
               = Some Sample.fallen_player) by reflexivity.
  assert (Hv : 0 <= value Sample.fallen_player) by (simpl; lia).
  assert (Hc : StdMap.find 0 (characters Sample.fallen_player)
               = Some (Demo.character_at (mkCoord 5 5) 100)) by reflexivity.
  assert (Hg : 0 = 0 ->
               CanRefund Sample.by_poison Sample.fallen Sample.fallen_player
               = false ->
               state_ForkInEffect Sample.fallen FORK_LIFESTEAL = true ->
               value Sample.fallen_player = 0)
    by (intros _ _ D; discriminate D).
  assert (Hd : DropCoins Sample.by_poison Sample.fallen Sample.fallen_player
               = Some true) by reflexivity.
  split; [exact Hp |]. split; [exact Hv |]. split; [exact Hc |].
  split; [exact Hd |].
  destruct (HandleKilledLoot_death_tax "a"%string 0 Sample.by_poison 2020500
              Sample.fallen StepResult_empty Sample.fallen_player
              (Demo.character_at (mkCoord 5 5) 100) true Hp Hv Hc Hg Hd)
    as (s' & step' & E & Ht & _ & _ & _ & Hs).
  exists s', step'. split; [exact E |].
  split; [rewrite Ht | rewrite Hs]; reflexivity.
Defined.

(** Two healthy players are poisoned with the lives the generator draws. *)
Lemma poison_lifecycle_witness :
  RandomContract /\
  exists s' rng',
    ApplyDisaster Sample.healthy Sample.seed = Some (s', rng') /\
    Forall2 poisoned_from (players Sample.healthy) (players s') /\
    nDisasterHeight s' = 100.
Proof.
  split; [exact Demo_random_contract |].
  destruct (poison_lifecycle Sample.healthy Sample.seed StepResult_empty
              Demo_random_contract) as [Hdisaster _].
  destruct Hdisaster as (s' & rng' & E & F & _ & _ & D & _).
  - intros id p I. simpl in I.
    destruct I as [I | [I | []]]; injection I as <- <-; reflexivity.
  - exists s', rng'. split; [exact E |]. split; [exact F | exact D].
Defined.

(** The destruct of a player that is in the state is noted in the message
    cache and leaves the resolver as it was. *)
Lemma ApplyAttacks_records_nothing_witness :
  (forall m, In m [Sample.destruct_move] -> m_destruct m <> [] ->
             StdMap.find (m_player m) (players Sample.duel) <> None) /\
  ApplyAttacks CharactersOnTiles_new Sample.duel [Sample.destruct_move]
    Demo.cache0
  = Some (CharactersOnTiles_new,
          note_destruct Demo.cache0 (mkChid "a"%string 0)).
Proof.
  assert (Hpl : forall m, In m [Sample.destruct_move] -> m_destruct m <> [] ->
                  StdMap.find (m_player m) (players Sample.duel) <> None).
  { intros m [<- | []] _. vm_compute. discriminate. }
  split; [exact Hpl |].
  exact (proj1 (ApplyAttacks_records_nothing CharactersOnTiles_new Sample.duel
                  [Sample.destruct_move] Demo.cache0 Hpl)).
Defined.

(** C2 fails before the LIFESTEAL fork on two generals of different colour
    that share a tile, the first of which destructs: no attack on the second
    is recorded, and the [DrawLife] that follows leaves the second general
    in place, drops no loot on its tile and kills nobody. *)
Lemma ApplyAttacks_counterexample :
  option_map coord (Sample.general_of Sample.duel "a"%string)
  = option_map coord (Sample.general_of Sample.duel "v"%string) /\
  option_map color (StdMap.find "a"%string (players Sample.duel))
  <> option_map color (StdMap.find "v"%string (players Sample.duel)) /\
  state_ForkInEffect Sample.duel FORK_LIFESTEAL = false /\
  exists cot c' s' res',
    ApplyAttacks CharactersOnTiles_new Sample.duel [Sample.destruct_move]
      Demo.cache0 = Some (cot, c') /\
    ~ recorded_as_attacked cot (mkChid "v"%string 0) (mkChid "a"%string 0) /\
    DrawLife cot (Cache_min_version c') (Sample.duel, StepResult_empty)
    = Some (cot, (s', res')) /\
    Sample.general_of s' "v"%string
    = Sample.general_of Sample.duel "v"%string /\
    StdMap.find (mkCoord 5 5) (lootOnMap s') = None /\
    killedPlayers res' = [].
Proof.
  split; [reflexivity |]. split; [vm_compute; discriminate |].
  split; [reflexivity |].
  eexists. eexists. eexists. eexists.
  split; [vm_compute; reflexivity |].
  split; [intros (t & a & [] & _) |].
  split; [vm_compute; reflexivity |].
  split; [reflexivity |]. split; reflexivity.
Qed.

End PreForkExamples.

Section LifeStealExamples.
#[local] Existing Instance Demo.forks_all.
#[local] Existing Instance Demo.random.
#[local] Existing Instance Demo.map.
#[local] Existing Instance Demo.header.

(** One attacker on two victims at a damage of 100 coins: the victim with
    250 coins keeps 150, the victim with 150 coins loses all of them and its
    general. *)
Lemma DrawLife_lifesteal_witness :
  built Sample.resolver = true /\
  state_ForkInEffect Sample.arena FORK_LIFESTEAL = true /\
  NoDup (map victim_of (tiles Sample.resolver)) /\
  Forall (drawable Sample.arena) (tiles Sample.resolver) /\
  exists cot' s' res',
    DrawLife Sample.resolver 2020500 (Sample.arena, StepResult_empty)
    = Some (cot', (s', res')) /\
    Forall2
      (life_drawn (GetNameCoinAmount (to_unsigned (nHeight Sample.arena)))
         Sample.arena s' StepResult_empty res')
      (tiles Sample.resolver) (tiles cot') /\
    option_map value (StdMap.find "v"%string (players s')) = Some (150 * COIN) /\
    option_map value (StdMap.find "w"%string (players s')) = Some 0 /\
    killedPlayers res' = ["w"%string].
Proof.
  assert (Hb : built Sample.resolver = true) by reflexivity.
  assert (Hf : state_ForkInEffect Sample.arena FORK_LIFESTEAL = true)
    by reflexivity.
  assert (Hn : NoDup (map victim_of (tiles Sample.resolver))).
  { simpl. repeat constructor; simpl; intuition discriminate. }
  assert (Hd : Forall (drawable Sample.arena) (tiles Sample.resolver)).
  { apply Forall_cons; [| apply Forall_cons; [| apply Forall_nil]];
      intros _; (split; [reflexivity |]; split; [reflexivity |]);
      eexists; (split; [reflexivity |]); simpl; split; intros; lia. }
  split; [exact Hb |]. split; [exact Hf |]. split; [exact Hn |].
  split; [exact Hd |].
  destruct (proj1 (DrawLife_lifesteal Sample.resolver 2020500 Sample.arena
                     StepResult_empty Hb Hf Hn Hd))
    as (cot' & s' & res' & E & F).
  exists cot', s', res'. split; [exact E |]. split; [exact F |].
  vm_compute in E. injection E as <- <- <-.
  split; [reflexivity |]. split; reflexivity.
Defined.

End LifeStealExamples.

Section BankExamples.
#[local] Existing Instance Sample.forks_at_lifesteal.
#[local] Existing Instance Demo.random.
#[local] Existing Instance Demo.map.

(** At the height of the LIFESTEAL fork the 75 banks are drawn from the
    hundred tiles of the pool. *)
Lemma UpdateBanks_at_fork :
  exists s' rng',
    UpdateBanks Sample.bankless Sample.seed = Some (s', rng') /\
    banks_ok (bank_pool Sample.bankless) (banks s') /\
    refilled Sample.bankless Sample.seed (banks s') rng'.
Proof.
  destruct (UpdateBanks_refills Demo_random_contract Sample.bankless
              Sample.seed)
    as (s' & rng' & E & _ & Hok & Hre & _).
  - reflexivity.
  - reflexivity.
  - apply NoDup_row.
  - vm_compute. discriminate.
  - left. reflexivity.
  - exists s', rng'. split; [exact E |]. split; [exact Hok | exact Hre].
Qed.

(** Three draws from the hundred tiles of the bank row: the tile at
    position 1 with a life of 89, then, the tiles behind it having moved
    up, the tile at position 31, which is tile 32, with a life of 32, and
    the tile at position 7, which is tile 8, with a life of 28. *)
Lemma bank_draws_rich :
  fst (bank_draws 3 (Demo.row 2 100) Scene.rich)
  = [(mkCoord 1 2, 89); (mkCoord 32 2, 32); (mkCoord 8 2, 28)].
Proof. vm_compute. reflexivity. Qed.

End BankExamples.

Section TreasureExamples.
#[local] Existing Instance Demo.random.
#[local] Existing Instance Scene.wide.

(** Harvest areas of four and three tiles with the portions 500 and 375 and
    a crown bonus of 25 out of 900.  Of a treasure of 1 every share and the
    bonus are 0 and the assertion of the pass fails.  Of a treasure of 900
    the shares are 500 and 375: the generator draws position 1 of the first
    area and position 2 of the second, and the shares lie on the tiles
    (202, 203) and (214, 215). *)
Lemma DropTreasure_exact_witness :
  TOTAL_HARVEST <> 0 /\
  (forall i, In i (Z_range NUM_HARVEST_AREAS) ->
             0 <= HarvestPortions i < TOTAL_HARVEST) /\
  0 <= CROWN_BONUS < TOTAL_HARVEST /\
  shares_total 1 = 0 /\
  DropTreasure 1 (Sample.duel, Scene.rich_seed) = None /\
  exists s' rnd',
    DropTreasure 900 (Sample.duel, Scene.rich_seed) = Some (s', rnd', 25) /\
    fst (harvest_draws (Z_range NUM_HARVEST_AREAS) Scene.rich_seed)
    = [1; 2] /\
    option_map nAmount (StdMap.find (mkCoord 202 203) (lootOnMap s'))
    = Some 500 /\
    option_map nAmount (StdMap.find (mkCoord 214 215) (lootOnMap s'))
    = Some 375.
Proof.
  assert (Hnz : TOTAL_HARVEST <> 0) by (vm_compute; discriminate).
  assert (Hlow : forall i, In i (Z_range NUM_HARVEST_AREAS) ->
                           0 <= HarvestPortions i < TOTAL_HARVEST).
  { intros i I. vm_compute in I. destruct I as [<- | [<- | []]];
      vm_compute; split; congruence. }
  assert (Hbonus : 0 <= CROWN_BONUS < TOTAL_HARVEST)
    by (vm_compute; split; congruence).
  split; [exact Hnz |]. split; [exact Hlow |]. split; [exact Hbonus |].
  destruct (DropTreasure_exact 1 Sample.duel Scene.rich_seed
              Hnz)
    as (_ & _ & _ & _ & Hunit).
  destruct (Hunit Hlow Hbonus) as [Hzero Hnone].
  split; [exact Hzero |]. split; [exact Hnone |].
  destruct (DropTreasure_exact 900 Sample.duel
              Scene.rich_seed Hnz) as (E & _).
  eexists. eexists. split; [rewrite E; reflexivity |].
  split; [vm_compute; reflexivity |].
  split; vm_compute; reflexivity.
Defined.

End TreasureExamples.

Section TreasureStepExamples.
#[local] Existing Instance Demo.forks_none.
#[local] Existing Instance Demo.random.
#[local] Existing Instance Demo.map.
#[local] Existing Instance Demo.header.
#[local] Existing Instance Demo.passes.

(** C6 on a treasure of 1: every share and the crown bonus round down to 0,
    they add up to 0 and not to 1, the assertion of the pass fails, and the
    step on the block with that treasure halts. *)
Lemma DropTreasure_counterexample :
  harvest_share 1 0 = 0 /\ harvest_share 1 1 = 0 /\ crown_bonus_of 1 = 0 /\
  shares_total 1 <> 1 /\
  DropTreasure 1 (Sample.duel, Sample.seed) = None /\
  PerformStep (Sample.world Sample.banker) (Sample.block 77 1) = Halted.
Proof.
  split; [reflexivity |]. split; [reflexivity |]. split; [reflexivity |].
  split; [vm_compute; discriminate |].
  split; vm_compute; reflexivity.
Qed.

End TreasureStepExamples.

Section StepExamples.
#[local] Existing Instance Demo.forks_none.
#[local] Existing Instance Demo.random.
#[local] Existing Instance Demo.map.
#[local] Existing Instance Demo.header.
#[local] Existing Instance Demo.passes.

Lemma Demo_passes_frame : PassesFrame.
Proof.
  constructor; simpl; intros; try match goal with
    | E : Some _ = Some _ |- _ => now injection E as <-
    end.
Qed.

(** A block with hash 77, a treasure of 900 and a move that locks ten more
    coins, on a state in which a general banks 1000. *)
Lemma PerformStep_coin_conservation_witness :
  PassesFrame /\
  IsNull (newHash (Sample.block 77 900)) = false /\
  exists out res,
    PerformStep (Sample.world Sample.banker) (Sample.block 77 900)
    = Accepted out res /\
    coins_on_map Sample.banker + gameFund Sample.banker + 900 + 10 * COIN
    = coins_on_map (state out) + gameFund (state out) + money_out res.
Proof.
  assert (Hhash : IsNull (newHash (Sample.block 77 900)) = false)
    by reflexivity.
  split; [exact Demo_passes_frame |]. split; [exact Hhash |].
  destruct (PerformStep (Sample.world Sample.banker) (Sample.block 77 900))
    as [| | out res] eqn:E; [vm_compute in E; discriminate .. |].
  exists out, res. split; [reflexivity |].
  destruct (proj1 (PerformStep_coin_conservation Demo_passes_frame
                     (Sample.world Sample.banker) (Sample.block 77 900) Hhash)
              out res E) as (w1 & b & E1 & _ & _ & Hin & Heq).
  rewrite Hin in Heq. vm_compute in E1. injection E1 as <-. exact Heq.
Defined.

(** The same block with a null hash: the step ends after the banking pass
    with the tax of 100 on the 1000 banked. *)
Lemma PerformStep_null_hash_witness :
  PassesFrame /\
  IsNull (newHash (Sample.block 0 900)) = true /\
  exists out res,
    PerformStep (Sample.world Sample.banker) (Sample.block 0 900)
    = Accepted out res /\
    nTaxAmount res = 100 /\
    lootOnMap (state out) = lootOnMap Sample.banker.
Proof.
  assert (Hhash : IsNull (newHash (Sample.block 0 900)) = true) by reflexivity.
  split; [exact Demo_passes_frame |]. split; [exact Hhash |].
  rewrite (PerformStep_null_hash Demo_passes_frame
             (Sample.world Sample.banker) (Sample.block 0 900) Hhash).
  eexists. eexists. split; [vm_compute; reflexivity |].
  split; reflexivity.
Defined.

(** C3 fails on a state that asks for version 2020700 of the rules: with a
    null hash and no move at all, [PerformStep] returns false. *)
Lemma PerformStep_null_hash_counterexample :
  IsNull (newHash Sample.mining) = true /\
  PerformStep (Sample.world Sample.outdated) Sample.mining = Rejected.
Proof. split; vm_compute; reflexivity. Qed.

End StepExamples.

Section BankStepExamples.
#[local] Existing Instance Scene.forks_at_100.
#[local] Existing Instance Demo.random.
#[local] Existing Instance Demo.map.
#[local] Existing Instance Demo.header.
#[local] Existing Instance Demo.passes.

Lemma Demo_passes_banks : PassesBanks.
Proof.
  constructor; simpl; intros; try match goal with
    | E : Some _ = Some _ |- _ => now injection E as <-
    end.
Qed.

(** The order of the small world, by rows, is a strict order that decides
    between tiles that differ. *)
Lemma Demo_coord_order : coord_order.
Proof.
  constructor.
  - intros [x y]. simpl. rewrite !Z.ltb_irrefl, Z.eqb_refl. reflexivity.
  - intros [x y] [x' y'] [x'' y'']. simpl.
    rewrite !orb_true_iff, !andb_true_iff, !Z.ltb_lt, !Z.eqb_eq. lia.
  - intros [x y] [x' y'] Hne. simpl.
    assert (Hd : x = x' -> y = y' -> False)
      by (intros -> ->; now apply Hne).
    rewrite !orb_true_iff, !andb_true_iff, !Z.ltb_lt, !Z.eqb_eq. lia.
Qed.

Lemma forks_at_100_heights : activation_heights.
Proof. exists (fun _ => 100). intros f h. split; reflexivity. Qed.

(** Both pools of the small world have a hundred distinct tiles or more. *)
Lemma Demo_pools (s : GameState) :
  NoDup (bank_pool s) /\
  DYNBANKS_NUM_BANKS <= Z.of_nat (List.length (bank_pool s)).
Proof.
  unfold bank_pool. destruct (state_ForkInEffect s FORK_TIMESAVE).
  - split; [apply NoDup_row | vm_compute; discriminate].
  - split; [| vm_compute; discriminate].
    apply NoDup_app; [apply NoDup_row | apply NoDup_row |].
    intros c I J. apply in_map_iff in I. apply in_map_iff in J.
    destruct I as (i & <- & _). destruct J as (j & E & _). discriminate.
Qed.

(** The seventy-five old banks are what [UpdateBanks] expects behind the
    forks. *)
Lemma old_banks_expected (s : GameState) :
  100 < nHeight s -> banks s = Scene.old_banks -> banks_expected s.
Proof.
  intros Hh Hb. right. rewrite Hb. split; [reflexivity |]. split.
  - replace (map fst Scene.old_banks) with (Demo.row 2 75) by reflexivity.
    apply NoDup_row.
  - intros c l I. unfold Scene.old_banks in I. apply in_map_iff in I.
    destruct I as (i & E & I). injection E as <- <-.
    apply in_seq in I. split.
    + unfold DYNBANKS_MAX_LIFE. destruct (i <? 5)%nat; lia.
    + right. unfold bank_pool, state_ForkInEffect. simpl ForkInEffect.
      replace (100 <=? nHeight s) with true by (symmetry; apply Z.leb_le; lia).
      apply in_map_iff. exists i. split; [reflexivity |].
      apply in_seq. lia.
Qed.



End BankStepExamples.

(** ** Examples for the further properties *)

Section FurtherExamples.
#[local] Existing Instance Demo.forks_none.
#[local] Existing Instance Demo.random.
#[local] Existing Instance Demo.map.
#[local] Existing Instance Demo.header.
#[local] Existing Instance Demo.passes.

Lemma NoDup_one {A : Type} (a : A) : NoDup [a].
Proof. constructor; [intros [] | constructor]. Defined.

(** Sixty coins on the tile that holds forty. *)
Lemma AddLoot_accounts_witness :
  loot_is_map Sample.duel /\
  coins_on_map (AddLoot (mkCoord 200 201) 60 Sample.duel)
  = coins_on_map Sample.duel + 60.
Proof.
  assert (Hm : loot_is_map Sample.duel) by apply NoDup_one.
  split; [exact Hm |].
  exact (proj1 (AddLoot_accounts (mkCoord 200 201) 60 Sample.duel Hm)).
Defined.

(** With the crown on the floor the bonus goes to the game fund. *)
Lemma CrownBonus_accounts_witness :
  0 <= 25 /\
  CrownBonus 25 Sample.duel
  = Some (set_gameFund Sample.duel (gameFund Sample.duel + 25)).
Proof.
  assert (Hpos : 0 <= 25) by lia.
  split; [exact Hpos |].
  exact (proj1 (CrownBonus_accounts 25 Sample.duel Hpos) eq_refl).
Defined.

(** The general on the loot tile picks up the forty coins. *)
Lemma DivideLootAmongPlayers_conserves_witness :
  loot_is_map Scene.harvest /\
  exists s',
    DivideLootAmongPlayers Scene.harvest = Some s' /\
    coins_on_map s' = coins_on_map Scene.harvest.
Proof.
  assert (Hm : loot_is_map Scene.harvest) by apply NoDup_one.
  split; [exact Hm |]. eexists.
  refine ((fun E => conj E
             (proj1 (DivideLootAmongPlayers_conserves Scene.harvest _ Hm E)))
            _).
  vm_compute. reflexivity.
Defined.

(** The general on the bank banks its thousand coins. *)
Lemma Banking_conserves_witness :
  exists s' step',
    Banking 2020500 (Sample.banker, StepResult_empty) = Some (s', step') /\
    coins_on_map Sample.banker + money_out StepResult_empty
    = coins_on_map s' + money_out step'.
Proof.
  eexists. eexists.
  refine ((fun E => conj E
             (proj1 (Banking_conserves 2020500 Sample.banker _
                       StepResult_empty _ E)))
            _).
  vm_compute. reflexivity.
Defined.

(** The move that locks ten coins more pays them into the game fund. *)
Lemma PayFees_accounts_witness :
  exists s' moneyIn,
    PayFees [Sample.destruct_move] Sample.duel = Some (s', moneyIn) /\
    coins_on_map s' = coins_on_map Sample.duel.
Proof.
  eexists. eexists.
  refine ((fun E => conj E
             (proj1 (PayFees_accounts [Sample.destruct_move] Sample.duel _ _
                       E)))
            _).
  vm_compute. reflexivity.
Defined.

(** The poisoned player is removed and its 350 coins are accounted for. *)
Lemma FinaliseKills_accounts_witness :
  loot_is_map Sample.fallen /\ players_is_map Sample.fallen /\
  NoDup (killedPlayers Scene.condemned) /\
  exists s' step',
    FinaliseKills 2020500 (Sample.fallen, Scene.condemned) = Some (s', step') /\
    StdMap.find "a"%string (players s') = None.
Proof.
  assert (Hm : loot_is_map Sample.fallen) by constructor.
  assert (Hp : players_is_map Sample.fallen).
  { split; [apply NoDup_one |].
    intros id p [E | []]. injection E as <- <-. apply NoDup_one. }
  assert (Hk : NoDup (killedPlayers Scene.condemned)) by apply NoDup_one.
  split; [exact Hm |]. split; [exact Hp |]. split; [exact Hk |].
  eexists. eexists.
  refine ((fun E => conj E
             (proj2 (proj2
                (proj1 (FinaliseKills_accounts 2020500 Sample.fallen _
                          Scene.condemned _ Hm Hp Hk E)
                   "a"%string (or_introl eq_refl)))))
            _).
  vm_compute. reflexivity.
Defined.

(** A blue player before the forks spawns on the rim of the map. *)
Lemma Spawn_lands_witness :
  RandomContract /\
  exists ch' rnd',
    Spawn Scene.fresh Sample.duel 3 Sample.seed = Some (ch', rnd') /\
    IsInSpawnArea (cx (coord ch')) (cy (coord ch')) = true.
Proof.
  split; [exact Demo_random_contract |].
  assert (Hts : state_ForkInEffect Sample.duel FORK_TIMESAVE = false)
    by reflexivity.
  assert (Hls : state_ForkInEffect Sample.duel FORK_LIFESTEAL = false)
    by reflexivity.
  assert (Hcol : 0 <= 3 <= 3) by lia.
  destruct (proj1 (proj1 (Spawn_lands Scene.fresh Sample.duel 3 Sample.seed
                            Demo_random_contract) Hts Hls) Hcol)
    as (ch' & rnd' & E & _ & Harea & _).
  exists ch', rnd'. split; [exact E | exact Harea].
Defined.

(** The crown follows its holder to the tile where the holder stands. *)
Lemma UpdateCrownState_spec_witness :
  exists s' respawn,
    UpdateCrownState Scene.crowned = Some (s', respawn) /\ crown_ok s'.
Proof.
  eexists. eexists.
  refine ((fun E => conj E (proj1 (UpdateCrownState_spec Scene.crowned _ _ E)))
            _).
  vm_compute. reflexivity.
Defined.

(** One of the two generals on the tile of the crown picks it up. *)
Lemma CollectCrown_spec_witness :
  players_is_map Scene.crown_on_tile /\
  exists s' rnd',
    CollectCrown false (Scene.crown_on_tile, Sample.seed) = Some (s', rnd') /\
    crown_ok s'.
Proof.
  assert (Hp : players_is_map Scene.crown_on_tile).
  { split.
    - constructor; [intros [E | []]; discriminate E | apply NoDup_one].
    - intros id p [E | [E | []]]; injection E as <- <-; apply NoDup_one. }
  split; [exact Hp |]. eexists. eexists.
  refine ((fun E => conj E
             (proj1 (proj2 (proj2
                (CollectCrown_spec false Scene.crown_on_tile _ Sample.seed _
                   Hp E)) eq_refl)))
            _).
  vm_compute. reflexivity.
Defined.

(** The heart under the two generals is taken. *)
Lemma CollectHearts_frame_witness :
  exists s' rnd',
    CollectHearts (Scene.with_heart, Sample.seed) = Some (s', rnd') /\
    lootOnMap s' = lootOnMap Scene.with_heart.
Proof.
  eexists. eexists.
  refine ((fun E => conj E
             (proj1 (proj2
                (CollectHearts_frame Scene.with_heart _ Sample.seed _ E))))
            _).
  vm_compute. reflexivity.
Defined.

(** The banks of the first state on the map of 502 by 502 tiles. *)
Lemma SetOriginalBanks_spec_witness :
  SPAWN_AREA_LENGTH <= MAP_WIDTH /\ SPAWN_AREA_LENGTH <= MAP_HEIGHT /\
  exists banks',
    SetOriginalBanks [] = Some banks' /\
    List.length banks' = 116%nat.
Proof.
  assert (HW : SPAWN_AREA_LENGTH <= MAP_WIDTH) by (vm_compute; discriminate).
  assert (HH : SPAWN_AREA_LENGTH <= MAP_HEIGHT) by (vm_compute; discriminate).
  split; [exact HW |]. split; [exact HH |]. eexists.
  refine ((fun E => conj E
             (proj1 (proj2 (SetOriginalBanks_spec [] _ HW HH E))))
            _).
  vm_compute. reflexivity.
Defined.

End FurtherExamples.

Section FurtherLifeStealExamples.
#[local] Existing Instance Sample.forks_at_lifesteal.
#[local] Existing Instance Demo.random.
#[local] Existing Instance Demo.map.
#[local] Existing Instance Demo.header.

(** The hearted character is removed and its fifty coins are kept. *)
Lemma RemoveHeartedCharacters_accounts_witness :
  loot_is_map Scene.hearted /\ players_is_map Scene.hearted /\
  exists s' step',
    RemoveHeartedCharacters 2020500 (Scene.hearted, StepResult_empty)
    = Some (s', step') /\
    coins_accounted s' step' = coins_accounted Scene.hearted StepResult_empty.
Proof.
  assert (Hm : loot_is_map Scene.hearted) by constructor.
  assert (Hp : players_is_map Scene.hearted).
  { split; [apply NoDup_one |].
    intros id p [E | []]. injection E as <- <-.
    constructor; [intros [E | []]; discriminate E | apply NoDup_one]. }
  split; [exact Hm |]. split; [exact Hp |]. eexists. eexists.
  refine ((fun E => conj E
             (proj2 (proj2 (proj2 (proj2
                (RemoveHeartedCharacters_accounts 2020500 Scene.hearted _
                   StepResult_empty _ Hm Hp E))))))
            _).
  vm_compute. reflexivity.
Defined.

(** The hundred coins drawn from the victim go to its attacker. *)
Lemma DistributeDrawnLife_conserves_witness :
  exists s' rnd',
    DistributeDrawnLife Scene.drawn (Sample.arena, Sample.seed)
    = Some (s', rnd') /\
    coins_on_map s' + gameFund s'
    = coins_on_map Sample.arena + gameFund Sample.arena
      + drawn_total (tiles Scene.drawn).
Proof.
  eexists. eexists.
  refine ((fun E => conj E
             (proj1 (proj2
                (DistributeDrawnLife_conserves Scene.drawn Sample.arena _
                   Sample.seed _ E) eq_refl)))
            _).
  vm_compute. reflexivity.
Defined.

End FurtherLifeStealExamples.

Section FurtherStepExamples.
#[local] Existing Instance Demo.forks_none.
#[local] Existing Instance Demo.random.
#[local] Existing Instance Demo.map.

(** The loot of a general killed in the bottom-left corner is pushed one
    tile inwards. *)
Lemma PushCoordOutOfSpawnArea_leaves_witness :
  (forall x y, IsOriginalSpawnArea x y = IsInSpawnArea x y) /\
  3 <= MAP_WIDTH /\ 3 <= MAP_HEIGHT /\
  PushCoordOutOfSpawnArea (mkCoord 0 501) = mkCoord 1 500 /\
  IsInSpawnArea (cx (PushCoordOutOfSpawnArea (mkCoord 0 501)))
    (cy (PushCoordOutOfSpawnArea (mkCoord 0 501))) = false.
Proof.
  assert (Hsame : forall x y, IsOriginalSpawnArea x y = IsInSpawnArea x y)
    by (intros x y; reflexivity).
  assert (HW : 3 <= MAP_WIDTH) by (vm_compute; discriminate).
  assert (HH : 3 <= MAP_HEIGHT) by (vm_compute; discriminate).
  split; [exact Hsame |]. split; [exact HW |]. split; [exact HH |].
  split; [reflexivity |].
  exact (proj1 (PushCoordOutOfSpawnArea_leaves (mkCoord 0 501) Hsame HW HH)).
Defined.

(** At height 100 with one level the round of 2000 blocks started at 0. *)
Lemma DungeonLevels_spec_witness :
  0 <= nHeight Sample.banker /\ 0 <= dao_DlevelMax Sample.banker /\
  exists d,
    DungeonLevels Sample.banker
    = Some (set_dao_IntervalMonsterApocalypse Sample.banker 2000, d) /\
    Cache_gameround_duration d = 2000.
Proof.
  assert (Hn : 0 <= nHeight Sample.banker) by (vm_compute; discriminate).
  assert (Hm : 0 <= dao_DlevelMax Sample.banker) by (vm_compute; discriminate).
  assert (Hle : dao_DlevelMax Sample.banker + 1
                <= Z.max (dao_IntervalMonsterApocalypse Sample.banker)
                     MIN_GAMEROUND_DURATION)
    by (vm_compute; discriminate).
  split; [exact Hn |]. split; [exact Hm |].
  destruct (proj2 (DungeonLevels_spec Sample.banker Hn Hm) Hle)
    as (d & E & _ & Hd & _).
  exists d. split; [exact E | exact Hd].
Defined.

(** No tile of the small world is near a point of interest: the hearts stay
    as they are. *)
Lemma DropHeart_custom_spec_witness :
  exists s' rnd',
    DropHeart_custom true (Sample.duel, Sample.seed) = Some (s', rnd') /\
    s' = set_hearts Sample.duel (hearts s').
Proof.
  eexists. eexists.
  refine ((fun E => conj E
             (proj1 (DropHeart_custom_spec true Sample.duel _ Sample.seed _ E)))
            _).
  vm_compute. reflexivity.
Defined.

End FurtherStepExamples.

Section SpawnDeathExamples.
#[local] Existing Instance Demo.forks_none.
#[local] Existing Instance Demo.map.
#[local] Existing Instance Demo.header.
#[local] Existing Instance Scene.modes.

(** The general that camped for thirty blocks is removed and its player is
    recorded as killed; the one that just arrived stays one block longer. *)
Lemma KillSpawnArea_camper :
  exists s' step',
    SpawnDeath.KillSpawnArea 2020500 (Scene.camping, StepResult_empty)
    = Some (s', step') /\
    killedPlayers step' = ["c"%string] /\
    option_map (@characters) (StdMap.find "c"%string (players s')) = Some [] /\
    option_map (fun pl => map (fun pc => stay_in_spawn_area (snd pc))
                            (characters pl))
      (StdMap.find "a"%string (players s')) = Some [1].
Proof.
  eexists. eexists. split; [vm_compute; reflexivity |].
  repeat split.
Qed.

Lemma KillSpawnArea_prefork_witness :
  players_is_map Scene.camping /\
  state_ForkInEffect Scene.camping FORK_TIMESAVE = false /\
  exists s' step',
    SpawnDeath.KillSpawnArea 2020500 (Scene.camping, StepResult_empty)
    = Some (s', step') /\
    nTaxAmount step' = nTaxAmount StepResult_empty.
Proof.
  assert (Hp : players_is_map Scene.camping).
  { split.
    - constructor; [intros [E | []]; discriminate E | apply NoDup_one].
    - intros id p [E | [E | []]]; injection E as <- <-; apply NoDup_one. }
  assert (Hf : state_ForkInEffect Scene.camping FORK_TIMESAVE = false)
    by reflexivity.
  split; [exact Hp |]. split; [exact Hf |]. eexists. eexists.
  refine ((fun E => conj E
             (proj1 (proj2 (proj2 (proj2
                (KillSpawnArea_prefork 2020500 Scene.camping _
                   StepResult_empty _ Hp Hf E))))))
            _).
  vm_compute. reflexivity.
Defined.

End SpawnDeathExamples.
